(* ===== verification/_CoqProject ===== *)
-Q . S2P
Prelude.v
Contracts.v
Envelope.v
Database.v
EventStore.v
Inbox.v
Outbox.v
Timers.v
Codec.v
Seat.v
Store.v
Commands.v
Isolation.v
Projection.v
Kafka.v
Consumers.v
Delivery.v
Sessions.v
Deadlines.v
Views.v
Overdue.v
Commits.v
Expiries.v
Refinement.v
Listening.v
Schema.v
Wire.v
Descriptors.v
Announcements.v
Answers.v
Lapses.v
TestContainers.v
TestDatabases.v
