(* ===== verification/Prelude.v ===== *)
(** * SagaFlow: a verification library for the repository

    SagaFlow is an inventory service.  Commands arrive on a Kafka topic; a seat is one
    event-sourced stream in Postgres; each command is decided against the fold of its
    seat's stream and commits, in one transaction, the events, the record of the
    delivery, the deadline of a new hold and the messages to publish.  Four loops run
    side by side: a consumer that applies commands, a consumer that keeps a browsing
    view up to date, a poller that publishes the outbox, and a scheduler that expires
    holds whose deadline has passed.

    ** The parts, and where they are modelled

    - [Prelude] (this file): Go values, errors as trees with [errors.Is], text and list
      functions of the standard library, and the lemmas and hints every file shares.
    - [Contracts]: the message structs of [contracts/sagaflow/inventory/v1];
      [Descriptors]: the rest of those generated files, and the [.proto] texts.
    - [Envelope]: [platform/envelope], CloudEvents headers.
    - [Database]: the tables of [inventory/migrations/*.sql] as the record [db], SQL
      statements as functions, transactions as trees of statements, [pg.WithTx].
    - [EventStore], [Inbox], [Outbox], [Timers]: the packages of those names under
      [platform], each with its SQL; the outbox poller and the scheduler with their loops.
    - [Codec]: [platform/codec].
    - [Seat]: [inventory/seat.go] and [errors.go], the aggregate; with [seat_history], the
      streams its decisions make, and [seat_spec], the abstract seat.
    - [Store], [Commands]: [store.go], [commands.go] and [expiry.go].
    - [Projection]: [projection.go], the browsing view.
    - [Kafka], [Consumers]: [platform/kafka], and the handlers of [consumers.go].
    - [Schema]: [platform/schema] and [cmd/schemactl].
    - [Wire]: [wire.go], [cmd/inventory], [pg.Open] and [pg.Migrate].
    - [Isolation]: seat streams while other sessions commit in between.
    - [Sessions]: a machine of any number of concurrent sessions; [Deadlines], [Commits],
      [Expiries], [Views] and [Overdue] are what holds of all its reachable states, and
      [Refinement] is what its executions amount to.
    - [Listening]: the poller's subscription to notifications and its loop, step by step,
      beside the sessions that commit.
    - [Delivery], [Announcements], [Answers] and [Lapses]: components composed.  The consumer
      with the inbox; and the whole way of a command from its record, and of a hold from its
      deadline, to a message that its readers decode and to the browsing view.
    - [TestContainers], [TestDatabases]: [testsupport], the containers and the databases
      that the integration tests run against.

    ** How state and operations correspond to the code

    A Go function is the definition of its name (with the file's name in front where two
    files use one), a struct a record with the struct's name or its fields' prefix, an
    [error] result the sum [res].  A SQL statement is a [stmt]: from [now()], the
    sequences and the state the transaction sees, to a result or a raised error, the rows
    it writes and the sequences after it.  Code that runs inside a transaction is a
    [prog], a tree of statements; a function of the code that takes a [pgx.Tx] is a [tx].
    The same [prog] is executed by [run] against an [oracle], is given a weakest
    precondition [wp] under a rely, and is run step by step by the machine of [Sessions].

    The [oracle] says, for every round trip, whether it fails, what other sessions have
    committed meanwhile, and how a commit ends: committed, failed, or committed with its
    acknowledgement lost.  Isolation is READ COMMITTED: a statement sees the committed
    state of its own moment under the transaction's log.  In [Sessions] the other sessions
    are sessions of the same service, statements wait for the rows and the unique keys
    that other transactions hold, and a session can be rolled back at any moment, which
    is also what a crash is.  Kafka, the schema registry and the clock are environments
    with arbitrary answers.

    ** What the theorems show

    - The aggregate: decisions refine an abstract seat, every command has one answer,
      histories alternate, re-dispatch and late deadlines are harmless ([Seat]).
    - Transactions: all or nothing ([Database]); the effects of a command and of an expiry,
      in full ([Commands]); appends conflict exactly when the stream has moved
      ([EventStore]); retries ([Commands]).
    - Concurrency under a rely, which says what the other sessions may commit meanwhile:
      no stream is corrupted, a command takes effect once however often it is delivered
      ([Isolation]), a timer's effect is committed once and with its claim ([Timers]), no
      outbox row is lost and at most one poller leads ([Outbox]).  What a transaction's
      body did is an execution of it under the same rely ([Database.completes]).
    - Concurrency without one: in every reachable state of the machine no seat is sold
      twice, every event is typed, every held seat has its timer ([Deadlines]), commands
      and deadlines commit as if they were alone ([Commits], [Expiries]), the view shows only
      what was ([Views]), and the scheduler works off any backlog of deadlines, so that no
      hold outlives its own and none ends but by a timer of its own that is due
      ([Overdue]).  So the machine refines a row of abstract seats that one input at a
      time moves ([Refinement]), and a poller that waits unwoken has left nothing to
      publish ([Listening]).
    - Delivery: retry budget, dead letters ([Kafka], [Consumers]); a marked record's delivery
      is recorded or its dead letter taken ([Delivery]); a command is answered on the broker
      and a hold that lapses is announced there, and the view follows ([Answers], [Lapses]);
      how messages are framed and when a serde is refused ([Schema]); the texts that are
      registered and the generated code declare the same messages ([Descriptors]); start,
      stop and the four loops of the process ([Wire]).
    - Tests: no start of a container leaves it behind, the broker boots with its whole
      address ([TestContainers]), a test's database starts empty ([TestDatabases]).
    - Round trips: envelopes, codec, event store, framed messages, the view.
    - Where the code does not do what its comments say, a theorem exhibits it:
      [Schema.upgrade_strands_frames], [Kafka.Run_commits_past_an_unsettled_record],
      [Outbox.standby_never_leads], [Projection.Rebuild_can_lose_a_row].

    ** Bounds

    [Outbox.drainAll] takes a number of batches as fuel; its theorem shows that more
    batches than the backlog fills are enough.  [Kafka.attempt_from] takes [MaxAttempts]
    as fuel and never runs out, by its theorem.  The loops that run until a context ends
    ([Timers.Run], [Outbox.poll_run], [Kafka.Run]) are functions of the finite list of
    what wakes them.  [Wire.Run] has at most three steps per loop.  The wait for the tests'
    broker takes [Kafkatest.ready_fuel] pings as fuel: its three minutes hold 720 waits of
    250 ms and one more ping, and the theorem shows that it never runs out.  Versions are [int] in Go
    and [INTEGER] in Postgres: the model wraps the first ([int64]) and raises 22003 on
    the second.

    ** Parameters

    Code outside the repository is a class of operations with its documented behaviour
    as laws: [Timestamppb], [Protojson], [Postgres] (rounding of columns, [jsonb],
    collation), [Encoder] and [Decoder] (the Go interfaces), [Protobuf], [Sr], [Compat],
    [NetURL].  [TestContainers.Outside] is what testcontainers, the broker's client and the
    clock answer the test packages, [TestDatabases.failures] what fails of their server.
    Each has a concrete instance ([UnixTimestamps], [NumberedJson], [PlainPostgres],
    [ListSerde], ...) under which the witnesses evaluate the theorems.

    ** Not modelled

    - the generated methods that only call the protobuf runtime ([String],
      [ProtoReflect], [Descriptor]) and the runtime's own once-guarded set-up;
    - pgx, franz-go, the registry client and the migration library, beyond the calls;
      what the migration files do is the record [db];
    - logging, the flag syntax and signals of the two commands;
    - the booking service: only its tables exist, and no code reads them;
    - the tests themselves ([*_test.go]);
    - the [doc.go] files: prose. *)
From stdpp Require Export base tactics strings gmap list sorting pretty.
From Stdlib Require Export ZArith Lia.
Open Scope Z_scope.

(** ** Go values

    [Time] is [time.Time] as a number of nanoseconds since the zero time
    (1 January of year 1, UTC): the zero value is [0], so [IsZero] is a
    comparison.  [Duration] is [time.Duration], an [int64] of nanoseconds. *)
Abbreviation Time := Z (only parsing).
Abbreviation Duration := Z (only parsing).
Abbreviation bytes := (list Byte.byte) (only parsing).

Definition IsZero (t : Time) : bool := bool_decide (t = 0).

Definition Millisecond : Duration := 1000000.
Definition Second : Duration := 1000 * Millisecond.
Definition Hour : Duration := 3600 * Second.

(** [time.Unix(sec, nsec)]: the Unix epoch is 62135596800 seconds after the zero
    time. *)
Definition Unix (sec nsec : Z) : Time := (sec + 62135596800) * Second + nsec.

(** [int64] and [int32] arithmetic wraps. *)
Definition wrap (w : Z) (x : Z) : Z := (x + 2 ^ (w - 1)) `mod` 2 ^ w - 2 ^ (w - 1).
Definition int64 (x : Z) : Z := wrap 64 x.

#[global] Instance byte_eq_dec : EqDecision Byte.byte := Byte.byte_eq_dec.

(** ** Errors

    A Go error is a tree.  [ESentinel] is a package variable made by
    [errors.New], which [errors.Is] compares by identity: no two of them in the
    program have the same text, so the text is the identity.  [ENew] is an
    anonymous error (one nothing ever compares with), [EPg] a
    [*pgconn.PgError], which [errors.As] finds.  [EWrap] and [EJoin] are
    [fmt.Errorf] with one and with two [%w] verbs; the text is the rendered
    one. *)
Inductive err : Type :=
  | ESentinel (text : string)
  | ENew (text : string)
  | EPg (code text : string)
  | EWrap (text : string) (cause : err)
  | EJoin (text : string) (cause1 cause2 : err).

#[global] Instance err_eq_dec : EqDecision err.
Proof. solve_decision. Defined.

Definition Error (e : err) : string :=
  match e with
  | ESentinel t | ENew t | EPg _ t | EWrap t _ | EJoin t _ _ => t
  end.

(** [errors.Is(e, target)] for a sentinel [target]. *)
Fixpoint errors_Is (e target : err) : bool :=
  match e with
  | ESentinel t => match target with ESentinel t' => bool_decide (t = t') | _ => false end
  | ENew _ | EPg _ _ => false
  | EWrap _ c => errors_Is c target
  | EJoin _ c1 c2 => errors_Is c1 target || errors_Is c2 target
  end.

(** [errors.As(e, &pgErr)], returning the SQLSTATE of the first match. *)
Fixpoint errors_As_pg (e : err) : option string :=
  match e with
  | EPg code _ => Some code
  | ESentinel _ | ENew _ => None
  | EWrap _ c => errors_As_pg c
  | EJoin _ c1 c2 =>
      match errors_As_pg c1 with Some x => Some x | None => errors_As_pg c2 end
  end.

(** ** Results: the pair [(value, error)] of a Go function *)
Inductive res (A : Type) : Type :=
  | Ok (a : A)
  | Err (e : err).
Arguments Ok {A} a.
Arguments Err {A} e.

#[global] Instance res_eq_dec `{EqDecision A} : EqDecision (res A).
Proof. solve_decision. Defined.

#[global] Instance res_ret : MRet res := fun A a => Ok a.
#[global] Instance res_bind : MBind res :=
  fun A B f r => match r with Ok a => f a | Err e => Err e end.

(** [if err != nil { return wrap(err) }] *)
Definition wrap_err {A} (f : err -> err) (r : res A) : res A :=
  match r with Ok a => Ok a | Err e => Err (f e) end.

Definition is_ok {A} (r : res A) : bool :=
  match r with Ok _ => true | Err _ => false end.

(** A loop over a slice that stops at the first error. *)
Fixpoint traverse {A B} (f : nat -> A -> res B) (i : nat) (l : list A) : res (list B) :=
  match l with
  | [] => Ok []
  | x :: l =>
      match f i x with
      | Err e => Err e
      | Ok y => match traverse f (S i) l with Err e => Err e | Ok ys => Ok (y :: ys) end
      end
  end.

(** ** Text *)
Definition dquote : string := String (Ascii.ascii_of_nat 34) EmptyString.

Definition hex_digit (n : nat) : string :=
  match String.get n "0123456789abcdef" with
  | Some c => String c EmptyString
  | None => EmptyString
  end.

(** [strconv.Quote] on one byte; bytes from 0x80 on are taken to be parts of
    printable runes, which Quote leaves alone. *)
Definition quote_byte (c : Ascii.ascii) : string :=
  let n := Ascii.nat_of_ascii c in
  if bool_decide (n = 34)%nat then ("\" +:+ dquote)%string
  else if bool_decide (n = 92)%nat then "\\"
  else if bool_decide (n = 7)%nat then "\a"
  else if bool_decide (n = 8)%nat then "\b"
  else if bool_decide (n = 9)%nat then "\t"
  else if bool_decide (n = 10)%nat then "\n"
  else if bool_decide (n = 11)%nat then "\v"
  else if bool_decide (n = 12)%nat then "\f"
  else if bool_decide (n = 13)%nat then "\r"
  else if bool_decide (n < 32)%nat || bool_decide (n = 127)%nat then
    ("\x" +:+ hex_digit (n / 16) +:+ hex_digit (n mod 16))%string
  else String c EmptyString.

Fixpoint quote_bytes (s : string) : string :=
  match s with
  | EmptyString => EmptyString
  | String c s => (quote_byte c +:+ quote_bytes s)%string
  end.

(** The verb [%q]. *)
Definition Quote (s : string) : string := (dquote +:+ quote_bytes s +:+ dquote)%string.

(** The verb [%d] and [strconv.Itoa]. *)
Definition Itoa (z : Z) : string := pretty z.

(** A number padded with zeros to a width. *)
Fixpoint zeros (n : nat) : string :=
  match n with O => EmptyString | S n => ("0" +:+ zeros n)%string end.

Definition pad (width : nat) (z : Z) : string :=
  let s := Itoa (Z.abs z) in
  ((if (z <? 0)%Z then "-" else "") +:+ zeros (width - String.length s) +:+ s)%string.

(** [.999999999]: the fraction of a second without its trailing zeros. *)
Fixpoint fraction (width : nat) (n : Z) : string :=
  match width with
  | O => EmptyString
  | S w => if n mod 10 =? 0 then fraction w (n / 10) else ("." +:+ pad width n)%string
  end.

(** Year, month and day of a number of days since 1 January of year 1, counting
    years from March. *)
Definition civil (days : Z) : Z * Z * Z :=
  let z := days + 306 in
  let era := z / 146097 in
  let doe := z mod 146097 in
  let yoe := (doe - doe / 1460 + doe / 36524 - doe / 146096) / 365 in
  let doy := doe - (365 * yoe + yoe / 4 - yoe / 100) in
  let mp := (5 * doy + 2) / 153 in
  let d := doy - (153 * mp + 2) / 5 + 1 in
  let m := if mp <? 10 then mp + 3 else mp - 9 in
  (yoe + era * 400 + (if m <=? 2 then 1 else 0), m, d).

(** [time.Time.String] of a time in UTC. *)
Definition Time_String (t : Time) : string :=
  let sec := t / Second in
  let '(y, m, d) := civil (sec / 86400) in
  let s := sec mod 86400 in
  let clock := (pad 2 (s / 3600), pad 2 (s / 60 mod 60), pad 2 (s mod 60)) in
  (pad 4 y +:+ "-" +:+ pad 2 m +:+ "-" +:+ pad 2 d +:+ " " +:+
   clock.1.1 +:+ ":" +:+ clock.1.2 +:+ ":" +:+ clock.2 +:+
   fraction 9 (t mod Second)%Z +:+ " +0000 UTC")%string.

(** [ORDER BY]: a stable insertion sort by a Boolean order. *)
Fixpoint insert_by {A} (le : A -> A -> bool) (x : A) (l : list A) : list A :=
  match l with
  | [] => [x]
  | y :: l' => if le x y then x :: l else y :: insert_by le x l'
  end.

Fixpoint order_by {A} (le : A -> A -> bool) (l : list A) : list A :=
  match l with
  | [] => []
  | x :: l => insert_by le x (order_by le l)
  end.

Definition by_key {A} (key : A -> Z) (x y : A) : bool := key x <=? key y.

(** The numbers [start], [start+1], ..., [n] of them. *)
Fixpoint upto (start : Z) (n : nat) : list Z :=
  match n with O => [] | S n => start :: upto (start + 1) n end.

(** ** Automation *)
Create HintDb saga.
Create Rewrite HintDb saga_rw.

(** Case analysis on every [match] and [if] of the context and the goal. *)
Ltac go_cases := repeat (case_match || case_decide || case_bool_decide); simplify_eq/=.

(** Inverts a successful (or failed) Go call in the context. *)
Ltac go_inv :=
  repeat match goal with
  | H : Ok _ = Ok _ |- _ => injection H as H
  | H : Err _ = Err _ |- _ => injection H as H
  | H : Ok _ = Err _ |- _ => discriminate H
  | H : Err _ = Ok _ |- _ => discriminate H
  | H : (_, _) = (_, _) |- _ => injection H as H
  end; subst.

(** Decides the comparisons of closed strings in the goal. *)
Ltac decide_closed :=
  repeat match goal with
  | |- context [bool_decide (?a = ?b)] =>
      let r := eval vm_compute in (bool_decide (a = b)) in
      match r with
      | true => change (bool_decide (a = b)) with true
      | false => change (bool_decide (a = b)) with false
      end
  end; cbv iota.

(** Saturates with the two halves of a conjunction or an existential. *)
Ltac go_split :=
  repeat match goal with
  | H : _ /\ _ |- _ => destruct H
  | H : exists _, _ |- _ => destruct H
  end.

(** ** Lemmas on lists, options and integers *)
Section traverse_lemmas.
Context {A B : Type} (f : nat -> A -> res B).

Lemma traverse_length i l ys : traverse f i l = Ok ys -> length ys = length l.
Proof.
  revert i ys; induction l as [|x l IH]; intros i ys; simpl.
  - by intros [= <-].
  - destruct (f i x); [|done]. destruct (traverse f (S i) l) eqn:E; [|done].
    intros [= <-]; simpl. f_equal. by eapply IH.
Qed.

Lemma traverse_ok_iff i l ys :
  traverse f i l = Ok ys <->
  length ys = length l /\
  forall j x, l !! j = Some x -> exists y, ys !! j = Some y /\ f (i + j)%nat x = Ok y.
Proof.
  revert i ys; induction l as [|x l IH]; intros i ys; simpl.
  - split; [intros [= <-]; split; [done|]; intros j x Hj; by rewrite lookup_nil in Hj|].
    intros [Hl _]. by destruct ys.
  - split.
    + destruct (f i x) eqn:Ex; [|done]. destruct (traverse f (S i) l) eqn:E; [|done].
      intros [= <-]. apply IH in E as [El Ej]. split; [simpl; by f_equal|].
      intros [|j] z; simpl; [intros [= <-]; exists a; by rewrite Nat.add_0_r|].
      intros Hz. destruct (Ej j z Hz) as (y & ? & ?). exists y.
      by rewrite <- Nat.add_succ_comm.
    + intros [Hl Hj]. destruct ys as [|y ys]; [done|]. simpl in Hl.
      destruct (Hj 0%nat x eq_refl) as (y' & [= <-] & Hy). rewrite Nat.add_0_r in Hy.
      rewrite Hy. rewrite (proj2 (IH (S i) ys)); [done|]. split; [lia|].
      intros j z Hz. destruct (Hj (S j) z Hz) as (y' & ? & ?). exists y'.
      by rewrite Nat.add_succ_comm.
Qed.

Lemma traverse_snoc i l x :
  traverse f i (l ++ [x]) =
  match traverse f i l with
  | Err e => Err e
  | Ok ys => match f (i + length l)%nat x with Ok y => Ok (ys ++ [y]) | Err e => Err e end
  end.
Proof.
  revert i; induction l as [|z l IH]; intros i; simpl.
  - rewrite Nat.add_0_r. by destruct (f i x).
  - destruct (f i z); [|done]. rewrite IH. destruct (traverse f (S i) l); [|done].
    rewrite <- Nat.add_succ_comm. by destruct (f _ x).
Qed.
End traverse_lemmas.

Lemma traverse_pure {A B} (f : nat -> A -> res B) (g : A -> B) i l :
  (forall j x, x ∈ l -> f j x = Ok (g x)) -> traverse f i l = Ok (g <$> l).
Proof.
  revert i; induction l as [|x l IH]; intros i Hf; simpl; [done|].
  rewrite Hf by set_solver. rewrite IH; [done|]. intros j y Hy. apply Hf. set_solver.
Qed.

Section order_by_lemmas.
Context {A : Type} (le : A -> A -> bool).

Lemma insert_by_perm x l : insert_by le x l ≡ₚ x :: l.
Proof.
  induction l as [|y l IH]; simpl; [done|]. destruct (le x y); [done|].
  rewrite IH. by constructor.
Qed.

Lemma order_by_perm l : order_by le l ≡ₚ l.
Proof.
  induction l as [|x l IH]; simpl; [done|]. by rewrite insert_by_perm, IH.
Qed.

Lemma elem_of_order_by x l : x ∈ order_by le l <-> x ∈ l.
Proof. by rewrite order_by_perm. Qed.

Lemma length_order_by l : length (order_by le l) = length l.
Proof. by rewrite order_by_perm. Qed.

(** A list already in order is left as it is. *)
Lemma order_by_sorted l :
  StronglySorted (fun x y => le x y = true) l -> order_by le l = l.
Proof.
  induction 1 as [|x l Hl IH Hx]; simpl; [done|]. rewrite IH.
  destruct l as [|y l]; simpl; [done|]. apply Forall_cons in Hx as [-> _]. done.
Qed.

Context (le_total : forall x y, le x y = true \/ le y x = true).
Context (le_trans : forall x y z, le x y = true -> le y z = true -> le x z = true).

Lemma insert_by_sorted x l :
  StronglySorted (fun x y => le x y = true) l ->
  StronglySorted (fun x y => le x y = true) (insert_by le x l).
Proof.
  induction 1 as [|y l Hl IH Hy]; simpl; [repeat constructor|].
  destruct (le x y) eqn:E; constructor; try done.
  - by constructor.
  - constructor; [done|]. eapply Forall_impl; [exact Hy|]. intros z; simpl. eauto.
  - rewrite insert_by_perm. constructor; [|done]. destruct (le_total x y); congruence.
Qed.

Lemma order_by_is_sorted l : StronglySorted (fun x y => le x y = true) (order_by le l).
Proof. induction l; simpl; [constructor|]. by apply insert_by_sorted. Qed.
End order_by_lemmas.

Lemma by_key_total {A} (key : A -> Z) x y : by_key key x y = true \/ by_key key y x = true.
Proof. unfold by_key. rewrite !Z.leb_le. lia. Qed.

Lemma by_key_trans {A} (key : A -> Z) x y z :
  by_key key x y = true -> by_key key y z = true -> by_key key x z = true.
Proof. unfold by_key. rewrite !Z.leb_le. lia. Qed.

Lemma order_by_key_sorted {A} (key : A -> Z) l :
  StronglySorted (fun x y => key x <= key y) (order_by (by_key key) l).
Proof.
  assert (StronglySorted (fun x y => by_key key x y = true) (order_by (by_key key) l)) as H
    by (apply order_by_is_sorted; [apply by_key_total|apply by_key_trans]).
  induction H as [|x l' Hl IH Hx]; constructor; [done|].
  eapply Forall_impl; [exact Hx|]. intros y Hy. unfold by_key in Hy. by apply Z.leb_le.
Qed.

Lemma length_upto s n : length (upto s n) = n.
Proof. revert s; induction n as [|n IH]; intros s; simpl; [done|]. by rewrite IH. Qed.

Lemma upto_app s n m : upto s (n + m) = upto s n ++ upto (s + Z.of_nat n) m.
Proof.
  revert s; induction n as [|n IH]; intros s; simpl; [by rewrite Z.add_0_r|].
  rewrite IH. do 3 f_equal. lia.
Qed.

Lemma elem_of_upto s n x : x ∈ upto s n <-> s <= x < s + Z.of_nat n.
Proof.
  revert s; induction n as [|n IH]; intros s; cbn [upto].
  - split; [by intros ?%elem_of_nil|lia].
  - rewrite elem_of_cons, IH. lia.
Qed.

Lemma NoDup_upto s n : NoDup (upto s n).
Proof.
  revert s; induction n as [|n IH]; intros s; cbn [upto]; [constructor|].
  apply NoDup_cons. split; [|apply IH]. intros ?%elem_of_upto. lia.
Qed.

Lemma upto_sorted {A} (key : A -> Z) s l :
  key <$> l = upto s (length l) -> StronglySorted (fun x y => by_key key x y = true) l.
Proof.
  revert s; induction l as [|x l IH]; intros s Hl; [constructor|]. simpl in Hl.
  injection Hl as Hx Hl. constructor; [by eapply IH|].
  apply Forall_forall. intros y Hy. unfold by_key. apply Z.leb_le.
  assert (key y ∈ upto (s + 1) (length l)) as Hin%elem_of_upto; [|lia].
  rewrite <- Hl. apply list_elem_of_fmap. eauto.
Qed.

Lemma list_filter_all {A} (P : A -> Prop) `{!forall x, Decision (P x)} l :
  Forall P l -> filter P l = l.
Proof. induction 1; [done|]. rewrite filter_cons_True by done. by f_equal. Qed.

Lemma list_filter_none {A} (P : A -> Prop) `{!forall x, Decision (P x)} l :
  Forall (fun x => ~ P x) l -> filter P l = [].
Proof. induction 1; [done|]. by rewrite filter_cons_False. Qed.

Lemma list_filter_iff_strong {A} (P Q : A -> Prop) `{!forall x, Decision (P x)}
    `{!forall x, Decision (Q x)} (l : list A) :
  (forall x, x ∈ l -> P x <-> Q x) -> filter P l = filter Q l.
Proof.
  induction l as [|x l IH]; intros HPQ; [done|].
  assert (filter P l = filter Q l) as Hl by (apply IH; set_solver).
  destruct (decide (P x)) as [HP|HP].
  - rewrite !filter_cons_True, Hl; [done|apply HPQ; [set_solver|done]|done].
  - rewrite !filter_cons_False, Hl; [done| |done]. rewrite <- HPQ; [done|set_solver].
Qed.

Lemma filter_split_length {A} (f : A -> bool) l :
  (length (filter (fun x => f x = true) l) + length (filter (fun x => f x = false) l))%nat =
  length l.
Proof.
  induction l as [|x l IH]; [done|]. destruct (f x) eqn:E.
  - rewrite filter_cons_True, filter_cons_False by congruence. simpl. lia.
  - rewrite filter_cons_False, filter_cons_True by congruence. simpl. lia.
Qed.

(** A list whose keys are distinct has one element per key. *)
Lemma key_unique {A K} (key : A -> K) (l : list A) x y :
  NoDup (key <$> l) -> x ∈ l -> y ∈ l -> key x = key y -> x = y.
Proof.
  intros Hnd [i Hi]%list_elem_of_lookup [j Hj]%list_elem_of_lookup Hid.
  assert (i = j) as ->; [|congruence].
  eapply NoDup_lookup; [exact Hnd|by rewrite list_lookup_fmap, Hi|].
  by rewrite list_lookup_fmap, Hj, Hid.
Qed.

(** A filter that a map does not disturb. *)
Lemma filter_fmap_same {A} (P : A -> Prop) `{!forall x, Decision (P x)} (f : A -> A) (l : list A) :
  (forall x, P (f x) <-> P x) -> filter P (f <$> l) = f <$> filter P l.
Proof.
  intros Hf. induction l as [|x l IH]; [done|]. cbn [fmap list_fmap]. rewrite !filter_cons.
  specialize (Hf x). case_decide; case_decide; [|tauto..|exact IH]. cbn. f_equal. exact IH.
Qed.

(** At most one element of such a list has a given key. *)
Lemma filter_key {A K} `{EqDecision K} (key : A -> K) (l : list A) k (P : A -> Prop)
    `{!forall x, Decision (P x)} :
  NoDup (key <$> l) ->
  filter (fun x => key x = k /\ P x) l = [] \/
  exists x, filter (fun x => key x = k /\ P x) l = [x] /\ x ∈ l /\ key x = k /\ P x.
Proof.
  induction l as [|x l IH]; intros Hnd; [by left|]. apply NoDup_cons in Hnd as [Hx Hnd].
  destruct (decide (key x = k /\ P x)) as [HP|HP].
  - right. exists x. rewrite filter_cons_True by done. split_and!; [|by left|tauto..].
    f_equal. apply list_filter_none, Forall_forall. intros y Hy [Hk _]. apply Hx.
    apply list_elem_of_fmap. exists y. split; [|done]. destruct HP. congruence.
  - rewrite filter_cons_False by done. destruct (IH Hnd) as [->|(y & -> & ? & ?)]; [by left|].
    right. exists y. split_and!; [done|by right|tauto..].
Qed.

(** Deleting by key the elements a predicate selects leaves the others. *)
Lemma filter_not_deleted {A K} `{EqDecision K} (key : A -> K) (l : list A) (f : A -> bool) :
  NoDup (key <$> l) ->
  filter (fun x => key x ∉ key <$> filter (fun y => f y = true) l) l =
  filter (fun x => f x = false) l.
Proof.
  intros Hn. apply list_filter_iff_strong. intros x Hx. rewrite <- not_true_iff_false.
  rewrite list_elem_of_fmap. setoid_rewrite list_elem_of_filter. split.
  - intros H Hf. apply H. eauto.
  - intros Hf (y & Hk & Hy & Hin). apply Hf. by rewrite (key_unique key l x y).
Qed.

Section foldr_delete_lemmas.
Context {K A : Type} `{Countable K} (m : gmap K A).

Lemma foldr_delete_lookup (ks : list K) k :
  foldr delete m ks !! k = if bool_decide (k ∈ ks) then None else m !! k.
Proof.
  induction ks as [|k' ks IH]; [done|]. cbn [foldr].
  rewrite lookup_delete, IH. destruct (decide (k' = k)) as [->|Hk].
  - by rewrite (bool_decide_eq_true_2 (k ∈ k :: ks)) by (apply elem_of_cons; by left).
  - assert (k ∈ k' :: ks <-> k ∈ ks) as Hiff by (rewrite elem_of_cons; naive_solver).
    repeat case_bool_decide; tauto.
Qed.

Lemma foldr_delete_size (ks : list K) :
  NoDup ks -> (forall k, k ∈ ks -> is_Some (m !! k)) ->
  (size (foldr delete m ks) + length ks = size m)%nat.
Proof.
  induction ks as [|k ks IH]; intros Hnd Hin; [simpl; lia|].
  apply NoDup_cons in Hnd as [Hk Hnd]. cbn [foldr length]. rewrite <- IH by set_solver.
  assert (exists t, foldr delete m ks !! k = Some t) as [t Ht].
  { rewrite foldr_delete_lookup, bool_decide_eq_false_2 by done.
    apply Hin. apply elem_of_cons. by left. }
  rewrite map_size_delete_Some by by exists t.
  assert (size (foldr delete m ks) <> 0%nat); [|lia].
  intros H0. apply map_size_empty_inv in H0. by rewrite H0 in Ht.
Qed.
End foldr_delete_lemmas.

Lemma foldr_Zadd l x : foldr Z.add x l = foldr Z.add 0 l + x.
Proof. induction l as [|y l IH]; simpl; [done|]. rewrite IH. lia. Qed.

Lemma wrap_small w x : 0 < w -> - 2 ^ (w - 1) <= x < 2 ^ (w - 1) -> wrap w x = x.
Proof.
  intros Hw Hx. unfold wrap.
  assert (2 ^ w = 2 * 2 ^ (w - 1)) as Hp.
  { rewrite <- Z.pow_succ_r by lia. f_equal. lia. }
  rewrite Z.mod_small; lia.
Qed.

Lemma int64_range x : - 2 ^ 63 <= int64 x < 2 ^ 63.
Proof. unfold int64, wrap. pose proof (Z.mod_pos_bound (x + 2 ^ (64 - 1)) (2 ^ 64)). lia. Qed.

Lemma int64_add_l x y : int64 (int64 x + y) = int64 (x + y).
Proof.
  unfold int64, wrap. f_equal.
  replace ((x + 2 ^ (64 - 1)) `mod` 2 ^ 64 - 2 ^ (64 - 1) + y + 2 ^ (64 - 1))
    with ((x + 2 ^ (64 - 1)) `mod` 2 ^ 64 + y) by lia.
  rewrite Zplus_mod_idemp_l. f_equal. lia.
Qed.

Lemma int64_small x : - 2 ^ 63 <= x < 2 ^ 63 -> int64 x = x.
Proof. intros Hx. apply wrap_small; lia. Qed.

#[export] Hint Resolve elem_of_order_by order_by_perm by_key_total by_key_trans : saga.
#[export] Hint Rewrite @length_order_by @length_upto : saga_rw.
