(* ===== verification/Contracts.v ===== *)
(** * Contracts: the generated message types ([contracts/sagaflow/inventory/v1])

    One record per generated struct, with the exported fields only: the
    [state], [unknownFields] and [sizeCache] fields are the runtime's.  A nil
    message pointer is not a value of these types; where the code can meet one
    ([codec.Encode]) the argument is an [option].  [message] is the interface
    [proto.Message]; [OtherMessage] is a message of any type that is not one of
    the six, known by its full name.

    [timestamppb] is a library, so [google.protobuf.Timestamp] and its two
    conversions are parameters, with the documented behaviour the code relies on
    as laws. *)
From S2P Require Import Prelude.

(** [google.golang.org/protobuf/types/known/timestamppb] *)
Class Timestamppb := {
  Timestamp : Type;
  Timestamp_eq_dec :: EqDecision Timestamp;
  AsTime : option Timestamp -> Time;
  TimestampNew : Time -> Timestamp;
}.

(** [timestamppb.New(t).AsTime()] is [t]; [AsTime] of a nil pointer reads the
    zero fields, so it is the Unix epoch. *)
Class TimestamppbLaws `{Timestamppb} : Prop := {
  AsTime_New t : AsTime (Some (TimestampNew t)) = t;
  AsTime_nil : AsTime None = Unix 0 0;
}.

Record ReleaseSeatHold := {
  ReleaseSeatHold_HoldId : string;
  ReleaseSeatHold_BookingId : string;
  ReleaseSeatHold_SeatId : string;
  ReleaseSeatHold_Reason : string;
}.

Record SeatHoldReleased := {
  SeatHoldReleased_HoldId : string;
  SeatHoldReleased_BookingId : string;
  SeatHoldReleased_SeatId : string;
  SeatHoldReleased_Reason : string;
}.

Record SeatHoldExpired := {
  SeatHoldExpired_HoldId : string;
  SeatHoldExpired_BookingId : string;
  SeatHoldExpired_SeatId : string;
}.

Record SeatUnavailable := {
  SeatUnavailable_HoldId : string;
  SeatUnavailable_BookingId : string;
  SeatUnavailable_SeatId : string;
  SeatUnavailable_Reason : string;
}.

(** The full names of the message types, from the file descriptors. *)
Definition HoldSeat_FullName : string := "sagaflow.inventory.v1.HoldSeat".
Definition ReleaseSeatHold_FullName : string := "sagaflow.inventory.v1.ReleaseSeatHold".
Definition SeatHeld_FullName : string := "sagaflow.inventory.v1.SeatHeld".
Definition SeatHoldReleased_FullName : string := "sagaflow.inventory.v1.SeatHoldReleased".
Definition SeatHoldExpired_FullName : string := "sagaflow.inventory.v1.SeatHoldExpired".
Definition SeatUnavailable_FullName : string := "sagaflow.inventory.v1.SeatUnavailable".

Section messages.
Context `{TS : Timestamppb}.

Record HoldSeat := {
  HoldSeat_HoldId : string;
  HoldSeat_BookingId : string;
  HoldSeat_SeatId : string;
  HoldSeat_ExpiresAt : option Timestamp;
}.

Record SeatHeld := {
  SeatHeld_HoldId : string;
  SeatHeld_BookingId : string;
  SeatHeld_SeatId : string;
  SeatHeld_ExpiresAt : option Timestamp;
}.

Inductive message :=
  | MHoldSeat (m : HoldSeat)
  | MReleaseSeatHold (m : ReleaseSeatHold)
  | MSeatHeld (m : SeatHeld)
  | MSeatHoldReleased (m : SeatHoldReleased)
  | MSeatHoldExpired (m : SeatHoldExpired)
  | MSeatUnavailable (m : SeatUnavailable)
  | OtherMessage (full_name : string).

(** [m.ProtoReflect().Descriptor().FullName()] *)
Definition FullName (m : message) : string :=
  match m with
  | MHoldSeat _ => HoldSeat_FullName
  | MReleaseSeatHold _ => ReleaseSeatHold_FullName
  | MSeatHeld _ => SeatHeld_FullName
  | MSeatHoldReleased _ => SeatHoldReleased_FullName
  | MSeatHoldExpired _ => SeatHoldExpired_FullName
  | MSeatUnavailable _ => SeatUnavailable_FullName
  | OtherMessage n => n
  end.

#[global] Instance HoldSeat_eq_dec : EqDecision HoldSeat.
Proof. solve_decision. Defined.
#[global] Instance SeatHeld_eq_dec : EqDecision SeatHeld.
Proof. solve_decision. Defined.
#[global] Instance ReleaseSeatHold_eq_dec : EqDecision ReleaseSeatHold.
Proof. solve_decision. Defined.
#[global] Instance SeatHoldReleased_eq_dec : EqDecision SeatHoldReleased.
Proof. solve_decision. Defined.
#[global] Instance SeatHoldExpired_eq_dec : EqDecision SeatHoldExpired.
Proof. solve_decision. Defined.
#[global] Instance SeatUnavailable_eq_dec : EqDecision SeatUnavailable.
Proof. solve_decision. Defined.
#[global] Instance message_eq_dec : EqDecision message.
Proof. solve_decision. Defined.
End messages.

(** A concrete [timestamppb], for evaluating the model: a timestamp is its
    seconds and its nanoseconds. *)
Module UnixTimestamps.
Definition as_time (o : option (Z * Z)) : Time :=
  match o with None => Unix 0 0 | Some (s, n) => Unix s n end.

Definition new (t : Time) : Z * Z :=
  (t `div` Second - 62135596800, t `mod` Second).

#[export] Instance timestamppb : Timestamppb :=
  {| Timestamp := Z * Z; AsTime := as_time; TimestampNew := new |}.

Lemma as_time_new t : as_time (Some (new t)) = t.
Proof.
  unfold new, as_time, Unix, Second, Millisecond.
  pose proof (Z.div_mod t (1000 * 1000000)). lia.
Qed.

#[export] Instance timestamppb_laws : TimestamppbLaws.
Proof. split; [exact as_time_new|done]. Qed.
End UnixTimestamps.
