(* ===== verification/Envelope.v ===== *)
(** * Envelope: CloudEvents headers ([internal/platform/envelope/envelope.go])

    [Envelope] renders to a header map ([Headers]) and is read back ([Parse]);
    [Message] is the vocabulary shared by the outbox and the dead-letter queue.
    A Go [map[string]string] is a [gmap]; reading an absent key gives the empty
    string.  Theorems: the round trip, and what each malformed header set is
    refused with. *)
From S2P Require Import Prelude.

Definition SpecVersion : string := "1.0".
Definition ContentType : string := "application/protobuf".

Definition ErrMissingAttribute : err := ESentinel "envelope: missing required attribute".

Record Envelope := {
  env_ID : string;
  env_Source : string;
  env_Type : string;
  env_Subject : string;
  env_CorrelationID : string;
  env_CausationID : string;
  env_TraceParent : string;
}.

#[global] Instance Envelope_eq_dec : EqDecision Envelope.
Proof. solve_decision. Defined.

(** [h[key]] *)
Definition header (h : gmap string string) (key : string) : string :=
  default "" (h !! key).

(** [if value != "" { h[key] = value }] *)
Definition set_nonempty (h : gmap string string) (kv : string * string) : gmap string string :=
  if bool_decide (kv.2 = "") then h else <[kv.1 := kv.2]> h.

Definition optional_headers (e : Envelope) : list (string * string) :=
  [("ce_subject", env_Subject e);
   ("ce_correlationid", env_CorrelationID e);
   ("ce_causationid", env_CausationID e);
   ("traceparent", env_TraceParent e)].

Definition Headers (e : Envelope) : gmap string string :=
  foldl set_nonempty
    (<["content-type" := ContentType]>
     (<["ce_type" := env_Type e]>
      (<["ce_source" := env_Source e]>
       (<["ce_id" := env_ID e]>
        {["ce_specversion" := SpecVersion]}))))
    (optional_headers e).

(** The loop over the required attributes: the key of the first empty one. *)
Fixpoint first_empty (l : list (string * string)) : option string :=
  match l with
  | [] => None
  | (key, value) :: l => if bool_decide (value = "") then Some key else first_empty l
  end.

Definition missing (key : string) : err :=
  EWrap (Error ErrMissingAttribute +:+ ": " +:+ key)%string ErrMissingAttribute.

Definition Parse (h : gmap string string) : res Envelope :=
  let sv := header h "ce_specversion" in
  if bool_decide (sv = SpecVersion) then
    let e := {| env_ID := header h "ce_id";
                env_Source := header h "ce_source";
                env_Type := header h "ce_type";
                env_Subject := header h "ce_subject";
                env_CorrelationID := header h "ce_correlationid";
                env_CausationID := header h "ce_causationid";
                env_TraceParent := header h "traceparent" |} in
    match first_empty [("ce_id", env_ID e); ("ce_source", env_Source e);
                       ("ce_type", env_Type e)] with
    | Some key => Err (missing key)
    | None => Ok e
    end
  else if bool_decide (sv = "") then Err (missing "ce_specversion")
  else Err (ENew ("envelope: unsupported ce_specversion " +:+ Quote sv +:+
                  ", want " +:+ Quote SpecVersion)%string).

Record Message := {
  msg_Topic : string;
  msg_Key : string;
  msg_Payload : bytes;
  msg_Headers : gmap string string;
}.

#[global] Instance Message_eq_dec : EqDecision Message.
Proof. solve_decision. Defined.

(** [Message.Validate] *)
Definition Validate (m : Message) : res unit :=
  if bool_decide (msg_Topic m = "") then Err (ENew "no topic")
  else if bool_decide (msg_Key m = "") then Err (ENew "no key")
  else if bool_decide (msg_Payload m = []) then Err (ENew "no payload")
  else Ok tt.

(** The envelopes [Parse] accepts back: the three required attributes are set. *)
Definition addressed (e : Envelope) : bool :=
  bool_decide (env_ID e <> "") && bool_decide (env_Source e <> "") &&
  bool_decide (env_Type e <> "").

(** ** Lemmas *)
Lemma header_set_nonempty h k v k' :
  header (set_nonempty h (k, v)) k' =
  if bool_decide (v = "") then header h k' else if bool_decide (k = k') then v else header h k'.
Proof.
  unfold header, set_nonempty; simpl. case_bool_decide; [done|].
  rewrite lookup_insert. by case_decide; case_bool_decide.
Qed.

Lemma header_insert h k v k' :
  header (<[k := v]> h) k' = if bool_decide (k = k') then v else header h k'.
Proof.
  unfold header. rewrite lookup_insert. by case_decide; case_bool_decide.
Qed.

Lemma header_singleton k v k' :
  header {[k := v]} k' = if bool_decide (k = k') then v else "".
Proof. unfold header. rewrite lookup_singleton. by case_decide; case_bool_decide. Qed.

#[export] Hint Rewrite header_set_nonempty header_insert header_singleton : saga_rw.

(** Reading a header the envelope renders. *)
Ltac read_header :=
  unfold Headers, optional_headers; cbn [foldl];
  rewrite !header_set_nonempty, !header_insert, header_singleton;
  decide_closed; repeat case_bool_decide; congruence.

Lemma Headers_read e :
  header (Headers e) "ce_specversion" = SpecVersion /\
  header (Headers e) "content-type" = ContentType /\
  header (Headers e) "ce_id" = env_ID e /\
  header (Headers e) "ce_source" = env_Source e /\
  header (Headers e) "ce_type" = env_Type e /\
  header (Headers e) "ce_subject" = env_Subject e /\
  header (Headers e) "ce_correlationid" = env_CorrelationID e /\
  header (Headers e) "ce_causationid" = env_CausationID e /\
  header (Headers e) "traceparent" = env_TraceParent e.
Proof. split_and!. all: read_header. Qed.

Lemma first_empty_None l : first_empty l = None <-> Forall (fun kv => kv.2 <> "") l.
Proof.
  induction l as [|[k v] l IH]; simpl; [done|]. rewrite Forall_cons; simpl.
  case_bool_decide; naive_solver.
Qed.

Lemma addressed_first_empty e :
  addressed e = true <->
  first_empty [("ce_id", env_ID e); ("ce_source", env_Source e); ("ce_type", env_Type e)] = None.
Proof.
  rewrite first_empty_None, !Forall_cons. unfold addressed; simpl.
  rewrite !andb_true_iff, !bool_decide_eq_true. naive_solver.
Qed.

Lemma errors_Is_missing key : errors_Is (missing key) ErrMissingAttribute = true.
Proof. done. Qed.

#[export] Hint Resolve errors_Is_missing : saga.

Lemma lookup_set_nonempty h k v k' :
  set_nonempty h (k, v) !! k' = if bool_decide (v <> "" /\ k = k') then Some v else h !! k'.
Proof.
  unfold set_nonempty; simpl. case_bool_decide as Hv.
  - rewrite bool_decide_eq_false_2; naive_solver.
  - rewrite lookup_insert. case_decide as Hk.
    + by rewrite bool_decide_eq_true_2.
    + rewrite bool_decide_eq_false_2; naive_solver.
Qed.

(** ** Properties *)

(** Headers read back. *)
Lemma parsed_back (e : Envelope) : addressed e = true -> Parse (Headers e) = Ok e.
Proof.
  intros He%addressed_first_empty. unfold Parse.
  destruct (Headers_read e) as (-> & _ & -> & -> & -> & -> & -> & -> & ->).
  cbn [env_ID env_Source env_Type]. rewrite He. by destruct e.
Qed.

(** A rendered envelope is read back whole: [Parse] inverts [Headers] on every
    envelope whose three required attributes are set, optional attributes
    included, whether set or not. *)
Theorem Parse_Headers (e : Envelope) : addressed e = true -> Parse (Headers e) = Ok e.
Proof. apply parsed_back. Qed.

Lemma Parse_Headers_witness :
  let e := {| env_ID := "id-1"; env_Source := "/sagaflow/inventory"; env_Type := "t";
              env_Subject := ""; env_CorrelationID := "saga-1"; env_CausationID := "";
              env_TraceParent := "" |} in
  addressed e = true /\ Parse (Headers e) = Ok e.
Proof. intros e. split; [reflexivity|]. apply (Parse_Headers e). reflexivity. Defined.

(** What [Parse] accepts and how it refuses.  It succeeds exactly when the
    version is the one spoken and no required attribute is absent or empty; a
    refusal is a missing attribute when the version is absent or an attribute
    is, and is not one when a version is present that is not the one spoken. *)
Theorem Parse_outcome (h : gmap string string) :
  match Parse h with
  | Ok e =>
      header h "ce_specversion" = SpecVersion /\ addressed e = true /\
      env_ID e = header h "ce_id" /\ env_Source e = header h "ce_source" /\
      env_Type e = header h "ce_type" /\ env_Subject e = header h "ce_subject" /\
      env_CorrelationID e = header h "ce_correlationid" /\
      env_CausationID e = header h "ce_causationid" /\
      env_TraceParent e = header h "traceparent"
  | Err x =>
      if bool_decide (header h "ce_specversion" = "") then errors_Is x ErrMissingAttribute = true
      else if bool_decide (header h "ce_specversion" = SpecVersion) then
        errors_Is x ErrMissingAttribute = true /\
        exists k, k ∈ ["ce_id"; "ce_source"; "ce_type"] /\ header h k = ""
      else errors_Is x ErrMissingAttribute = false
  end.
Proof.
  unfold Parse. case_bool_decide as Hv; [|by repeat case_bool_decide].
  destruct (first_empty _) eqn:E.
  - rewrite Hv. decide_closed. split; [done|]. simpl in E.
    repeat case_bool_decide; simplify_eq; eexists; split; [|done| |done| |done]; set_solver.
  - split_and!; try done. by apply addressed_first_empty.
Qed.

(** An optional attribute that is empty is not written at all, and a set one is
    written as it is. *)
Theorem Headers_omits_empty (e : Envelope) (k v : string) :
  (k, v) ∈ optional_headers e -> Headers e !! k = if bool_decide (v = "") then None else Some v.
Proof.
  intros Hk. unfold Headers, optional_headers in *; cbn [foldl].
  rewrite !lookup_set_nonempty.
  repeat (apply elem_of_cons in Hk as [[= -> ->]|Hk]); [..|by apply elem_of_nil in Hk].
  all: rewrite !lookup_insert_ne by done; rewrite lookup_singleton_ne by done.
  all: repeat (case_bool_decide; go_split; try discriminate); tauto.
Qed.

Lemma Headers_omits_empty_witness :
  let e := {| env_ID := "id-1"; env_Source := "s"; env_Type := "t"; env_Subject := "seat-1";
              env_CorrelationID := ""; env_CausationID := ""; env_TraceParent := "" |} in
  Headers e !! "ce_subject" = Some "seat-1".
Proof.
  intros e. apply (Headers_omits_empty e "ce_subject" "seat-1").
  apply elem_of_cons. left. reflexivity.
Defined.
