(* ===== verification/Database.v ===== *)
(** * Database: the tables, transactions, and what a round trip can do

    The tables of [internal/inventory/migrations/*.sql] as a record [db], and
    the transaction helper of [internal/platform/pg/pg.go].

    A SQL statement of the program is a function [stmt X] from the state the
    transaction sees to its result, the rows it writes and the sequences it
    advances; each component defines its own statements.  Code that runs inside
    a transaction is a [prog]: a tree of statements and of draws of a fresh id,
    whose continuations receive each statement's outcome.  The same [prog] has
    three semantics: [run] executes it against an [oracle] (which round trips fail,
    how each commit ends, what other sessions commit in between), [wp] is its
    weakest precondition under any interference a rely relation allows, and
    [completes] relates where an execution under such a rely begins to its result,
    to what it has written and to where it ends.

    READ COMMITTED: a statement sees the committed state of that moment together
    with the transaction's own writes, which are kept as a log and applied to the
    committed state when the transaction commits.  A statement that raises
    aborts the transaction: later statements fail with 25P02 and the commit
    turns into a rollback.  Sequences are not rolled back.  A commit whose
    acknowledgement is lost may have happened. *)
From S2P Require Import Prelude.

(** ** Tables *)
Record event_row := {
  ev_global_seq : Z;
  ev_stream_id : string;
  ev_version : Z;
  ev_type : string;
  ev_data : bytes;
  ev_meta : gmap string string;
  ev_recorded_at : Time;
}.

Record outbox_row := {
  ob_id : Z;
  ob_topic : string;
  ob_key : string;
  ob_payload : bytes;
  ob_headers : gmap string string;
  ob_published_at : option Time;
}.

(** The inbox table is keyed by (consumer, source, event_id). *)
Abbreviation inbox_key := (string * string * string)%type (only parsing).

Record timer_row := {
  tm_id : Z;
  tm_fire_at : Time;
  tm_subject : string;
  tm_token : string;
  tm_fired_at : option Time;
}.

Record availability_row := {
  av_seat_id : string;
  av_status : string;
  av_hold_id : string;
  av_booking_id : string;
  av_expires_at : option Time;
  av_version : Z;
}.

Record db := {
  events : list event_row;
  outbox : list outbox_row;
  inbox : gmap inbox_key Time;
  timers : list timer_row;
  availability : gmap string availability_row;
  notified : list string;
}.

(** The [BIGSERIAL] sequences: the last value each one handed out. *)
Record seqs := { events_seq : Z; outbox_seq : Z; timers_seq : Z }.

#[global] Instance event_row_eq_dec : EqDecision event_row.
Proof. solve_decision. Defined.
#[global] Instance outbox_row_eq_dec : EqDecision outbox_row.
Proof. solve_decision. Defined.
#[global] Instance timer_row_eq_dec : EqDecision timer_row.
Proof. solve_decision. Defined.
#[global] Instance availability_row_eq_dec : EqDecision availability_row.
Proof. solve_decision. Defined.

Definition empty_db : db :=
  {| events := []; outbox := []; inbox := ∅; timers := []; availability := ∅;
     notified := [] |}.

(** What Postgres does with a value on its way into a column: a [TIMESTAMPTZ]
    keeps microseconds, as does an
    [INTERVAL], a [JSONB] is parsed and serialised again (or refused), and
    text is ordered by the database's collation. *)
Class Postgres := {
  timestamptz : Time -> Time;
  interval : Duration -> Duration;
  jsonb : bytes -> res bytes;
  collate : string -> string -> bool;
}.

Class PostgresLaws `{Postgres} : Prop := {
  timestamptz_idem t : timestamptz (timestamptz t) = timestamptz t;
  timestamptz_le t : timestamptz t <= t;
  timestamptz_mono t u : t <= u -> timestamptz t <= timestamptz u;
  interval_micro t : t mod 1000 = 0 -> interval t = t;
  collate_total x y : collate x y = true \/ collate y x = true;
  collate_trans x y z : collate x y = true -> collate y z = true -> collate x z = true;
}.

(** ** Writes *)

Inductive write :=
  | WEvent (r : event_row)
  | WOutbox (r : outbox_row)
  | WInbox (k : inbox_key) (at_ : Time)
  | WTimer (r : timer_row)
  | WFired (id : Z) (at_ : Time)
  | WPublished (ids : list Z) (at_ : Time)
  | WAvailability (r : availability_row)
  | WDeleteAvailability (ids : list string)
  | WDeleteInbox (ks : list inbox_key)
  | WDeleteOutbox (ids : list Z)
  | WDeleteTimers (ids : list Z)
  | WNotify (channel : string).

Definition set_events (f : list event_row -> list event_row) (d : db) : db :=
  {| events := f (events d); outbox := outbox d; inbox := inbox d; timers := timers d;
     availability := availability d; notified := notified d |}.
Definition set_outbox (f : list outbox_row -> list outbox_row) (d : db) : db :=
  {| events := events d; outbox := f (outbox d); inbox := inbox d; timers := timers d;
     availability := availability d; notified := notified d |}.
Definition set_inbox (f : gmap inbox_key Time -> gmap inbox_key Time) (d : db) : db :=
  {| events := events d; outbox := outbox d; inbox := f (inbox d); timers := timers d;
     availability := availability d; notified := notified d |}.
Definition set_timers (f : list timer_row -> list timer_row) (d : db) : db :=
  {| events := events d; outbox := outbox d; inbox := inbox d; timers := f (timers d);
     availability := availability d; notified := notified d |}.
Definition set_availability
    (f : gmap string availability_row -> gmap string availability_row) (d : db) : db :=
  {| events := events d; outbox := outbox d; inbox := inbox d; timers := timers d;
     availability := f (availability d); notified := notified d |}.
Definition set_notified (f : list string -> list string) (d : db) : db :=
  {| events := events d; outbox := outbox d; inbox := inbox d; timers := timers d;
     availability := availability d; notified := f (notified d) |}.

Definition mark_fired_row (id : Z) (at_ : Time) (r : timer_row) : timer_row :=
  if bool_decide (tm_id r = id) then
    {| tm_id := tm_id r; tm_fire_at := tm_fire_at r; tm_subject := tm_subject r;
       tm_token := tm_token r; tm_fired_at := Some at_ |}
  else r.

Definition mark_published_row (ids : list Z) (at_ : Time) (r : outbox_row) : outbox_row :=
  if bool_decide (ob_id r ∈ ids) then
    {| ob_id := ob_id r; ob_topic := ob_topic r; ob_key := ob_key r;
       ob_payload := ob_payload r; ob_headers := ob_headers r;
       ob_published_at := Some at_ |}
  else r.

Definition apply_write (d : db) (w : write) : db :=
  match w with
  | WEvent r => set_events (fun l => l ++ [r]) d
  | WOutbox r => set_outbox (fun l => l ++ [r]) d
  | WInbox k at_ => set_inbox (fun m => <[k := at_]> m) d
  | WTimer r => set_timers (fun l => l ++ [r]) d
  | WFired id at_ => set_timers (fmap (mark_fired_row id at_)) d
  | WPublished ids at_ => set_outbox (fmap (mark_published_row ids at_)) d
  | WAvailability r => set_availability (fun m => <[av_seat_id r := r]> m) d
  | WDeleteAvailability ids => set_availability (fun m => foldr delete m ids) d
  | WDeleteInbox ks => set_inbox (fun m => foldr delete m ks) d
  | WDeleteOutbox ids => set_outbox (filter (fun r => ob_id r ∉ ids)) d
  | WDeleteTimers ids => set_timers (filter (fun r => tm_id r ∉ ids)) d
  | WNotify ch => set_notified (fun l => l ++ [ch]) d
  end.

Definition apply_writes (d : db) (ws : list write) : db := foldl apply_write d ws.

(** ** Statements and the code of a transaction *)

(** The arguments are [now()] (the start of the transaction), the sequences and
    the state the statement sees; a raised error has no writes. *)
Definition stmt (X : Type) : Type := Time -> seqs -> db -> res X * list write * seqs.

Inductive prog (A : Type) : Type :=
  | Ret (a : A)
  | NewID (k : string -> prog A)
  | Sql {X : Type} (q : stmt X) (k : res X -> prog A).
Arguments Ret {A} a.
Arguments NewID {A} k.
Arguments Sql {A X} q k.

Fixpoint prog_bind {A B} (p : prog A) (f : A -> prog B) : prog B :=
  match p with
  | Ret a => f a
  | NewID k => NewID (fun id => prog_bind (k id) f)
  | Sql q k => Sql q (fun r => prog_bind (k r) f)
  end.

(** A function of the program that takes a transaction and can fail. *)
Definition tx (A : Type) : Type := prog (res A).

#[global] Instance tx_ret : MRet tx := fun A a => Ret (Ok a).
#[global] Instance tx_bind : MBind tx := fun A B f p =>
  prog_bind p (fun r => match r with Ok a => f a | Err e => Ret (Err e) end).

Definition fail {A} (e : err) : tx A := Ret (Err e).
Definition lift {A} (r : res A) : tx A := Ret r.

(** [tx.Exec] or [tx.Query], with the caller's handling of its error. *)
Definition exec {X} (q : stmt X) (f : err -> err) : tx X :=
  Sql q (fun r => Ret (wrap_err f r)).

(** [for _, x := range l { if err := f(x); err != nil { return err } }] *)
Fixpoint tx_each {A} (f : A -> tx unit) (l : list A) : tx unit :=
  match l with
  | [] => mret tt
  | x :: l => _ ← f x; tx_each f l
  end.

(** ** Execution against an oracle *)
Inductive fate :=
  | Committed
  | CommitFailed (e : err)
  | CommitUnacknowledged (e : err).

Record oracle := {
  fault : nat -> option err;
  commit_fate : nat -> fate;
  others : nat -> list write -> db -> db;
  clock : nat -> Time;
  uuid : nat -> string;
}.

(** Nothing fails and nobody else is connected. *)
Definition quiet (now : Time) (ids : nat -> string) : oracle :=
  {| fault := fun _ => None; commit_fate := fun _ => Committed;
     others := fun _ _ d => d; clock := fun _ => now; uuid := ids |}.

Record world := {
  w_db : db;
  w_seqs : seqs;
  w_trips : nat;
  w_ids : nat;
}.

Definition set_db (d : db) (w : world) : world :=
  {| w_db := d; w_seqs := w_seqs w; w_trips := w_trips w; w_ids := w_ids w |}.
Definition set_seqs (s : seqs) (w : world) : world :=
  {| w_db := w_db w; w_seqs := s; w_trips := w_trips w; w_ids := w_ids w |}.

Record session := { s_now : Time; s_log : list write; s_aborted : bool }.

Definition abort (s : session) : session :=
  {| s_now := s_now s; s_log := s_log s; s_aborted := true |}.
Definition record (ws : list write) (s : session) : session :=
  {| s_now := s_now s; s_log := s_log s ++ ws; s_aborted := s_aborted s |}.

Definition in_failed_transaction : err :=
  EPg "25P02" "current transaction is aborted, commands ignored until end of transaction block".
Definition commit_rolled_back : err := ENew "commit unexpectedly resulted in rollback".

Section execution.
Context (o : oracle).

(** One round trip to the server: the other sessions commit what they commit. *)
Definition round_trip (log : list write) (w : world) : world :=
  {| w_db := others o (w_trips w) log (w_db w); w_seqs := w_seqs w;
     w_trips := S (w_trips w); w_ids := w_ids w |}.

Definition next_id (w : world) : world :=
  {| w_db := w_db w; w_seqs := w_seqs w; w_trips := w_trips w; w_ids := S (w_ids w) |}.

Fixpoint run {A} (p : prog A) (w : world) (s : session) : A * world * session :=
  match p with
  | Ret a => (a, w, s)
  | NewID k => run (k (uuid o (w_ids w))) (next_id w) s
  | Sql q k =>
      let w' := round_trip (s_log s) w in
      if s_aborted s then run (k (Err in_failed_transaction)) w' s
      else
        match fault o (w_trips w) with
        | Some e => run (k (Err e)) w' (abort s)
        | None =>
            match q (s_now s) (w_seqs w') (apply_writes (w_db w') (s_log s)) with
            | (Ok x, ws, sq) => run (k (Ok x)) (set_seqs sq w') (record ws s)
            | (Err e, _, sq) => run (k (Err e)) (set_seqs sq w') (abort s)
            end
        end
  end.

(** [pg.WithTx]: begin, run [fn], commit when it returns nil.  The deferred
    rollback leaves nothing behind, so it is the absence of a commit.  The value is
    what the closure [fn] leaves in the variables it captures. *)
Definition WithTx {A} (fn : tx A) (w : world) : res A * world :=
  let w1 := round_trip [] w in
  match fault o (w_trips w) with
  | Some e => (Err (EWrap ("begin: " +:+ Error e)%string e), w1)
  | None =>
      let '(r, w2, s) := run fn w1 {| s_now := clock o (w_trips w); s_log := [];
                                      s_aborted := false |} in
      match r with
      | Err e => (Err e, w2)
      | Ok a =>
          let w3 := round_trip (s_log s) w2 in
          let commit_err e := Err (EWrap ("commit: " +:+ Error e)%string e) in
          if s_aborted s then (commit_err commit_rolled_back, w3)
          else
            match commit_fate o (w_trips w2) with
            | Committed => (Ok a, set_db (apply_writes (w_db w3) (s_log s)) w3)
            | CommitFailed e => (commit_err e, w3)
            | CommitUnacknowledged e =>
                (commit_err e, set_db (apply_writes (w_db w3) (s_log s)) w3)
            end
      end
  end.

(** [pool.Exec] and [pool.Query]: a statement in a transaction of its own. *)
Definition pool_exec {X} (q : stmt X) (f : err -> err) (w : world) : res X * world :=
  let w1 := round_trip [] w in
  match fault o (w_trips w) with
  | Some e => (Err (f e), w1)
  | None =>
      match q (clock o (w_trips w)) (w_seqs w1) (w_db w1) with
      | (Err e, _, sq) => (Err (f e), set_seqs sq w1)
      | (Ok x, ws, sq) =>
          let w2 := set_seqs sq w1 in
          match commit_fate o (w_trips w) with
          | Committed => (Ok x, set_db (apply_writes (w_db w2) ws) w2)
          | CommitFailed e => (Err (f e), w2)
          | CommitUnacknowledged e => (Err (f e), set_db (apply_writes (w_db w2) ws) w2)
          end
      end
  end.
End execution.

(** ** Weakest preconditions under interference

    [R L d d']: while a transaction holds the uncommitted writes [L], the other
    sessions may take the committed state from [d] to [d'].  [wp p L d Q]: every
    execution of [p] that is not aborted ends with a result, a log and a
    committed state that satisfy [Q].  (An aborted one cannot commit.) *)
Section wp.
Context (R : list write -> db -> db -> Prop).

Fixpoint wp {A} (p : prog A) (L : list write) (d : db)
    (Q : A -> list write -> db -> Prop) : Prop :=
  match p with
  | Ret a => Q a L d
  | NewID k => forall id, wp (k id) L d Q
  | Sql q k =>
      forall d' now sq, R L d d' ->
      match q now sq (apply_writes d' L) with
      | (Ok x, ws, _) => wp (k (Ok x)) (L ++ ws) d' Q
      | (Err _, _, _) => True
      end
  end.
End wp.

(** The executions themselves: one of [p], by a transaction that began it with the log
    [L] and the committed state [d] and is not aborted, ends with [a], [L'] and [d'],
    the other sessions keeping to [R]. *)
Section completes.
Context (R : list write -> db -> db -> Prop).

Fixpoint completes {A} (p : prog A) (L : list write) (d : db) (a : A) (L' : list write) (d' : db) :
    Prop :=
  match p with
  | Ret x => x = a /\ L = L' /\ d = d'
  | NewID k => exists id, completes (k id) L d a L' d'
  | Sql q k =>
      exists d1 now sq x ws sq', R L d d1 /\ q now sq (apply_writes d1 L) = (Ok x, ws, sq') /\
        completes (k (Ok x)) (L ++ ws) d1 a L' d'
  end.
End completes.

(** What a session sees: the committed state under its own writes. *)
Definition view (w : world) (s : session) : db := apply_writes (w_db w) (s_log s).

(** A round trip that does not fail, in a transaction that is not aborted. *)
Definition healthy (o : oracle) (w : world) (s : session) : bool :=
  negb (s_aborted s) && match fault o (w_trips w) with None => true | Some _ => false end.

(** ** Lemmas *)
Lemma apply_writes_app d L1 L2 : apply_writes d (L1 ++ L2) = apply_writes (apply_writes d L1) L2.
Proof. unfold apply_writes. by rewrite foldl_app. Qed.

Lemma apply_writes_nil d : apply_writes d [] = d.
Proof. done. Qed.

Lemma apply_writes_cons d w ws : apply_writes d (w :: ws) = apply_writes (apply_write d w) ws.
Proof. done. Qed.

(** Rows appended to one table. *)
Lemma apply_event_rows d rs : apply_writes d (WEvent <$> rs) = set_events (fun l => l ++ rs) d.
Proof.
  revert d; induction rs as [|r rs IH]; intros d.
  - destruct d; unfold set_events; simpl. by rewrite app_nil_r.
  - rewrite fmap_cons, apply_writes_cons, IH. unfold set_events; simpl. by rewrite <- app_assoc.
Qed.

Lemma apply_outbox_rows d rs : apply_writes d (WOutbox <$> rs) = set_outbox (fun l => l ++ rs) d.
Proof.
  revert d; induction rs as [|r rs IH]; intros d.
  - destruct d; unfold set_outbox; simpl. by rewrite app_nil_r.
  - rewrite fmap_cons, apply_writes_cons, IH. unfold set_outbox; simpl. by rewrite <- app_assoc.
Qed.

Lemma apply_timer_rows d rs : apply_writes d (WTimer <$> rs) = set_timers (fun l => l ++ rs) d.
Proof.
  revert d; induction rs as [|r rs IH]; intros d.
  - destruct d; unfold set_timers; simpl. by rewrite app_nil_r.
  - rewrite fmap_cons, apply_writes_cons, IH. unfold set_timers; simpl. by rewrite <- app_assoc.
Qed.

#[export] Hint Rewrite apply_event_rows apply_outbox_rows apply_timer_rows : saga_rw.
#[export] Hint Rewrite apply_writes_app apply_writes_cons apply_writes_nil : saga_rw.

Lemma run_bind o {A B} (p : prog A) (f : A -> prog B) w s :
  run o (prog_bind p f) w s = let '(a, w', s') := run o p w s in run o (f a) w' s'.
Proof.
  revert w s; induction p as [a|k IH|X q k IH]; intros w s; simpl; [done|apply IH|].
  destruct (s_aborted s); [apply IH|]. destruct (fault o (w_trips w)); [apply IH|].
  destruct (q _ _ _) as [[[x|e] ws] sq]; apply IH.
Qed.

Lemma run_exec o {X} (q : stmt X) f w s :
  healthy o w s = true ->
  run o (exec q f) w s =
  let w' := round_trip o (s_log s) w in
  match q (s_now s) (w_seqs w) (view w' s) with
  | (Ok x, ws, sq) => (Ok x, set_seqs sq w', record ws s)
  | (Err e, _, sq) => (Err (f e), set_seqs sq w', abort s)
  end.
Proof.
  unfold healthy. rewrite andb_true_iff, negb_true_iff. intros [Ha Hf]. simpl.
  rewrite Ha. destruct (fault o (w_trips w)); [done|]. unfold view; simpl.
  by destruct (q _ _ _) as [[[x|e] ws] sq].
Qed.

Lemma healthy_fault (o : oracle) (w' : world) (s s' : session) :
  s_aborted s' = s_aborted s -> s_aborted s = false -> fault o (w_trips w') = None ->
  healthy o w' s' = true.
Proof. unfold healthy. intros -> -> ->. done. Qed.

(** Round trips only accumulate. *)
Lemma run_trips o {A} (p : prog A) w s : (w_trips w <= w_trips (run o p w s).1.2)%nat.
Proof.
  revert w s. induction p as [x|k IH|X q k IH]; intros w s; simpl; [done|by etrans; [|apply IH]|].
  destruct (s_aborted s); [etrans; [|apply IH]; simpl; lia|].
  destruct (fault o (w_trips w)); [etrans; [|apply IH]; simpl; lia|].
  destruct (q _ _ _) as [[[x|e] ws] sq]; (etrans; [|apply IH]; simpl; lia).
Qed.

Lemma WithTx_trips o {A} (fn : tx A) w : (w_trips w <= w_trips (snd (WithTx o fn w)))%nat.
Proof.
  unfold WithTx. destruct (fault o (w_trips w)); [simpl; lia|].
  pose proof (run_trips o fn (round_trip o [] w)
    {| s_now := clock o (w_trips w); s_log := []; s_aborted := false |}) as H.
  destruct (run o fn _ _) as [[[a|e] w2] s]; simpl in *; [|lia].
  destruct (s_aborted s); [simpl; lia|]. destruct (commit_fate o (w_trips w2)); simpl; lia.
Qed.

Lemma pool_exec_trips o {X} (q : stmt X) f w :
  (w_trips w <= w_trips (snd (pool_exec o q f w)))%nat.
Proof.
  unfold pool_exec. destruct (fault o (w_trips w)); [simpl; lia|].
  destruct (q _ _ _) as [[[x|e] ws] sq]; [|simpl; lia]. destruct (commit_fate o (w_trips w)); simpl; lia.
Qed.

Lemma healthy_inv (o : oracle) (w : world) (s : session) : healthy o w s = true -> s_aborted s = false /\ fault o (w_trips w) = None.
Proof. unfold healthy. destruct (s_aborted s), (fault o (w_trips w)); done. Qed.

Lemma run_tx_bind o {A B} (p : tx A) (f : A -> tx B) w s :
  run o (p ≫= f) w s =
  match run o p w s with
  | (Ok a, w', s') => run o (f a) w' s'
  | (Err e, w', s') => (Err e, w', s')
  end.
Proof.
  unfold mbind, tx_bind. rewrite run_bind. by destruct (run o p w s) as [[[a|e] w'] s'].
Qed.

Lemma run_lift o {A} (r : res A) w s : run o (lift r) w s = (r, w, s).
Proof. done. Qed.

Lemma view_record w s ws : view w (record ws s) = apply_writes (view w s) ws.
Proof. unfold view; simpl. apply apply_writes_app. Qed.

Lemma view_set_seqs sq w s : view (set_seqs sq w) s = view w s.
Proof. done. Qed.

#[export] Hint Rewrite @run_tx_bind @run_lift view_record view_set_seqs : saga_rw.

(** What a program has drawn and sent only grows, and an abort is for good. *)
Lemma run_aborted o {A} (p : prog A) w s a w' s' :
  run o p w s = (a, w', s') -> s_aborted s = true -> s_aborted s' = true.
Proof.
  revert w s; induction p as [x|k IH|X q k IH]; intros w s; simpl.
  - by intros [= _ _ <-].
  - apply IH.
  - intros H Hs. rewrite Hs in H. by eapply IH.
Qed.

(** A run knows of its oracle only what comes from its first round trip on. *)
Lemma run_agrees o o' {A} (p : prog A) w s :
  uuid o = uuid o' ->
  (forall n, (w_trips w <= n)%nat -> fault o n = fault o' n /\ forall L d, others o n L d = others o' n L d) ->
  run o p w s = run o' p w s.
Proof.
  intros Hu. revert w s. induction p as [x|k IH|X q k IH]; intros w s H; simpl; [done|..].
  - rewrite Hu. by apply IH.
  - destruct (H (w_trips w) (le_n _)) as [-> Ho].
    assert (round_trip o (s_log s) w = round_trip o' (s_log s) w) as -> by (unfold round_trip; by rewrite Ho).
    assert (forall n, (S (w_trips w) <= n)%nat ->
      fault o n = fault o' n /\ forall L d, others o n L d = others o' n L d) as H' by (intros n Hn; apply H; lia).
    simpl. destruct (s_aborted s); [by apply IH|]. destruct (fault o' (w_trips w)); [by apply IH|].
    rewrite Ho. destruct (q _ _ _) as [[[x|e] ws] sq]; by apply IH.
Qed.

(** Code all of whose statements, on any path, satisfy a predicate. *)
Fixpoint each_stmt (P : forall X, stmt X -> Prop) {A} (p : prog A) : Prop :=
  match p with
  | Ret _ => True
  | NewID k => forall id, each_stmt P (k id)
  | Sql q k => P _ q /\ forall r, each_stmt P (k r)
  end.

Section each_stmt_lemmas.
Context (P : forall X, stmt X -> Prop).

Lemma each_bind {A B} (p : prog A) (f : A -> prog B) :
  each_stmt P p -> (forall a, each_stmt P (f a)) -> each_stmt P (prog_bind p f).
Proof.
  intros Hp Hf. induction p as [a|k IH|X q k IH]; simpl in *; [by apply Hf|by intros; apply IH|].
  destruct Hp as [Hq Hk]. split; [done|]. intros r. by apply IH.
Qed.

Lemma each_tx_bind {A B} (p : tx A) (f : A -> tx B) :
  each_stmt P p -> (forall a, each_stmt P (f a)) -> each_stmt P (p ≫= f).
Proof. intros Hp Hf. apply each_bind; [done|]. intros [a|e]; [by apply Hf|done]. Qed.

Lemma each_exec {X} (q : stmt X) f : P X q -> each_stmt P (exec q f).
Proof. intros Hq. by split. Qed.

Lemma each_tx_each {A} (f : A -> tx unit) l :
  (forall x, each_stmt P (f x)) -> each_stmt P (tx_each f l).
Proof.
  intros Hf. induction l as [|x l IH]; [done|]. cbn [tx_each]. by apply each_tx_bind.
Qed.
End each_stmt_lemmas.

(** Statements, and code, that only write what a predicate allows. *)
Definition writes_only (P : write -> Prop) X (q : stmt X) : Prop :=
  forall now sq d, Forall P (q now sq d).1.2.

Definition emits (P : write -> Prop) {A} (p : prog A) : Prop := each_stmt (writes_only P) p.

Lemma emits_weaken (P P' : write -> Prop) {A} (p : prog A) :
  (forall w, P w -> P' w) -> emits P p -> emits P' p.
Proof.
  intros HP. unfold emits. induction p as [a|k IH|X q k IH]; simpl; [done|by auto|].
  intros [Hq Hk]. split; [|by auto]. intros now sq d. eapply Forall_impl; [apply Hq|exact HP].
Qed.

Section wp_lemmas.
Context (R : list write -> db -> db -> Prop).

Lemma wp_mono {A} (p : prog A) L d (Q Q' : A -> list write -> db -> Prop) :
  wp R p L d Q -> (forall a L' d', Q a L' d' -> Q' a L' d') -> wp R p L d Q'.
Proof.
  revert L d; induction p as [a|k IH|X q k IH]; intros L d; simpl; [by auto|by eauto|].
  intros Hw HQ d' now sq HR. specialize (Hw d' now sq HR).
  destruct (q _ _ _) as [[[x|e] ws] ?]; [|done]. by eapply IH.
Qed.

Lemma wp_bind {A B} (p : prog A) (f : A -> prog B) L d Q :
  wp R p L d (fun a L' d' => wp R (f a) L' d' Q) -> wp R (prog_bind p f) L d Q.
Proof.
  revert L d; induction p as [a|k IH|X q k IH]; intros L d; simpl; [done|by auto|].
  intros Hw d' now sq HR. specialize (Hw d' now sq HR).
  destruct (q _ _ _) as [[[x|e] ws] ?]; [|done]. by apply IH.
Qed.

(** Binding in [tx]: only a success goes on. *)
Lemma wp_tx_bind {A B} (p : tx A) (f : A -> tx B) L d Q :
  wp R p L d (fun r L' d' =>
    match r with Ok a => wp R (f a) L' d' Q | Err e => Q (Err e) L' d' end) ->
  wp R (p ≫= f) L d Q.
Proof.
  intros Hw. apply wp_bind. eapply wp_mono; [exact Hw|]. by intros [a|e] L' d'.
Qed.

Lemma wp_lift_bind {A B} (r : res A) (f : A -> tx B) L d Q :
  match r with Ok a => wp R (f a) L d Q | Err e => Q (Err e) L d end ->
  wp R (lift r ≫= f) L d Q.
Proof. by destruct r. Qed.

Lemma wp_exec {X} (q : stmt X) f L d (Q : res X -> list write -> db -> Prop) :
  (forall d' now sq, R L d d' ->
    match q now sq (apply_writes d' L) with
    | (Ok x, ws, _) => Q (Ok x) (L ++ ws) d'
    | (Err _, _, _) => True
    end) ->
  wp R (exec q f) L d Q.
Proof.
  intros Hq. simpl. intros d' now sq HR. specialize (Hq d' now sq HR).
  by destruct (q _ _ _) as [[[x|e] ws] ?].
Qed.

(** Whatever a program does, it only adds its own writes to the log, and the others
    have moved the state while it held at least the log it started with. *)
Lemma wp_emits (P : write -> Prop) {A} (p : prog A) L d :
  emits P p ->
  wp R p L d (fun _ L' d' => (exists rest, L' = L ++ rest /\ Forall P rest) /\
    rtc (fun x y => exists L2, L `prefix_of` L2 /\ R L2 x y) d d').
Proof.
  assert (forall L0 ws d0 d, Forall P ws -> emits P p ->
    rtc (fun x y => exists L2, L0 `prefix_of` L2 /\ R L2 x y) d0 d ->
    wp R p (L0 ++ ws) d (fun _ L' d' => (exists rest, L' = L0 ++ rest /\ Forall P rest) /\
      rtc (fun x y => exists L2, L0 `prefix_of` L2 /\ R L2 x y) d0 d')) as H.
  { clear L d. unfold emits. intros L0.
    induction p as [a|k IH|X q k IH]; intros ws d0 d Hws Hp Hd; simpl in *.
    - split; [by exists ws|done].
    - intros id. by apply IH.
    - intros d' now sq HR. destruct Hp as [Hq Hk]. specialize (Hq now sq (apply_writes d' (L0 ++ ws))).
      destruct (q _ _ _) as [[[x|e] ws'] ?]; [|done]. rewrite <- app_assoc. apply IH; [|done|].
      + by apply Forall_app.
      + eapply rtc_r; [exact Hd|]. exists (L0 ++ ws). split; [by apply prefix_app_r|done]. }
  intros Hp. specialize (H L [] d d). rewrite app_nil_r in H. by apply H.
Qed.

Lemma wp_extends {A} (p : prog A) L d :
  wp R p L d (fun _ L' d' => L `prefix_of` L' /\
    rtc (fun x y => exists L2, L `prefix_of` L2 /\ R L2 x y) d d').
Proof.
  eapply wp_mono; [apply (wp_emits (fun _ => True))|].
  - unfold emits. induction p as [a|k IH|X q k IH]; simpl; [done|done|]. split; [|done].
    intros now sq d0. by apply Forall_forall.
  - intros a L' d' [(rest & -> & _) Hd]. split; [by apply prefix_app_r|done].
Qed.

(** Two postconditions at once; and what the others keep stays true. *)
Lemma wp_conj {A} (p : prog A) L d (Q1 Q2 : A -> list write -> db -> Prop) :
  wp R p L d Q1 -> wp R p L d Q2 -> wp R p L d (fun a L' d' => Q1 a L' d' /\ Q2 a L' d').
Proof.
  revert L d; induction p as [a|k IH|X q k IH]; intros L d; simpl; [done|by eauto|].
  intros H1 H2 d' now sq HR. specialize (H1 d' now sq HR). specialize (H2 d' now sq HR).
  destruct (q _ _ _) as [[[x|e] ws] ?]; [by apply IH|done].
Qed.

Lemma wp_stable (S : db -> Prop) {A} (p : prog A) L d :
  (forall L d d', R L d d' -> S d -> S d') -> S d -> wp R p L d (fun _ _ d' => S d').
Proof.
  intros HS. revert L d; induction p as [a|k IH|X q k IH]; intros L d Hd; simpl; [done|by eauto|].
  intros d' now sq HR. destruct (q _ _ _) as [[[x|e] ws] ?]; [|done]. apply IH. by eapply HS.
Qed.

(** Adequacy: what [wp] promises holds of every run against an oracle whose
    sessions keep to the rely. *)
Lemma run_wp o {A} (p : prog A) w s Q a w' s' :
  (forall n L d, R L d (others o n L d)) ->
  run o p w s = (a, w', s') -> s_aborted s = false ->
  wp R p (s_log s) (w_db w) Q ->
  s_aborted s' = true \/ Q a (s_log s') (w_db w').
Proof.
  intros Ho. revert w s; induction p as [x|k IH|X q k IH]; intros w s; simpl.
  - intros [= <- <- <-] _ Hw. by right.
  - intros Hr Hs Hw. by eapply (IH _ (next_id w)).
  - intros Hr Hs Hw. rewrite Hs in Hr.
    destruct (fault o (w_trips w)); [left; by eapply run_aborted|].
    specialize (Hw _ (s_now s) (w_seqs w) (Ho (w_trips w) (s_log s) (w_db w))).
    simpl in Hr. destruct (q _ _ _) as [[[x|e] ws] sq].
    + by eapply (IH (Ok x)) in Hr.
    + left. by eapply run_aborted.
Qed.

Definition drift : db -> db -> Prop := rtc (fun d d' => exists L, R L d d').

Lemma run_drift o {A} (p : prog A) w s a w' s' :
  (forall n L d, R L d (others o n L d)) ->
  run o p w s = (a, w', s') -> drift (w_db w) (w_db w').
Proof.
  intros Ho. revert w s; induction p as [x|k IH|X q k IH]; intros w s; simpl.
  - by intros [= _ <- _].
  - apply (IH _ (next_id w)).
  - intros Hr. eapply rtc_l; [exists (s_log s); apply (Ho (w_trips w))|].
    destruct (s_aborted s); [by apply IH in Hr|].
    destruct (fault o (w_trips w)); [by apply IH in Hr|].
    destruct (q _ _ _) as [[[x|e] ws] sq]; by apply IH in Hr.
Qed.

(** A transaction of the program, any interference and any failure: either the
    others alone have moved the database, or its whole log was committed on top
    of a state in which the postcondition held. *)
Lemma WithTx_cases o {A} (fn : tx A) w r w' Q :
  (forall n L d, R L d (others o n L d)) ->
  (forall d, R [] (w_db w) d -> wp R fn [] d Q) ->
  WithTx o fn w = (r, w') ->
  exists d', drift (w_db w) d' /\
    ((is_ok r = false /\ w_db w' = d') \/
     exists a L d, Q (Ok a) L d /\ R L d d' /\ w_db w' = apply_writes d' L /\
       (is_ok r = true -> r = Ok a)).
Proof.
  intros Ho Hwp. unfold WithTx.
  assert (R [] (w_db w) (w_db (round_trip o [] w))) as H0 by apply Ho.
  destruct (fault o (w_trips w)).
  { intros [= <- <-]. eexists. split; [|by left]. eapply rtc_once; eauto. }
  destruct (run o fn _ _) as [[r1 w2] s] eqn:E.
  pose proof (run_drift o _ _ _ _ _ _ Ho E) as Hd.
  destruct (run_wp o _ _ _ Q _ _ _ Ho E eq_refl (Hwp _ H0)) as [Ha|HQ].
  - destruct r1; [rewrite Ha|]; intros [= <- <-]; (eexists; split; [|by left]).
    + eapply rtc_l; [eexists; exact H0|]. eapply rtc_r; [exact Hd|].
      exists (s_log s); apply Ho.
    + eapply rtc_l; [eexists; exact H0|exact Hd].
  - destruct r1 as [a|e].
    + assert (drift (w_db w) (w_db (round_trip o (s_log s) w2))) as Hd'.
      { eapply rtc_l; [eexists; exact H0|]. eapply rtc_r; [exact Hd|].
        exists (s_log s); apply Ho. }
      assert (exists L d, Q (Ok a) L d /\ R L d (w_db (round_trip o (s_log s) w2)) /\
              apply_writes (w_db (round_trip o (s_log s) w2)) (s_log s) =
              apply_writes (w_db (round_trip o (s_log s) w2)) L) as Hc.
      { exists (s_log s), (w_db w2). split_and!; [done|apply Ho|done]. }
      destruct Hc as (L & d & H1 & H2 & H3).
      destruct (s_aborted s); [intros [= <- <-]; eauto 6|].
      destruct (commit_fate o (w_trips w2)); intros [= <- <-]; simpl; eauto 6.
      * eexists. split; [exact Hd'|]. right. by exists a, L, d.
      * eexists. split; [exact Hd'|]. right. by exists a, L, d.
    + intros [= <- <-]. eexists. split; [|by left].
      eapply rtc_l; [eexists; exact H0|exact Hd].
Qed.

(** An execution satisfies every postcondition that [wp] promises, and is itself the
    strongest one. *)
Lemma completes_wp {A} (p : prog A) L d a L' d' (Q : A -> list write -> db -> Prop) :
  completes R p L d a L' d' -> wp R p L d Q -> Q a L' d'.
Proof.
  revert L d; induction p as [x|k IH|X q k IH]; intros L d; simpl.
  - by intros (-> & -> & ->).
  - intros [id Hk] Hw. by eapply IH.
  - intros (d1 & now & sq & x & ws & sq' & HR & E & Hk) Hw. specialize (Hw d1 now sq HR).
    rewrite E in Hw. by eapply IH.
Qed.

Lemma wp_completes {A} (p : prog A) L d : wp R p L d (completes R p L d).
Proof.
  revert L d; induction p as [x|k IH|X q k IH]; intros L d; simpl; [done|..].
  - intros id. eapply wp_mono; [apply IH|]. simpl. eauto.
  - intros d1 now sq HR. destruct (q _ _ _) as [[[x|e] ws] sq'] eqn:E; [|done].
    eapply wp_mono; [apply IH|]. intros a L' d' Hk. by exists d1, now, sq, x, ws, sq'.
Qed.

Lemma completes_tx_bind {A B} (p : tx A) (f : A -> tx B) L d b L' d' :
  completes R (p ≫= f) L d (Ok b) L' d' ->
  exists a L1 d1, completes R p L d (Ok a) L1 d1 /\ completes R (f a) L1 d1 (Ok b) L' d'.
Proof.
  unfold mbind, tx_bind. revert L d. induction p as [[a|e]|k IH|X q k IH]; intros L d; simpl.
  - intros H. by exists a, L, d.
  - by intros [? _].
  - intros [id Hk]. destruct (IH _ _ _ Hk) as (a & L1 & d1 & H1 & H2). by eauto 6.
  - intros (d1 & now & sq & x & ws & sq' & HR & E & Hk).
    destruct (IH _ _ _ Hk) as (a & L1 & d2 & H1 & H2). exists a, L1, d2. split; [|done].
    by exists d1, now, sq, x, ws, sq'.
Qed.

Lemma completes_exec {X} (q : stmt X) f L d r L' d' :
  completes R (exec q f) L d r L' d' ->
  exists now sq x ws sq', R L d d' /\ q now sq (apply_writes d' L) = (Ok x, ws, sq') /\
    r = Ok x /\ L' = L ++ ws.
Proof.
  intros (d1 & now & sq & x & ws & sq' & HR & E & <- & <- & <-).
  by exists now, sq, x, ws, sq'.
Qed.

(** While it runs the others have moved the state, knowing at least its first log. *)
Lemma completes_moves {A} (p : prog A) L d a L' d' :
  completes R p L d a L' d' -> rtc (fun x y => exists L2, L `prefix_of` L2 /\ R L2 x y) d d'.
Proof. intros Hp. exact (proj2 (completes_wp _ _ _ _ _ _ _ Hp (wp_extends p L d))). Qed.

Lemma completes_drift {A} (p : prog A) L d a L' d' : completes R p L d a L' d' -> drift d d'.
Proof.
  intros Hp%completes_moves. eapply rtc_subrel; [|exact Hp]. intros x y (L2 & _ & HR). by exists L2.
Qed.

(** A transaction, with the execution that it commits. *)
Lemma WithTx_completes o {A} (fn : tx A) w r w' :
  (forall n L d, R L d (others o n L d)) -> WithTx o fn w = (r, w') ->
  exists d', drift (w_db w) d' /\
    ((is_ok r = false /\ w_db w' = d') \/
     exists a L d0 d, R [] (w_db w) d0 /\ completes R fn [] d0 (Ok a) L d /\ R L d d' /\
       w_db w' = apply_writes d' L /\ (is_ok r = true -> r = Ok a)).
Proof.
  intros Ho E.
  destruct (WithTx_cases o fn w r w' (fun a L d => exists d0, R [] (w_db w) d0 /\ completes R fn [] d0 a L d) Ho)
    as (d' & Hd & H); [|exact E|].
  { intros d HR. eapply wp_mono; [apply wp_completes|]. intros a L d1 Hc. by exists d. }
  exists d'. split; [done|]. destruct H as [H|(a & L & d & (d0 & H0 & Hc) & HR & Hw & Ha)]; [by left|].
  right. by exists a, L, d0, d.
Qed.
End wp_lemmas.

(** Others that do less. *)
Lemma wp_weaken_rely (R R' : list write -> db -> db -> Prop) {A} (p : prog A) L d
    (Q : A -> list write -> db -> Prop) :
  (forall L d d', R' L d d' -> R L d d') -> wp R p L d Q -> wp R' p L d Q.
Proof.
  intros HR. revert L d; induction p as [a|k IH|X q k IH]; intros L d; simpl; [done|by eauto|].
  intros H d' now sq Hd. specialize (H d' now sq (HR _ _ _ Hd)).
  destruct (q _ _ _) as [[[x|e] ws] ?]; [by apply IH|done].
Qed.

(** ** Total correctness on a calm connection

    [does o now p d Q]: run with no fault and nobody interfering, in any session that
    sees [d] and began at [now], [p] succeeds, and its result and what it adds to
    the log satisfy [Q]. *)
Definition calm (o : oracle) : Prop :=
  (forall n, fault o n = None) /\ (forall n L d, others o n L d = d).

Definition does (o : oracle) (now : Time) {A} (p : tx A) (d : db) (Q : A -> list write -> Prop) :
    Prop :=
  forall w s, s_aborted s = false -> s_now s = now -> view w s = d ->
  exists a L w' s', run o p w s = (Ok a, w', s') /\ w_db w' = w_db w /\
    s_log s' = s_log s ++ L /\ s_aborted s' = false /\ s_now s' = now /\ Q a L.

Section does_lemmas.
Context (o : oracle) (now : Time) (Hcalm : calm o).

Lemma does_ret {A} (a : A) d (Q : A -> list write -> Prop) : Q a [] -> does o now (mret a) d Q.
Proof.
  intros HQ w s Ha Hn _. exists a, [], w, s. rewrite app_nil_r. done.
Qed.

Lemma does_mono {A} (p : tx A) d (Q Q' : A -> list write -> Prop) :
  does o now p d Q -> (forall a L, Q a L -> Q' a L) -> does o now p d Q'.
Proof.
  intros Hp HQ w s Ha Hn Hv. destruct (Hp w s Ha Hn Hv) as (a & L & w' & s' & H).
  exists a, L, w', s'. naive_solver.
Qed.

Lemma does_bind {A B} (p : tx A) (f : A -> tx B) d (Q : A -> list write -> Prop)
    (Q' : B -> list write -> Prop) :
  does o now p d Q ->
  (forall a L, Q a L -> does o now (f a) (apply_writes d L) (fun b L' => Q' b (L ++ L'))) ->
  does o now (p ≫= f) d Q'.
Proof.
  intros Hp Hf w s Ha Hn Hv. destruct (Hp w s Ha Hn Hv) as (a & L & w1 & s1 & E & Hw & Hl & Ha1 & Hn1 & HQ).
  assert (view w1 s1 = apply_writes d L) as Hv1
    by (unfold view in *; by rewrite Hl, Hw, apply_writes_app, Hv).
  destruct (Hf a L HQ w1 s1 Ha1 Hn1 Hv1) as (b & L' & w2 & s2 & E2 & Hw2 & Hl2 & Ha2 & Hn2 & HQ').
  exists b, (L ++ L'), w2, s2. rewrite run_tx_bind, E. split_and!; try done.
  - by rewrite Hw2.
  - by rewrite Hl2, Hl, app_assoc.
Qed.

(** A pure step first. *)
Lemma does_lift_bind {A B} (r : res A) a (f : A -> tx B) d (Q : B -> list write -> Prop) :
  r = Ok a -> does o now (f a) d Q -> does o now (lift r ≫= f) d Q.
Proof. by intros ->. Qed.

Lemma does_exec {X} (q : stmt X) f d (Q : X -> list write -> Prop) :
  (forall sq, exists x ws sq', q now sq d = (Ok x, ws, sq') /\ Q x ws) ->
  does o now (exec q f) d Q.
Proof.
  intros Hq w s Ha Hn Hv. destruct Hcalm as [Hf Ho].
  destruct (Hq (w_seqs w)) as (x & ws & sq' & E & HQ).
  rewrite run_exec by (unfold healthy; by rewrite Ha, Hf). cbv zeta.
  assert (view (round_trip o (s_log s) w) s = d) as -> by (unfold view in *; simpl; by rewrite Ho).
  rewrite Hn, E. do 4 eexists. split_and!; [reflexivity|simpl; by rewrite Ho|done..].
Qed.

Lemma does_newid {A} (k : string -> tx A) d (Q : A -> list write -> Prop) :
  (forall n, does o now (k (uuid o n)) d Q) -> does o now (NewID k) d Q.
Proof.
  intros Hk w s Ha Hn Hv. destruct (Hk (w_ids w) (next_id w) s Ha Hn Hv) as (a & L & w' & s' & H).
  exists a, L, w', s'. exact H.
Qed.

(** Committed by [WithTx]. *)
Lemma WithTx_does {A} (p : tx A) (w : world) (Q : A -> list write -> Prop) :
  (forall n, commit_fate o n = Committed) -> now = clock o (w_trips w) ->
  does o now p (w_db w) Q ->
  exists a L w', WithTx o p w = (Ok a, w') /\ Q a L /\ w_db w' = apply_writes (w_db w) L.
Proof.
  intros Hc -> Hp. destruct Hcalm as [Hf Ho]. unfold WithTx. rewrite Hf.
  destruct (Hp (round_trip o [] w) {| s_now := clock o (w_trips w); s_log := []; s_aborted := false |})
    as (a & L & w' & s' & -> & Hw & Hl & Ha & _ & HQ); [done|done|unfold view; simpl; by rewrite Ho|].
  simpl in *. rewrite Ha, Hc. do 3 eexists. split; [reflexivity|]. split; [exact HQ|].
  simpl. by rewrite Ho, Hw, Ho, Hl.
Qed.
End does_lemmas.

(** Nobody else moves the database: it does not move. *)
Lemma drift_quiet d d' : drift (fun _ d d' => d' = d) d d' -> d' = d.
Proof. induction 1 as [|x y z [_ ->]]; done. Qed.

Lemma run_quiet o {A} (p : prog A) w s a w' s' :
  (forall n L d, others o n L d = d) -> run o p w s = (a, w', s') -> w_db w' = w_db w.
Proof.
  intros Ho Hr. apply drift_quiet. eapply (run_drift (fun _ d d' => d' = d)); [|exact Hr].
  intros; apply Ho.
Qed.

#[export] Hint Resolve run_aborted : saga.

(** A concrete Postgres, for evaluating the model: microseconds, any JSON, byte
    order. *)
Module PlainPostgres.
Definition micro (t : Time) : Time := t `div` 1000 * 1000.

#[export] Instance postgres : Postgres :=
  {| timestamptz := micro; interval := micro; jsonb := fun b => Ok b; collate := String.leb |}.

Lemma leb_trans x y z : String.leb x y = true -> String.leb y z = true -> String.leb x z = true.
Proof.
  unfold String.leb. revert y z; induction x as [|a x IH]; intros [|b y] [|c z]; simpl; try done.
  unfold Ascii.compare.
  destruct (N.compare_spec (Ascii.N_of_ascii a) (Ascii.N_of_ascii b)),
    (N.compare_spec (Ascii.N_of_ascii b) (Ascii.N_of_ascii c)),
    (N.compare_spec (Ascii.N_of_ascii a) (Ascii.N_of_ascii c)); try done; try lia.
  apply IH.
Qed.

#[export] Instance postgres_laws : PostgresLaws.
Proof.
  split; simpl; unfold micro.
  - intros t. by rewrite Z.div_mul.
  - intros t. pose proof (Z.mul_div_le t 1000). lia.
  - intros t u Htu. pose proof (Z.div_le_mono t u 1000). lia.
  - intros t Ht. rewrite Z.mul_comm. symmetry. by apply Z.div_exact.
  - apply String.leb_total.
  - apply leb_trans.
Qed.
End PlainPostgres.

(** A server with nothing in it, before the first round trip. *)
Definition world_of (d : db) : world :=
  {| w_db := d; w_seqs := {| events_seq := 0; outbox_seq := 0; timers_seq := 0 |};
     w_trips := 0; w_ids := 0 |}.
Definition session_at (now : Time) : session :=
  {| s_now := now; s_log := []; s_aborted := false |}.

(** ** Properties *)

(** C21: a transaction is all or nothing.  When no other session interferes,
    [WithTx] returns nil only if [fn] returned nil, no statement of it failed,
    and the whole of what it wrote is in the database; when it returns an error
    the database is unchanged, except where the commit happened and only its
    acknowledgement was lost, and then the whole of what [fn] wrote is there.
    An error of [fn] is returned as it is. *)
Theorem WithTx_all_or_nothing {A} (o : oracle) (fn : tx A) (w : world) :
  (forall n L d, others o n L d = d) ->
  let w1 := round_trip o [] w in
  let '(r1, w2, s) := run o fn w1 {| s_now := clock o (w_trips w); s_log := [];
                                     s_aborted := false |} in
  let '(r, w') := WithTx o fn w in
  match r with
  | Ok a => r1 = Ok a /\ s_aborted s = false /\ w_db w' = apply_writes (w_db w) (s_log s)
  | Err e =>
      w_db w' = w_db w \/
      (exists x, commit_fate o (w_trips w2) = CommitUnacknowledged x) /\
      is_ok r1 = true /\ s_aborted s = false /\ w_db w' = apply_writes (w_db w) (s_log s)
  end /\
  (fault o (w_trips w) = None -> forall e, r1 = Err e -> r = Err e).
Proof.
  intros Ho. simpl.
  destruct (run o fn _ _) as [[r1 w2] s] eqn:E.
  assert (w_db w2 = w_db w) as Hw2 by (apply run_quiet in E; [simpl in E; congruence|done]).
  unfold WithTx. rewrite E.
  destruct (fault o (w_trips w)).
  { simpl. rewrite Ho. split; [by left|done]. }
  destruct r1 as [a|e]; simpl.
  - destruct (s_aborted s) eqn:Hs; [|destruct (commit_fate o (w_trips w2)) eqn:Hc]; simpl.
    all: rewrite ?Ho, Hw2; (split; [|done]); eauto 8.
  - split; [by left|]. by intros _ ? [= ->].
Qed.

Lemma WithTx_all_or_nothing_witness :
  let q : stmt unit := fun _ sq _ => (Ok tt, [WNotify "outbox"], sq) in
  let o := quiet 7 (fun _ => "id") in
  let w := world_of empty_db in
  fst (WithTx o (exec q (fun e => e)) w) = Ok tt /\
  notified (w_db (snd (WithTx o (exec q (fun e => e)) w))) = ["outbox"].
Proof.
  intros q o w. split; [reflexivity|].
  pose proof (WithTx_all_or_nothing o (exec q (fun e => e)) w (fun _ _ _ => eq_refl)) as H.
  destruct H as [[_ [_ H]] _]. vm_compute in H. vm_compute. exact (f_equal notified H).
Defined.
