(* ===== verification/EventStore.v ===== *)
(** * Event store ([internal/platform/eventstore])

    [Append] and [Load] of [eventstore.go] with their SQL, and [Streams].  The
    [meta] column is JSON built by [encoding/json] from the struct tags, modelled
    as a JSON object of strings.  Theorems: when an append conflicts, what a load
    after an append returns, that versions stay gapless, and that of two appends
    folded from the same version only one can win. *)
From S2P Require Import Prelude Envelope Database.

Definition ErrVersionConflict : err := ESentinel "eventstore: version conflict".
Definition uniqueViolation : string := "23505".

Record Meta := {
  TraceID : string;
  CorrelationID : string;
  CausationID : string;
}.

Record Event := {
  evt_Type : string;
  evt_Data : bytes;
  evt_Meta : Meta;
}.

Record Recorded := {
  rec_Event : Event;
  rec_StreamID : string;
  rec_Version : Z;
  rec_GlobalSeq : Z;
  rec_RecordedAt : Time;
}.

#[global] Instance Meta_eq_dec : EqDecision Meta.
Proof. solve_decision. Defined.
#[global] Instance Event_eq_dec : EqDecision Event.
Proof. solve_decision. Defined.
#[global] Instance Recorded_eq_dec : EqDecision Recorded.
Proof. solve_decision. Defined.

Definition no_meta : Meta := {| TraceID := ""; CorrelationID := ""; CausationID := "" |}.

(** [Event.validate] *)
Definition validate (e : Event) : res unit :=
  if bool_decide (evt_Type e = "") then Err (ENew "no type")
  else if bool_decide (evt_Data e = []) then Err (ENew "no data")
  else Ok tt.

(** [json.Marshal] and [json.Unmarshal] of a [Meta]: [omitempty] leaves an empty
    field out, an absent key leaves the field empty. *)
Definition marshal_meta (m : Meta) : gmap string string :=
  foldl set_nonempty ∅
    [("trace_id", TraceID m); ("correlation_id", CorrelationID m);
     ("causation_id", CausationID m)].

Definition unmarshal_meta (j : gmap string string) : Meta :=
  {| TraceID := header j "trace_id"; CorrelationID := header j "correlation_id";
     CausationID := header j "causation_id" |}.

(** The version column is [INT]. *)
Definition int4 (v : Z) : bool := (- 2 ^ 31 <=? v) && (v <? 2 ^ 31).

Definition version_taken (streamID : string) (v : Z) (rows : list event_row) : bool :=
  existsb (fun r => bool_decide (ev_stream_id r = streamID) && (ev_version r =? v)) rows.

Abbreviation event_args := (string * list Byte.byte * gmap string string)%type (only parsing).

Section eventstore.
Context `{PG : Postgres}.

(** The rows of one [INSERT], numbered from [v+1] by [WITH ORDINALITY], each
    checked as it is inserted. *)
Fixpoint insert_events (now : Time) (streamID : string) (v : Z) (sq : seqs)
    (taken : list event_row) (rows : list event_args) : res (list event_row) * seqs :=
  match rows with
  | [] => (Ok [], sq)
  | (type, data, meta) :: rows =>
      let sq := {| events_seq := events_seq sq + 1; outbox_seq := outbox_seq sq;
                   timers_seq := timers_seq sq |} in
      let v := v + 1 in
      if negb (int4 v) then (Err (EPg "22003" "integer out of range"), sq)
      else if version_taken streamID v taken then
        (Err (EPg uniqueViolation "duplicate key value violates unique constraint"), sq)
      else
        match insert_events now streamID v sq taken rows with
        | (Err e, sq) => (Err e, sq)
        | (Ok rs, sq') =>
            (Ok ({| ev_global_seq := events_seq sq; ev_stream_id := streamID;
                    ev_version := v; ev_type := type; ev_data := data; ev_meta := meta;
                    ev_recorded_at := timestamptz now |} :: rs), sq')
        end
  end.

(** The cast of the arguments to [jsonb[]]. *)
Definition cast_jsonb (_ : nat) (r : event_args) : res event_args :=
  match jsonb r.1.2 with
  | Ok b => Ok (r.1.1, b, r.2)
  | Err e => Err e
  end.

Definition appendSQL (streamID : string) (expectedVersion : Z) (rows : list event_args) :
    stmt unit := fun now sq d =>
  match traverse cast_jsonb 0 rows with
  | Err e => (Err e, [], sq)
  | Ok rows =>
      match insert_events now streamID expectedVersion sq (events d) rows with
      | (Err e, sq) => (Err e, [], sq)
      | (Ok rs, sq) => (Ok tt, WEvent <$> rs, sq)
      end
  end.

(** One turn of the loop of [Append] that collects the arguments. *)
Definition append_args (i : nat) (e : Event) : res event_args :=
  match validate e with
  | Err x =>
      Err (EWrap ("eventstore: event " +:+ Itoa (Z.of_nat i) +:+ " (" +:+
                  Quote (evt_Type e) +:+ "): " +:+ Error x)%string x)
  | Ok _ => Ok (evt_Type e, evt_Data e, marshal_meta (evt_Meta e))
  end.

Definition append_error (streamID : string) (expectedVersion : Z) (e : err) : err :=
  if bool_decide (errors_As_pg e = Some uniqueViolation) then ErrVersionConflict
  else EWrap ("eventstore: append to " +:+ streamID +:+ " at " +:+ Itoa expectedVersion +:+
              ": " +:+ Error e)%string e.

Definition Append (streamID : string) (expectedVersion : Z) (evts : list Event) : tx unit :=
  if bool_decide (evts = []) then mret tt
  else
    rows ← lift (traverse append_args 0 evts);
    exec (appendSQL streamID expectedVersion rows) (append_error streamID expectedVersion).

Definition loadSQL (streamID : string) : stmt (list event_row) := fun _ sq d =>
  (Ok (order_by (by_key ev_version) (filter (fun r => ev_stream_id r = streamID) (events d))),
   [], sq).

(** One turn of the loop of [Load]: a row scanned and its meta unmarshalled. *)
Definition scan_event (streamID : string) (r : event_row) : Recorded :=
  {| rec_Event := {| evt_Type := ev_type r; evt_Data := ev_data r;
                     evt_Meta := unmarshal_meta (ev_meta r) |};
     rec_StreamID := streamID;
     rec_Version := ev_version r;
     rec_GlobalSeq := ev_global_seq r;
     rec_RecordedAt := ev_recorded_at r |}.

Definition Load (streamID : string) : tx (list Recorded) :=
  rows ← exec (loadSQL streamID)
           (fun e => EWrap ("eventstore: load " +:+ streamID +:+ ": " +:+ Error e)%string e);
  mret (scan_event streamID <$> rows).

Definition streamsSQL : stmt (list string) := fun _ sq d =>
  (Ok (order_by collate (remove_dups (ev_stream_id <$> events d))), [], sq).

Definition Streams : tx (list string) :=
  exec streamsSQL (fun e => EWrap ("eventstore: list streams: " +:+ Error e)%string e).
End eventstore.

(** The rows of a stream, in the order they were committed. *)
Definition stream_rows (streamID : string) (d : db) : list event_row :=
  filter (fun r => ev_stream_id r = streamID) (events d).

(** The versions of a stream are 1, 2, 3, ... without a gap. *)
Definition gapless (streamID : string) (d : db) : Prop :=
  ev_version <$> stream_rows streamID d = upto 1 (length (stream_rows streamID d)).

(** The events of a stream [Load] returns from a state. *)
Definition recorded (streamID : string) (d : db) : list Recorded :=
  scan_event streamID <$> order_by (by_key ev_version) (stream_rows streamID d).

(** ** Lemmas *)
Lemma version_taken_true streamID v rows :
  version_taken streamID v rows = true <->
  exists r, r ∈ rows /\ ev_stream_id r = streamID /\ ev_version r = v.
Proof.
  unfold version_taken. rewrite existsb_exists.
  setoid_rewrite andb_true_iff. setoid_rewrite bool_decide_eq_true. setoid_rewrite Z.eqb_eq.
  by setoid_rewrite list_elem_of_In.
Qed.

Lemma stream_rows_app streamID d d' l :
  events d' = events d ++ l ->
  stream_rows streamID d' = stream_rows streamID d ++ filter (fun r => ev_stream_id r = streamID) l.
Proof. intros H. unfold stream_rows. by rewrite H, filter_app. Qed.

(** Whether a version is taken, in a gapless stream. *)
Lemma gapless_taken streamID d v :
  gapless streamID d ->
  version_taken streamID v (events d) = true <->
  1 <= v <= Z.of_nat (length (stream_rows streamID d)).
Proof.
  intros Hg. rewrite version_taken_true.
  trans (v ∈ ev_version <$> stream_rows streamID d).
  - rewrite list_elem_of_fmap. unfold stream_rows.
    setoid_rewrite list_elem_of_filter. firstorder.
  - rewrite Hg, elem_of_upto. lia.
Qed.

Lemma gapless_order streamID d :
  gapless streamID d ->
  order_by (by_key ev_version) (stream_rows streamID d) = stream_rows streamID d.
Proof. intros Hg. eapply order_by_sorted, upto_sorted. exact Hg. Qed.

Lemma unmarshal_marshal_meta m : unmarshal_meta (marshal_meta m) = m.
Proof.
  unfold unmarshal_meta, marshal_meta; cbn [foldl].
  rewrite !header_set_nonempty. unfold header. rewrite !lookup_empty.
  destruct m as [t c k]; simpl. decide_closed.
  repeat case_bool_decide; by simplify_eq/=.
Qed.

#[export] Hint Rewrite unmarshal_marshal_meta : saga_rw.

Section eventstore_lemmas.
Context `{PG : Postgres}.

(** An insert draws from the events' sequence alone. *)
Lemma insert_events_seqs now id v sq taken rows :
  let sq' := (insert_events now id v sq taken rows).2 in
  outbox_seq sq' = outbox_seq sq /\ timers_seq sq' = timers_seq sq.
Proof.
  revert v sq. induction rows as [|[[ty data] meta] rows IH]; intros v sq; [done|]. simpl.
  destruct (negb _); [done|]. destruct (version_taken _ _ _); [done|].
  match goal with |- context [insert_events now id ?v' ?sq' taken rows] => specialize (IH v' sq') end.
  by destruct (insert_events _ _ _ _ _ rows) as [[rs|e] sq'].
Qed.

Lemma insert_events_ok now streamID v sq taken rows rs sq' :
  insert_events now streamID v sq taken rows = (Ok rs, sq') ->
  ev_version <$> rs = upto (v + 1) (length rows) /\
  (fun r => (ev_type r, ev_data r, ev_meta r)) <$> rs = rows /\
  Forall (fun r => ev_stream_id r = streamID) rs /\
  Forall (fun r => version_taken streamID (ev_version r) taken = false) rs.
Proof.
  revert v sq rs sq'; induction rows as [|[[t b] m] rows IH]; intros v sq rs sq'; simpl.
  - intros [= <- <-]. done.
  - destruct (int4 (v + 1)); [|done]. destruct (version_taken _ _ _) eqn:Ht; [done|]. simpl.
    destruct (insert_events _ _ _ _ _ _) as [[rs'|e] sq''] eqn:E; [|done].
    intros [= <- <-]. apply IH in E as (Hv & Hc & Hs & Hn). simpl.
    split_and!; [by f_equal|by f_equal| |]; by constructor.
Qed.

(** The versions of inserted rows fit their column. *)
Lemma insert_events_int4 now streamID v sq taken rows rs sq' :
  insert_events now streamID v sq taken rows = (Ok rs, sq') -> rows <> [] ->
  v + Z.of_nat (length rows) < 2 ^ 31.
Proof.
  revert v sq rs sq'; induction rows as [|[[t b] m] rows IH]; intros v sq rs sq'; [done|].
  cbn [insert_events]. destruct (int4 (v + 1)) eqn:Hi; [|done]. cbn [negb].
  destruct (version_taken _ _ _); [done|].
  destruct (insert_events _ _ _ _ _ _) as [[rs'|e] sq''] eqn:E; [|done]. intros _ _.
  cbn [length]. destruct rows as [|r rows].
  - unfold int4 in Hi. simpl. lia.
  - apply IH in E; [lia|done].
Qed.

(** Why an insert of rows at [v+1], [v+2], ... raises. *)
Lemma insert_events_err now streamID v sq taken rows e sq' :
  insert_events now streamID v sq taken rows = (Err e, sq') ->
  exists u, v < u <= v + Z.of_nat (length rows) /\
    ((errors_As_pg e = Some "22003" /\ int4 u = false) \/
     (errors_As_pg e = Some uniqueViolation /\ version_taken streamID u taken = true)).
Proof.
  revert v sq; induction rows as [|[[t b] m] rows IH]; intros v sq; cbn [insert_events];
    [done|].
  destruct (int4 (v + 1)) eqn:Hi; cbn [negb].
  2:{ intros [= <- <-]. exists (v + 1). split; [cbn [length]; lia|by left]. }
  destruct (version_taken _ _ _) eqn:Ht.
  { intros [= <- <-]. exists (v + 1). split; [cbn [length]; lia|by right]. }
  destruct (insert_events _ _ _ _ _ _) as [[rs'|e'] sq''] eqn:E; [done|].
  intros [= <- <-]. apply IH in E as (u & Hu & H). exists u. split; [cbn [length]; lia|done].
Qed.

(** Nothing in the way: the insert succeeds. *)
Lemma insert_events_free now streamID v sq taken rows :
  (forall u, v < u <= v + Z.of_nat (length rows) ->
    int4 u = true /\ version_taken streamID u taken = false) ->
  exists rs sq', insert_events now streamID v sq taken rows = (Ok rs, sq').
Proof.
  intros H. destruct (insert_events _ _ _ _ _ _) as [[rs|e] sq'] eqn:E; [by eauto|].
  apply insert_events_err in E as (u & Hu & [[_ Hf]|[_ Ht]]);
    destruct (H u Hu); congruence.
Qed.
End eventstore_lemmas.

Section append_lemmas.
Context `{PG : Postgres}.

(** What a successful insert stores of the events it was given. *)
Definition stored_as (e : Event) (r : event_row) : Prop :=
  ev_type r = evt_Type e /\ jsonb (evt_Data e) = Ok (ev_data r) /\
  ev_meta r = marshal_meta (evt_Meta e).

Lemma stored_rows evts rows rows' rs :
  traverse append_args 0 evts = Ok rows -> traverse cast_jsonb 0 rows = Ok rows' ->
  (fun r => (ev_type r, ev_data r, ev_meta r)) <$> rs = rows' -> Forall2 stored_as evts rs.
Proof.
  intros [Hl1 H1]%traverse_ok_iff [Hl2 H2]%traverse_ok_iff <-. rewrite length_fmap in Hl2.
  apply Forall2_same_length_lookup_2; [congruence|]. intros i e r He Hr.
  destruct (H1 i e He) as (a & Ha & Hv). destruct (H2 i a Ha) as (b & Hb & Hc).
  rewrite list_lookup_fmap, Hr in Hb. simpl in Hb. injection Hb as <-.
  unfold append_args in Hv. destruct (validate e); [|done]. injection Hv as <-.
  unfold cast_jsonb in Hc; simpl in Hc. unfold stored_as.
  destruct (jsonb (evt_Data e)); [|done]. by injection Hc as -> -> ->.
Qed.

(** [Append] past its validation, in one equation. *)
Lemma run_Append o streamID v evts rows rows' w s :
  healthy o w s = true -> evts <> [] ->
  traverse append_args 0 evts = Ok rows -> traverse cast_jsonb 0 rows = Ok rows' ->
  run o (Append streamID v evts) w s =
  let w' := round_trip o (s_log s) w in
  match insert_events (s_now s) streamID v (w_seqs w) (events (view w' s)) rows' with
  | (Ok rs, sq) => (Ok tt, set_seqs sq w', record (WEvent <$> rs) s)
  | (Err e, sq) => (Err (append_error streamID v e), set_seqs sq w', abort s)
  end.
Proof.
  intros Hh Hne Ha Hc. unfold Append. rewrite bool_decide_eq_false_2 by done.
  rewrite run_tx_bind, run_lift, Ha, run_exec by done. unfold appendSQL. rewrite Hc. simpl.
  by destruct (insert_events _ _ _ _ _ _) as [[rs|e] sq].
Qed.

Lemma traverse_append_args_length evts rows :
  traverse append_args 0 evts = Ok rows -> length rows = length evts.
Proof. apply traverse_length. Qed.

Lemma run_Load o streamID w s :
  healthy o w s = true ->
  run o (Load streamID) w s =
  let w' := round_trip o (s_log s) w in (Ok (recorded streamID (view w' s)), w', record [] s).
Proof.
  intros Hh. unfold Load. rewrite run_tx_bind, run_exec by done. simpl. done.
Qed.

Lemma does_Load o now streamID d :
  calm o -> does o now (Load streamID) d (fun r L => r = recorded streamID d /\ L = []).
Proof.
  intros Hcalm. unfold Load. eapply does_bind.
  { apply (does_exec o now Hcalm _ _ _ (fun rows L =>
      rows = order_by (by_key ev_version) (stream_rows streamID d) /\ L = [])).
    intros sq. by do 3 eexists. }
  intros rows L [-> ->]. by apply does_ret.
Qed.

(** An append at the current version of a gapless stream. *)
Lemma does_Append o now streamID evts rows rows' d :
  calm o -> traverse append_args 0 evts = Ok rows -> traverse cast_jsonb 0 rows = Ok rows' ->
  gapless streamID d ->
  let n := Z.of_nat (length (stream_rows streamID d)) in
  n + Z.of_nat (length evts) < 2 ^ 31 ->
  does o now (Append streamID n evts) d (fun _ L =>
    exists rs, L = WEvent <$> rs /\ Forall2 stored_as evts rs /\
      Forall (fun r => ev_stream_id r = streamID) rs /\
      ev_version <$> rs = upto (n + 1) (length evts)).
Proof.
  intros Hcalm Ha Hc Hg n Hn. unfold Append.
  destruct (decide (evts = [])) as [->|Hne]; [apply does_ret; by exists []|].
  rewrite bool_decide_eq_false_2 by done.
  pose proof (traverse_length _ _ _ _ Ha) as Hl1.
  pose proof (traverse_length _ _ _ _ Hc) as Hl2.
  eapply does_lift_bind; [exact Ha|]. apply does_exec; [done|]. intros sq. unfold appendSQL. rewrite Hc.
  destruct (insert_events_free now streamID n sq (events d) rows') as (rs & sq' & E).
  { intros u Hu. split; [unfold int4; lia|]. apply not_true_iff_false.
    rewrite gapless_taken by done. lia. }
  rewrite E. do 3 eexists. split; [reflexivity|].
  apply insert_events_ok in E as (Hv & Hcol & Hst & _). exists rs. split_and!; [done| |done|].
  - by eapply stored_rows.
  - rewrite Hv. f_equal. congruence.
Qed.

(** Appending rows at the current version keeps a gapless stream gapless. *)
Lemma gapless_append streamID d d' rs :
  gapless streamID d ->
  events d' = events d ++ rs ->
  Forall (fun r => ev_stream_id r = streamID) rs ->
  ev_version <$> rs = upto (Z.of_nat (length (stream_rows streamID d)) + 1) (length rs) ->
  gapless streamID d' /\ stream_rows streamID d' = stream_rows streamID d ++ rs.
Proof.
  intros Hg He Hs Hv.
  assert (stream_rows streamID d' = stream_rows streamID d ++ rs) as Hr.
  { rewrite (stream_rows_app _ _ _ rs) by done. f_equal. by apply list_filter_all. }
  split; [|done]. unfold gapless. rewrite Hr, fmap_app, length_app, upto_app.
  f_equal; [exact Hg|]. rewrite Hv. f_equal. lia.
Qed.
End append_lemmas.

#[export] Hint Resolve traverse_append_args_length : saga.

(** ** Properties *)
Section append_property.
Context `{PG : Postgres}.

(** C20: appending at the current version works, and a load in the same
    transaction returns what was there followed by the new events, at the next
    versions, in the order they were given: same type, same metadata, and the data
    the database's JSON form of what was given. *)
Theorem Append_then_Load (o : oracle) (streamID : string) (evts : list Event) rows rows'
    (w : world) (s : session) :
  healthy o w s = true -> (forall n L d, others o n L d = d) ->
  fault o (S (w_trips w)) = None ->
  evts <> [] -> traverse append_args 0 evts = Ok rows -> traverse cast_jsonb 0 rows = Ok rows' ->
  let n := length (stream_rows streamID (view w s)) in
  gapless streamID (view w s) -> Z.of_nat n + Z.of_nat (length evts) < 2 ^ 31 ->
  exists new w' s',
    run o (_ ← Append streamID (Z.of_nat n) evts; Load streamID) w s =
      (Ok (recorded streamID (view w s) ++ new), w', s') /\
    rec_Version <$> new = upto (Z.of_nat n + 1) (length evts) /\
    Forall2 (fun e r => evt_Type (rec_Event r) = evt_Type e /\
                        evt_Meta (rec_Event r) = evt_Meta e /\
                        jsonb (evt_Data e) = Ok (evt_Data (rec_Event r)) /\
                        rec_StreamID r = streamID) evts new /\
    gapless streamID (view w' s').
Proof.
  intros Hh Ho Hf Hne Ha Hc n Hg Hn.
  pose proof (traverse_length _ _ _ _ Ha) as Hl1.
  pose proof (traverse_length _ _ _ _ Hc) as Hl2.
  rewrite run_tx_bind, (run_Append o streamID _ evts rows rows') by done. cbv zeta.
  assert (view (round_trip o (s_log s) w) s = view w s) as -> by (unfold view; simpl; by rewrite Ho).
  destruct (insert_events_free (s_now s) streamID (Z.of_nat n) (w_seqs w)
              (events (view w s)) rows') as (rs & sq & E).
  { intros u Hu. split; [unfold int4; lia|]. apply not_true_iff_false.
    rewrite gapless_taken by done. lia. }
  rewrite E. cbv iota. apply insert_events_ok in E as (Hv & Hcol & Hst & _).
  assert (length rs = length rows') as Hl3 by (by rewrite <- Hcol, length_fmap).
  rewrite run_Load; [|unfold healthy in *; simpl; rewrite Hf; by destruct (s_aborted s)].
  simpl. set (w2 := round_trip o _ _). set (s2 := record _ _).
  assert (view w2 s2 = apply_writes (view w s) (WEvent <$> rs)) as Hw2.
  { unfold w2, s2. rewrite view_record. unfold view; simpl. by rewrite !Ho. }
  assert (events (view w2 s2) = events (view w s) ++ rs) as Hev by (rewrite Hw2, apply_event_rows; done).
  destruct (gapless_append streamID (view w s) (view w2 s2) rs) as [Hg2 Hr2]; [done..| |].
  { rewrite Hv. f_equal. congruence. }
  exists (scan_event streamID <$> rs). do 2 eexists. split; [|split_and!].
  - unfold recorded. rewrite gapless_order, gapless_order by done. rewrite Hr2, fmap_app. done.
  - rewrite <- list_fmap_compose. change (rec_Version ∘ scan_event streamID) with ev_version.
    rewrite Hv. f_equal. congruence.
  - rewrite Forall2_fmap_r. eapply Forall2_impl; [by eapply stored_rows|].
    intros e r (Ht & Hj & Hm); simpl. by rewrite Hm, unmarshal_marshal_meta.
  - by rewrite view_record.
Qed.

End append_property.

Module Samples.
Import PlainPostgres.
Definition seat : string := "seat-BA117-2026-09-01-14A".
Definition held : Event :=
  {| evt_Type := "sagaflow.inventory.v1.SeatHeld"; evt_Data := [Byte.x7b; Byte.x7d];
     evt_Meta := {| TraceID := ""; CorrelationID := "saga-1"; CausationID := "cmd-1" |} |}.
Definition held_args : event_args := (evt_Type held, evt_Data held, marshal_meta (evt_Meta held)).
Definition held_row : event_row :=
  {| ev_global_seq := 1; ev_stream_id := seat; ev_version := 1; ev_type := evt_Type held;
     ev_data := evt_Data held; ev_meta := marshal_meta (evt_Meta held); ev_recorded_at := 0 |}.
Definition one_event : db := apply_writes empty_db [WEvent held_row].
Definition o : oracle := quiet 5 (fun _ => "id").
End Samples.

Section conflict_property.
Context `{PG : Postgres}.

(** C19: a writer whose state is stale loses.  Appending at a version the stream is
    already past returns exactly [ErrVersionConflict], writes nothing, and leaves
    the transaction unable to commit. *)
Theorem Append_stale_conflicts (o : oracle) (streamID : string) (v : Z) (evts : list Event)
    rows rows' (w : world) (s : session) :
  healthy o w s = true -> evts <> [] ->
  traverse append_args 0 evts = Ok rows -> traverse cast_jsonb 0 rows = Ok rows' ->
  let d := view (round_trip o (s_log s) w) s in
  gapless streamID d ->
  0 <= v < Z.of_nat (length (stream_rows streamID d)) -> v < 2 ^ 31 - 1 ->
  exists w' s', run o (Append streamID v evts) w s = (Err ErrVersionConflict, w', s') /\
    s_aborted s' = true /\ s_log s' = s_log s /\ w_db w' = w_db (round_trip o (s_log s) w).
Proof.
  intros Hh Hne Ha Hc d Hg Hv Hmax.
  rewrite (run_Append o streamID v evts rows rows') by done. cbv zeta. fold d.
  pose proof (traverse_length _ _ _ _ Ha) as Hl1.
  pose proof (traverse_length _ _ _ _ Hc) as Hl2.
  destruct rows' as [|[[t b] m] rows']; [destruct evts; [done|simpl in *; lia]|].
  cbn [insert_events].
  assert (int4 (v + 1) = true) as -> by (unfold int4; lia).
  assert (version_taken streamID (v + 1) (events d) = true) as ->
    by (apply gapless_taken; [done|lia]).
  do 2 eexists. split.
  { unfold append_error. decide_closed. reflexivity. }
  done.
Qed.

(** An empty append does nothing; and an event with no type or no data is
    refused before anything is sent to the database. *)
Theorem Append_validates (o : oracle) (streamID : string) (v : Z) (evts : list Event)
    (w : world) (s : session) :
  (run o (Append streamID v []) w s = (Ok tt, w, s)) /\
  (forall e, e ∈ evts -> is_ok (validate e) = false ->
   exists x, run o (Append streamID v evts) w s = (Err x, w, s)).
Proof.
  split; [done|]. intros e He Hv. unfold Append.
  rewrite bool_decide_eq_false_2 by (by intros ->; apply elem_of_nil in He).
  rewrite run_tx_bind, run_lift.
  destruct (traverse append_args 0 evts) as [rows|x] eqn:E; [|by eauto].
  apply traverse_ok_iff in E as [_ E]. apply list_elem_of_lookup in He as [i Hi].
  destruct (E i e Hi) as (y & _ & Hy). unfold append_args in Hy.
  by destruct (validate e).
Qed.
End conflict_property.

Import Samples PlainPostgres.

Lemma Append_then_Load_witness :
  exists new w' s',
    run o (_ ← Append seat 1 [held]; Load seat) (world_of one_event) (session_at 5) =
      (Ok (recorded seat one_event ++ new), w', s') /\ rec_Version <$> new = [2].
Proof.
  destruct (Append_then_Load o seat [held] [held_args] [held_args] (world_of one_event)
    (session_at 5)) as (new & w' & s' & H1 & H2 & _);
    [reflexivity|done|reflexivity|done|reflexivity|reflexivity|reflexivity|reflexivity|].
  exists new, w', s'. split; [exact H1|exact H2].
Defined.

Lemma Append_stale_conflicts_witness :
  exists w' s',
    run o (Append seat 0 [held]) (world_of one_event) (session_at 5) =
      (Err ErrVersionConflict, w', s') /\ s_aborted s' = true.
Proof.
  destruct (Append_stale_conflicts o seat 0 [held] [held_args] [held_args]
    (world_of one_event) (session_at 5)) as (w' & s' & H1 & H2 & _);
    [reflexivity|done|reflexivity|reflexivity|reflexivity|vm_compute; split; congruence|
     reflexivity|].
  exists w', s'. split; [exact H1|exact H2].
Defined.

Lemma Append_validates_witness :
  let bad := {| evt_Type := ""; evt_Data := []; evt_Meta := no_meta |} in
  exists x, run o (Append seat 0 [held; bad]) (world_of empty_db) (session_at 5) =
    (Err x, world_of empty_db, session_at 5).
Proof.
  intros bad. apply (Append_validates o seat 0 [held; bad] _ _) with bad; [|reflexivity].
  apply elem_of_cons. right. apply elem_of_cons. by left.
Defined.

(** Two loads in one transaction can disagree: another session's commit between
    them is seen by the second.  What makes an append after a load safe is that its
    version is then taken, not the transaction. *)
Theorem loads_can_differ :
  exists o w s r1 r2 w' s',
    run o (a ← Load seat; b ← Load seat; mret (a, b)) w s = (Ok (r1, r2), w', s') /\
    s_aborted s' = false /\ r1 <> r2.
Proof.
  exists {| fault := fun _ => None; commit_fate := fun _ => Committed;
            others := fun n _ d => if (n =? 1)%nat then one_event else d;
            clock := fun _ => 0; uuid := fun _ => "" |}, (world_of empty_db), (session_at 0).
  eexists [], [scan_event seat held_row], _, _.
  split; [reflexivity|]. split; [reflexivity|discriminate].
Qed.
