(* ===== verification/Inbox.v ===== *)
(** * Inbox ([internal/platform/inbox/inbox.go])

    [MarkConsumed] records a delivery in the transaction that applies it, and
    [Prune] deletes old records.  Theorems: a delivery is new exactly once, a
    duplicate leaves the transaction healthy, and pruning removes only rows older
    than the horizon. *)
From S2P Require Import Prelude Database.

Section inbox.
Context `{PG : Postgres}.

(** [INSERT ... ON CONFLICT DO NOTHING], with the number of rows affected. *)
Definition markSQL (consumer source eventID : string) : stmt Z := fun now sq d =>
  match inbox d !! (consumer, source, eventID) with
  | Some _ => (Ok 0, [], sq)
  | None => (Ok 1, [WInbox (consumer, source, eventID) (timestamptz now)], sq)
  end.

Definition MarkConsumed (consumer source eventID : string) : tx bool :=
  if bool_decide (consumer = "") || bool_decide (source = "") || bool_decide (eventID = "") then
    fail (ENew ("inbox: consumer, source and event_id are all required (got " +:+
                Quote consumer +:+ ", " +:+ Quote source +:+ ", " +:+ Quote eventID +:+ ")")%string)
  else
    affected ← exec (markSQL consumer source eventID)
      (fun e => EWrap ("inbox: mark " +:+ source +:+ "/" +:+ eventID +:+ " for " +:+ consumer +:+
                       ": " +:+ Error e)%string e);
    mret (bool_decide (affected = 1)).

(** [DELETE FROM inbox WHERE handled_at < now() - $1::interval] *)
Definition pruneSQL (olderThan : Duration) : stmt Z := fun now sq d =>
  let old := filter (fun kt : inbox_key * Time => kt.2 < now - interval olderThan)
               (map_to_list (inbox d)) in
  (Ok (Z.of_nat (length old)), [WDeleteInbox old.*1], sq).

Definition Prune (o : oracle) (olderThan : Duration) : world -> res Z * world :=
  pool_exec o (pruneSQL olderThan) (fun e => EWrap ("inbox: prune: " +:+ Error e)%string e).
End inbox.

(** A delivery the inbox can record. *)
Definition deliverable (consumer source eventID : string) : bool :=
  bool_decide (consumer <> "") && bool_decide (source <> "") && bool_decide (eventID <> "").

(** ** Lemmas *)
Section inbox_lemmas.
Context `{PG : Postgres}.

Lemma run_MarkConsumed o c src id w s :
  deliverable c src id = true -> healthy o w s = true ->
  run o (MarkConsumed c src id) w s =
  let w' := round_trip o (s_log s) w in
  match inbox (view w' s) !! (c, src, id) with
  | Some _ => (Ok false, w', record [] s)
  | None => (Ok true, w', record [WInbox (c, src, id) (timestamptz (s_now s))] s)
  end.
Proof.
  unfold deliverable. rewrite !andb_true_iff, !bool_decide_eq_true.
  intros [[Hc Hs] Hi] Hh. unfold MarkConsumed.
  rewrite !bool_decide_eq_false_2 by done. cbn [orb].
  rewrite run_tx_bind, run_exec by done. unfold markSQL. cbv zeta.
  by destruct (inbox _ !! _).
Qed.

Lemma MarkConsumed_refuses o c src id w s :
  deliverable c src id = false -> exists e, run o (MarkConsumed c src id) w s = (Err e, w, s).
Proof.
  unfold deliverable, MarkConsumed. intros H.
  destruct (bool_decide (c = "") || bool_decide (src = "") || bool_decide (id = "")) eqn:E;
    [by eexists|].
  exfalso. rewrite !orb_false_iff, !bool_decide_eq_false in E.
  rewrite !andb_false_iff, !bool_decide_eq_false in H. tauto.
Qed.

Lemma does_MarkConsumed o now c src id d :
  calm o -> deliverable c src id = true ->
  does o now (MarkConsumed c src id) d (fun first L =>
    match inbox d !! (c, src, id) with
    | Some _ => first = false /\ L = []
    | None => first = true /\ L = [WInbox (c, src, id) (timestamptz now)]
    end).
Proof.
  intros Hcalm Hd. unfold deliverable in Hd. rewrite !andb_true_iff, !bool_decide_eq_true in Hd.
  destruct Hd as [[Hc Hs] Hi]. unfold MarkConsumed. rewrite !bool_decide_eq_false_2 by done.
  cbn [orb]. eapply does_bind.
  { apply (does_exec o now Hcalm _ _ _ (fun n L => (n, L) = match inbox d !! (c, src, id) with
      | Some _ => (0, []) | None => (1, [WInbox (c, src, id) (timestamptz now)]) end)).
    intros sq. unfold markSQL. destruct (inbox d !! _); by do 3 eexists. }
  intros n L HL. apply does_ret. rewrite app_nil_r.
  destruct (inbox d !! _); by injection HL as -> ->.
Qed.
End inbox_lemmas.

#[export] Hint Resolve MarkConsumed_refuses : saga.

(** ** Properties *)
Section properties.
Context `{PG : Postgres}.

(** Consume-once.  A delivery with no record is reported new and recorded; one
    already recorded, by an earlier transaction or by this one, is reported a
    duplicate without writing anything; either way no error is raised, so the
    transaction stays able to commit.  A delivery that lacks one of the three
    names is refused before the database is asked. *)
Theorem MarkConsumed_once (o : oracle) (c src id : string) (w : world) (s : session) :
  healthy o w s = true ->
  let '(r, w', s') := run o (MarkConsumed c src id) w s in
  if deliverable c src id then
    s_aborted s' = false /\ is_Some (inbox (view w' s') !! (c, src, id)) /\
    match inbox (view (round_trip o (s_log s) w) s) !! (c, src, id) with
    | None => r = Ok true
    | Some _ => r = Ok false /\ s_log s' = s_log s
    end
  else is_ok r = false /\ w' = w /\ s' = s.
Proof.
  intros Hh. destruct (deliverable c src id) eqn:Hd.
  - rewrite run_MarkConsumed by done. cbv zeta.
    assert (s_aborted s = false) as Ha by (unfold healthy in Hh; by destruct (s_aborted s)).
    destruct (inbox _ !! _) eqn:E; rewrite view_record; simpl.
    + rewrite E, app_nil_r. by eauto.
    + rewrite lookup_insert_eq. by eauto.
  - destruct (MarkConsumed_refuses o c src id w s Hd) as [e ->]. done.
Qed.

(** Pruning keeps every row younger than the horizon, deletes every older one,
    reports how many it deleted, and touches no other table. *)
Theorem Prune_horizon (now : Time) (sq : seqs) (d : db) (olderThan : Duration) :
  let '(r, ws, _) := pruneSQL olderThan now sq d in
  let d' := apply_writes d ws in
  (forall k t, inbox d !! k = Some t ->
     inbox d' !! k = if bool_decide (t < now - interval olderThan) then None else Some t) /\
  (forall k, inbox d !! k = None -> inbox d' !! k = None) /\
  (exists n, r = Ok (Z.of_nat n) /\ (size (inbox d') + n = size (inbox d))%nat) /\
  events d' = events d /\ outbox d' = outbox d /\ timers d' = timers d.
Proof.
  simpl. set (old := filter _ _).
  assert (forall k t, inbox d !! k = Some t ->
    k ∈ old.*1 <-> t < now - interval olderThan) as Hold.
  { intros k t Hk. unfold old. rewrite list_elem_of_fmap.
    setoid_rewrite list_elem_of_filter. split.
    - intros ([k' t'] & -> & Ht & Hin). apply elem_of_map_to_list in Hin.
      simpl in *. by assert (t = t') as -> by congruence.
    - intros Ht. exists (k, t). by rewrite elem_of_map_to_list. }
  split_and!; try done.
  - intros k t Hk. rewrite foldr_delete_lookup, Hk. specialize (Hold k t Hk).
    repeat case_bool_decide; tauto.
  - intros k Hk. rewrite foldr_delete_lookup, Hk. by case_bool_decide.
  - eexists. split; [done|].
    assert (NoDup old.*1) as Hnd.
    { eapply sublist_NoDup; [apply (NoDup_fst_map_to_list (inbox d))|].
      apply fmap_sublist, sublist_filter. }
    rewrite <- (length_fmap fst old).
    assert (forall k, k ∈ old.*1 -> is_Some (inbox d !! k)) as Hin.
    { intros k. unfold old. rewrite list_elem_of_fmap.
      intros ([k' t'] & -> & [_ Hin]%list_elem_of_filter). apply elem_of_map_to_list in Hin.
      by exists t'. }
    by apply foldr_delete_size.
Qed.
End properties.

Lemma MarkConsumed_once_witness :
  let o := quiet 5 (fun _ => "id") in
  let w := world_of (apply_writes empty_db [WInbox ("c", "/src", "1") 0]) in
  fst (fst (@run o _ (@MarkConsumed PlainPostgres.postgres "c" "/src" "1") w (session_at 5)))
    = Ok false.
Proof.
  intros o w.
  pose proof (@MarkConsumed_once PlainPostgres.postgres o "c" "/src" "1" w (session_at 5)
    eq_refl) as H.
  vm_compute in H. destruct H as (_ & _ & H & _). vm_compute. exact H.
Defined.
