(* ===== verification/Outbox.v ===== *)
(** * Outbox ([internal/platform/outbox])

    [outbox.go]: [Enqueue] writes the messages of a transaction as rows of that
    transaction.  [poller.go]: the poller elects itself by an advisory lock, claims
    unpublished rows, publishes them inside the claiming transaction and marks
    them.

    The broker is the [Publisher] interface: an arbitrary function of the messages
    and of the number of the call; [p_sent] keeps the batches it was handed, each
    with whether it took it.  A claim skips the rows another session has locked
    ([FOR UPDATE SKIP LOCKED]); which ones is a parameter. *)
From S2P Require Import Prelude Envelope Database.

Definition NotifyChannel : string := "outbox".
Definition BatchSize : nat := 100.
Definition AdvisoryLockKey : Z := 0x5A6A0001.
Definition PollFloor : Duration := Second.
Definition Retention : Duration := 7 * 24 * Hour.
Definition pruneInterval : Duration := Hour.

Section outbox.
Context `{PG : Postgres}.

(** ** [outbox.go] *)

Fixpoint outbox_rows (seq : Z) (msgs : list Message) : list outbox_row :=
  match msgs with
  | [] => []
  | m :: msgs =>
      {| ob_id := seq + 1; ob_topic := msg_Topic m; ob_key := msg_Key m;
         ob_payload := msg_Payload m; ob_headers := msg_Headers m;
         ob_published_at := None |} :: outbox_rows (seq + 1) msgs
  end.

(** One [INSERT] of the whole batch, in the caller's order. *)
Definition enqueueSQL (msgs : list Message) : stmt unit := fun _ sq _ =>
  (Ok tt, WOutbox <$> outbox_rows (outbox_seq sq) msgs,
   {| events_seq := events_seq sq; outbox_seq := outbox_seq sq + Z.of_nat (length msgs);
      timers_seq := timers_seq sq |}).

(** [SELECT pg_notify($1, '')]: delivered when the transaction commits. *)
Definition notifySQL (channel : string) : stmt unit := fun _ sq _ =>
  (Ok tt, [WNotify channel], sq).

Definition enqueue_arg (i : nat) (m : Message) : res Message :=
  match Validate m with
  | Err x =>
      Err (EWrap ("outbox: message " +:+ Itoa (Z.of_nat i) +:+ " for " +:+
                  Quote (msg_Topic m) +:+ ": " +:+ Error x)%string x)
  | Ok _ => Ok m
  end.

Definition Enqueue (msgs : list Message) : tx unit :=
  if bool_decide (msgs = []) then mret tt
  else
    rows ← lift (traverse enqueue_arg 0 msgs);
    _ ← exec (enqueueSQL rows)
      (fun e => EWrap ("outbox: enqueue " +:+ Itoa (Z.of_nat (length msgs)) +:+
                       " messages: " +:+ Error e)%string e);
    exec (notifySQL NotifyChannel) (fun e => EWrap ("outbox: notify: " +:+ Error e)%string e).

(** ** [poller.go] *)

Record Claimed := { cl_ID : Z; cl_Message : Message }.

Definition row_message (r : outbox_row) : Message :=
  {| msg_Topic := ob_topic r; msg_Key := ob_key r; msg_Payload := ob_payload r;
     msg_Headers := ob_headers r |}.

Definition unpublished (r : outbox_row) : bool := bool_decide (ob_published_at r = None).

(** The rows of the claim; [locked] are the rows other sessions hold. *)
Definition claimable (locked : Z -> bool) (d : db) : list outbox_row :=
  order_by (by_key ob_id)
    (filter (fun r => unpublished r = true /\ locked (ob_id r) = false) (outbox d)).

Definition claimSQL (locked : Z -> bool) (limit : nat) : stmt (list outbox_row) :=
  fun _ sq d => (Ok (take limit (claimable locked d)), [], sq).

Definition markSQL (ids : list Z) : stmt unit := fun now sq _ =>
  (Ok tt, [WPublished ids (timestamptz now)], sq).

Definition claim (locked : Z -> bool) : tx (list Claimed) :=
  rows ← exec (claimSQL locked BatchSize)
           (fun e => EWrap ("outbox: claim: " +:+ Error e)%string e);
  mret ((fun r => {| cl_ID := ob_id r; cl_Message := row_message r |}) <$> rows).

Definition ids (claimed : list Claimed) : list Z := cl_ID <$> claimed.
Definition messages (claimed : list Claimed) : list Message := cl_Message <$> claimed.

(** The broker, the locks of other sessions, and what has been handed to the
    broker so far. *)
Record broker := {
  publish : nat -> list Message -> res unit;
  locked_rows : nat -> Z -> bool;
}.

Record poller := { p_world : world; p_sent : list (list Message * bool) }.

(** What a claim leaves to do: publish, then mark. *)
Definition publish_claimed (b : broker) (calls : nat) (claimed : list Claimed) : res unit :=
  wrap_err (fun e => EWrap ("outbox: publish " +:+ Itoa (Z.of_nat (length claimed)) +:+
                            " messages: " +:+ Error e)%string e)
    (publish b calls (messages claimed)).

Definition mark (claimed : list Claimed) : tx unit :=
  exec (markSQL (ids claimed))
    (fun e => EWrap ("outbox: mark published: " +:+ Error e)%string e).

Section poller.
Context (o : oracle) (b : broker).

(** The rest of a cycle whose claim found rows: publish, mark, commit. *)
Definition publish_and_mark (sent : list (list Message * bool)) (w2 : world) (s2 : session)
  (claimed : list Claimed) : res nat * poller :=
  let published := publish_claimed b (length sent) claimed in
  let sent := sent ++ [(messages claimed, is_ok published)] in
  match published with
  | Err e => (Err e, {| p_world := w2; p_sent := sent |})
  | Ok _ =>
    let '(r3, w3, s3) := run o (mark claimed) w2 s2 in
    match r3 with
    | Err e => (Err e, {| p_world := w3; p_sent := sent |})
    | Ok _ =>
        let w4 := round_trip o (s_log s3) w3 in
        let commit_err e := Err (EWrap ("outbox: commit mark: " +:+ Error e)%string e) in
        let done := set_db (apply_writes (w_db w4) (s_log s3)) w4 in
        match commit_fate o (w_trips w3) with
        | Committed => (Ok (length claimed), {| p_world := done; p_sent := sent |})
        | CommitFailed e => (commit_err e, {| p_world := w4; p_sent := sent |})
        | CommitUnacknowledged e => (commit_err e, {| p_world := done; p_sent := sent |})
        end
    end
  end.

(** One claim-publish-mark cycle: the number of rows published.  The transaction is
opened by hand rather than by [WithTx], so that its errors carry this package's
own texts. *)
Definition Drain (p : poller) : res nat * poller :=
  let w := p_world p in
  let w1 := round_trip o [] w in
  match fault o (w_trips w) with
  | Some e => (Err (EWrap ("outbox: begin: " +:+ Error e)%string e),
             {| p_world := w1; p_sent := p_sent p |})
  | None =>
    let s := {| s_now := clock o (w_trips w); s_log := []; s_aborted := false |} in
    let '(r, w2, s2) := run o (claim (locked_rows b (w_trips w))) w1 s in
    match r with
    | Err e => (Err e, {| p_world := w2; p_sent := p_sent p |})
    | Ok [] => (Ok 0%nat, {| p_world := w2; p_sent := p_sent p |})
    | Ok claimed => publish_and_mark (p_sent p) w2 s2 claimed
    end
  end.

(** [drainAll]: until a batch that does not fill, or an error.  The loop has no
bound of its own; [fuel] bounds the batches. *)
Fixpoint drainAll (fuel : nat) (p : poller) : option poller :=
  match fuel with
  | O => None
  | S fuel =>
    match Drain p with
    | (Err _, p) => Some p
    | (Ok n, p) => if (n <? BatchSize)%nat then Some p else drainAll fuel p
    end
  end.

(** [DELETE FROM outbox WHERE published_at IS NOT NULL AND
published_at < now() - $1::interval] *)
Definition old_enough (now : Time) (olderThan : Duration) (r : outbox_row) : bool :=
  match ob_published_at r with
  | Some t => t <? now - interval olderThan
  | None => false
  end.

Definition pruneSQL (olderThan : Duration) : stmt Z := fun now sq d =>
  let old := filter (fun r => old_enough now olderThan r = true) (outbox d) in
  (Ok (Z.of_nat (length old)), [WDeleteOutbox (ob_id <$> old)], sq).

Definition Prune (olderThan : Duration) : world -> res Z * world :=
  pool_exec o (pruneSQL olderThan) (fun e => EWrap ("outbox: prune: " +:+ Error e)%string e).

(** [pruneOldRows]: the outcome is only logged. *)
Definition pruneOldRows (p : poller) : poller :=
  {| p_world := snd (Prune Retention (p_world p)); p_sent := p_sent p |}.
End poller.
End outbox.

(** ** Election and [Run]

    The advisory lock belongs to a database session.  A poller that takes it leads
    until its context is cancelled; one that does not stands by, waiting for its
    context alone.  [SessionLost]: the connection that holds the lock goes away
    while the process lives on, and the server releases the lock. *)
Inductive role := Leading | StandingBy | Returned.

#[global] Instance role_eq_dec : EqDecision role.
Proof. solve_decision. Defined.

Record election := { holder : option nat; roles : gmap nat role }.

Definition no_pollers : election := {| holder := None; roles := ∅ |}.

(** [pg_try_advisory_lock] on a new connection of poller [pid]. *)
Definition TryElect (pid : nat) (e : election) : bool * election :=
  match holder e with
  | None => (true, {| holder := Some pid; roles := roles e |})
  | Some _ => (false, e)
  end.

(** The [release] that [TryElect] returns, guarded by [sync.Once]. *)
Definition release (pid : nat) (e : election) : election :=
  if bool_decide (holder e = Some pid) then {| holder := None; roles := roles e |} else e.

Definition set_role (pid : nat) (r : role) (e : election) : election :=
  {| holder := holder e; roles := <[pid := r]> (roles e) |}.

(** How the start of [Run] goes: the connections it needs may not be had. *)
Inductive startup := NoElectionConn | NoListener | Connected.

Inductive poll_event :=
  | Start (pid : nat) (c : startup)
  | Woken (pid : nat)
  | PollTick (pid : nat)
  | PruneTick (pid : nat)
  | Cancelled (pid : nat)
  | SessionLost (pid : nat).

(** What a poller does with an event: drain everything, prune first or not. *)
Inductive poll_action := Nothing | DrainAll (pid : nat) | PruneThenDrainAll (pid : nat).

(** [Run], one event at a time. *)
Definition poll_step (e : election) (ev : poll_event) : election * poll_action :=
  match ev with
  | Start pid c =>
      match roles e !! pid with
      | Some _ => (e, Nothing)
      | None =>
          match c with
          | NoElectionConn => (set_role pid Returned e, Nothing)
          | _ =>
              let '(held, e) := TryElect pid e in
              if held then
                match c with
                | Connected => (set_role pid Leading e, DrainAll pid)
                | _ => (set_role pid Returned (release pid e), Nothing)
                end
              else (set_role pid StandingBy e, Nothing)
          end
      end
  | Woken pid | PollTick pid =>
      match roles e !! pid with
      | Some Leading => (e, DrainAll pid)
      | _ => (e, Nothing)
      end
  | PruneTick pid =>
      match roles e !! pid with
      | Some Leading => (e, PruneThenDrainAll pid)
      | _ => (e, Nothing)
      end
  | Cancelled pid =>
      match roles e !! pid with
      | Some Leading => (set_role pid Returned (release pid e), Nothing)
      | Some StandingBy => (set_role pid Returned e, Nothing)
      | _ => (e, Nothing)
      end
  | SessionLost pid => (release pid e, Nothing)
  end.

Fixpoint poll_run (e : election) (evs : list poll_event) : election * list poll_action :=
  match evs with
  | [] => (e, [])
  | ev :: evs =>
      let '(e1, a) := poll_step e ev in
      let '(e2, acts) := poll_run e1 evs in (e2, a :: acts)
  end.

(** ** Lemmas: the rows of a batch *)
Lemma outbox_rows_messages seq msgs : row_message <$> outbox_rows seq msgs = msgs.
Proof.
  revert seq; induction msgs as [|m msgs IH]; intros seq; [done|]. cbn [outbox_rows].
  rewrite fmap_cons, IH. f_equal. by destruct m.
Qed.

Lemma outbox_rows_ids seq msgs : ob_id <$> outbox_rows seq msgs = upto (seq + 1) (length msgs).
Proof.
  revert seq; induction msgs as [|m msgs IH]; intros seq; [done|]. cbn [outbox_rows].
  by rewrite fmap_cons, IH.
Qed.

Lemma outbox_rows_unpublished seq msgs : Forall (fun r => unpublished r = true) (outbox_rows seq msgs).
Proof. revert seq; induction msgs; intros seq; constructor; auto. Qed.

Lemma traverse_enqueue_arg i msgs :
  Forall (fun m => Validate m = Ok tt) msgs -> traverse enqueue_arg i msgs = Ok msgs.
Proof.
  intros H. rewrite (traverse_pure _ id), list_fmap_id; [done|].
  intros j x Hx. unfold enqueue_arg. rewrite Forall_forall in H. by rewrite H.
Qed.

Lemma traverse_enqueue_arg_err i msgs m e :
  m ∈ msgs -> Validate m = Err e -> exists x, traverse enqueue_arg i msgs = Err x.
Proof.
  intros Hm He. destruct (traverse enqueue_arg i msgs) as [ys|x] eqn:E; [|by eauto].
  apply traverse_ok_iff in E as [_ E]. apply list_elem_of_lookup in Hm as [j Hj].
  destruct (E j m Hj) as (y & _ & Hy). unfold enqueue_arg in Hy. by rewrite He in Hy.
Qed.

Lemma run_Enqueue o msgs (w : world) (s : session) :
  healthy o w s = true -> fault o (S (w_trips w)) = None -> msgs <> [] ->
  Forall (fun m => Validate m = Ok tt) msgs ->
  exists w', run o (Enqueue msgs) w s =
    (Ok tt, w', record [WNotify NotifyChannel]
                  (record (WOutbox <$> outbox_rows (outbox_seq (w_seqs w)) msgs) s)) /\
    w_db w' = others o (S (w_trips w)) (s_log s ++ (WOutbox <$> outbox_rows (outbox_seq (w_seqs w)) msgs))
                (others o (w_trips w) (s_log s) (w_db w)) /\
    outbox_seq (w_seqs w') = outbox_seq (w_seqs w) + Z.of_nat (length msgs).
Proof.
  intros Hh Hf Hne Hv. destruct (healthy_inv _ _ _ Hh) as [Ha Hf0].
  unfold Enqueue. rewrite bool_decide_eq_false_2 by done.
  rewrite run_tx_bind, run_lift, traverse_enqueue_arg, run_tx_bind, run_exec by done.
  cbv zeta. unfold enqueueSQL at 1. rewrite run_exec by by eapply healthy_fault.
  eexists. split; [reflexivity|done].
Qed.

Lemma does_Enqueue o now msgs d :
  calm o -> Forall (fun m => Validate m = Ok tt) msgs ->
  does o now (Enqueue msgs) d (fun _ L => exists rs,
    L = (WOutbox <$> rs) ++ (if bool_decide (msgs = []) then [] else [WNotify NotifyChannel]) /\
    row_message <$> rs = msgs /\ Forall (fun r => unpublished r = true) rs).
Proof.
  intros Hcalm Hv. unfold Enqueue. destruct (decide (msgs = [])) as [->|Hne].
  { apply does_ret. by exists []. }
  rewrite !bool_decide_eq_false_2 by done.
  eapply does_lift_bind; [by apply traverse_enqueue_arg|]. eapply does_bind.
  { apply (does_exec o now Hcalm _ _ _ (fun _ L => exists rs, L = WOutbox <$> rs /\
      row_message <$> rs = msgs /\ Forall (fun r => unpublished r = true) rs)).
    intros sq. do 3 eexists. split; [reflexivity|]. eexists. split; [reflexivity|].
    split; [apply outbox_rows_messages|apply outbox_rows_unpublished]. }
  intros [] L (rs & -> & Hm & Hu). apply does_exec; [done|]. intros sq. do 3 eexists.
  split; [reflexivity|]. by exists rs.
Qed.

(** ** Lemmas: [ORDER BY id LIMIT n] *)
Definition row_ids (d : db) : list Z := ob_id <$> outbox d.

Lemma row_unique d r r' :
  NoDup (row_ids d) -> r ∈ outbox d -> r' ∈ outbox d -> ob_id r = ob_id r' -> r = r'.
Proof. apply key_unique. Qed.

Lemma elem_of_claimable locked d r :
  r ∈ claimable locked d <->
  r ∈ outbox d /\ unpublished r = true /\ locked (ob_id r) = false.
Proof. unfold claimable. rewrite elem_of_order_by, list_elem_of_filter. tauto. Qed.

Lemma elem_of_claim locked d r :
  r ∈ take BatchSize (claimable locked d) ->
  r ∈ outbox d /\ unpublished r = true /\ locked (ob_id r) = false.
Proof. intros H. apply elem_of_claimable. by apply elem_of_take in H as (i & Hi%list_elem_of_lookup_2 & _). Qed.

(** What marking does to the rows. *)
Lemma mark_published_row_id ids at_ r : ob_id (mark_published_row ids at_ r) = ob_id r.
Proof. unfold mark_published_row. by case_bool_decide. Qed.

Lemma mark_published_row_message ids at_ r :
  row_message (mark_published_row ids at_ r) = row_message r.
Proof. unfold mark_published_row. by case_bool_decide. Qed.

Lemma mark_published_row_other ids at_ r : ob_id r ∉ ids -> mark_published_row ids at_ r = r.
Proof. intros H. unfold mark_published_row. by rewrite bool_decide_eq_false_2. Qed.

#[export] Hint Rewrite mark_published_row_id mark_published_row_message : saga_rw.

(** ** Lemmas: one drain *)

(** Other sessions only add unpublished rows with ids of their own. *)
Definition enqueues (d d' : db) : Prop :=
  exists new, outbox d' = outbox d ++ new /\ NoDup (row_ids d') /\
    Forall (fun r => unpublished r = true) new.

Definition only_enqueues (o : oracle) : Prop :=
  forall n L d, NoDup (row_ids d) -> enqueues d (others o n L d).

Lemma enqueues_trans d1 d2 d3 : enqueues d1 d2 -> enqueues d2 d3 -> enqueues d1 d3.
Proof.
  intros (n1 & H1 & _ & U1) (n2 & H2 & N2 & U2). exists (n1 ++ n2).
  rewrite H2, H1, app_assoc. split_and!; [done|done|by apply Forall_app].
Qed.

Lemma enqueues_nodup d d' : enqueues d d' -> NoDup (row_ids d').
Proof. by intros (? & _ & ? & _). Qed.

#[export] Hint Resolve enqueues_trans enqueues_nodup : saga.

Lemma enqueues_run o {A} (p : prog A) w s a w' s' :
  only_enqueues o -> NoDup (row_ids (w_db w)) ->
  run o p w s = (a, w', s') -> w' = w \/ enqueues (w_db w) (w_db w').
Proof.
  intros Ho. revert w s; induction p as [x|k IH|X q k IH]; intros w s Hn; simpl.
  - intros [= _ <- _]. by left.
  - intros Hr. apply (IH _ (next_id w)) in Hr; [|done].
    destruct Hr as [->|Hr]; [|by right]. simpl. right. exists [].
    split_and!; [by rewrite app_nil_r|done|constructor].
  - intros Hr. right.
    pose proof (Ho (w_trips w) (s_log s) (w_db w) Hn) as H1.
    assert (forall r w0 s0, w_db w0 = others o (w_trips w) (s_log s) (w_db w) ->
      run o (k r) w0 s0 = (a, w', s') -> enqueues (w_db w) (w_db w')) as Hgo.
    { intros r w0 s0 H0 Hr'. eapply IH in Hr'; [|rewrite H0; eauto with saga].
      destruct Hr' as [->|H2]; rewrite H0 in *; eauto with saga. }
    destruct (s_aborted s); [by eapply Hgo in Hr|].
    destruct (fault o (w_trips w)); [by eapply Hgo in Hr|].
    destruct (q _ _ _) as [[[x|e] ws] sq]; by eapply Hgo in Hr.
Qed.

Section drain_lemmas.
Context `{PG : Postgres} (o : oracle) (b : broker).

Lemma run_claim locked w s :
  healthy o w s = true ->
  run o (claim locked) w s =
  let w' := round_trip o (s_log s) w in
  (Ok ((fun r => {| cl_ID := ob_id r; cl_Message := row_message r |}) <$>
       take BatchSize (claimable locked (view w' s))), w', record [] s).
Proof. intros Hh. unfold claim. by rewrite run_tx_bind, run_exec. Qed.

Definition as_claimed (r : outbox_row) : Claimed :=
  {| cl_ID := ob_id r; cl_Message := row_message r |}.

Lemma messages_as_claimed rows : messages (as_claimed <$> rows) = row_message <$> rows.
Proof. unfold messages. by rewrite <- list_fmap_compose. Qed.

Lemma ids_as_claimed rows : ids (as_claimed <$> rows) = ob_id <$> rows.
Proof. unfold ids. by rewrite <- list_fmap_compose. Qed.

(** Publish, mark, commit: nothing is marked, or all the rows are, after the broker
    has taken their messages. *)
Lemma publish_and_mark_cases sent w2 s2 rows r p' :
  only_enqueues o -> NoDup (row_ids (w_db w2)) -> s_log s2 = [] -> s_aborted s2 = false ->
  publish_and_mark o b sent w2 s2 (as_claimed <$> rows) = (r, p') ->
  ((w_db (p_world p') = w_db w2 \/ enqueues (w_db w2) (w_db (p_world p'))) /\
   exists ok, p_sent p' = sent ++ [(row_message <$> rows, ok)]) \/
  exists d2 at_, enqueues (w_db w2) d2 /\
    p_sent p' = sent ++ [(row_message <$> rows, true)] /\
    w_db (p_world p') = apply_write d2 (WPublished (ob_id <$> rows) at_).
Proof.
  intros Ho Hn Hl Ha. unfold publish_and_mark. rewrite messages_as_claimed.
  destruct (publish_claimed b _ _) as [u|e]; cbn [is_ok].
  2:{ intros [= <- <-]. left. by eauto. }
  destruct (run o (mark _) w2 _) as [[r3 w3] s3] eqn:E.
  pose proof (enqueues_run _ _ _ _ _ _ _ Ho Hn E) as H3.
  destruct r3 as [u3|e].
  2:{ intros [= <- <-]. left. split; [destruct H3 as [->|?]; auto|by eauto]. }
  assert (s_log s3 = [WPublished (ob_id <$> rows) (timestamptz (s_now s2))] /\
          enqueues (w_db w2) (w_db w3)) as [Hlog H23].
  { unfold mark, exec in E. simpl in E. rewrite ids_as_claimed, Ha in E.
    destruct (fault o (w_trips w2)); [done|]. injection E as <- <- <-. simpl.
    rewrite Hl. split; [done|]. by apply Ho. }
  assert (enqueues (w_db w3) (others o (w_trips w3) (s_log s3) (w_db w3))) as H34
    by (apply Ho; eauto with saga).
  destruct (commit_fate o (w_trips w3)); intros [= <- <-];
    [right|left; split; [right|]; by eauto with saga|right].
  all: exists (others o (w_trips w3) (s_log s3) (w_db w3)), (timestamptz (s_now s2)).
  all: split_and!; [by eauto with saga|done|]; simpl; by rewrite Hlog.
Qed.

(** The two ways a drain can go: nothing is marked, or the rows of one claim are,
    after the broker has taken their messages. *)
Lemma Drain_cases p r p' :
  only_enqueues o -> NoDup (row_ids (w_db (p_world p))) -> Drain o b p = (r, p') ->
  (enqueues (w_db (p_world p)) (w_db (p_world p')) /\
   (p_sent p' = p_sent p \/ exists ms ok, p_sent p' = p_sent p ++ [(ms, ok)])) \/
  exists d1 d2 rows at_,
    enqueues (w_db (p_world p)) d1 /\ enqueues d1 d2 /\
    rows = take BatchSize (claimable (locked_rows b (w_trips (p_world p))) d1) /\
    rows <> [] /\
    p_sent p' = p_sent p ++ [(row_message <$> rows, true)] /\
    w_db (p_world p') = apply_write d2 (WPublished (ob_id <$> rows) at_).
Proof.
  intros Ho Hn. unfold Drain.
  set (w := p_world p) in *. set (w1 := round_trip o [] w).
  assert (enqueues (w_db w) (w_db w1)) as H1 by by apply Ho.
  destruct (fault o (w_trips w)) as [e|] eqn:Hf.
  { intros [= <- <-]. left. by eauto. }
  set (s := {| s_now := _ |}). set (w2 := round_trip o (s_log s) w1).
  assert (enqueues (w_db w1) (w_db w2)) as H2 by (apply Ho; eauto with saga).
  assert (enqueues (w_db w) (w_db w2)) as H12 by eauto with saga.
  destruct (healthy o w1 s) eqn:Hh.
  2:{ unfold claim, exec, healthy in *; simpl in *. destruct (fault o (S (w_trips w))); [|done].
      intros [= <- <-]. left. by eauto. }
  rewrite run_claim by done. cbv zeta. fold w2. fold as_claimed.
  change (view w2 s) with (w_db w2).
  destruct (take BatchSize (claimable (locked_rows b (w_trips w)) (w_db w2)))
    as [|r0 rows] eqn:Hrows.
  { intros [= <- <-]. left. by eauto. }
  rewrite fmap_cons. cbv iota zeta. rewrite <- fmap_cons. intros Hp.
  apply publish_and_mark_cases in Hp; [|done|by eauto with saga|done|done].
  destruct Hp as [[Hd [ok Hs]]|(d2 & at_ & Hd & Hs & Hw)].
  - left. split; [destruct Hd as [->|?]; by eauto with saga|by eauto].
  - right. exists (w_db w2), d2, (r0 :: rows), at_. by rewrite Hrows.
Qed.
End drain_lemmas.

(** ** Lemmas: draining a backlog *)

Lemma claimable_unlocked_sorted d :
  StronglySorted (fun x y => by_key ob_id x y = true) (claimable (fun _ => false) d).
Proof. apply order_by_is_sorted; eauto with saga. Qed.

(** Marking the head of the backlog leaves its tail as the backlog. *)
Lemma claimable_after_mark d n at_ rows :
  NoDup (row_ids d) -> rows = take n (claimable (fun _ => false) d) ->
  claimable (fun _ => false) (apply_write d (WPublished (ob_id <$> rows) at_)) =
  drop n (claimable (fun _ => false) d).
Proof.
  intros Hn ->. set (c := claimable (fun _ => false) d).
  assert (forall r, r ∈ c -> r ∈ outbox d) as Hin by (intros r Hr; apply elem_of_claimable in Hr; tauto).
  assert (forall r, r ∈ outbox d -> ob_id r ∈ ob_id <$> take n c <-> r ∈ take n c) as Hid.
  { intros r Hr. rewrite list_elem_of_fmap. split; [|by eauto].
    intros (r' & He & Hr'). assert (r = r') as ->; [|done].
    eapply row_unique; [exact Hn|done|apply Hin|done]. by eapply elem_of_take in Hr' as (?&?%list_elem_of_lookup_2&_). }
  assert (NoDup c) as Hndc.
  { unfold c, claimable. rewrite order_by_perm. apply NoDup_filter.
    by apply NoDup_fmap_1 in Hn. }
  assert (forall r, r ∈ c -> r ∈ take n c \/ r ∈ drop n c) as Hsplit
    by (intros r Hr; rewrite <- (take_drop n c) in Hr; by apply elem_of_app in Hr).
  assert (filter (fun r => unpublished r = true /\ false = false)
    (mark_published_row (ob_id <$> take n c) at_ <$> outbox d) ≡ₚ drop n c) as Hp.
  { apply NoDup_Permutation.
    - apply NoDup_filter. eapply NoDup_fmap_1. rewrite <- list_fmap_compose.
      erewrite list_fmap_ext; [exact Hn|]. intros i r _. apply mark_published_row_id.
    - by apply sublist_NoDup with c; [|apply sublist_drop].
    - intros r. rewrite list_elem_of_filter, list_elem_of_fmap. split.
      + intros [[Hu _] (r0 & -> & Hr0)]. unfold mark_published_row in *.
        case_bool_decide as Hm; [done|].
        assert (r0 ∈ c) as Hc by (apply elem_of_claimable; done).
        destruct (Hsplit r0 Hc); [|done]. by rewrite Hid in Hm.
      + intros Hr. assert (r ∈ c) as Hc by (rewrite <- (take_drop n c); apply elem_of_app; by right).
        apply elem_of_claimable in Hc as (Ho & Hu & _). split; [done|]. exists r. split; [|done].
        symmetry. apply mark_published_row_other. rewrite Hid by done. intros Ht.
        rewrite <- (take_drop n c) in Hndc. apply NoDup_app in Hndc as (_ & Hd & _). by apply (Hd r). }
  eapply StronglySorted_unique_strong with (R := fun x y => by_key ob_id x y = true).
  - intros x y Hx Hy Hxy Hyx. unfold by_key in *. rewrite !Z.leb_le in *.
    unfold claimable in Hx. apply elem_of_order_by in Hx. cbn in Hx. rewrite Hp in Hx.
    eapply row_unique; [exact Hn|apply Hin..|lia];
      rewrite <- (take_drop n c); apply elem_of_app; by right.
  - apply claimable_unlocked_sorted.
  - pose proof (claimable_unlocked_sorted d) as Hs. fold c in Hs.
    rewrite <- (take_drop n c) in Hs. by apply StronglySorted_app in Hs as (_ & _ & ?).
  - unfold claimable. rewrite order_by_perm. exact Hp.
Qed.

Lemma Drain_quiet `{PG : Postgres} (o : oracle) (b : broker) p :
  (forall n, fault o n = None) -> (forall n, commit_fate o n = Committed) ->
  (forall n L d, others o n L d = d) ->
  (forall n id, locked_rows b n id = false) -> (forall n ms, publish b n ms = Ok tt) ->
  let rows := take BatchSize (claimable (fun _ => false) (w_db (p_world p))) in
  exists p', Drain o b p = (Ok (length rows), p') /\
    (rows = [] -> w_db (p_world p') = w_db (p_world p) /\ p_sent p' = p_sent p) /\
    (rows <> [] ->
     p_sent p' = p_sent p ++ [(row_message <$> rows, true)] /\
     exists at_, w_db (p_world p') = apply_write (w_db (p_world p)) (WPublished (ob_id <$> rows) at_)).
Proof.
  intros Hf Hc Ho Hl Hp rows. unfold Drain. rewrite Hf.
  set (w := p_world p) in *.
  assert (claimable (locked_rows b (w_trips w)) (w_db w) = claimable (fun _ => false) (w_db w)) as Hcl.
  { unfold claimable. f_equal. apply list_filter_iff. intros r. rewrite Hl. done. }
  rewrite run_claim by (unfold healthy; simpl; by rewrite Hf). cbv zeta. fold as_claimed.
  unfold view. simpl. rewrite !Ho, Hcl. fold rows.
  destruct rows as [|r0 rows'] eqn:Er.
  { eexists. split; [reflexivity|]. split; [|done]. intros _. simpl. by rewrite !Ho. }
  rewrite fmap_cons. cbv iota. rewrite <- fmap_cons.
  unfold publish_and_mark, publish_claimed. rewrite Hp, messages_as_claimed.
  unfold mark. rewrite ids_as_claimed. simpl. rewrite Hf. simpl. rewrite Hc, !Ho, length_fmap.
  eexists. split; [reflexivity|]. split; [done|]. intros _. split; [done|]. by eexists.
Qed.

(** ** Properties *)
Section properties.
Context `{PG : Postgres}.

(** Enqueueing valid messages inserts one unpublished row per message, in the
    caller's order and with consecutive ids of the sequence, and asks for the
    notification in the same transaction; an empty batch does nothing; and a batch
    with an unpublishable message is refused before anything is sent. *)
Theorem Enqueue_outcome (o : oracle) (msgs : list Message) (w : world) (s : session) :
  healthy o w s = true -> fault o (S (w_trips w)) = None ->
  (forall n L d, others o n L d = d) ->
  let '(r, w', s') := run o (Enqueue msgs) w s in
  if forallb (fun m => is_ok (Validate m)) msgs then
    r = Ok tt /\
    exists rows, row_message <$> rows = msgs /\
      Forall (fun x => unpublished x = true) rows /\
      ob_id <$> rows = upto (outbox_seq (w_seqs w) + 1) (length msgs) /\
      outbox (view w' s') = outbox (view w s) ++ rows /\
      events (view w' s') = events (view w s) /\
      notified (view w' s') =
        notified (view w s) ++ (if bool_decide (msgs = []) then [] else [NotifyChannel])
  else is_ok r = false /\ w' = w /\ s' = s.
Proof.
  intros Hh Hf Ho. destruct (forallb _ msgs) eqn:Hv.
  - destruct (decide (msgs = [])) as [->|Hne].
    { simpl. split; [done|]. exists []. by rewrite !app_nil_r. }
    assert (Forall (fun m => Validate m = Ok tt) msgs) as Hall.
    { rewrite forallb_forall in Hv. apply Forall_forall. intros m Hm%list_elem_of_In.
      specialize (Hv m Hm). by destruct (Validate m) as [[]|]. }
    destruct (run_Enqueue o msgs w s) as (w' & -> & Hw & _); [done..|].
    split; [done|]. exists (outbox_rows (outbox_seq (w_seqs w)) msgs).
    rewrite outbox_rows_messages, outbox_rows_ids, bool_decide_eq_false_2 by done.
    rewrite !view_record, apply_outbox_rows. rewrite !Ho in Hw. unfold view. rewrite Hw.
    split_and!; try done. apply outbox_rows_unpublished.
  - destruct msgs as [|m0 msgs']; [done|]. set (msgs := m0 :: msgs') in *.
    assert (exists m e, m ∈ msgs /\ Validate m = Err e) as (m & e & Hm & He).
    { apply not_true_iff_false in Hv. rewrite forallb_forall in Hv.
      destruct (decide (Exists (fun m => is_ok (Validate m) = false) msgs)) as [He|He].
      - apply Exists_exists in He as (m & Hm & He). exists m.
        destruct (Validate m) eqn:E; [done|]. by eexists.
      - exfalso. apply Hv. intros m Hm. apply list_elem_of_In in Hm.
        apply not_false_iff_true. intros Hf'. apply He, Exists_exists. eauto. }
    unfold Enqueue. rewrite bool_decide_eq_false_2, run_tx_bind, run_lift by done.
    by destruct (traverse_enqueue_arg_err 0 msgs m e Hm He) as [x ->].
Qed.

(** C18: at least once, never lost.  Whatever fails during a drain (a statement, the
    broker, the commit or only its acknowledgement), and while other sessions keep
    enqueueing, every row that was there is still there with the same message, and
    a row becomes published only if the broker took its message during this very
    drain. *)
Theorem Drain_never_loses (o : oracle) (b : broker) (p : poller) :
  only_enqueues o -> NoDup (row_ids (w_db (p_world p))) ->
  let d := w_db (p_world p) in
  let '(_, p') := Drain o b p in
  let d' := w_db (p_world p') in
  (forall r, r ∈ outbox d ->
     exists r', r' ∈ outbox d' /\ ob_id r' = ob_id r /\ row_message r' = row_message r) /\
  (forall r', r' ∈ outbox d' -> unpublished r' = false ->
     r' ∈ outbox d \/
     exists ms, p_sent p' = p_sent p ++ [(ms, true)] /\ row_message r' ∈ ms).
Proof.
  intros Ho Hn d. destruct (Drain o b p) as [r p'] eqn:E. set (d' := w_db (p_world p')).
  apply Drain_cases in E; [|done|done].
  destruct E as [[(new & Hnew & _ & Hu) _]|(d1 & d2 & rows & at_ & E1 & E2 & -> & _ & Hs & Hw)].
  - unfold d, d'. rewrite Hnew. setoid_rewrite elem_of_app. split; [by eauto 6|].
    intros r' [Hr|Hr] Hp; [by left|]. rewrite Forall_forall in Hu. by rewrite Hu in Hp.
  - destruct (enqueues_trans _ _ _ E1 E2) as (new & Hnew & Hn2 & Hu).
    destruct E2 as (new2 & Hnew2 & _ & _).
    unfold d'. rewrite Hw. simpl. split.
    + intros x Hx. eexists. split; [apply list_elem_of_fmap_2|].
      { rewrite Hnew. apply elem_of_app. left. exact Hx. }
      by rewrite mark_published_row_id, mark_published_row_message.
    + intros r' (x & -> & Hx)%list_elem_of_fmap Hp. rewrite mark_published_row_message.
      unfold mark_published_row in *. case_bool_decide as Hm.
      * right. eexists. split; [exact Hs|].
        apply list_elem_of_fmap in Hm as (y & Hid & Hy). apply list_elem_of_fmap. exists y.
        split; [|done]. f_equal. apply elem_of_claim in Hy as (Hy & _).
        eapply row_unique; [exact Hn2|done| |done]. rewrite Hnew2. apply elem_of_app. by left.
      * left. rewrite Hnew in Hx. apply elem_of_app in Hx as [Hx|Hx]; [done|].
        rewrite Forall_forall in Hu. by rewrite Hu in Hp.
Qed.

(** [drainAll] over a server and a broker that work. *)
Lemma drainAll_quiet (o : oracle) (b : broker) (p : poller) (fuel : nat) :
  (forall n, fault o n = None) -> (forall n, commit_fate o n = Committed) ->
  (forall n L d, others o n L d = d) ->
  (forall n id, locked_rows b n id = false) -> (forall n ms, publish b n ms = Ok tt) ->
  NoDup (row_ids (w_db (p_world p))) ->
  let backlog := claimable (fun _ => false) (w_db (p_world p)) in
  (length backlog < fuel * BatchSize)%nat ->
  exists p', drainAll o b fuel p = Some p' /\
    claimable (fun _ => false) (w_db (p_world p')) = [] /\
    concat (fst <$> p_sent p') = concat (fst <$> p_sent p) ++ (row_message <$> backlog) /\
    events (w_db (p_world p')) = events (w_db (p_world p)) /\
    availability (w_db (p_world p')) = availability (w_db (p_world p)).
Proof.
  intros Hf Hc Ho Hl Hp. revert p; induction fuel as [|fuel IH]; intros p Hn backlog Hlt; [lia|].
  destruct (Drain_quiet o b p Hf Hc Ho Hl Hp) as (p1 & Hd & Hnil & Hcons). cbn [drainAll].
  rewrite Hd. fold backlog in Hnil, Hcons |- *. set (rows := take BatchSize backlog) in *.
  destruct (decide (rows = [])) as [Hr|Hr].
  { destruct (Hnil Hr) as [Hw Hs]. rewrite Hr. exists p1. simpl. split; [done|].
    assert (backlog = []) as Hb by (unfold rows, BatchSize in Hr; by destruct backlog).
    rewrite Hw, Hs. fold backlog. by rewrite Hb, app_nil_r. }
  assert (events (w_db (p_world p1)) = events (w_db (p_world p)) /\
    availability (w_db (p_world p1)) = availability (w_db (p_world p))) as [Hev Hav]
    by (destruct (Hcons Hr) as [_ [at_ ->]]; done).
  destruct (Hcons Hr) as [Hs [at_ Hw]].
  assert (claimable (fun _ => false) (w_db (p_world p1)) = drop BatchSize backlog) as Hrest
    by (rewrite Hw; by apply claimable_after_mark).
  assert (length rows = (BatchSize `min` length backlog)%nat) as Hlen by apply length_take.
  destruct (length rows <? BatchSize)%nat eqn:E.
  - exists p1. split; [done|]. apply Nat.ltb_lt in E.
    split; [rewrite Hrest; apply drop_ge; lia|]. split; [|done].
    rewrite Hs, fmap_app, concat_app. simpl. rewrite app_nil_r. do 2 f_equal.
    apply take_ge. lia.
  - apply Nat.ltb_ge in E. destruct (IH p1) as (p' & -> & Hall & Hsent & He' & Ha').
    + rewrite Hw. unfold row_ids. simpl. rewrite <- list_fmap_compose.
      erewrite list_fmap_ext; [exact Hn|]. intros i r _. apply mark_published_row_id.
    + rewrite Hrest, length_drop. lia.
    + exists p'. split_and!; [done|done| |congruence|congruence]. rewrite Hsent, Hs, Hrest, fmap_app, concat_app. simpl.
      rewrite app_nil_r, <- app_assoc. f_equal. rewrite <- fmap_app. unfold rows. by rewrite take_drop.
Qed.

(** C24: draining empties the backlog, in id order.  With a server and a broker that
    work and nobody interfering, [drainAll] returns (one batch more than the backlog
    needs is fuel enough), nothing is left unpublished, and the messages handed to
    the broker are those of the unpublished rows, each once, by increasing id. *)
Theorem drainAll_publishes_backlog (o : oracle) (b : broker) (p : poller) (fuel : nat) :
  (forall n, fault o n = None) -> (forall n, commit_fate o n = Committed) ->
  (forall n L d, others o n L d = d) ->
  (forall n id, locked_rows b n id = false) -> (forall n ms, publish b n ms = Ok tt) ->
  NoDup (row_ids (w_db (p_world p))) ->
  let backlog := claimable (fun _ => false) (w_db (p_world p)) in
  (length backlog < fuel * BatchSize)%nat ->
  exists p', drainAll o b fuel p = Some p' /\
    claimable (fun _ => false) (w_db (p_world p')) = [] /\
    concat (fst <$> p_sent p') = concat (fst <$> p_sent p) ++ (row_message <$> backlog).
Proof.
  intros Hf Hc Ho Hl Hp Hn backlog Hlt.
  destruct (drainAll_quiet o b p fuel) as (p' & H1 & H2 & H3 & _); [done..|]. by exists p'.
Qed.

(** Pruning deletes exactly the rows published before the horizon, and reports
    how many they were; a row not yet published is never deleted. *)
Theorem Prune_keeps_work (now : Time) (sq : seqs) (d : db) (olderThan : Duration) :
  NoDup (row_ids d) ->
  let '(r, ws, _) := pruneSQL olderThan now sq d in
  let d' := apply_writes d ws in
  outbox d' = filter (fun x => old_enough now olderThan x = false) (outbox d) /\
  (forall x, x ∈ outbox d -> unpublished x = true -> x ∈ outbox d') /\
  r = Ok (Z.of_nat (length (outbox d) - length (outbox d'))) /\
  inbox d' = inbox d /\ events d' = events d /\ timers d' = timers d.
Proof.
  intros Hn. simpl. set (old := filter (fun r => old_enough now olderThan r = true) (outbox d)).
  assert (filter (fun r => ob_id r ∉ ob_id <$> old) (outbox d) =
          filter (fun x => old_enough now olderThan x = false) (outbox d)) as ->
    by by apply (filter_not_deleted ob_id).
  split_and!; try done.
  - intros x Hx Hu. apply list_elem_of_filter. split; [|done].
    unfold unpublished in Hu. apply bool_decide_eq_true in Hu. unfold old_enough. by rewrite Hu.
  - do 2 f_equal. unfold old. pose proof (filter_split_length (old_enough now olderThan) (outbox d)).
    lia.
Qed.
End properties.

(** ** Lemmas: election *)
Definition stays_connected (ev : poll_event) : bool :=
  match ev with SessionLost _ => false | _ => true end.

(** The process that leads is the one whose session has the lock. *)
Definition led_by_holder (e : election) : Prop :=
  forall pid, roles e !! pid = Some Leading <-> holder e = Some pid.

Lemma poll_step_led e ev :
  stays_connected ev = true -> led_by_holder e -> led_by_holder (fst (poll_step e ev)).
Proof.
  intros Hc Hl. unfold led_by_holder in *.
  destruct ev as [pid c|pid|pid|pid|pid|pid]; simpl in *; try (by go_cases).
  - destruct (roles e !! pid) eqn:Hr; [done|]. unfold TryElect, release.
    destruct c, (holder e) as [h|] eqn:Hh; simpl; rewrite ?bool_decide_eq_true_2 by done; simpl;
      intros q; specialize (Hl q); rewrite lookup_insert; case_decide; subst; naive_solver.
  - destruct (roles e !! pid) as [[]|] eqn:Hr; simpl; try done.
    + assert (holder e = Some pid) as Hh by by apply Hl. unfold release.
      rewrite bool_decide_eq_true_2 by done. simpl. intros q. specialize (Hl q).
      rewrite lookup_insert. case_decide; subst; naive_solver.
    + intros q. specialize (Hl q). rewrite lookup_insert. case_decide; subst; naive_solver.
Qed.

(** What a poller that stands by does with any event. *)
Lemma poll_step_standby e ev pid :
  roles e !! pid = Some StandingBy \/ roles e !! pid = Some Returned ->
  let '(e', a) := poll_step e ev in
  (roles e' !! pid = Some StandingBy \/ roles e' !! pid = Some Returned) /\
  a <> DrainAll pid /\ a <> PruneThenDrainAll pid.
Proof.
  intros H. destruct ev as [q c|q|q|q|q|q]; simpl; unfold TryElect, set_role, release;
    destruct (decide (q = pid)) as [->|Hq]; go_cases;
    rewrite ?lookup_insert_ne, ?lookup_insert_eq by done; naive_solver.
Qed.

(** ** Properties: election *)

(** C25: two pollers never drain at once, as long as no session that holds the lock
    is lost: in every history of starts, wake-ups, ticks and cancellations, the
    pollers that lead are at most one, and it is the one whose session holds the
    advisory lock; whoever drains is leading. *)
Theorem one_leader (evs : list poll_event) :
  forallb stays_connected evs = true ->
  let '(e, _) := poll_run no_pollers evs in
  (forall p q, roles e !! p = Some Leading -> roles e !! q = Some Leading -> p = q) /\
  (forall p, roles e !! p = Some Leading <-> holder e = Some p) /\
  (forall ev p, (snd (poll_step e ev) = DrainAll p \/ snd (poll_step e ev) = PruneThenDrainAll p) ->
     roles (fst (poll_step e ev)) !! p = Some Leading).
Proof.
  intros Hc. assert (led_by_holder no_pollers) as H0 by (intros p; simpl; by rewrite lookup_empty).
  revert Hc H0. generalize no_pollers. induction evs as [|ev evs IH]; intros e0 Hc H0.
  - simpl. split_and!; [|exact H0|].
    + intros p q Hp%H0 Hq%H0. congruence.
    + intros ev p. destruct ev; simpl; unfold TryElect; go_cases; intros [Hd|Hd]; simplify_eq/=;
        by rewrite ?lookup_insert_eq.
  - simpl in *. apply andb_true_iff in Hc as [Hc1 Hc2].
    pose proof (poll_step_led e0 ev Hc1 H0) as H1. destruct (poll_step e0 ev) as [e1 a].
    specialize (IH e1 Hc2 H1). by destruct (poll_run e1 evs) as [e2 acts].
Qed.

(** A poller that stands by never takes over.  Once another process had the
    lock when it started, a poller drains nothing ever again, whatever happens
    next, the leader's return and the release of the lock included. *)
Theorem standby_never_leads (e : election) (evs : list poll_event) (pid : nat) :
  roles e !! pid = Some StandingBy ->
  let '(e', acts) := poll_run e evs in
  (DrainAll pid ∉ acts) /\ (PruneThenDrainAll pid ∉ acts) /\ roles e' !! pid <> Some Leading.
Proof.
  intros H. assert (roles e !! pid = Some StandingBy \/ roles e !! pid = Some Returned) as H'
    by by left. clear H. revert e H'. induction evs as [|ev evs IH]; intros e H.
  - simpl. split_and!; [by intros ?%elem_of_nil..|naive_solver].
  - simpl. pose proof (poll_step_standby e ev pid H) as Hs. destruct (poll_step e ev) as [e1 a].
    destruct Hs as (H1 & Ha & Hb). specialize (IH e1 H1).
    destruct (poll_run e1 evs) as [e2 acts]. destruct IH as (I1 & I2 & I3).
    split_and!; [..|done]; rewrite elem_of_cons; naive_solver.
Qed.

(** ** Witnesses *)
Module Samples.
Import PlainPostgres.
Definition msg (t : string) : Message :=
  {| msg_Topic := t; msg_Key := "seat-1"; msg_Payload := [Byte.x7b];
     msg_Headers := Headers {| env_ID := "1"; env_Source := "/inventory"; env_Type := "T";
       env_Subject := ""; env_CorrelationID := ""; env_CausationID := ""; env_TraceParent := "" |} |}.
Definition o : oracle := quiet 5000 (fun _ => "id").
Definition takes_all : broker :=
  {| publish := fun _ _ => Ok tt; locked_rows := fun _ _ => false |}.
Definition two_rows : db := apply_writes empty_db (WOutbox <$> outbox_rows 0 [msg "a"; msg "b"]).
Definition published_a : outbox_row :=
  {| ob_id := 1; ob_topic := "a"; ob_key := "seat-1"; ob_payload := [Byte.x7b];
     ob_headers := msg_Headers (msg "a"); ob_published_at := Some 5000 |}.
Definition start : poller := {| p_world := world_of two_rows; p_sent := [] |}.
End Samples.

Import Samples PlainPostgres.

Lemma Enqueue_outcome_witness :
  fst (fst (run o (Enqueue [msg "a"; msg "b"]) (world_of empty_db) (session_at 5))) = Ok tt.
Proof.
  pose proof (Enqueue_outcome o [msg "a"; msg "b"] (world_of empty_db) (session_at 5)
    eq_refl eq_refl (fun _ _ _ => eq_refl)) as H.
  destruct (run o _ _ _) as [[r w'] s'] eqn:E.
  assert (forallb (fun m => is_ok (Validate m)) [msg "a"; msg "b"] = true) as Hv
    by (vm_compute; reflexivity).
  rewrite Hv in H. exact (proj1 H).
Defined.

Lemma only_enqueues_quiet : only_enqueues o.
Proof. intros n L d Hn. exists []. by rewrite app_nil_r. Qed.

Lemma Drain_never_loses_witness :
  exists ms, p_sent (snd (Drain o takes_all start)) = [(ms, true)] /\ (msg "a" ∈ ms).
Proof.
  pose proof (Drain_never_loses o takes_all start only_enqueues_quiet) as H.
  assert (NoDup (row_ids (w_db (p_world start)))) as Hn
    by (apply (bool_decide_unpack _); vm_compute; exact I).
  specialize (H Hn). cbv zeta in H. rewrite (surjective_pairing (Drain o takes_all start)) in H.
  destruct H as [_ H]. set (r' := published_a).
  destruct (H r') as [Hin|(ms & Hs & Hm)].
  - apply (bool_decide_unpack _). vm_compute. exact I.
  - vm_compute. reflexivity.
  - exfalso. revert Hin. apply (bool_decide_unpack _). vm_compute. exact I.
  - exists ms. split; [exact Hs|exact Hm].
Defined.

Lemma drainAll_publishes_backlog_witness :
  exists p', drainAll o takes_all 1 start = Some p' /\
    claimable (fun _ => false) (w_db (p_world p')) = [].
Proof.
  destruct (drainAll_publishes_backlog o takes_all start 1) as (p' & H1 & H2 & _);
    [done..| |vm_compute; lia|].
  - apply (bool_decide_unpack _). vm_compute. exact I.
  - exists p'. by split.
Defined.

Lemma Prune_keeps_work_witness :
  fst (fst (pruneSQL Retention 0 {| events_seq := 0; outbox_seq := 0; timers_seq := 0 |} two_rows))
    = Ok 0.
Proof.
  pose proof (Prune_keeps_work 0 {| events_seq := 0; outbox_seq := 0; timers_seq := 0 |} two_rows
    Retention) as H.
  assert (NoDup (row_ids two_rows)) as Hn by (apply (bool_decide_unpack _); vm_compute; exact I).
  specialize (H Hn). simpl in H. destruct H as (_ & _ & H & _). vm_compute in H. exact H.
Defined.

Lemma one_leader_witness :
  let e := fst (poll_run no_pollers [Start 1 Connected; Start 2 Connected; Cancelled 1; Start 3 Connected; PollTick 3]) in
  holder e = Some 3%nat /\ roles e !! 3%nat = Some Leading.
Proof.
  intros e. pose proof (one_leader [Start 1 Connected; Start 2 Connected; Cancelled 1; Start 3 Connected; PollTick 3] eq_refl) as H.
  subst e. destruct (poll_run _ _) as [e acts] eqn:E.
  assert (holder e = Some 3%nat) as Hh by (vm_compute in E; injection E as <- _; reflexivity).
  split; [exact Hh|]. by apply H.
Defined.

Lemma standby_never_leads_witness :
  let e := fst (poll_run no_pollers [Start 1 Connected; Start 2 Connected; Cancelled 1]) in
  holder e = None /\ (DrainAll 2 ∉ snd (poll_run e [Woken 2; PollTick 2; PruneTick 2])).
Proof.
  intros e. split; [reflexivity|].
  pose proof (standby_never_leads e [Woken 2; PollTick 2; PruneTick 2] 2 eq_refl) as H.
  destruct (poll_run e _) as [e' acts]. exact (proj1 H).
Defined.
