(* ===== verification/Timers.v ===== *)
(** * Timers ([internal/platform/timers])

    [timers.go]: a wake-up is scheduled in the caller's transaction, due timers are
    read without a claim, and [MarkFired] claims one in the transaction that
    applies its effect.  [scheduler.go]: the scheduler fires what is due, sleeps
    until the next deadline within bounds, and deletes old fired rows.

    The [Firer] interface is the parameter [Fire].  Timers due at the same instant
    come in table order; SQL leaves that open. *)
From S2P Require Import Prelude Database.

Record Timer := {
  t_ID : Z;
  t_FireAt : Time;
  t_Subject : string;
  t_Token : string;
}.

#[global] Instance Timer_eq_dec : EqDecision Timer.
Proof. solve_decision. Defined.

Definition BatchSize : nat := 100.
Definition MaxSleep : Duration := Second.
Definition MinSleep : Duration := 5 * Millisecond.
Definition Retention : Duration := 7 * 24 * Hour.
Definition pruneInterval : Duration := Hour.

Definition pending (r : timer_row) : bool := bool_decide (tm_fired_at r = None).

Section timers.
Context `{PG : Postgres}.

(** ** [timers.go] *)

Definition scheduleSQL (fireAt : Time) (subject token : string) : stmt unit := fun _ sq _ =>
  let id := timers_seq sq + 1 in
  (Ok tt,
   [WTimer {| tm_id := id; tm_fire_at := timestamptz fireAt; tm_subject := subject;
              tm_token := token; tm_fired_at := None |}],
   {| events_seq := events_seq sq; outbox_seq := outbox_seq sq; timers_seq := id |}).

Definition Schedule (fireAt : Time) (subject token : string) : tx unit :=
  exec (scheduleSQL fireAt subject token)
    (fun e => EWrap ("timers: schedule " +:+ subject +:+ " at " +:+ Time_String fireAt +:+ ": " +:+
                     Error e)%string e).

Definition scan_timer (r : timer_row) : Timer :=
  {| t_ID := tm_id r; t_FireAt := tm_fire_at r; t_Subject := tm_subject r;
     t_Token := tm_token r |}.

Definition due_rows (now : Time) (d : db) : list timer_row :=
  order_by (by_key tm_fire_at)
    (filter (fun r => pending r = true /\ tm_fire_at r <= now) (timers d)).

Definition dueSQL (limit : nat) : stmt (list timer_row) := fun now sq d =>
  (Ok (take limit (due_rows now d)), [], sq).

Definition markFiredSQL (id : Z) : stmt Z := fun now sq d =>
  let hit := filter (fun r => tm_id r = id /\ pending r = true) (timers d) in
  (Ok (Z.of_nat (length hit)),
   (if bool_decide (hit = []) then [] else [WFired id (timestamptz now)]), sq).

Definition MarkFired (id : Z) : tx bool :=
  affected ← exec (markFiredSQL id)
    (fun e => EWrap ("timers: claim " +:+ Itoa id +:+ ": " +:+ Error e)%string e);
  mret (bool_decide (affected = 1)).

(** [SELECT min(fire_at)]: NULL when there is no row. *)
Definition min_fire_at (rows : list timer_row) : option Time :=
  match rows with
  | [] => None
  | r :: rows => Some (foldr (fun r m => Z.min (tm_fire_at r) m) (tm_fire_at r) rows)
  end.

Definition nextDueSQL : stmt (option Time) := fun _ sq d =>
  (Ok (min_fire_at (filter (fun r => pending r = true) (timers d))), [], sq).

(** [DELETE FROM timers WHERE fired_at IS NOT NULL AND
    fired_at <= now() - $1::interval] *)
Definition old_enough (now : Time) (olderThan : Duration) (r : timer_row) : bool :=
  match tm_fired_at r with
  | Some t => t <=? now - interval olderThan
  | None => false
  end.

Definition pruneSQL (olderThan : Duration) : stmt Z := fun now sq d =>
  let old := filter (fun r => old_enough now olderThan r = true) (timers d) in
  (Ok (Z.of_nat (length old)), [WDeleteTimers (tm_id <$> old)], sq).

Section pool.
Context (o : oracle).

Definition Due (limit : nat) (w : world) : res (list Timer) * world :=
  match pool_exec o (dueSQL limit)
        (fun e => EWrap ("timers: read due: " +:+ Error e)%string e) w with
  | (Err e, w) => (Err e, w)
  | (Ok rows, w) => (Ok (scan_timer <$> rows), w)
  end.

(** The deadline and whether there is one, as an [option]. *)
Definition NextDue (w : world) : res (option Time) * world :=
  pool_exec o nextDueSQL (fun e => EWrap ("timers: next due: " +:+ Error e)%string e) w.

Definition Prune (olderThan : Duration) (w : world) : res Z * world :=
  pool_exec o (pruneSQL olderThan) (fun e => EWrap ("timers: prune: " +:+ Error e)%string e) w.

(** ** [scheduler.go] *)
Section scheduler.
Context (Fire : Timer -> tx unit).

(** What [fireOne] runs in its transaction; the value is the variable [claimed]. *)
Definition claim_and_fire (t : Timer) : tx bool :=
  got ← MarkFired (t_ID t);
  if (got : bool) then _ ← Fire t; mret true else mret false.

Definition fireOne (t : Timer) (w : world) : res bool * world :=
  WithTx o (claim_and_fire t) w.

(** The loop of [Tick]: an error is logged and the next timer's turn comes. *)
Fixpoint fire_each (due : list Timer) (w : world) : nat * world :=
  match due with
  | [] => (0%nat, w)
  | t :: due =>
  let '(r, w) := fireOne t w in
  let '(fired, w) := fire_each due w in
  ((if bool_decide (r = Ok true) then 1 else 0) + fired, w)%nat
  end.

Definition Tick (w : world) : res nat * world :=
  match Due BatchSize w with
  | (Err e, w) => (Err e, w)
  | (Ok due, w) => let '(fired, w) := fire_each due w in (Ok fired, w)
  end.

(** [t.Sub(u)] saturates at the bounds of an [int64]. *)
Definition Sub (t u : Time) : Duration := Z.max (- 2 ^ 63) (Z.min (2 ^ 63 - 1) (t - u)).

(** [sleep]; [now] is the process's own clock, which [time.Until] reads. *)
Definition sleep (now : Time) (w : world) : Duration * world :=
  match NextDue w with
  | (Ok (Some next), w) => (Z.min (Z.max (Sub next now) MinSleep) MaxSleep, w)
  | (_, w) => (MaxSleep, w)
  end.

Definition pruneFired (w : world) : world := snd (Prune Retention w).

(** What ends the wait of one turn of [Run]. *)
Inductive wake := ContextDone | WaitElapsed | PruneTicked.

(** [Run] against the wake-ups of its turns, each with the clock its [sleep] reads:
[None] when it is still running after them.  The second component lists how
long it decided to sleep in each turn. *)
Fixpoint Run (wakes : list (Time * wake)) (w : world) : option world * list Duration :=
  match wakes with
  | [] => (None, [])
  | (now, c) :: wakes =>
  let w := snd (Tick w) in
  let '(d, w) := sleep now w in
  match c with
  | ContextDone => (Some w, [d])
  | WaitElapsed => let '(r, ds) := Run wakes w in (r, d :: ds)
  | PruneTicked => let '(r, ds) := Run wakes (pruneFired w) in (r, d :: ds)
  end
  end.
End scheduler.
End pool.
End timers.

(** ** Lemmas *)
Definition timer_ids (d : db) : list Z := tm_id <$> timers d.

(** What the round trips of the scheduler come to. *)
Lemma Tick_trips `{PG : Postgres} o Fire w : (w_trips w <= w_trips (snd (Tick o Fire w)))%nat.
Proof.
  assert (forall due w, (w_trips w <= w_trips (snd (fire_each o Fire due w)))%nat) as Heach.
  { intros due. induction due as [|t due IH]; intros w0; [done|]. cbn [fire_each]. unfold fireOne.
    pose proof (WithTx_trips o (claim_and_fire Fire t) w0) as H1.
    destruct (WithTx o _ w0) as [r w1]. simpl in H1. specialize (IH w1).
    destruct (fire_each o Fire due w1) as [n w2]. simpl in *. lia. }
  unfold Tick, Due. match goal with |- context [pool_exec o ?q ?f w] =>
    pose proof (pool_exec_trips o q f w) as H1; destruct (pool_exec o q f w) as [[rows|e] w1] end; [|done].
  simpl in H1. specialize (Heach (scan_timer <$> rows) w1).
  destruct (fire_each _ _ _ w1) as [n w2]. simpl in *. lia.
Qed.

Lemma sleep_trips o now w : (w_trips w <= w_trips (snd (sleep o now w)))%nat.
Proof.
  unfold sleep, NextDue. match goal with |- context [pool_exec o ?q ?f w] =>
    pose proof (pool_exec_trips o q f w) as H; destruct (pool_exec o q f w) as [[[n|]|e] w1] end; done.
Qed.

Lemma pruneFired_trips `{PG : Postgres} o w : (w_trips w <= w_trips (pruneFired o w))%nat.
Proof. unfold pruneFired, Prune. apply pool_exec_trips. Qed.

(** The timer of an id has not fired. *)
Definition is_pending (id : Z) (d : db) : bool :=
  bool_decide (filter (fun r => tm_id r = id /\ pending r = true) (timers d) <> []).

Lemma is_pending_true id d :
  is_pending id d = true <-> exists r, r ∈ timers d /\ tm_id r = id /\ pending r = true.
Proof.
  unfold is_pending. rewrite bool_decide_eq_true. split.
  - intros Hf. destruct (filter _ _) as [|r l] eqn:E; [done|]. exists r.
    assert (r ∈ filter (fun r => tm_id r = id /\ pending r = true) (timers d)) as Hr
      by (rewrite E; by left).
    apply list_elem_of_filter in Hr. tauto.
  - intros (r & Hr & Hid & Hp) Hf.
    assert (r ∈ filter (fun r => tm_id r = id /\ pending r = true) (timers d)) as Hin
      by by apply list_elem_of_filter.
    rewrite Hf in Hin. by apply elem_of_nil in Hin.
Qed.

Lemma timer_unique d r r' :
  NoDup (timer_ids d) -> r ∈ timers d -> r' ∈ timers d -> tm_id r = tm_id r' -> r = r'.
Proof. apply key_unique. Qed.

(** The timers after one of them was marked. *)
Lemma marked_timers id at_ d d' :
  timers d' = mark_fired_row id at_ <$> timers d ->
  timer_ids d' = timer_ids d /\ is_pending id d' = false /\
  (forall r, tm_id r <> id -> r ∈ timers d' <-> r ∈ timers d).
Proof.
  intros Ht. split_and!.
  - unfold timer_ids. rewrite Ht, <- list_fmap_compose. apply list_fmap_ext. intros i x _.
    simpl. unfold mark_fired_row. by case_bool_decide.
  - apply not_true_iff_false. rewrite is_pending_true, Ht.
    intros (r & (x & -> & Hx)%list_elem_of_fmap & Hid & Hpr). unfold mark_fired_row in *.
    case_bool_decide; [done|]. by destruct Hid.
  - intros r Hne. rewrite Ht, list_elem_of_fmap. unfold mark_fired_row. split.
    + intros (x & -> & Hx). by case_bool_decide.
    + intros Hr. exists r. by rewrite bool_decide_eq_false_2.
Qed.

Lemma is_pending_same id d d' :
  (forall r, tm_id r = id -> r ∈ timers d <-> r ∈ timers d') -> is_pending id d = is_pending id d'.
Proof.
  intros H. apply eq_true_iff_eq. rewrite !is_pending_true. naive_solver.
Qed.

Section claim_lemmas.
Context `{PG : Postgres}.

Lemma markFiredSQL_cases id now sq d :
  NoDup (timer_ids d) ->
  markFiredSQL id now sq d =
    if is_pending id d then (Ok 1, [WFired id (timestamptz now)], sq) else (Ok 0, [], sq).
Proof.
  intros Hn. unfold markFiredSQL, is_pending.
  destruct (filter_key tm_id (timers d) id (fun r => pending r = true) Hn)
    as [->|(r & -> & _)]; [done|].
  rewrite bool_decide_eq_false_2, bool_decide_eq_true_2 by done. done.
Qed.

Lemma run_MarkFired o id (w : world) (s : session) :
  healthy o w s = true -> NoDup (timer_ids (view (round_trip o (s_log s) w) s)) ->
  run o (MarkFired id) w s =
  let w' := round_trip o (s_log s) w in
  if is_pending id (view w' s) then
    (Ok true, w', record [WFired id (timestamptz (s_now s))] s)
  else (Ok false, w', record [] s).
Proof.
  intros Hh Hn. unfold MarkFired. rewrite run_tx_bind, run_exec by done. cbv zeta.
  rewrite markFiredSQL_cases by done. by destruct (is_pending _ _).
Qed.

Lemma does_MarkFired o now id d :
  calm o -> NoDup (timer_ids d) ->
  does o now (MarkFired id) d (fun got L => got = is_pending id d /\
    L = if is_pending id d then [WFired id (timestamptz now)] else []).
Proof.
  intros Hcalm Hn. unfold MarkFired. eapply does_bind.
  { apply (does_exec o now Hcalm _ _ _ (fun n L => (n, L) =
      if is_pending id d then (1, [WFired id (timestamptz now)]) else (0, []))).
    intros sq. rewrite markFiredSQL_cases by done. destruct (is_pending id d); by do 3 eexists. }
  intros n L HL. apply does_ret. rewrite app_nil_r.
  by destruct (is_pending id d); injection HL as -> ->.
Qed.
End claim_lemmas.

(** The row [Schedule] adds, its id apart. *)
Definition scheduled_as `{PG : Postgres} (fireAt : Time) (subject token : string) (r : timer_row) :
    Prop :=
  tm_fire_at r = timestamptz fireAt /\ tm_subject r = subject /\ tm_token r = token /\
  pending r = true.

Lemma does_Schedule `{PG : Postgres} o now fireAt subject token d :
  calm o -> does o now (Schedule fireAt subject token) d (fun _ L =>
    exists r, L = [WTimer r] /\ scheduled_as fireAt subject token r).
Proof.
  intros Hcalm. apply does_exec; [done|]. intros sq. do 3 eexists. split; [reflexivity|].
  eexists. split; [reflexivity|]. done.
Qed.

(** ** Lemmas: firing under interference *)

(** What other sessions may do to the timers while a transaction holds the log [L]:
    a row this transaction has claimed is locked until it ends. *)
Definition respects_claims (L : list write) (d d' : db) : Prop :=
  (NoDup (timer_ids d) -> NoDup (timer_ids d')) /\
  forall r at_, WFired (tm_id r) at_ ∈ L -> r ∈ timers d -> r ∈ timers d'.

Lemma respects_claims_pending L id at_ d d' :
  respects_claims L d d' -> WFired id at_ ∈ L -> is_pending id d = true -> is_pending id d' = true.
Proof.
  intros [_ HL] Hin (r & Hr & <- & Hp)%is_pending_true. apply is_pending_true. eauto.
Qed.

Section fire_lemmas.
Context `{PG : Postgres} (Fire : Timer -> tx unit).

(** An execution of [fireOne]'s transaction, at the moment it commits: it found the
    timer pending, claimed it, ran the whole effect under the claim, and the timer is
    pending still; or it found it fired, and wrote nothing. *)
Lemma claim_completes (R : list write -> db -> db -> Prop) t d0 a L d d' :
  (forall L d d', R L d d' -> respects_claims L d d') -> NoDup (timer_ids d0) ->
  completes R (claim_and_fire Fire t) [] d0 (Ok a) L d -> R L d d' ->
  exists d1, R [] d0 d1 /\ is_pending (t_ID t) d1 = a /\
    if (a : bool) then
      is_pending (t_ID t) d' = true /\
      exists at_, completes R (Fire t) [WFired (t_ID t) at_] d1 (Ok tt) L d
    else L = [] /\ d1 = d.
Proof.
  intros HR Hn (got & L1 & d1 & Hm & Hc)%completes_tx_bind Hd'.
  unfold MarkFired in Hm. apply completes_tx_bind in Hm as (n & L2 & d2 & He & Hret).
  apply completes_exec in He as (now & sq & x & ws & sq' & H0 & Eq & [= <-] & ->).
  change (apply_writes d2 []) with d2 in Eq.
  assert (NoDup (timer_ids d2)) as Hn2 by by apply (HR _ _ _ H0).
  rewrite markFiredSQL_cases in Eq by done.
  destruct (is_pending (t_ID t) d2) eqn:Hp; injection Eq as <- <- _; destruct Hret as ([= <-] & <- & <-); simpl in Hc.
  - apply (completes_tx_bind R (Fire t) (fun _ => mret true)) in Hc as ([] & L3 & d3 & Hf & [= <-] & <- & <-).
    exists d2. split; [done|]. split; [done|]. split; [|by eexists].
    assert (is_pending (t_ID t) d3 = true) as Hp3.
    { pose proof (completes_moves R _ _ _ _ _ _ Hf) as Hm. clear -Hm Hp HR.
      induction Hm as [|x y z (L2 & [l ->] & Hxy) _ IH]; [done|].
      apply IH. eapply respects_claims_pending; [apply HR, Hxy|by left|done]. }
    assert ([WFired (t_ID t) (timestamptz now)] `prefix_of` L3) as [l ->].
    { exact (proj1 (completes_wp R _ _ _ _ _ _ _ Hf (wp_extends R (Fire t) _ d2))). }
    eapply respects_claims_pending; [apply HR, Hd'|by left|done].
  - destruct Hc as ([= <-] & <- & <-). by exists d2.
Qed.

Lemma drift_nodup d d' :
  drift respects_claims d d' -> NoDup (timer_ids d) -> NoDup (timer_ids d').
Proof. induction 1 as [|x y z [L [H _]] _ IH]; auto. Qed.

(** A timer fired while nobody else is connected and nothing fails. *)
Lemma fireOne_quiet o (good : Timer -> bool) t (w : world) :
  (forall n, fault o n = None) -> (forall n, commit_fate o n = Committed) ->
  (forall n L d, others o n L d = d) ->
  (forall t w s, s_aborted s = false -> exists r L w' s',
     run o (Fire t) w s = (r, w', s') /\ is_ok r = good t /\
     (good t = true -> s_aborted s' = false /\ s_log s' = s_log s ++ L /\
                       forall d, timers (apply_writes d L) = timers d)) ->
  NoDup (timer_ids (w_db w)) -> is_pending (t_ID t) (w_db w) = true ->
  exists r w', fireOne o Fire t w = (r, w') /\
    if good t then r = Ok true /\
      exists at_, timers (w_db w') = mark_fired_row (t_ID t) at_ <$> timers (w_db w)
    else is_ok r = false /\ w_db w' = w_db w.
Proof.
  intros Hf Hc Ho Hfire Hn Hp. unfold fireOne, WithTx. rewrite Hf.
  set (w1 := round_trip o [] w). set (s := {| s_now := _ |}).
  unfold claim_and_fire. rewrite run_tx_bind, run_MarkFired;
    [|unfold healthy; simpl; by rewrite Hf|unfold view; simpl; by rewrite !Ho].
  cbv zeta. set (w2 := round_trip o (s_log s) w1).
  assert (is_pending (t_ID t) (view w2 s) = true) as -> by (unfold view; simpl; by rewrite !Ho).
  rewrite run_tx_bind.
  destruct (Hfire t w2 (record [WFired (t_ID t) (timestamptz (s_now s))] s))
    as (r & L & w3 & s3 & E & Hr & Hgood); [done|].
  assert (w_db w3 = w_db w) as Hw3.
  { apply run_quiet in E; [|done]. rewrite E. simpl. by rewrite !Ho. }
  rewrite E. destruct r as [[]|e]; simpl in Hr; rewrite <- Hr.
  - destruct Hgood as (Ha & Hl & Ht); [done|]. simpl. rewrite Ha, Hc.
    do 2 eexists. split; [reflexivity|]. split; [done|]. eexists. simpl.
    rewrite Ho, Hw3, Hl. simpl. by rewrite Ht.
  - do 2 eexists. split; [reflexivity|]. done.
Qed.
End fire_lemmas.

(** ** Properties *)
Section properties.
Context `{PG : Postgres}.

(** A claim succeeds exactly once.  Claiming a pending timer reports true and
    leaves it fired; claiming one that has fired, or that does not exist, reports
    false, writes nothing and raises nothing, so the transaction can still commit;
    a second claim in the same transaction reports false. *)
Theorem MarkFired_once (o : oracle) (id : Z) (w : world) (s : session) :
  healthy o w s = true -> fault o (S (w_trips w)) = None ->
  (forall n L d, others o n L d = d) -> NoDup (timer_ids (view w s)) ->
  let '(r, w', s') := run o (MarkFired id) w s in
  r = Ok (is_pending id (view w s)) /\ s_aborted s' = false /\
  is_pending id (view w' s') = false /\
  (forall r, r ∈ timers (view w s) -> tm_id r <> id -> r ∈ timers (view w' s')) /\
  (is_pending id (view w s) = false -> s_log s' = s_log s) /\
  fst (fst (run o (MarkFired id) w' s')) = Ok false.
Proof.
  intros Hh Hf Ho Hn. destruct (healthy_inv _ _ _ Hh) as [Ha _].
  assert (forall w s, view (round_trip o (s_log s) w) s = view w s) as Hv
    by (intros; unfold view; simpl; by rewrite Ho).
  rewrite run_MarkFired by (rewrite ?Hv; done). cbv zeta. rewrite Hv.
  destruct (is_pending id (view w s)) eqn:Hp; cbv iota.
  - set (at_ := timestamptz _). set (w1 := round_trip _ _ _). set (s1 := record _ _).
    assert (timers (view w1 s1) = mark_fired_row id at_ <$> timers (view w s)) as Ht
      by (unfold s1, w1; rewrite view_record, Hv; done).
    destruct (marked_timers _ _ _ _ Ht) as (Hids & Hnp & Hother).
    split_and!; try done.
    + intros r Hr Hne. by apply Hother.
    + rewrite run_MarkFired; [cbv zeta; by rewrite Hv, Hnp| |by rewrite Hv, Hids].
      by eapply healthy_fault.
  - rewrite view_record, Hv, apply_writes_nil. split_and!; try done; [intros _; apply app_nil_r|].
    rewrite run_MarkFired; [cbv zeta; by rewrite Hv, view_record, Hv, apply_writes_nil, Hp| |
      by rewrite Hv, view_record, Hv, apply_writes_nil].
    by eapply healthy_fault.
Qed.

(** C17: two schedulers never both apply one timer.  Let [R] be anything other sessions
    may do that respects row locks, and let whatever fails fail.  [fireOne] either leaves
    the database to the others alone, and then does not report a fire, nor that somebody
    else has fired the timer unless it found it so; or it commits, on top of what the
    others alone have made, at a moment when the timer is still pending, its claim and
    exactly what an execution of the effect wrote, which began when the timer was
    pending. *)
Theorem fireOne_exclusive (R : list write -> db -> db -> Prop) (Fire : Timer -> tx unit) (o : oracle)
    (t : Timer) (w : world) r w' :
  (forall L d d', R L d d' -> respects_claims L d d') -> (forall n L d, R L d (others o n L d)) ->
  NoDup (timer_ids (w_db w)) -> fireOne o Fire t w = (r, w') ->
  exists d', drift R (w_db w) d' /\
    ((w_db w' = d' /\ r <> Ok true /\
      (r = Ok false -> exists d1, drift R (w_db w) d1 /\ drift R d1 d' /\ is_pending (t_ID t) d1 = false)) \/
     (is_pending (t_ID t) d' = true /\ r <> Ok false /\
      exists at_ d1 L d2, drift R (w_db w) d1 /\ is_pending (t_ID t) d1 = true /\
        completes R (Fire t) [WFired (t_ID t) at_] d1 (Ok tt) L d2 /\ R L d2 d' /\
        w_db w' = apply_writes d' L)).
Proof.
  intros HR Ho Hn E.
  destruct (WithTx_completes R o (claim_and_fire Fire t) w r w' Ho E) as (d' & Hd & H).
  exists d'. split; [done|]. destruct H as [[Hr Hw]|(a & L & d0 & d & H0 & Hc & HL & Hw & Ha)].
  { left. by destruct r. }
  assert (NoDup (timer_ids d0)) as Hn0 by by apply (HR _ _ _ H0).
  destruct (claim_completes Fire R t d0 a L d d' HR Hn0 Hc HL) as (d1 & H1 & Hp & Hres).
  assert (drift R (w_db w) d1) as Hd1 by (eapply rtc_l; [by exists []|]; by apply rtc_once; exists []).
  destruct a.
  - destruct Hres as (Hp' & at_ & Hf). right. split; [done|]. split; [|by exists at_, d1, L, d].
    intros ->. by specialize (Ha eq_refl).
  - destruct Hres as [-> ->]. left. split; [done|]. split; [intros ->; by specialize (Ha eq_refl)|].
    intros _. exists d. split; [done|]. split; [|done]. apply rtc_once. by exists [].
Qed.

(** A pass fires all that is due.  With a server that works and nobody else
    connected, for any effects that leave the timers alone and whichever of them
    fail, a tick returns the number of timers of the batch whose effect succeeded,
    those have fired, the ones whose effect failed are still pending, and every
    timer outside the batch is as it was: a failure holds up nobody else. *)
Theorem Tick_fires_due (Fire : Timer -> tx unit) (o : oracle) (good : Timer -> bool) (w : world) :
  (forall n, fault o n = None) -> (forall n, commit_fate o n = Committed) ->
  (forall n L d, others o n L d = d) ->
  (forall t w s, s_aborted s = false -> exists r L w' s',
     run o (Fire t) w s = (r, w', s') /\ is_ok r = good t /\
     (good t = true -> s_aborted s' = false /\ s_log s' = s_log s ++ L /\
                       forall d, timers (apply_writes d L) = timers d)) ->
  NoDup (timer_ids (w_db w)) ->
  let batch := take BatchSize (due_rows (clock o (w_trips w)) (w_db w)) in
  exists w', Tick o Fire w = (Ok (length (filter (fun r => good (scan_timer r) = true) batch)), w') /\
    (forall r, r ∈ batch -> is_pending (tm_id r) (w_db w') = negb (good (scan_timer r))) /\
    (forall r, r ∈ timers (w_db w) -> r ∉ batch -> r ∈ timers (w_db w')).
Proof.
  intros Hf Hc Ho Hfire Hn batch. unfold Tick, Due, pool_exec. rewrite Hf, Hc. simpl.
  rewrite !Ho. fold batch. unfold apply_writes; simpl. set (w1 := set_db _ _).
  assert (w_db w1 = w_db w) as Hw1 by done.
  assert (NoDup (tm_id <$> batch)) as Hnb.
  { eapply sublist_NoDup; [|apply fmap_sublist, sublist_take]. unfold due_rows.
    rewrite order_by_perm. eapply sublist_NoDup; [exact Hn|].
    apply fmap_sublist, sublist_filter. }
  assert (forall r, r ∈ batch -> r ∈ timers (w_db w1) /\ pending r = true) as Hb.
  { intros r Hr. apply elem_of_take in Hr as (i & Hr%list_elem_of_lookup_2 & _).
    unfold due_rows in Hr. apply elem_of_order_by, list_elem_of_filter in Hr. rewrite Hw1. tauto. }
  rewrite <- Hw1 in Hn |- *. clearbody w1 batch. clear Hw1 w.
  enough (exists w', fire_each o Fire (scan_timer <$> batch) w1 =
      (length (filter (fun r => good (scan_timer r) = true) batch), w') /\
      (forall r, r ∈ batch -> is_pending (tm_id r) (w_db w') = negb (good (scan_timer r))) /\
      (forall r, tm_id r ∉ tm_id <$> batch -> r ∈ timers (w_db w') <-> r ∈ timers (w_db w1)))
    as (w' & -> & H1 & H2).
  { exists w'. split_and!; [done|done|]. intros r Hr Hnr. apply H2; [|done].
    intros (x & Hid & Hx)%list_elem_of_fmap. apply Hnr.
    rewrite (timer_unique (w_db w1) r x); try done. by apply Hb. }
  revert w1 Hn Hnb Hb. induction batch as [|t batch IH]; intros w Hn Hnb Hb.
  { exists w. split_and!; [done|by intros r ?%elem_of_nil|done]. }
  apply NoDup_cons in Hnb as [Ht Hnb]. destruct (Hb t) as [Htin Htp]; [by left|].
  assert (is_pending (tm_id t) (w_db w) = true) as Hp by (apply is_pending_true; eauto).
  destruct (fireOne_quiet Fire o good (scan_timer t) w Hf Hc Ho Hfire Hn Hp) as (r & w1 & E & Hr).
  cbn [fire_each fmap list_fmap]. rewrite E.
  assert (NoDup (timer_ids (w_db w1)) /\ is_pending (tm_id t) (w_db w1) = negb (good (scan_timer t)) /\
          forall r, tm_id r <> tm_id t -> r ∈ timers (w_db w1) <-> r ∈ timers (w_db w))
    as (Hn1 & Hp1 & Hother).
  { destruct (good (scan_timer t)).
    - destruct Hr as [_ [at_ Hm]]. change (t_ID (scan_timer t)) with (tm_id t) in Hm.
      by destruct (marked_timers _ _ _ _ Hm) as (-> & -> & ?).
    - destruct Hr as [_ ->]. rewrite Hp. done. }
  assert (forall x, x ∈ batch -> tm_id x <> tm_id t) as Hne.
  { intros x Hx He. apply Ht. rewrite <- He. by apply list_elem_of_fmap_2. }
  destruct (IH w1) as (w' & -> & H1 & H2); [done|done| |].
  { intros x Hx. rewrite Hother by by apply Hne. apply Hb. by right. }
  exists w'. split_and!.
  - destruct (good (scan_timer t)) eqn:Hg.
    + destruct Hr as [-> _]. by rewrite filter_cons_True.
    + rewrite filter_cons_False by by rewrite Hg.
      rewrite bool_decide_eq_false_2; [done|]. by intros ->; destruct Hr.
  - intros x [->|Hx]%elem_of_cons; [|by apply H1]. rewrite <- Hp1. apply is_pending_same.
    intros y Hy. apply H2. by rewrite Hy.
  - intros x Hx. rewrite elem_of_cons in Hx. rewrite H2 by tauto. apply Hother. tauto.
Qed.

(** What [Due] reads.  The timers it returns are pending and past due, at most
    [limit] of them, earliest deadline first; and a due timer it leaves out is no
    earlier than any it returned, and was left out because the batch is full. *)
Theorem Due_earliest_first (o : oracle) (limit : nat) (w : world) ts w' :
  Due o limit w = (Ok ts, w') ->
  let d := others o (w_trips w) [] (w_db w) in
  let now := clock o (w_trips w) in
  exists rows, ts = scan_timer <$> rows /\
    (length rows <= limit)%nat /\
    StronglySorted (fun r r' => tm_fire_at r <= tm_fire_at r') rows /\
    (forall r, r ∈ rows -> r ∈ timers d /\ pending r = true /\ tm_fire_at r <= now) /\
    (forall r, r ∈ timers d -> pending r = true -> tm_fire_at r <= now -> r ∉ rows ->
       length rows = limit /\ forall x, x ∈ rows -> tm_fire_at x <= tm_fire_at r).
Proof.
  unfold Due, pool_exec, dueSQL. destruct (fault o (w_trips w)); [done|]. simpl.
  set (d := others _ _ _ _). set (now := clock _ _). set (all := due_rows now d).
  intros E. exists (take limit all).
  assert (ts = scan_timer <$> take limit all) as -> by by destruct (commit_fate o (w_trips w)); simplify_eq.
  assert (StronglySorted (fun r r' => tm_fire_at r <= tm_fire_at r') all) as Hs by apply order_by_key_sorted.
  assert (forall r, r ∈ all <-> r ∈ timers d /\ pending r = true /\ tm_fire_at r <= now) as Hin.
  { intros r. unfold all, due_rows. rewrite elem_of_order_by, list_elem_of_filter. tauto. }
  rewrite <- (take_drop limit all) in Hs. apply StronglySorted_app in Hs as (Hle & Hs1 & _).
  split_and!; [done|rewrite length_take; lia|done| |].
  - intros r Hr. apply Hin. rewrite <- (take_drop limit all). apply elem_of_app. by left.
  - intros r Hr Hp Hd Hn. assert (r ∈ all) as Ha by by apply Hin.
    rewrite <- (take_drop limit all) in Ha. apply elem_of_app in Ha as [|Ha]; [done|].
    split; [|by eauto]. rewrite length_take. destruct (drop limit all) eqn:Ed; [by apply elem_of_nil in Ha|].
    assert (length (drop limit all) <> 0)%nat as Hl by by rewrite Ed. rewrite length_drop in Hl. lia.
Qed.

(** The scheduler neither spins nor oversleeps.  In every run, whatever fails,
    it waits at least [MinSleep] and at most [MaxSleep] in each turn; a wait
    computed from a deadline ends by that deadline or after [MinSleep]; a failed
    lookup waits [MaxSleep]; and it returns exactly when its context ends. *)
Theorem Run_sleeps_within_bounds (Fire : Timer -> tx unit) (o : oracle) wakes (w : world) :
  let '(stop, ds) := Run o Fire wakes w in
  Forall (fun d => MinSleep <= d <= MaxSleep) ds /\
  (is_Some stop <-> Exists (fun nc => nc.2 = ContextDone) wakes) /\
  (forall now w1 next w2, NextDue o w1 = (Ok (Some next), w2) ->
     fst (sleep o now w1) <= Z.max (next - now) MinSleep) /\
  (forall now w1, is_ok (fst (NextDue o w1)) = false -> fst (sleep o now w1) = MaxSleep).
Proof.
  assert (forall now w1, MinSleep <= fst (sleep o now w1) <= MaxSleep) as Hb.
  { intros now w1. unfold sleep, MinSleep, MaxSleep, Second, Millisecond.
    destruct (NextDue o w1) as [[[next|]|e] w2]; simpl; lia. }
  assert (forall now w1 next w2, NextDue o w1 = (Ok (Some next), w2) ->
     fst (sleep o now w1) <= Z.max (next - now) MinSleep) as H1.
  { intros now w1 next w2 E. unfold sleep, Sub. rewrite E. simpl.
    unfold MinSleep, Millisecond. lia. }
  assert (forall now w1, is_ok (fst (NextDue o w1)) = false -> fst (sleep o now w1) = MaxSleep) as H2.
  { intros now w1. unfold sleep. by destruct (NextDue o w1) as [[|] w2]. }
  revert w. induction wakes as [|[now c] wakes IH]; intros w; simpl.
  { split_and!; [by constructor| |done|done]. split; [by intros []|by intros ?%Exists_nil]. }
  specialize (Hb now (snd (Tick o Fire w))).
  destruct (sleep o now (snd (Tick o Fire w))) as [d w2]. simpl in Hb.
  destruct c.
  - split_and!; [constructor; [done|constructor]| |done|done]. split; [by left|by eexists].
  - specialize (IH w2). destruct (Run o Fire wakes w2) as [r ds]. destruct IH as (I1 & I2 & _).
    split_and!; [by constructor| |done|done]. rewrite Exists_cons, I2; simpl. naive_solver.
  - specialize (IH (pruneFired o w2)). destruct (Run o Fire wakes _) as [r ds].
    destruct IH as (I1 & I2 & _).
    split_and!; [by constructor| |done|done]. rewrite Exists_cons, I2; simpl. naive_solver.
Qed.

(** Pruning deletes exactly the timers that fired before the horizon. *)
Theorem Prune_keeps_pending (now : Time) (sq : seqs) (d : db) (olderThan : Duration) :
  NoDup (timer_ids d) ->
  let '(r, ws, _) := pruneSQL olderThan now sq d in
  let d' := apply_writes d ws in
  timers d' = filter (fun x => old_enough now olderThan x = false) (timers d) /\
  (forall id, is_pending id d' = is_pending id d) /\
  r = Ok (Z.of_nat (length (timers d) - length (timers d'))).
Proof.
  intros Hn. simpl. set (old := filter (fun x => old_enough now olderThan x = true) (timers d)).
  assert (filter (fun r => tm_id r ∉ tm_id <$> old) (timers d) =
          filter (fun x => old_enough now olderThan x = false) (timers d)) as Hf.
  { by apply (filter_not_deleted tm_id (timers d) (old_enough now olderThan)). }
  rewrite Hf. split_and!; [done| |].
  - intros id. apply eq_true_iff_eq. rewrite !is_pending_true. cbn. rewrite Hf.
    setoid_rewrite list_elem_of_filter. split; [naive_solver|].
    intros (r & Hr & Hid & Hp). exists r. split_and!; try done.
    unfold pending in Hp. apply bool_decide_eq_true in Hp. unfold old_enough. by rewrite Hp.
  - do 2 f_equal. unfold old. pose proof (filter_split_length (old_enough now olderThan) (timers d)).
    lia.
Qed.
End properties.

(** ** Witnesses *)
Module Samples.
Import PlainPostgres.
Definition timer (id : Z) (at_ : Time) (subject : string) : timer_row :=
  {| tm_id := id; tm_fire_at := at_; tm_subject := subject; tm_token := "hold-1";
     tm_fired_at := None |}.
Definition three : db :=
  apply_writes empty_db [WTimer (timer 1 3000 "seat-1"); WTimer (timer 2 1000 "bad");
                         WTimer (timer 3 2000 "seat-3")].
Definition o : oracle := quiet 5000 (fun _ => "id").
Definition good (t : Timer) : bool := bool_decide (t_Subject t <> "bad").
Definition fire (t : Timer) : tx unit :=
  if good t then Sql (fun _ sq _ => (Ok tt, [], sq)) (fun _ => Ret (Ok tt))
  else fail (ENew "broken").
Lemma three_nodup : NoDup (timer_ids three).
Proof. apply (bool_decide_unpack _). vm_compute. exact I. Qed.
Lemma fire_spec t w s :
  s_aborted s = false -> exists r L w' s',
    run o (fire t) w s = (r, w', s') /\ is_ok r = good t /\
    (good t = true -> s_aborted s' = false /\ s_log s' = s_log s ++ L /\
                      forall d, timers (apply_writes d L) = timers d).
Proof.
  intros Ha. unfold fire. destruct (good t); simpl; [rewrite Ha|]; eexists _, [], _, _.
  - split; [reflexivity|]. done.
  - split; [reflexivity|]. done.
Qed.
End Samples.

Import Samples PlainPostgres.

Lemma MarkFired_once_witness :
  fst (fst (run o (MarkFired 2) (world_of three) (session_at 5))) = Ok true.
Proof.
  pose proof (MarkFired_once o 2 (world_of three) (session_at 5) eq_refl eq_refl
    (fun _ _ _ => eq_refl) three_nodup) as H.
  destruct (run o (MarkFired 2) _ _) as [[r w'] s']. exact (proj1 H).
Defined.

Lemma fireOne_exclusive_witness :
  let t := scan_timer (timer 3 2000 "seat-3") in
  is_pending 3 three = true /\
  exists at_ L, completes (fun _ => eq) (fire t) [WFired 3 at_] three (Ok tt) L three /\
    w_db (snd (fireOne o fire t (world_of three))) = apply_writes three L.
Proof.
  intros t. assert (forall d, drift (fun _ => eq) three d -> three = d) as Hsame.
  { induction 1 as [|x y z [_ ->] _ IH]; [done|exact IH]. }
  destruct (fireOne_exclusive (fun _ => eq) fire o t (world_of three) (Ok true)
    (snd (fireOne o fire t (world_of three))))
    as (d' & <-%Hsame & [(_ & H & _)|(Hp & _ & at_ & d1 & L & d2 & <-%Hsame & _ & Hf & -> & Hw)]).
  - intros L d d' <-. by split.
  - done.
  - exact three_nodup.
  - vm_compute. reflexivity.
  - done.
  - split; [exact Hp|]. by exists at_, L.
Defined.

Lemma Tick_fires_due_witness :
  exists w', Tick o fire (world_of three) = (Ok 2%nat, w') /\ is_pending 2 (w_db w') = true.
Proof.
  destruct (Tick_fires_due fire o good (world_of three)) as (w' & H1 & H2 & _);
    [done..|exact fire_spec|exact three_nodup|].
  exists w'. split; [exact H1|].
  transitivity (negb (good (scan_timer (timer 2 1000 "bad")))); [apply (H2 (timer 2 1000 "bad"))|reflexivity]. apply (bool_decide_unpack _). vm_compute. exact I.
Defined.

Lemma Due_earliest_first_witness :
  exists rows, [scan_timer (timer 2 1000 "bad"); scan_timer (timer 3 2000 "seat-3")] =
    scan_timer <$> rows /\ (length rows <= 2)%nat.
Proof.
  destruct (Due_earliest_first o 2 (world_of three)
    [scan_timer (timer 2 1000 "bad"); scan_timer (timer 3 2000 "seat-3")]
    (snd (Due o 2 (world_of three)))) as (rows & H1 & H2 & _); [reflexivity|].
  by exists rows.
Defined.
