(* ===== verification/Codec.v ===== *)
(** * Codec ([internal/platform/codec/codec.go])

    Messages to event rows and back.  [protojson] and the global type registry are
    libraries: [Protojson] holds the three calls the codec makes, with the documented
    behaviour it relies on as laws.  Theorems: an encoded message decodes to itself,
    also after Postgres has rewritten its JSON, and how each failure is classified. *)
From S2P Require Import Prelude Contracts Database EventStore.

Definition ErrUnknownType : err := ESentinel "codec: unknown event type".

Section codec.
Context `{TS : Timestamppb}.

(** [MarshalOptions.Marshal], [GlobalTypes.FindMessageByName] (whether it finds the
    name) and [UnmarshalOptions.Unmarshal] into a fresh message of a type. *)
Class Protojson := {
  json_marshal : message -> res bytes;
  registered : string -> bool;
  json_unmarshal : string -> bytes -> res message;
}.

Class ProtojsonLaws `{PG : Postgres} `{PJ : Protojson} : Prop := {
  json_roundtrip m b : json_marshal m = Ok b -> json_unmarshal (FullName m) b = Ok m;
  json_of_type n b m : json_unmarshal n b = Ok m -> FullName m = n;
  json_not_empty m b : json_marshal m = Ok b -> b <> [];
  json_by_value m b b' : json_marshal m = Ok b -> jsonb b = Ok b' ->
    json_unmarshal (FullName m) b' = Ok m;
  json_registered n : n ∈
    [HoldSeat_FullName; ReleaseSeatHold_FullName; SeatHeld_FullName;
     SeatHoldReleased_FullName; SeatHoldExpired_FullName; SeatUnavailable_FullName] ->
    registered n = true;
  json_error n b e : json_unmarshal n b = Err e -> errors_Is e ErrUnknownType = false;
}.

Definition TypeName (m : message) : string := FullName m.

(** The argument is an interface value, which can be nil. *)
Definition Encode `{Protojson} (m : option message) (meta : Meta) : res Event :=
  match m with
  | None => Err (ENew "codec: nil message")
  | Some m =>
      match json_marshal m with
      | Err e => Err (EWrap ("codec: marshal " +:+ TypeName m +:+ ": " +:+ Error e)%string e)
      | Ok data => Ok {| evt_Type := TypeName m; evt_Data := data; evt_Meta := meta |}
      end
  end.

Definition Decode `{Protojson} (e : Event) : res message :=
  if negb (registered (evt_Type e)) then
    Err (EWrap (Error ErrUnknownType +:+ ": " +:+ evt_Type e)%string ErrUnknownType)
  else
    wrap_err (fun x => EWrap ("codec: unmarshal " +:+ evt_Type e +:+ ": " +:+ Error x)%string x)
      (json_unmarshal (evt_Type e) (evt_Data e)).

(** ** Lemmas *)
Section codec_lemmas.
Context `{PG : Postgres} `{PJ : Protojson}.

Lemma Encode_ok m meta e :
  Encode (Some m) meta = Ok e ->
  evt_Type e = FullName m /\ evt_Meta e = meta /\ json_marshal m = Ok (evt_Data e).
Proof. unfold Encode. destruct (json_marshal m); [|done]. by intros [= <-]. Qed.

Lemma Decode_registered e m :
  registered (evt_Type e) = true -> json_unmarshal (evt_Type e) (evt_Data e) = Ok m ->
  Decode e = Ok m.
Proof. intros Hr Hu. unfold Decode. by rewrite Hr, Hu. Qed.

Context {PJL : ProtojsonLaws}.

(** An event as it was encoded, or as it is read back from a [jsonb] column. *)
Definition encodes (m : message) (meta : Meta) (e : Event) : Prop :=
  exists e0, Encode (Some m) meta = Ok e0 /\ evt_Type e = evt_Type e0 /\
    evt_Meta e = evt_Meta e0 /\
    (evt_Data e = evt_Data e0 \/ jsonb (evt_Data e0) = Ok (evt_Data e)).

Lemma encodes_decode m meta e :
  registered (FullName m) = true -> encodes m meta e -> Decode e = Ok m.
Proof.
  intros Hr (e0 & (Ht & _ & Hj)%Encode_ok & Ht' & _ & Hd).
  apply Decode_registered; rewrite Ht', Ht; [done|].
  destruct Hd as [->|Hd]; [by apply json_roundtrip|by eapply json_by_value].
Qed.

(** An encoded event passes the checks of [eventstore.Append]. *)
Lemma Encode_valid m meta e : FullName m <> ""%string -> Encode (Some m) meta = Ok e ->
  validate e = Ok tt.
Proof.
  intros Hn (Ht & _ & Hj)%Encode_ok. unfold validate. rewrite Ht.
  rewrite !bool_decide_eq_false_2; [done|by eapply json_not_empty|done].
Qed.
End codec_lemmas.

(** ** Properties *)
Section properties.
Context `{PG : Postgres} `{PJ : Protojson} {PJL : ProtojsonLaws}.

(** Encode and decode are inverse.  An encoded message decodes to the same
message, with its own type name and the metadata it was given, and it still does
when the database has rewritten its JSON. *)
Theorem Decode_Encode (m : message) (meta : Meta) (e : Event) :
  registered (FullName m) = true -> Encode (Some m) meta = Ok e ->
  Decode e = Ok m /\ evt_Type e = TypeName m /\ evt_Meta e = meta /\
  (forall b, jsonb (evt_Data e) = Ok b ->
   Decode {| evt_Type := evt_Type e; evt_Data := b; evt_Meta := evt_Meta e |} = Ok m).
Proof.
  intros Hr He. destruct (Encode_ok m meta e He) as (Ht & Hm & _). split_and!.
  - eapply encodes_decode; [exact Hr|]. exists e. eauto.
  - exact Ht.
  - exact Hm.
  - intros b Hb. eapply encodes_decode; [exact Hr|]. exists e. simpl. eauto.
Qed.

(** A decode fails with [ErrUnknownType] exactly when the type is not in the
registry; data the known type cannot parse is another error; and what it
returns is of the type the event names. *)
Theorem Decode_classifies (e : Event) :
  match Decode e with
  | Ok m => registered (evt_Type e) = true /\ FullName m = evt_Type e
  | Err x => errors_Is x ErrUnknownType = negb (registered (evt_Type e))
  end.
Proof.
  unfold Decode. destruct (registered (evt_Type e)); simpl.
  - destruct (json_unmarshal _ _) as [m|x] eqn:E; simpl; [|by eapply json_error].
  split; [done|]. by eapply json_of_type.
  - by vm_compute.
Qed.
End properties.
End codec.

(** A concrete [protojson], for evaluating the model: the bytes are the binary
    digits of a code number of the message. *)
Module NumberedJson.
Import UnixTimestamps PlainPostgres.

Definition fields : Type :=
  string * string * string * (option (Z * Z) + string).

Definition to_fields (m : message) : nat * fields :=
  match m with
  | MHoldSeat m => (0%nat, (HoldSeat_HoldId m, HoldSeat_BookingId m, HoldSeat_SeatId m,
                            inl (HoldSeat_ExpiresAt m)))
  | MReleaseSeatHold m => (1%nat, (ReleaseSeatHold_HoldId m, ReleaseSeatHold_BookingId m,
                                   ReleaseSeatHold_SeatId m, inr (ReleaseSeatHold_Reason m)))
  | MSeatHeld m => (2%nat, (SeatHeld_HoldId m, SeatHeld_BookingId m, SeatHeld_SeatId m,
                            inl (SeatHeld_ExpiresAt m)))
  | MSeatHoldReleased m =>
      (3%nat, (SeatHoldReleased_HoldId m, SeatHoldReleased_BookingId m,
               SeatHoldReleased_SeatId m, inr (SeatHoldReleased_Reason m)))
  | MSeatHoldExpired m => (4%nat, (SeatHoldExpired_HoldId m, SeatHoldExpired_BookingId m,
                                   SeatHoldExpired_SeatId m, inl None))
  | MSeatUnavailable m =>
      (5%nat, (SeatUnavailable_HoldId m, SeatUnavailable_BookingId m,
               SeatUnavailable_SeatId m, inr (SeatUnavailable_Reason m)))
  | OtherMessage n => (6%nat, (n, "", "", inl None))
  end.

Definition of_fields (f : nat * fields) : option message :=
  match f with
  | (0%nat, (h, b, s, inl t)) => Some (MHoldSeat (Build_HoldSeat h b s t))
  | (1%nat, (h, b, s, inr r)) => Some (MReleaseSeatHold (Build_ReleaseSeatHold h b s r))
  | (2%nat, (h, b, s, inl t)) => Some (MSeatHeld (Build_SeatHeld h b s t))
  | (3%nat, (h, b, s, inr r)) => Some (MSeatHoldReleased (Build_SeatHoldReleased h b s r))
  | (4%nat, (h, b, s, inl None)) => Some (MSeatHoldExpired (Build_SeatHoldExpired h b s))
  | (5%nat, (h, b, s, inr r)) => Some (MSeatUnavailable (Build_SeatUnavailable h b s r))
  | (6%nat, (n, _, _, inl None)) => Some (OtherMessage n)
  | _ => None
  end.

Lemma of_to_fields m : of_fields (to_fields m) = Some m.
Proof. by destruct m as [[]|[]|[]|[]|[]|[]|]. Qed.

Fixpoint digits (p : positive) : bytes :=
  match p with
  | xH => [Byte.x31]
  | xO p => Byte.x30 :: digits p
  | xI p => Byte.x31 :: digits p
  end.

Fixpoint number (b : bytes) : option positive :=
  match b with
  | [] => None
  | [c] => if bool_decide (c = Byte.x31) then Some xH else None
  | c :: b => p ← number b; Some (if bool_decide (c = Byte.x31) then xI p else xO p)
  end.

Lemma number_digits p : number (digits p) = Some p.
Proof. induction p as [p IH|p IH|]; [..|done]; simpl; rewrite IH; by destruct p. Qed.

Definition marshal (m : message) : res bytes := Ok (digits (encode (to_fields m))).
Definition decoded (b : bytes) : option message :=
  match number b with
  | Some p => match @decode (nat * fields) _ _ p with Some f => of_fields f | None => None end
  | None => None
  end.
Definition unmarshal (n : string) (b : bytes) : res message :=
  match decoded b with
  | Some m => if bool_decide (FullName m = n) then Ok m else Err (ENew "proto: syntax error")
  | None => Err (ENew "proto: syntax error")
  end.

#[export] Instance protojson : Protojson :=
  {| json_marshal := marshal;
     registered n := bool_decide (n ∈
       [HoldSeat_FullName; ReleaseSeatHold_FullName; SeatHeld_FullName;
        SeatHoldReleased_FullName; SeatHoldExpired_FullName; SeatUnavailable_FullName]);
     json_unmarshal := unmarshal |}.

Lemma unmarshal_marshal m b : marshal m = Ok b -> unmarshal (FullName m) b = Ok m.
Proof.
  intros [= <-]. unfold unmarshal, decoded.
  rewrite number_digits, decode_encode, of_to_fields. by rewrite bool_decide_eq_true_2.
Qed.

#[export] Instance protojson_laws : ProtojsonLaws.
Proof.
  split; simpl.
  - exact unmarshal_marshal.
  - intros n b m. unfold unmarshal. destruct (decoded _); [|done]. case_bool_decide; [|done].
    by intros [= <-].
  - intros m b [= <-]. by destruct (encode _).
  - intros m b b' Hm [= <-]. by apply unmarshal_marshal.
  - intros n. apply bool_decide_eq_true.
  - intros n b e. unfold unmarshal. destruct (decoded _); [case_bool_decide|]; [done|..];
      by intros [= <-].
Qed.

Definition sample : message :=
  MSeatHeld (Build_SeatHeld "hold-1" "booking-1" "seat-1" (Some (1780000000, 0))).
End NumberedJson.

Import UnixTimestamps PlainPostgres NumberedJson.

Lemma Decode_Encode_witness :
  exists e, Encode (Some sample) no_meta = Ok e /\ Decode e = Ok sample.
Proof.
  eexists. split; [reflexivity|].
  refine (proj1 (Decode_Encode sample no_meta _ _ eq_refl)).
  apply (bool_decide_unpack _). vm_compute. exact I.
Defined.

Lemma Decode_classifies_witness :
  let e := {| evt_Type := "acme.Unknown"; evt_Data := [Byte.x7b]; evt_Meta := no_meta |} in
  exists x, Decode e = Err x /\ errors_Is x ErrUnknownType = true.
Proof.
  intros e. pose proof (Decode_classifies e) as H.
  destruct (Decode e) as [m|x].
  - destruct H as [H _]. vm_compute in H. discriminate H.
  - exists x. split; [reflexivity|]. rewrite H. vm_compute. reflexivity.
Defined.
