(* ===== verification/Seat.v ===== *)
(** * Seat ([internal/inventory/seat.go], [errors.go])

    The aggregate: the folded state of one seat's stream, and the decisions that
    answer a command or a deadline.  Pure code, translated function by function.
    [seat_history] is the step relation of a stream that only these decisions
    extend, and [seat_spec] the abstract seat it refines: free, or taken by one
    hold.  Theorems: what a fold of a stream is, that every command gets exactly one
    answer, exclusivity, the refinement, the shape of every history, and that
    re-dispatches and late deadlines change nothing. *)
From S2P Require Import Prelude Contracts.

(** ** [errors.go] *)
Definition ErrUnknownEvent : err := ESentinel "inventory: unknown seat event".
Definition ErrUnknownCommand : err := ESentinel "inventory: unknown command".

(** ** [seat.go] *)

(** [type Status int] *)
Abbreviation Status := Z (only parsing).
Definition StatusFree : Status := 0.
Definition StatusHeld : Status := 1.

Definition Status_String (s : Status) : string :=
  if bool_decide (s = StatusFree) then "free"
  else if bool_decide (s = StatusHeld) then "held"
  else "unknown".

Record SeatState := {
  st_Version : Z;
  st_Status : Status;
  st_HoldID : string;
  st_BookingID : string;
  st_ExpiresAt : Time;
}.

#[global] Instance SeatState_eq_dec : EqDecision SeatState.
Proof. solve_decision. Defined.

(** [var s SeatState] *)
Definition zero_state : SeatState :=
  {| st_Version := 0; st_Status := StatusFree; st_HoldID := ""; st_BookingID := "";
     st_ExpiresAt := 0 |}.

(** [seat.go]'s own [Timer]: a deadline a decision asks for. *)
Record SeatTimer := { tmr_FireAt : Time; tmr_Token : string }.

#[global] Instance SeatTimer_eq_dec : EqDecision SeatTimer.
Proof. solve_decision. Defined.

Section seat.
Context `{TS : Timestamppb}.

(** [s.Version++] wraps an [int]. *)
Definition held_state (s : SeatState) (e : SeatHeld) : SeatState :=
  {| st_Version := int64 (st_Version s + 1); st_Status := StatusHeld;
     st_HoldID := SeatHeld_HoldId e; st_BookingID := SeatHeld_BookingId e;
     st_ExpiresAt := AsTime (SeatHeld_ExpiresAt e) |}.

Definition freed_state (s : SeatState) : SeatState :=
  {| st_Version := int64 (st_Version s + 1); st_Status := StatusFree; st_HoldID := "";
     st_BookingID := ""; st_ExpiresAt := 0 |}.

Definition Apply (s : SeatState) (e : message) : res SeatState :=
  match e with
  | MSeatHeld e => Ok (held_state s e)
  | MSeatHoldReleased _ | MSeatHoldExpired _ => Ok (freed_state s)
  | e => Err (EWrap (Error ErrUnknownEvent +:+ ": " +:+ FullName e)%string ErrUnknownEvent)
  end.

(** The loop of [Fold] from the event of index [i] on. *)
Fixpoint fold_from (i : nat) (s : SeatState) (evts : list message) : res SeatState :=
  match evts with
  | [] => Ok s
  | e :: evts =>
      match Apply s e with
      | Err x =>
          Err (EWrap ("inventory: fold event " +:+ Itoa (Z.of_nat i) +:+ ": " +:+ Error x)%string x)
      | Ok next => fold_from (S i) next evts
      end
  end.

Definition Fold (evts : list message) : res SeatState := fold_from 0 zero_state evts.

Record Outcome := {
  out_Events : list message;
  out_Replies : list message;
  out_Timers : list SeatTimer;
}.

Definition no_outcome : Outcome := {| out_Events := []; out_Replies := []; out_Timers := [] |}.

Definition Messages (o : Outcome) : list message := out_Events o ++ out_Replies o.

(** [held] rebuilds the announcement of the live hold. *)
Definition held (s : SeatState) (seatID : string) : SeatHeld :=
  {| SeatHeld_HoldId := st_HoldID s; SeatHeld_BookingId := st_BookingID s;
     SeatHeld_SeatId := seatID;
     SeatHeld_ExpiresAt := Some (TimestampNew (st_ExpiresAt s)) |}.

Definition Hold (s : SeatState) (cmd : HoldSeat) : Outcome :=
  if bool_decide (st_Status s = StatusHeld) && bool_decide (st_HoldID s = HoldSeat_HoldId cmd) then
    {| out_Events := []; out_Replies := [MSeatHeld (held s (HoldSeat_SeatId cmd))];
       out_Timers := [] |}
  else if bool_decide (st_Status s <> StatusFree) then
    {| out_Events := [];
       out_Replies :=
         [MSeatUnavailable
            {| SeatUnavailable_HoldId := HoldSeat_HoldId cmd;
               SeatUnavailable_BookingId := HoldSeat_BookingId cmd;
               SeatUnavailable_SeatId := HoldSeat_SeatId cmd;
               SeatUnavailable_Reason := ("seat is " +:+ Status_String (st_Status s))%string |}];
       out_Timers := [] |}
  else
    {| out_Events :=
         [MSeatHeld
            {| SeatHeld_HoldId := HoldSeat_HoldId cmd;
               SeatHeld_BookingId := HoldSeat_BookingId cmd;
               SeatHeld_SeatId := HoldSeat_SeatId cmd;
               SeatHeld_ExpiresAt := HoldSeat_ExpiresAt cmd |}];
       out_Replies := [];
       out_Timers := [{| tmr_FireAt := AsTime (HoldSeat_ExpiresAt cmd);
                         tmr_Token := HoldSeat_HoldId cmd |}] |}.

Definition Release (s : SeatState) (cmd : ReleaseSeatHold) : Outcome :=
  let released :=
    {| SeatHoldReleased_HoldId := ReleaseSeatHold_HoldId cmd;
       SeatHoldReleased_BookingId := ReleaseSeatHold_BookingId cmd;
       SeatHoldReleased_SeatId := ReleaseSeatHold_SeatId cmd;
       SeatHoldReleased_Reason := ReleaseSeatHold_Reason cmd |} in
  if bool_decide (st_Status s <> StatusHeld) ||
     bool_decide (st_HoldID s <> ReleaseSeatHold_HoldId cmd) then
    {| out_Events := []; out_Replies := [MSeatHoldReleased released]; out_Timers := [] |}
  else {| out_Events := [MSeatHoldReleased released]; out_Replies := []; out_Timers := [] |}.

Definition Expire (s : SeatState) (seatID holdID : string) : Outcome :=
  if bool_decide (st_Status s <> StatusHeld) || bool_decide (st_HoldID s <> holdID) then no_outcome
  else
    {| out_Events :=
         [MSeatHoldExpired
            {| SeatHoldExpired_HoldId := st_HoldID s; SeatHoldExpired_BookingId := st_BookingID s;
               SeatHoldExpired_SeatId := seatID |}];
       out_Replies := []; out_Timers := [] |}.

Definition unknown_command (cmd : message) : err :=
  EWrap (Error ErrUnknownCommand +:+ ": " +:+ FullName cmd)%string ErrUnknownCommand.

Definition Decide (s : SeatState) (cmd : message) : res Outcome :=
  match cmd with
  | MHoldSeat c => Ok (Hold s c)
  | MReleaseSeatHold c => Ok (Release s c)
  | _ => Err (unknown_command cmd)
  end.

Definition SeatID (cmd : message) : res string :=
  match cmd with
  | MHoldSeat c => Ok (HoldSeat_SeatId c)
  | MReleaseSeatHold c => Ok (ReleaseSeatHold_SeatId c)
  | _ => Err (unknown_command cmd)
  end.

(** ** Histories *)

(** The two ways a seat's stream is extended: a command, and a timer that names
    the seat and the hold. *)
Inductive input :=
  | Command (cmd : message)
  | Deadline (seatID holdID : string).

Definition target (i : input) : res string :=
  match i with Command cmd => SeatID cmd | Deadline seatID _ => Ok seatID end.

Definition decide_input (s : SeatState) (i : input) : res Outcome :=
  match i with
  | Command cmd => Decide s cmd
  | Deadline seatID holdID => Ok (Expire s seatID holdID)
  end.

(** The streams of seat [id] that decisions on its inputs produce. *)
Inductive seat_history (id : string) : list message -> Prop :=
  | history_start : seat_history id []
  | history_step evts s i out :
    seat_history id evts -> Fold evts = Ok s ->
    target i = Ok id -> decide_input s i = Ok out ->
    seat_history id (evts ++ out_Events out).

(** ** The abstract seat *)
Inductive seat_spec := Available | Taken (hold booking : string) (deadline : Time).

#[global] Instance seat_spec_eq_dec : EqDecision seat_spec.
Proof. solve_decision. Defined.

Definition abstract (s : SeatState) : seat_spec :=
  if bool_decide (st_Status s = StatusHeld)
  then Taken (st_HoldID s) (st_BookingID s) (st_ExpiresAt s) else Available.

(** What an input does to the abstract seat. *)
Definition spec_step (a : seat_spec) (i : input) : seat_spec :=
  match a, i with
  | Available, Command (MHoldSeat c) =>
      Taken (HoldSeat_HoldId c) (HoldSeat_BookingId c) (AsTime (HoldSeat_ExpiresAt c))
  | Taken h b t, Command (MReleaseSeatHold c) =>
      if bool_decide (h = ReleaseSeatHold_HoldId c) then Available else a
  | Taken h b t, Deadline _ h' => if bool_decide (h = h') then Available else a
  | _, _ => a
  end.

(** What a fold can produce: one of the two statuses, and nothing left of the
    hold when it is free. *)
Definition seat_wf (s : SeatState) : Prop :=
  (st_Status s = StatusHeld \/
   (st_Status s = StatusFree /\ st_HoldID s = "" /\ st_BookingID s = "" /\ st_ExpiresAt s = 0)) /\
  - 2 ^ 63 <= st_Version s < 2 ^ 63.

Definition is_seat_event (e : message) : bool :=
  match e with MSeatHeld _ | MSeatHoldReleased _ | MSeatHoldExpired _ => true | _ => false end.

(** The seat an event is about, if it is a seat event. *)
Definition event_seat (e : message) : option string :=
  match e with
  | MSeatHeld e => Some (SeatHeld_SeatId e)
  | MSeatHoldReleased e => Some (SeatHoldReleased_SeatId e)
  | MSeatHoldExpired e => Some (SeatHoldExpired_SeatId e)
  | _ => None
  end.

(** A stream in which holds never overlap: a [SeatHeld], then the release or
    the expiry of that very hold, and so on; [live] is the hold open before it. *)
Fixpoint alternates (live : option string) (evts : list message) : bool :=
  match evts with
  | [] => true
  | e :: evts =>
      match e, live with
      | MSeatHeld e, None => alternates (Some (SeatHeld_HoldId e)) evts
      | MSeatHoldReleased e, Some h =>
          bool_decide (SeatHoldReleased_HoldId e = h) && alternates None evts
      | MSeatHoldExpired e, Some h =>
          bool_decide (SeatHoldExpired_HoldId e = h) && alternates None evts
      | _, _ => false
      end
  end.

(** The hold open at the end of a stream. *)
Definition live_hold (evts : list message) : option string :=
  match last evts with Some (MSeatHeld e) => Some (SeatHeld_HoldId e) | _ => None end.
End seat.

(** ** Lemmas *)
Section fold_lemmas.
Context `{TS : Timestamppb}.

Lemma Apply_cases s e :
  if is_seat_event e then
    exists s', Apply s e = Ok s' /\ seat_wf s' /\ st_Version s' = int64 (st_Version s + 1)
  else exists x, Apply s e = Err x /\ errors_Is x ErrUnknownEvent = true.
Proof.
  pose proof (int64_range (st_Version s + 1)) as Hv.
  destruct e; cbn [is_seat_event Apply]; eexists; (split; [reflexivity|]).
  all: try (cbn [errors_Is ErrUnknownEvent]; by rewrite bool_decide_eq_true_2).
  all: split; [|reflexivity]; split; [|exact Hv]; simpl; auto.
Qed.

Lemma fold_from_index i j s evts : is_ok (fold_from i s evts) = is_ok (fold_from j s evts).
Proof.
  revert i j s; induction evts as [|e evts IH]; intros i j s; simpl; [done|].
  destruct (Apply s e); [apply IH|done].
Qed.

Lemma fold_from_ok_index i j s evts s' :
  fold_from i s evts = Ok s' -> fold_from j s evts = Ok s'.
Proof.
  revert i j s; induction evts as [|e evts IH]; intros i j s; simpl; [done|].
  destruct (Apply s e); [apply IH|done].
Qed.

Lemma fold_from_app i s evts1 evts2 s1 :
  fold_from i s evts1 = Ok s1 ->
  fold_from i s (evts1 ++ evts2) = fold_from (i + length evts1) s1 evts2.
Proof.
  revert i s; induction evts1 as [|e evts1 IH]; intros i s; simpl.
  - intros [= ->]. by rewrite Nat.add_0_r.
  - destruct (Apply s e); [|done]. intros H. rewrite (IH _ _ H). f_equal. lia.
Qed.

(** A stream of seat events folds; the version counts them. *)
Lemma fold_from_events i s evts :
  forallb is_seat_event evts = true -> seat_wf s ->
  exists s', fold_from i s evts = Ok s' /\ seat_wf s' /\
    st_Version s' = int64 (st_Version s + Z.of_nat (length evts)).
Proof.
  revert i s; induction evts as [|e evts IH]; intros i s Hall Hwf; simpl in *.
  { exists s. rewrite Z.add_0_r. split_and!; [done|done|]. rewrite int64_small; [done|apply Hwf]. }
  apply andb_true_iff in Hall as [He Hall]. pose proof (Apply_cases s e) as HA.
  rewrite He in HA. destruct HA as (s1 & -> & Hwf1 & Hv1).
  destruct (IH (S i) s1 Hall Hwf1) as (s' & -> & Hwf' & Hv'). exists s'. split_and!; [done..|].
  rewrite Hv', Hv1, int64_add_l. f_equal. lia.
Qed.

(** The first event of another type is the one a failed fold reports. *)
Lemma fold_from_error i s evts x :
  fold_from i s evts = Err x ->
  exists j e, evts !! j = Some e /\ is_seat_event e = false /\
    forallb is_seat_event (take j evts) = true /\ errors_Is x ErrUnknownEvent = true.
Proof.
  revert i s; induction evts as [|e evts IH]; intros i s; simpl; [done|].
  pose proof (Apply_cases s e) as HA. destruct (is_seat_event e) eqn:He.
  - destruct HA as (s1 & -> & _). intros Hf. destruct (IH _ _ Hf) as (j & e' & H1 & H2 & H3 & H4).
    exists (S j), e'. simpl. rewrite He. eauto.
  - destruct HA as (x' & -> & Hx). intros [= <-]. exists 0%nat, e. simpl. eauto.
Qed.

Lemma zero_state_wf : seat_wf zero_state.
Proof. split; [by right|vm_compute; split; congruence]. Qed.

Lemma abstract_available s : seat_wf s -> abstract s = Available -> st_Status s = StatusFree.
Proof. unfold abstract. intros [[->|[-> _]] _]; by case_bool_decide. Qed.
End fold_lemmas.

#[export] Hint Resolve zero_state_wf : saga.

(** ** Lemmas: decisions *)
Section decision_lemmas.
Context `{TS : Timestamppb}.

(** What it means that a decision does what the specification says: its events
    fold to where [spec_step] goes, and there are none exactly when the
    abstract seat stays as it is. *)
Definition implements (n : nat) (s : SeatState) (i : input) (out : Outcome) : Prop :=
  exists s', fold_from n s (out_Events out) = Ok s' /\ seat_wf s' /\
    abstract s' = spec_step (abstract s) i /\
    (out_Events out = [] <-> spec_step (abstract s) i = abstract s) /\
    st_Version s' = int64 (st_Version s + Z.of_nat (length (out_Events out))).

Lemma implements_quiet n s i out :
  seat_wf s -> out_Events out = [] -> spec_step (abstract s) i = abstract s ->
  implements n s i out.
Proof.
  intros Hwf He Ha. exists s. rewrite He. split_and!; try done.
  rewrite Z.add_0_r, int64_small; [done|apply Hwf].
Qed.

Lemma implements_event n s i out e s' :
  out_Events out = [e] -> Apply s e = Ok s' ->
  abstract s' = spec_step (abstract s) i -> spec_step (abstract s) i <> abstract s ->
  implements n s i out.
Proof.
  intros He HA Ha Hne. exists s'. rewrite He. simpl. rewrite HA.
  pose proof (Apply_cases s e) as HC. destruct (is_seat_event e).
  - destruct HC as (s2 & HA' & Hwf & Hv). rewrite HA in HA'. injection HA' as <-.
    split_and!; done.
  - destruct HC as (x & HA' & _). congruence.
Qed.

Lemma Hold_implements n s c : seat_wf s -> implements n s (Command (MHoldSeat c)) (Hold s c).
Proof.
  intros Hwf. unfold Hold. destruct (bool_decide (st_Status s = StatusHeld)) eqn:Hs.
  - assert (abstract s = Taken (st_HoldID s) (st_BookingID s) (st_ExpiresAt s)) as Ha
      by (unfold abstract; by rewrite Hs).
    apply bool_decide_eq_true in Hs. rewrite Hs. simpl.
    destruct (bool_decide (st_HoldID s = _)); apply implements_quiet; try done; by rewrite Ha.
  - assert (abstract s = Available) as Ha by (unfold abstract; by rewrite Hs). simpl.
    rewrite (abstract_available s Hwf Ha). simpl.
    eapply implements_event; [reflexivity..|by rewrite Ha|by rewrite Ha].
Qed.

Lemma ending_implements n s i out e h :
  seat_wf s -> is_seat_event e = true -> Apply s e = Ok (freed_state s) ->
  (forall b t h', spec_step (Taken h' b t) i =
     if bool_decide (h' = h) then Available else Taken h' b t) ->
  spec_step Available i = Available ->
  out_Events out =
    (if bool_decide (st_Status s <> StatusHeld) || bool_decide (st_HoldID s <> h) then [] else [e]) ->
  implements n s i out.
Proof.
  intros Hwf He HA Hspec Hfree Hout.
  destruct (bool_decide (st_Status s = StatusHeld)) eqn:Hs.
  - assert (abstract s = Taken (st_HoldID s) (st_BookingID s) (st_ExpiresAt s)) as Ha
      by (unfold abstract; by rewrite Hs).
    apply bool_decide_eq_true in Hs. rewrite bool_decide_eq_false_2 in Hout by tauto.
    cbn [orb] in Hout. destruct (decide (st_HoldID s = h)) as [Hh|Hh].
    + rewrite bool_decide_eq_false_2 in Hout by tauto.
      eapply implements_event; [exact Hout|exact HA| |];
        rewrite Ha, Hspec, bool_decide_eq_true_2 by done; done.
    + rewrite bool_decide_eq_true_2 in Hout by done.
      apply implements_quiet; [done|exact Hout|].
      by rewrite Ha, Hspec, bool_decide_eq_false_2.
  - assert (abstract s = Available) as Ha by (unfold abstract; by rewrite Hs).
    apply bool_decide_eq_false in Hs. rewrite bool_decide_eq_true_2 in Hout by done.
    apply implements_quiet; [done|exact Hout|]. by rewrite Ha.
Qed.

Lemma decide_input_implements n s i out :
  seat_wf s -> decide_input s i = Ok out -> implements n s i out.
Proof.
  intros Hwf Hd. destruct i as [[c|c|c|c|c|c|c]|seat h]; simpl in Hd; try done;
    injection Hd as <-.
  - by apply Hold_implements.
  - unfold Release. set (e := MSeatHoldReleased _).
    apply (ending_implements n s _ _ e (ReleaseSeatHold_HoldId c)); try done.
    by destruct (_ || _).
  - unfold Expire. set (e := MSeatHoldExpired _).
    apply (ending_implements n s _ _ e h); try done. by destruct (_ || _).
Qed.

(** The event, if any, that a decision appends. *)
Lemma decided_events s i id out :
  decide_input s i = Ok out -> target i = Ok id ->
  out_Events out = [] \/
  exists e, out_Events out = [e] /\ event_seat e = Some id /\
    if bool_decide (st_Status s = StatusHeld)
    then (exists r, e = MSeatHoldReleased r /\ SeatHoldReleased_HoldId r = st_HoldID s) \/
         (exists x, e = MSeatHoldExpired x /\ SeatHoldExpired_HoldId x = st_HoldID s)
    else exists h, e = MSeatHeld h.
Proof.
  intros Hd Ht. destruct i as [[c|c|c|c|c|c|c]|seat h]; simpl in Hd, Ht; try done;
    injection Hd as <-; injection Ht as <-.
  - unfold Hold. destruct (_ && _); [by left|].
    destruct (bool_decide (st_Status s <> StatusFree)) eqn:E; [by left|]. right.
    apply bool_decide_eq_false, dec_stable in E. rewrite E. eexists. split_and!; [reflexivity|reflexivity|]. by eexists.
  - unfold Release. destruct (_ || _) eqn:E; [by left|]. right.
    apply orb_false_iff in E as [E%bool_decide_eq_false%dec_stable Eh%bool_decide_eq_false%dec_stable].
    rewrite E. eexists. split_and!; [reflexivity|reflexivity|]. left. by eexists.
  - unfold Expire. destruct (_ || _) eqn:E; [by left|]. right.
    apply orb_false_iff in E as [E%bool_decide_eq_false%dec_stable Eh%bool_decide_eq_false%dec_stable].
    rewrite E. eexists. split_and!; [reflexivity|reflexivity|]. right. by eexists.
Qed.

(** The deadline an event asks for, and the timers of a decision. *)
Definition asks (m : message) : option SeatTimer :=
  match m with
  | MSeatHeld e =>
      Some {| tmr_FireAt := AsTime (SeatHeld_ExpiresAt e); tmr_Token := SeatHeld_HoldId e |}
  | _ => None
  end.

Lemma decided_timers s cmd out : Decide s cmd = Ok out -> out_Timers out = omap asks (out_Events out).
Proof.
  destruct cmd; simpl; try done; intros [= <-].
  - unfold Hold. destruct (_ && _); [done|]. by destruct (bool_decide _).
  - unfold Release. by destruct (_ || _).
Qed.

Lemma decided_one s i id out :
  decide_input s i = Ok out -> target i = Ok id -> (length (out_Events out) <= 1)%nat.
Proof.
  intros Hd Ht. destruct (decided_events s i id out Hd Ht) as [->|(e & -> & _)]; simpl; lia.
Qed.

(** A history folds, and its version counts it. *)
Lemma seat_history_folds id evts :
  seat_history id evts ->
  exists s, Fold evts = Ok s /\ seat_wf s /\ st_Version s = int64 (Z.of_nat (length evts)).
Proof.
  induction 1 as [|evts s i out _ (s0 & Hf0 & Hwf & Hv) Hf _ Hd].
  { exists zero_state. split_and!; [done|apply zero_state_wf|done]. }
  rewrite Hf in Hf0. injection Hf0 as <-.
  destruct (decide_input_implements (length evts) s i out Hwf Hd) as (s' & Hs' & Hwf' & _ & _ & Hv').
  exists s'. split_and!; [|done|].
  - unfold Fold. by rewrite (fold_from_app 0 zero_state evts (out_Events out) s Hf).
  - rewrite Hv', Hv, length_app, int64_add_l. f_equal. lia.
Qed.

Lemma alternates_snoc live evts e :
  alternates live evts = true ->
  alternates live (evts ++ [e]) =
    alternates (match evts with [] => live | _ => live_hold evts end) [e].
Proof.
  revert live; induction evts as [|x evts IH]; intros live; [done|].
  assert (live_hold (x :: evts) = match evts with [] => live_hold [x] | _ => live_hold evts end) as ->
    by by destruct evts.
  destruct x, live as [h|]; simpl; try done;
    try (destruct (bool_decide _); [|done]); simpl; intros Ha; rewrite (IH _ Ha); by destruct evts.
Qed.

Lemma live_hold_snoc evts e :
  live_hold (evts ++ [e]) = match e with MSeatHeld h => Some (SeatHeld_HoldId h) | _ => None end.
Proof. unfold live_hold. by rewrite last_snoc. Qed.

(** The shape of a history, by induction on the decisions that made it. *)
Lemma history_shape (id : string) (evts : list message) :
  seat_history id evts ->
  alternates None evts = true /\ Forall (fun e => event_seat e = Some id) evts /\
  exists s, Fold evts = Ok s /\ seat_wf s /\
    match live_hold evts with
    | Some h => st_Status s = StatusHeld /\ st_HoldID s = h
    | None => st_Status s = StatusFree
    end.
Proof.
  induction 1 as [|evts s i out Hh (Halt & Hseat & s0 & Hf0 & Hwf & Hlive) Hf Ht Hd].
  { split_and!; [done..|]. exists zero_state. split_and!; [done|apply zero_state_wf|done]. }
  rewrite Hf in Hf0. injection Hf0 as <-.
  destruct (decide_input_implements (length evts) s i out Hwf Hd) as (s' & Hs' & Hwf' & _).
  pose proof (fold_from_app 0 zero_state evts (out_Events out) s Hf) as Hfold.
  assert (Fold (evts ++ out_Events out) = Ok s') as HF by (unfold Fold; by rewrite Hfold).
  destruct (decided_events s i id out Hd Ht) as [Hnil|(e & He & Hsid & Hst)].
  { rewrite Hnil, app_nil_r in *. split_and!; [done|done|]. exists s. by injection Hs' as <-. }
  rewrite He in *.
  assert (match evts with [] => None | _ => live_hold evts end = live_hold evts) as Hlv
    by by destruct evts.
  split_and!; [|by apply Forall_app; repeat constructor|].
  - rewrite alternates_snoc, Hlv by done. destruct (live_hold evts).
    + destruct Hlive as [Hl <-]. rewrite Hl in Hst.
      destruct Hst as [(r & -> & Hr)|(r & -> & Hr)]; simpl; by rewrite bool_decide_eq_true_2.
    + rewrite Hlive in Hst. by destruct Hst as [h ->].
  - exists s'. split_and!; [done|done|]. rewrite live_hold_snoc. revert Hs'. simpl.
    destruct (bool_decide _); [destruct Hst as [(r & -> & _)|(r & -> & _)]|destruct Hst as [h ->]];
      simpl; by intros [= <-].
Qed.
End decision_lemmas.

#[export] Hint Resolve decide_input_implements : saga.

(** ** Properties *)
Section properties.
Context `{TS : Timestamppb}.

(** The fold of a stream.  It succeeds exactly on streams of the three seat
    events; then the version is the number of events (as an [int]) and the state
    is well formed; otherwise the error is an [ErrUnknownEvent], caused by the
    first event of another type. *)
Theorem Fold_outcome (evts : list message) :
  match Fold evts with
  | Ok s =>
      forallb is_seat_event evts = true /\ seat_wf s /\
      st_Version s = int64 (Z.of_nat (length evts))
  | Err x =>
      errors_Is x ErrUnknownEvent = true /\
      exists j e, evts !! j = Some e /\ is_seat_event e = false /\
        forallb is_seat_event (take j evts) = true
  end.
Proof.
  unfold Fold. destruct (forallb is_seat_event evts) eqn:H.
  - destruct (fold_from_events 0 zero_state evts H) as (s & -> & H1 & H2); [apply zero_state_wf|].
    done.
  - destruct (fold_from 0 zero_state evts) as [s|x] eqn:E.
    + exfalso. assert (forallb is_seat_event evts = true) as H'; [|congruence].
      clear H. revert E. generalize 0%nat zero_state.
      induction evts as [|e evts IH]; intros n z; simpl; [done|].
      pose proof (Apply_cases z e) as HA. destruct (is_seat_event e).
      * destruct HA as (z' & -> & _). apply IH.
      * by destruct HA as (x & -> & _).
    + apply fold_from_error in E as (j & e & ? & ? & ? & ?). eauto 6.
Qed.

(** What answers a command: the two ids of the command, and the message types a
    sender waits for. *)
Definition answers (cmd m : message) : Prop :=
  match cmd, m with
  | MHoldSeat c, MSeatHeld e =>
      SeatHeld_HoldId e = HoldSeat_HoldId c /\ SeatHeld_SeatId e = HoldSeat_SeatId c
  | MHoldSeat c, MSeatUnavailable e =>
      SeatUnavailable_HoldId e = HoldSeat_HoldId c /\
      SeatUnavailable_SeatId e = HoldSeat_SeatId c /\
      SeatUnavailable_BookingId e = HoldSeat_BookingId c
  | MReleaseSeatHold c, MSeatHoldReleased e =>
      SeatHoldReleased_HoldId e = ReleaseSeatHold_HoldId c /\
      SeatHoldReleased_SeatId e = ReleaseSeatHold_SeatId c /\
      SeatHoldReleased_BookingId e = ReleaseSeatHold_BookingId c /\
      SeatHoldReleased_Reason e = ReleaseSeatHold_Reason c
  | _, _ => False
  end.

(** The answer of a decision. *)
Lemma decided_answer (s : SeatState) (cmd : message) (out : Outcome) :
  Decide s cmd = Ok out -> exists m, Messages out = [m] /\ answers cmd m.
Proof.
  destruct cmd as [c|c|c|c|c|c|c]; cbn [Decide]; try done; intros [= <-].
  - unfold Hold. destruct (_ && _) eqn:E; [|destruct (bool_decide (st_Status s <> StatusFree))].
    all: eexists; (split; [reflexivity|]); try done.
    apply andb_true_iff in E as [_ E%bool_decide_eq_true]. done.
  - unfold Release. destruct (_ || _); eexists; (split; [reflexivity|]); done.
Qed.

(** C16: every command gets exactly one answer, whatever state the seat is in, as an
    event or as a reply; a timer is asked for exactly when a hold is taken, at its
    deadline and carrying its hold id; and what is not a command is refused with
    [ErrUnknownCommand]. *)
Theorem Decide_answers_once (s : SeatState) (cmd : message) :
  match Decide s cmd with
  | Ok out =>
      (exists m, Messages out = [m] /\ answers cmd m) /\
      out_Timers out =
        match out_Events out with
        | [MSeatHeld e] =>
            [{| tmr_FireAt := AsTime (SeatHeld_ExpiresAt e); tmr_Token := SeatHeld_HoldId e |}]
        | _ => []
        end
  | Err x =>
      errors_Is x ErrUnknownCommand = true /\ SeatID cmd = Err x /\
      (forall c, cmd <> MHoldSeat c) /\ (forall c, cmd <> MReleaseSeatHold c)
  end.
Proof.
  destruct cmd as [c|c|c|c|c|c|c]; cbn [Decide SeatID];
    try (split_and!; [vm_compute; reflexivity|reflexivity|congruence|congruence]).
  - split; [by apply (decided_answer s (MHoldSeat c))|].
    unfold Hold. destruct (_ && _); [reflexivity|by destruct (bool_decide _)].
  - split; [by apply (decided_answer s (MReleaseSeatHold c))|].
    unfold Release. by destruct (_ || _).
Qed.

(** C13: decisions refine the abstract seat.  On a folded state, the events of any
    decision fold without error to a well-formed state that is where the
    specification takes the seat; a decision appends events exactly when the
    abstract seat changes; and the version advances by the number of events. *)
Theorem decide_refines (s : SeatState) (i : input) (out : Outcome) (n : nat) :
  seat_wf s -> decide_input s i = Ok out ->
  exists s', fold_from n s (out_Events out) = Ok s' /\ seat_wf s' /\
    abstract s' = spec_step (abstract s) i /\
    (out_Events out = [] <-> spec_step (abstract s) i = abstract s) /\
    st_Version s' = int64 (st_Version s + Z.of_nat (length (out_Events out))).
Proof. apply decide_input_implements. Qed.

(** Only the holder moves a taken seat.  While hold [h] has the seat: another
    hold is answered with [SeatUnavailable] and nothing else; a release of another
    hold is acknowledged and appends nothing; a deadline of another hold does
    nothing at all. *)
Theorem only_the_holder (s : SeatState) (h b : string) (t : Time) :
  abstract s = Taken h b t ->
  (forall c, HoldSeat_HoldId c <> h ->
     Hold s c =
       {| out_Events := [];
          out_Replies := [MSeatUnavailable
            {| SeatUnavailable_HoldId := HoldSeat_HoldId c;
               SeatUnavailable_BookingId := HoldSeat_BookingId c;
               SeatUnavailable_SeatId := HoldSeat_SeatId c;
               SeatUnavailable_Reason := "seat is held" |}];
          out_Timers := [] |}) /\
  (forall c, ReleaseSeatHold_HoldId c <> h ->
     out_Events (Release s c) = [] /\ out_Timers (Release s c) = [] /\
     exists e, out_Replies (Release s c) = [MSeatHoldReleased e]) /\
  (forall seat h', h' <> h -> Expire s seat h' = no_outcome).
Proof.
  unfold abstract. case_bool_decide as Hs; [|done]. intros [= Hh _ _].
  split_and!.
  - intros c Hc. unfold Hold. rewrite Hs, Hh, bool_decide_eq_true_2 by done.
    rewrite bool_decide_eq_false_2 by congruence. simpl. done.
  - intros c Hc. unfold Release. rewrite Hs, Hh, bool_decide_eq_false_2 by naive_solver.
    rewrite bool_decide_eq_true_2 by congruence. simpl. eauto.
  - intros seat h' Hc. unfold Expire. rewrite Hs, Hh, bool_decide_eq_false_2 by naive_solver.
    by rewrite bool_decide_eq_true_2 by congruence.
Qed.

(** Re-dispatching is harmless.  A hold command that took the seat, decided
    again on the state it led to, appends nothing, asks for no second timer, and is
    answered with the same announcement, deadline included; a release decided again
    appends nothing and gets the identical answer. *)
Theorem redispatch_repeats_the_answer `{TSL : !TimestamppbLaws} (s : SeatState) n :
  seat_wf s ->
  (forall c e s', out_Events (Hold s c) = [MSeatHeld e] ->
     fold_from n s (out_Events (Hold s c)) = Ok s' ->
     exists e', Hold s' c = {| out_Events := []; out_Replies := [MSeatHeld e']; out_Timers := [] |} /\
       SeatHeld_HoldId e' = SeatHeld_HoldId e /\ SeatHeld_BookingId e' = SeatHeld_BookingId e /\
       SeatHeld_SeatId e' = SeatHeld_SeatId e /\
       AsTime (SeatHeld_ExpiresAt e') = AsTime (SeatHeld_ExpiresAt e)) /\
  (forall c s', fold_from n s (out_Events (Release s c)) = Ok s' ->
     out_Events (Release s' c) = [] /\ out_Timers (Release s' c) = [] /\
     Messages (Release s' c) = Messages (Release s c)).
Proof.
  intros Hwf. split.
  - intros c e s'. unfold Hold at 1 2. destruct (_ && _); [done|].
    destruct (bool_decide (st_Status s <> StatusFree)); [done|]. simpl.
    intros [= <-] [= <-]. unfold Hold. simpl. rewrite bool_decide_eq_true_2 by done.
    eexists. split; [reflexivity|]. simpl. by rewrite AsTime_New.
  - intros c s'. unfold Release at 1. destruct (_ || _) eqn:E; simpl.
    + intros [= <-]. unfold Release. by rewrite E.
    + intros [= <-]. unfold Release. rewrite E. simpl. done.
Qed.

(** A release and its hold's deadline can arrive in either order.  From a state
    in which the hold has the seat, both orders append exactly one event, the one of
    whichever came first, and end in the same state. *)
Theorem release_and_deadline_commute (s : SeatState) (c : ReleaseSeatHold) (b : string)
    (t : Time) :
  seat_wf s -> abstract s = Taken (ReleaseSeatHold_HoldId c) b t ->
  let seat := ReleaseSeatHold_SeatId c in
  let h := ReleaseSeatHold_HoldId c in
  exists s',
    fold_from 0 s (out_Events (Release s c)) = Ok s' /\
    fold_from 0 s (out_Events (Expire s seat h)) = Ok s' /\
    length (out_Events (Release s c)) = 1%nat /\ length (out_Events (Expire s seat h)) = 1%nat /\
    Expire s' seat h = no_outcome /\ out_Events (Release s' c) = [].
Proof.
  intros Hwf. unfold abstract. case_bool_decide as Hs; [|done]. intros [= Hh _ _]. simpl.
  unfold Release, Expire. rewrite Hs, Hh, !bool_decide_eq_false_2 by naive_solver. simpl.
  eexists. split_and!; reflexivity.
Qed.

(** C12: the shape of every history.  A stream that only this seat's decisions extend
    alternates: a hold is taken when the seat is free, and ended, released or
    expired, by an event about that very hold; every event is about this seat; the
    stream folds, and the folded state is held exactly by the hold that is open. *)
Theorem history_alternates (id : string) (evts : list message) :
  seat_history id evts ->
  alternates None evts = true /\ Forall (fun e => event_seat e = Some id) evts /\
  exists s, Fold evts = Ok s /\ seat_wf s /\
    match live_hold evts with
    | Some h => st_Status s = StatusHeld /\ st_HoldID s = h
    | None => st_Status s = StatusFree
    end.
Proof. apply history_shape. Qed.
End properties.

(** ** Witnesses *)
Module Samples.
Import UnixTimestamps.
Definition seat : string := "seat-1".
Definition deadline : option Timestamp := Some (1780000000, 0).
Definition hold (h : string) : HoldSeat :=
  Build_HoldSeat h "booking-1" seat deadline.
Definition release (h : string) : ReleaseSeatHold :=
  Build_ReleaseSeatHold h "booking-1" seat "cancelled".
Definition taken : SeatState :=
  {| st_Version := 1; st_Status := StatusHeld; st_HoldID := "hold-1";
     st_BookingID := "booking-1"; st_ExpiresAt := Unix 1780000000 0 |}.
Lemma taken_wf : seat_wf taken.
Proof. split; [by left|by vm_compute]. Qed.
Lemma taken_history : seat_history seat [MSeatHeld (Build_SeatHeld "hold-1" "booking-1" seat deadline)].
Proof.
  apply (history_step seat [] zero_state (Command (MHoldSeat (hold "hold-1"))) (Hold zero_state (hold "hold-1")));
    [constructor|reflexivity..].
Qed.
End Samples.

Import Samples UnixTimestamps.

Lemma decide_refines_witness :
  exists s', fold_from 0 taken (out_Events (Release taken (release "hold-1"))) = Ok s' /\
    abstract s' = Available.
Proof.
  destruct (decide_refines taken (Command (MReleaseSeatHold (release "hold-1")))
    (Release taken (release "hold-1")) 0 taken_wf eq_refl) as (s' & H1 & _ & H2 & _).
  exists s'. split; [exact H1|exact H2].
Defined.

Lemma only_the_holder_witness : Expire taken seat "hold-2" = no_outcome.
Proof.
  apply (only_the_holder taken "hold-1" "booking-1" (Unix 1780000000 0) eq_refl). done.
Defined.

Lemma redispatch_repeats_the_answer_witness :
  let s' := held_state zero_state (held taken seat) in
  exists e', Hold s' (hold "hold-1") =
    {| out_Events := []; out_Replies := [MSeatHeld e']; out_Timers := [] |} /\
    SeatHeld_HoldId e' = "hold-1".
Proof.
  intros s'.
  destruct (proj1 (redispatch_repeats_the_answer zero_state 0 zero_state_wf) (hold "hold-1")
    (Build_SeatHeld "hold-1" "booking-1" seat deadline) s') as (e' & H1 & H2 & _);
    [reflexivity|vm_compute; reflexivity|].
  exists e'. split; [exact H1|exact H2].
Defined.

Lemma release_and_deadline_commute_witness :
  exists s', fold_from 0 taken (out_Events (Release taken (release "hold-1"))) = Ok s' /\
    fold_from 0 taken (out_Events (Expire taken seat "hold-1")) = Ok s'.
Proof.
  destruct (release_and_deadline_commute taken (release "hold-1") "booking-1" (Unix 1780000000 0)
    taken_wf eq_refl) as (s' & H1 & H2 & _).
  exists s'. split; [exact H1|exact H2].
Defined.

Lemma history_alternates_witness :
  alternates None [MSeatHeld (Build_SeatHeld "hold-1" "booking-1" seat deadline)] = true.
Proof. exact (proj1 (history_alternates seat _ taken_history)). Defined.
