(* ===== verification/Store.v ===== *)
(** * Store ([internal/inventory/store.go])

    A seat stream read back into its folded state, and events encoded and appended to
    it.  The lemmas give each of the two as one equation over a healthy
    connection, and say what a stream looks like when it holds the encodings of
    given messages. *)
From S2P Require Import Prelude Contracts Database EventStore Codec Seat.

Section store.
Context `{TS : Timestamppb} `{PG : Postgres} `{PJ : !Protojson}.

(** One turn of the decoding loop of [LoadSeat]. *)
Definition decode_recorded (seatID : string) (_ : nat) (r : Recorded) : res message :=
  wrap_err (fun e => EWrap ("inventory: decode " +:+ seatID +:+ " v" +:+ Itoa (rec_Version r) +:+
                            ": " +:+ Error e)%string e)
    (Decode (rec_Event r)).

(** The metadata of the last event; the zero [Meta] of an empty stream. *)
Definition last_meta (recorded : list Recorded) : Meta :=
  match last recorded with Some r => evt_Meta (rec_Event r) | None => no_meta end.

Definition LoadSeat (seatID : string) : tx (SeatState * Meta) :=
  recorded ← Load seatID;
  msgs ← lift (traverse (decode_recorded seatID) 0 recorded);
  state ← lift (Fold msgs);
  mret (state, last_meta recorded).

Definition encode_event (seatID : string) (meta : Meta) (_ : nat) (m : message) : res Event :=
  wrap_err (fun e => EWrap ("inventory: encode for " +:+ seatID +:+ ": " +:+ Error e)%string e)
    (Encode (Some m) meta).

Definition AppendSeat (seatID : string) (expectedVersion : Z) (evts : list message)
    (meta : Meta) : tx unit :=
  if bool_decide (evts = []) then mret tt
  else
    stored ← lift (traverse (encode_event seatID meta) 0 evts);
    Append seatID expectedVersion stored.

(** ** A stream and the messages it holds *)

Definition row_event (r : event_row) : Event :=
  {| evt_Type := ev_type r; evt_Data := ev_data r; evt_Meta := unmarshal_meta (ev_meta r) |}.

(** The stream of a seat is gapless, its rows decode to [msgs], in order, and
    [msgs] is a history of the seat. *)
Definition holds_history (id : string) (d : db) (msgs : list message) : Prop :=
  gapless id d /\ Forall2 (fun r m => Decode (row_event r) = Ok m) (stream_rows id d) msgs /\
  seat_history id msgs /\ Z.of_nat (length msgs) < 2 ^ 31.

(** Every stream of the service is the history of a seat. *)
Definition consistent (d : db) : Prop := forall id, exists msgs, holds_history id d msgs.

(** ** Lemmas *)
Lemma decode_recorded_ok id rows msgs i :
  Forall2 (fun r m => Decode (row_event r) = Ok m) rows msgs ->
  traverse (decode_recorded id) i (scan_event id <$> rows) = Ok msgs.
Proof.
  intros H. revert i. induction H as [|r m rows msgs Hr _ IH]; intros i; [done|].
  cbn [fmap list_fmap traverse]. unfold decode_recorded at 1. simpl.
  change {| evt_Type := _ |} with (row_event r). rewrite Hr. simpl. by rewrite IH.
Qed.

(** What [LoadSeat] returns of a consistent stream: its fold and its last meta. *)
Definition loaded (id : string) (d : db) (msgs : list message) (s : SeatState) : Prop :=
  holds_history id d msgs /\ Fold msgs = Ok s /\ seat_wf s /\
  st_Version s = Z.of_nat (length (stream_rows id d)).

Lemma holds_history_length id d msgs :
  holds_history id d msgs -> length msgs = length (stream_rows id d).
Proof. intros (_ & H & _). by apply Forall2_length in H. Qed.

Lemma loaded_exists id d msgs :
  holds_history id d msgs -> exists s, loaded id d msgs s.
Proof.
  intros H. pose proof (holds_history_length _ _ _ H) as Hl.
  destruct H as (Hg & Hd & Hh & Hn).
  destruct (seat_history_folds id msgs Hh) as (s & Hf & Hwf & Hv).
  exists s. do 3 (split; [done|]).
  rewrite Hv, <- Hl. apply int64_small. lia.
Qed.

(** Rows decode to one list of messages. *)
Lemma decoded_unique rows msgs msgs' :
  Forall2 (fun r m => Decode (row_event r) = Ok m) rows msgs ->
  Forall2 (fun r m => Decode (row_event r) = Ok m) rows msgs' -> msgs' = msgs.
Proof.
  intros H1. revert msgs'. induction H1 as [|r m rows msgs Hm _ IH]; intros msgs' H2; inversion H2; subst;
    [done|]. f_equal; [congruence|by apply IH].
Qed.

(** A stream has one folded state. *)
Lemma loaded_unique id d msgs msgs' st st' :
  loaded id d msgs st -> loaded id d msgs' st' -> st' = st.
Proof.
  intros ((_ & H1 & _) & Hf1 & _) ((_ & H2 & _) & Hf2 & _).
  pose proof (decoded_unique _ _ _ H1 H2). congruence.
Qed.

(** The folded state of the stream of [id]: what [LoadSeat] computes. *)
Definition state_of (id : string) (d : db) : SeatState :=
  match traverse (decode_recorded id) 0 (recorded id d) with
  | Ok msgs => match Fold msgs with Ok s => s | Err _ => zero_state end
  | Err _ => zero_state
  end.

Lemma state_of_fold id d msgs : holds_history id d msgs -> Fold msgs = Ok (state_of id d).
Proof.
  intros Hh. destruct (loaded_exists id d msgs Hh) as (s & _ & Hf & _). unfold state_of, recorded.
  destruct Hh as (Hg & Hdec & _). rewrite gapless_order by done.
  by rewrite (decode_recorded_ok id _ msgs), Hf.
Qed.

Lemma state_of_loaded id d : consistent d -> exists msgs, loaded id d msgs (state_of id d).
Proof.
  intros Hd. destruct (Hd id) as [msgs Hh]. destruct (loaded_exists id d msgs Hh) as [s Hl].
  exists msgs. pose proof Hl as (_ & Hf & _). rewrite (state_of_fold id d msgs Hh) in Hf.
  by injection Hf as ->.
Qed.

(** It is a function of the stream. *)
Lemma state_of_same id d d' :
  stream_rows id d' = stream_rows id d -> state_of id d' = state_of id d.
Proof. unfold state_of, recorded, stream_rows. by intros ->. Qed.

(** What appending one event makes of it. *)
Lemma state_of_append id d d' msgs e :
  holds_history id d msgs -> holds_history id d' (msgs ++ [e]) ->
  Apply (state_of id d) e = Ok (state_of id d').
Proof.
  intros Hf%state_of_fold Hf'%state_of_fold. unfold Fold in *.
  rewrite (fold_from_app _ _ _ _ _ Hf) in Hf'. simpl in Hf'.
  by destruct (Apply (state_of id d) e).
Qed.

Lemma run_LoadSeat o id msgs st (w : world) (s : session) :
  healthy o w s = true ->
  let w' := round_trip o (s_log s) w in
  loaded id (view w' s) msgs st ->
  run o (LoadSeat id) w s = (Ok (st, last_meta (recorded id (view w' s))), w', record [] s).
Proof.
  intros Hh w' ((Hg & Hd & _) & Hf & _). unfold LoadSeat.
  rewrite run_tx_bind, run_Load by done. cbv beta iota zeta. fold w'.
  rewrite run_tx_bind, run_lift. unfold recorded at 1. rewrite gapless_order by done.
  rewrite (decode_recorded_ok id _ msgs) by done. rewrite run_tx_bind, run_lift, Hf. done.
Qed.

Lemma does_LoadSeat o now id msgs st d :
  calm o -> loaded id d msgs st ->
  does o now (LoadSeat id) d (fun r L => r = (st, last_meta (recorded id d)) /\ L = []).
Proof.
  intros Hcalm ((Hg & Hd & _) & Hf & _). unfold LoadSeat.
  eapply does_bind; [by apply does_Load|]. intros ? ? [-> ->].
  eapply does_lift_bind.
  { unfold recorded. rewrite gapless_order by done. by apply decode_recorded_ok. }
  eapply does_lift_bind; [exact Hf|]. by apply does_ret.
Qed.

(** Messages the codec can marshal and the database can store as [jsonb]. *)
Definition storable (m : message) : bool :=
  match json_marshal m with
  | Ok b => is_ok (jsonb b) && registered (FullName m) && bool_decide (FullName m <> "")
  | Err _ => false
  end.

(** The row of an appended message. *)
Definition holds_event (id : string) (meta : Meta) (m : message) (r : event_row) : Prop :=
  Decode (row_event r) = Ok m /\ ev_type r = FullName m /\ unmarshal_meta (ev_meta r) = meta /\
  ev_stream_id r = id.

Context `{PJL : !ProtojsonLaws}.

Lemma stored_decodes id m meta e r :
  registered (FullName m) = true -> Encode (Some m) meta = Ok e -> stored_as e r ->
  ev_stream_id r = id -> holds_event id meta m r.
Proof.
  intros Hr He (Ht & Hj & Hm) Hs. destruct (Encode_ok m meta e He) as (Hte & Hme & _).
  assert (unmarshal_meta (ev_meta r) = meta) as Hmeta by (by rewrite Hm, unmarshal_marshal_meta).
  split_and!; [|congruence|done|done].
  apply (encodes_decode m meta); [done|]. exists e. unfold row_event; simpl.
  split_and!; [done|done|congruence|by right].
Qed.

Lemma encode_events_ok id meta evts i :
  forallb storable evts = true ->
  exists stored rows rows', traverse (encode_event id meta) i evts = Ok stored /\
    (forall j, traverse append_args j stored = Ok rows) /\
    (forall j, traverse cast_jsonb j rows = Ok rows') /\
    Forall2 (fun m e => Encode (Some m) meta = Ok e) evts stored.
Proof.
  revert i; induction evts as [|m evts IH]; intros i Hall; [by exists [], [], []|].
  simpl in Hall. apply andb_true_iff in Hall as [Hm Hall].
  destruct (IH (S i) Hall) as (stored & rows & rows' & E1 & E2 & E3 & E4).
  unfold storable in Hm. destruct (json_marshal m) as [b|] eqn:Hb; [|done].
  apply andb_true_iff in Hm as [[Hj _]%andb_true_iff Hn%bool_decide_eq_true].
  destruct (jsonb b) as [b'|] eqn:Hb'; [|done].
  set (e := {| evt_Type := TypeName m; evt_Data := b; evt_Meta := meta |}).
  assert (Encode (Some m) meta = Ok e) as He by (unfold Encode; by rewrite Hb).
  assert (validate e = Ok tt) as Hval by by eapply Encode_valid.
  exists (e :: stored), ((evt_Type e, evt_Data e, marshal_meta meta) :: rows),
    ((evt_Type e, b', marshal_meta meta) :: rows').
  split_and!.
  - cbn [traverse]. unfold encode_event at 1. by rewrite He; simpl; rewrite E1.
  - intros j. cbn [traverse]. unfold append_args at 1. by rewrite Hval, E2.
  - intros j. cbn [traverse]. unfold cast_jsonb at 1. simpl. by rewrite Hb', E3.
  - by constructor.
Qed.

Lemma does_AppendSeat o now id msgs st evts meta d :
  calm o -> loaded id d msgs st -> forallb storable evts = true ->
  Z.of_nat (length msgs) + Z.of_nat (length evts) < 2 ^ 31 ->
  does o now (AppendSeat id (st_Version st) evts meta) d (fun _ L =>
    exists rs, L = WEvent <$> rs /\ Forall2 (holds_event id meta) evts rs /\
      ev_version <$> rs = upto (Z.of_nat (length msgs) + 1) (length evts)).
Proof.
  intros Hcalm (Hh & _ & _ & Hv) Hst Hlen. unfold AppendSeat.
  pose proof (holds_history_length _ _ _ Hh) as Hl. destruct Hh as (Hg & _).
  destruct (decide (evts = [])) as [->|Hne].
  { apply does_ret. exists []. split_and!; [done|constructor|done]. }
  rewrite bool_decide_eq_false_2 by done.
  destruct (encode_events_ok id meta evts 0 Hst) as (stored & rows & rows' & E1 & E2 & E3 & E4).
  eapply does_lift_bind; [exact E1|]. rewrite Hv. pose proof (Forall2_length _ _ _ E4) as Hl4.
  eapply does_mono; [eapply does_Append; try done; rewrite <- Hl4, <- Hl; lia|].
  intros [] L (rs & -> & Hs & Hid & Hvers). exists rs.
  rewrite Hl4, Hl. split_and!; [done| |done].
  clear -E4 Hs Hid Hst PJL. revert stored rs E4 Hs Hid Hst.
  induction evts as [|m evts IH]; intros stored rs E4 Hs Hid Hst; inversion E4; subst;
    inversion Hs; subst; constructor.
  - apply Forall_cons in Hid as [Hid _]. simpl in Hst. apply andb_true_iff in Hst as [Hm _].
    unfold storable in Hm. destruct (json_marshal m) eqn:Hb; [|done].
    apply andb_true_iff in Hm as [[_ Hr]%andb_true_iff _]. by eapply stored_decodes.
  - apply Forall_cons in Hid as [_ Hid]. simpl in Hst. apply andb_true_iff in Hst as [_ Hst].
    by eapply IH.
Qed.
End store.

(** A seat, the command that takes it, and the stream that leaves. *)
Module Samples.
Import UnixTimestamps PlainPostgres NumberedJson.
Definition seat : string := "seat-1".
Definition hold : message :=
  MHoldSeat (Build_HoldSeat "hold-1" "booking-1" seat (Some ((0, 0) : @Timestamp timestamppb))).
Definition decision : Outcome :=
  match Decide zero_state hold with Ok out => out | Err _ => no_outcome end.
Definition held : message :=
  MSeatHeld (Build_SeatHeld "hold-1" "booking-1" seat (Some ((0, 0) : @Timestamp timestamppb))).
Definition held_row : event_row :=
  {| ev_global_seq := 1; ev_stream_id := seat; ev_version := 1; ev_type := SeatHeld_FullName;
     ev_data := match json_marshal held with Ok b => b | Err _ => [] end;
     ev_meta := marshal_meta {| TraceID := ""; CorrelationID := "saga-1"; CausationID := "cmd-1" |};
     ev_recorded_at := 0 |}.
Definition one_hold : db := apply_writes empty_db [WEvent held_row].
Definition taken : SeatState :=
  {| st_Version := 1; st_Status := StatusHeld; st_HoldID := "hold-1";
     st_BookingID := "booking-1"; st_ExpiresAt := Unix 0 0 |}.
Lemma empty_holds id : holds_history id empty_db [].
Proof. split; [done|]. split; [constructor|]. split; [constructor|done]. Qed.
Lemma empty_consistent : consistent empty_db.
Proof. intros id. exists []. apply empty_holds. Qed.
Lemma loaded_empty : loaded seat empty_db [] zero_state.
Proof.
  split; [apply empty_holds|split; [reflexivity|split; [apply zero_state_wf|reflexivity]]].
Qed.
Lemma one_hold_wf : seat_wf taken.
Proof. split; [by left|by vm_compute]. Qed.
Lemma one_hold_history : holds_history seat one_hold [held].
Proof.
  split; [reflexivity|]. split; [|split; [|done]].
  - constructor; [|constructor]. apply (bool_decide_unpack _). vm_compute. exact I.
  - apply (history_step seat [] zero_state (Command hold) decision); [constructor|reflexivity..].
Qed.
Lemma loaded_taken : loaded seat one_hold [held] taken.
Proof.
  split; [exact one_hold_history|split; [reflexivity|split; [exact one_hold_wf|reflexivity]]].
Qed.
Lemma one_hold_consistent : consistent one_hold.
Proof.
  intros id. destruct (decide (id = seat)) as [->|Hne]; [exists [held]; apply one_hold_history|].
  exists []. destruct (empty_holds id) as (H1 & H2 & H3 & H4).
  assert (stream_rows id one_hold = []) as Hr
    by (unfold stream_rows; simpl; rewrite filter_cons_False by (simpl; congruence); done).
  unfold holds_history, gapless. rewrite Hr. done.
Qed.
End Samples.
