(* ===== verification/Commands.v ===== *)
(** * Commands and expiry ([internal/inventory/commands.go], [expiry.go])

    The command handler: one command, one seat, one transaction that marks the
    delivery, folds the seat, decides, appends, schedules and enqueues; with a
    bounded retry when another writer won.  And the firer of hold deadlines, which
    does the same inside the transaction that claimed the timer.

    [Encoder] is the Go interface; [envelope.NewID] draws a fresh id. *)
From S2P Require Import Prelude Contracts Envelope Database Timers EventStore Inbox Outbox Codec Seat Store.

(** ** [commands.go] *)
Definition CommandsTopic : string := "inventory.commands".
Definition EventsTopic : string := "inventory.events".
Definition Source : string := "/sagaflow/inventory".
Definition Consumer : string := "inventory.commands".
Definition ConflictRetries : nat := 3.

Section commands.
Context `{TS : Timestamppb} `{PG : Postgres} `{PJ : !Protojson}.

(** [Encoder] frames a message for the wire. *)
Class Encoder := Encoder_Encode : message -> res bytes.

Context `{EN : Encoder}.

(** The copy of the template with an id and a type of its own. *)
Definition stamped (tmpl : Envelope) (id type : string) : Envelope :=
  {| env_ID := id; env_Source := env_Source tmpl; env_Type := type;
     env_Subject := env_Subject tmpl; env_CorrelationID := env_CorrelationID tmpl;
     env_CausationID := env_CausationID tmpl; env_TraceParent := env_TraceParent tmpl |}.

Fixpoint outgoing (msgs : list message) (tmpl : Envelope) : tx (list Message) :=
  match msgs with
  | [] => mret []
  | m :: msgs =>
      match Encoder_Encode m with
      | Err e =>
          fail (EWrap ("inventory: frame " +:+ TypeName m +:+ ": " +:+ Error e)%string e)
      | Ok payload =>
          NewID (fun id =>
            let e := stamped tmpl id (TypeName m) in
            out ← outgoing msgs tmpl;
            mret ({| msg_Topic := EventsTopic; msg_Key := env_Subject e;
                     msg_Payload := payload; msg_Headers := Headers e |} :: out))
      end
  end.

Definition scheduleTimers (seatID : string) (ts : list SeatTimer) : tx unit :=
  tx_each (fun t => Timers.Schedule (tmr_FireAt t) seatID (tmr_Token t)) ts.

Definition command_meta (incoming : Envelope) : Meta :=
  {| TraceID := ""; CorrelationID := env_CorrelationID incoming; CausationID := env_ID incoming |}.

Definition command_template (incoming : Envelope) (seatID : string) : Envelope :=
  {| env_ID := ""; env_Source := Source; env_Type := ""; env_Subject := seatID;
     env_CorrelationID := env_CorrelationID incoming; env_CausationID := env_ID incoming;
     env_TraceParent := env_TraceParent incoming |}.

(** The closure [applyInOneTransaction] runs, past the inbox. *)
Definition decide_and_write (incoming : Envelope) (cmd : message) (seatID : string) : tx unit :=
  loaded ← LoadSeat seatID;
  let '(state, _) := loaded : SeatState * Meta in
  decision ← lift (Decide state cmd);
  _ ← AppendSeat seatID (st_Version state) (out_Events decision) (command_meta incoming);
  _ ← scheduleTimers seatID (out_Timers decision);
  msgs ← outgoing (Messages decision) (command_template incoming seatID);
  Enqueue msgs.

Definition apply_command (incoming : Envelope) (cmd : message) (seatID : string) : tx unit :=
  firstDelivery ← MarkConsumed Consumer (env_Source incoming) (env_ID incoming);
  if (firstDelivery : bool) then decide_and_write incoming cmd seatID else mret tt.

(** ** [expiry.go] *)
Definition expiry_meta (origin : Meta) : Meta :=
  {| TraceID := ""; CorrelationID := CorrelationID origin; CausationID := "" |}.

Definition expiry_template (seatID : string) (origin : Meta) : Envelope :=
  {| env_ID := ""; env_Source := Source; env_Type := ""; env_Subject := seatID;
     env_CorrelationID := CorrelationID origin; env_CausationID := ""; env_TraceParent := "" |}.

Definition Fire (t : Timers.Timer) : tx unit :=
  let seatID := Timers.t_Subject t in
  loaded ← LoadSeat seatID;
  let '(state, origin) := loaded : SeatState * Meta in
  let decision := Expire state seatID (Timers.t_Token t) in
  if bool_decide (out_Events decision = []) then mret tt
  else
    _ ← AppendSeat seatID (st_Version state) (out_Events decision) (expiry_meta origin);
    msgs ← outgoing (Messages decision) (expiry_template seatID origin);
    Enqueue msgs.

Section handler.
Context (o : oracle).

Definition applyInOneTransaction (incoming : Envelope) (cmd : message) (w : world) :
  res unit * world :=
  match SeatID cmd with
  | Err e => (Err e, w)
  | Ok seatID => WithTx o (apply_command incoming cmd seatID) w
  end.

(** [n] more attempts; [last] is the error of the previous one. *)
Fixpoint attempts (n : nat) (incoming : Envelope) (cmd : message) (last : err) (w : world) :
  res unit * world :=
  match n with
  | O =>
    (Err (EWrap ("inventory: " +:+ env_Type incoming +:+ " on " +:+ env_Subject incoming +:+
                 " after " +:+ Itoa (Z.of_nat ConflictRetries) +:+ " retries: " +:+
                 Error last)%string last), w)
  | S n =>
    match applyInOneTransaction incoming cmd w with
    | (Ok u, w) => (Ok u, w)
    | (Err e, w) =>
        if errors_Is e ErrVersionConflict then attempts n incoming cmd e w else (Err e, w)
    end
  end.

(** The error before the first attempt is nil; it is never the last one. *)
Definition Handle (incoming : Envelope) (cmd : message) (w : world) : res unit * world :=
  attempts (ConflictRetries + 1) incoming cmd (ENew "%!w(<nil>)") w.
End handler.
End commands.

(** ** Lemmas *)
Section command_lemmas.
Context `{TS : Timestamppb} `{PG : Postgres} `{PJ : !Protojson} `{EN : !Encoder}.

(** A message of the outbox that announces [m]: framed, keyed by the stream, and
    with the headers of the template under an id and a type of its own. *)
Definition announces (tmpl : Envelope) (m : message) (x : Message) : Prop :=
  msg_Topic x = EventsTopic /\ msg_Key x = env_Subject tmpl /\
  Encoder_Encode m = Ok (msg_Payload x) /\
  exists id, msg_Headers x = Headers (stamped tmpl id (TypeName m)).

Definition framable (m : message) : bool :=
  match Encoder_Encode m with Ok b => bool_decide (b <> []) | Err _ => false end.

(** Its id is one that the process drew. *)
Definition identified (o : oracle) (x : Message) : Prop :=
  exists n, header (msg_Headers x) "ce_id" = uuid o n.

Lemma does_outgoing o now msgs tmpl d :
  forallb framable msgs = true ->
  does o now (outgoing msgs tmpl) d (fun out L =>
    (Forall2 (announces tmpl) msgs out /\ Forall (identified o) out) /\ L = []).
Proof.
  induction msgs as [|m msgs IH]; intros Hall; simpl.
  { apply does_ret. by split; [split; constructor|]. }
  simpl in Hall. apply andb_true_iff in Hall as [Hm Hall]. unfold framable in Hm.
  destruct (Encoder_Encode m) as [payload|] eqn:Hp; [|done].
  apply does_newid. intros n. eapply does_bind; [by apply IH|].
  intros out L [[Hout Hids] ->]. apply does_ret. split; [|done]. split; constructor; [|done| |done].
  - split_and!; try done. by exists (uuid o n).
  - exists n. simpl. apply Headers_read.
Qed.

(** Messages announced on a non-empty key pass the outbox's validation. *)
Lemma announced_valid tmpl msgs out :
  env_Subject tmpl <> ""%string -> forallb framable msgs = true ->
  Forall2 (announces tmpl) msgs out -> Forall (fun x => Validate x = Ok tt) out.
Proof.
  intros Hs Hall H. revert Hall. induction H as [|m x msgs out (Ht & Hk & Hp & _) _ IH];
    intros Hall; constructor; simpl in Hall; apply andb_true_iff in Hall as [Hm Hall]; [|by apply IH].
  unfold framable in Hm. rewrite Hp in Hm. apply bool_decide_eq_true in Hm.
  unfold Validate. rewrite Ht, Hk. by rewrite !bool_decide_eq_false_2.
Qed.

Lemma does_scheduleTimers o now seatID ts d :
  calm o ->
  does o now (scheduleTimers seatID ts) d (fun _ L => exists rs, L = WTimer <$> rs /\
    Forall2 (fun t r => Timers.scheduled_as (tmr_FireAt t) seatID (tmr_Token t) r) ts rs).
Proof.
  intros Hcalm. unfold scheduleTimers. revert d. induction ts as [|t ts IH]; intros d.
  { apply does_ret. exists []. by split; [|constructor]. }
  cbn [tx_each]. eapply does_bind; [by apply Timers.does_Schedule|].
  intros [] L (r & -> & Hr). eapply does_mono; [apply IH|].
  intros [] L (rs & -> & Hrs). exists (r :: rs). by split; [|constructor].
Qed.
End command_lemmas.

Section expiry_lemmas.
Context `{TS : Timestamppb} `{PG : Postgres} `{PJ : !Protojson} `{PJL : !ProtojsonLaws}
  `{EN : !Encoder}.

(** The log of a claimed deadline: the claim; and unless the hold has ended, its expiry
    at the next version and the announcement. *)
Definition expiry_log (t : Timers.Timer) (at_ : Time) (evs : list event_row)
    (obs : list outbox_row) : list write :=
  [WFired (Timers.t_ID t) at_] ++ (WEvent <$> evs) ++ (WOutbox <$> obs) ++
  (if bool_decide (obs = []) then [] else [WNotify NotifyChannel]).

Lemma does_expiry o now t msgs st d :
  let id := Timers.t_Subject t in
  let out := Expire st id (Timers.t_Token t) in
  let origin := last_meta (recorded id d) in
  calm o -> NoDup (Timers.timer_ids d) -> Timers.is_pending (Timers.t_ID t) d = true ->
  loaded id d msgs st ->
  out_Events out = [] \/
    (id <> ""%string /\ forallb storable (out_Events out) = true /\
     forallb framable (Messages out) = true /\
     Z.of_nat (length msgs) + Z.of_nat (length (out_Events out)) < 2 ^ 31) ->
  does o now (Timers.claim_and_fire Fire t) d (fun got L => exists evs obs,
    got = true /\ L = expiry_log t (timestamptz now) evs obs /\
    Forall2 (holds_event id (expiry_meta origin)) (out_Events out) evs /\
    ev_version <$> evs = upto (Z.of_nat (length msgs) + 1) (length (out_Events out)) /\
    Forall (fun r => unpublished r = true) obs /\
    Forall2 (announces (expiry_template id origin)) (Messages out) (row_message <$> obs) /\
    Forall (identified o) (row_message <$> obs)).
Proof.
  intros id out origin Hcalm Hnd Hp Hl Hok.
  unfold Timers.claim_and_fire.
  eapply does_bind; [by apply Timers.does_MarkFired|]. rewrite Hp. intros ? ? [-> ->].
  set (d1 := apply_writes d _). assert (loaded id d1 msgs st) as Hl1 by exact Hl.
  apply (does_bind o now _ _ _ (fun _ L => exists evs obs,
      L = (WEvent <$> evs) ++
          (WOutbox <$> obs) ++ (if bool_decide (obs = []) then [] else [WNotify NotifyChannel]) /\
      Forall2 (holds_event id (expiry_meta origin)) (out_Events out) evs /\
      ev_version <$> evs = upto (Z.of_nat (length msgs) + 1) (length (out_Events out)) /\
      Forall (fun r => unpublished r = true) obs /\
      Forall2 (announces (expiry_template id origin)) (Messages out) (row_message <$> obs) /\
      Forall (identified o) (row_message <$> obs))).
  2:{ intros [] ? (evs & obs & -> & H). apply does_ret. rewrite app_nil_r. by exists evs, obs. }
  unfold Fire. fold id. eapply does_bind; [by apply (does_LoadSeat _ _ id msgs st)|].
  intros ? ? [-> ->]. fold out. change (recorded id d1) with (recorded id d). fold origin.
  destruct (decide (out_Events out = [])) as [Hnil|Hsome].
  { rewrite bool_decide_eq_true_2 by done. apply does_ret. exists [], [].
    assert (Messages out = []) as Hm.
    { unfold Messages. rewrite Hnil. unfold out, Expire in *. by destruct (_ || _). }
    rewrite Hm, Hnil. split_and!; try done; constructor. }
  destruct Hok as [?|(Hne & Hst & Hfr & Hlen)]; [done|].
  rewrite bool_decide_eq_false_2 by done.
  eapply does_bind; [by apply (does_AppendSeat _ _ id msgs st)|].
  intros [] ? (evs & -> & He & Hv).
  eapply does_bind; [by apply does_outgoing|]. intros outs ? [[Ho Hids] ->].
  eapply does_mono; [apply does_Enqueue; [done|]|].
  { by apply (announced_valid (expiry_template id origin) (Messages out)). }
  intros [] ? (obs & -> & Hm & Hu). exists evs, obs. rewrite Hm. split_and!; try done.
  assert (bool_decide (outs = []) = bool_decide (obs = [])) as ->; [|by rewrite <- ?app_assoc].
  apply bool_decide_ext. rewrite <- Hm. destruct obs; [done|]. by split.
Qed.
End expiry_lemmas.

(** ** Properties *)
Section properties.
Context `{TS : Timestamppb} `{PG : Postgres} `{PJ : !Protojson} `{PJL : !ProtojsonLaws}
  `{EN : !Encoder}.

(** A first delivery over a connection that works. *)
Lemma first_delivery (o : oracle) (incoming : Envelope) (cmd : message) (id : string)
    (msgs : list message) (st : SeatState) (out : Outcome) (w : world) :
  calm o -> (forall n, commit_fate o n = Committed) ->
  deliverable Consumer (env_Source incoming) (env_ID incoming) = true ->
  inbox (w_db w) !! (Consumer, env_Source incoming, env_ID incoming) = None ->
  SeatID cmd = Ok id -> id <> ""%string -> loaded id (w_db w) msgs st -> Decide st cmd = Ok out ->
  forallb storable (out_Events out) = true -> forallb framable (Messages out) = true ->
  Z.of_nat (length msgs) + Z.of_nat (length (out_Events out)) < 2 ^ 31 ->
  exists w' evs tms obs at_,
    applyInOneTransaction o incoming cmd w = (Ok tt, w') /\
    let d := w_db w in
    let d' := w_db w' in
    inbox d' = <[(Consumer, env_Source incoming, env_ID incoming) := at_]> (inbox d) /\
    events d' = events d ++ evs /\
    Forall2 (holds_event id (command_meta incoming)) (out_Events out) evs /\
    timers d' = timers d ++ tms /\
    Forall2 (fun t r => Timers.scheduled_as (tmr_FireAt t) id (tmr_Token t) r)
      (out_Timers out) tms /\
    outbox d' = outbox d ++ obs /\
    Forall (fun r => unpublished r = true) obs /\
    Forall2 (announces (command_template incoming id)) (Messages out) (row_message <$> obs) /\
    Forall (identified o) (row_message <$> obs) /\
    ev_version <$> evs = upto (Z.of_nat (length msgs) + 1) (length (out_Events out)) /\
    availability d' = availability d.
Proof.
  intros Hcalm Hc Hdel Hinbox Hid Hne Hl Hd Hst Hfr Hlen. unfold applyInOneTransaction.
  rewrite Hid. set (now := clock o (w_trips w)). set (d := w_db w) in *.
  set (k := (Consumer, env_Source incoming, env_ID incoming)) in *.
  destruct (WithTx_does o now Hcalm (apply_command incoming cmd id) w (fun _ L => exists evs tms obs,
      L = [WInbox k (timestamptz now)] ++ (WEvent <$> evs) ++ (WTimer <$> tms) ++
          (WOutbox <$> obs) ++ (if bool_decide (obs = []) then [] else [WNotify NotifyChannel]) /\
      Forall2 (holds_event id (command_meta incoming)) (out_Events out) evs /\
      Forall2 (fun t r => Timers.scheduled_as (tmr_FireAt t) id (tmr_Token t) r)
        (out_Timers out) tms /\
      Forall (fun r => unpublished r = true) obs /\
      Forall2 (announces (command_template incoming id)) (Messages out) (row_message <$> obs) /\
      Forall (identified o) (row_message <$> obs) /\
      ev_version <$> evs = upto (Z.of_nat (length msgs) + 1) (length (out_Events out))))
    as ([] & L & w' & E & (evs & tms & obs & -> & H1 & H2 & H3 & H4 & H5 & H6) & Hw); [done|done| |].
  2:{ exists w', evs, tms, obs, (timestamptz now). split; [exact E|]. cbv zeta. rewrite Hw.
      rewrite !apply_writes_app, apply_event_rows, apply_timer_rows, apply_outbox_rows.
      by destruct (bool_decide (obs = [])). }
  fold d. unfold apply_command.
  eapply does_bind; [by apply does_MarkConsumed|]. fold k. rewrite Hinbox.
  intros ? ? [-> ->]. set (d1 := apply_writes d [WInbox k (timestamptz now)]).
  assert (loaded id d1 msgs st) as Hl1 by exact Hl. unfold decide_and_write.
  eapply does_bind; [by apply (does_LoadSeat _ _ id msgs st)|]. intros ? ? [-> ->].
  eapply does_lift_bind; [exact Hd|].
  eapply does_bind; [by apply (does_AppendSeat _ _ id msgs st)|].
  intros [] ? (evs & -> & He & Hver).
  eapply does_bind; [by apply does_scheduleTimers|]. intros [] ? (tms & -> & Ht).
  eapply does_bind; [by apply does_outgoing|]. intros outs ? [[Ho Hids] ->].
  eapply does_mono; [apply does_Enqueue; [done|]|].
  { by apply (announced_valid (command_template incoming id) (Messages out)). }
  intros [] ? (obs & -> & Hm & Hu). exists evs, tms, obs. rewrite Hm. split_and!; try done.
  assert (bool_decide (outs = []) = bool_decide (obs = [])) as ->; [|by rewrite <- ?app_assoc].
  apply bool_decide_ext. rewrite <- Hm. destruct obs; [done|]. by split.
Qed.

(** What a command does.  On a connection that works, a command delivered for
    the first time to a seat whose stream is consistent commits, in one transaction:
    the record of the delivery; the decision's events, appended to that seat's stream
    under the incoming correlation id with the incoming id as their cause; one timer
    per deadline; and, for every message of the decision, a message in the outbox,
    keyed by the seat. *)
Theorem command_effects (o : oracle) (incoming : Envelope) (cmd : message) (id : string)
    (msgs : list message) (st : SeatState) (out : Outcome) (w : world) :
  calm o -> (forall n, commit_fate o n = Committed) ->
  deliverable Consumer (env_Source incoming) (env_ID incoming) = true ->
  inbox (w_db w) !! (Consumer, env_Source incoming, env_ID incoming) = None ->
  SeatID cmd = Ok id -> id <> ""%string -> loaded id (w_db w) msgs st -> Decide st cmd = Ok out ->
  forallb storable (out_Events out) = true -> forallb framable (Messages out) = true ->
  Z.of_nat (length msgs) + Z.of_nat (length (out_Events out)) < 2 ^ 31 ->
  exists w' evs tms obs at_,
    applyInOneTransaction o incoming cmd w = (Ok tt, w') /\
    let d := w_db w in
    let d' := w_db w' in
    inbox d' = <[(Consumer, env_Source incoming, env_ID incoming) := at_]> (inbox d) /\
    events d' = events d ++ evs /\
    Forall2 (holds_event id (command_meta incoming)) (out_Events out) evs /\
    timers d' = timers d ++ tms /\
    Forall2 (fun t r => Timers.scheduled_as (tmr_FireAt t) id (tmr_Token t) r)
      (out_Timers out) tms /\
    outbox d' = outbox d ++ obs /\
    Forall (fun r => unpublished r = true) obs /\
    Forall2 (announces (command_template incoming id)) (Messages out) (row_message <$> obs).
Proof.
  intros. destruct (first_delivery o incoming cmd id msgs st out w)
    as (w' & evs & tms & obs & at_ & E & I1 & I2 & I3 & I4 & I5 & I6 & I7 & I8 & _); [done..|].
  by exists w', evs, tms, obs, at_.
Qed.

(** Redelivery is a no-op.  A command whose delivery is already recorded is
    acknowledged, and the database is exactly as it was. *)
Theorem redelivery_is_noop (o : oracle) (incoming : Envelope) (cmd : message) (id : string)
    (w : world) :
  calm o -> (forall n, commit_fate o n = Committed) ->
  deliverable Consumer (env_Source incoming) (env_ID incoming) = true ->
  is_Some (inbox (w_db w) !! (Consumer, env_Source incoming, env_ID incoming)) ->
  SeatID cmd = Ok id ->
  exists w', Handle o incoming cmd w = (Ok tt, w') /\ w_db w' = w_db w.
Proof.
  intros Hcalm Hc Hdel [t Ht] Hid.
  destruct (WithTx_does o (clock o (w_trips w)) Hcalm (apply_command incoming cmd id) w
    (fun _ L => L = [])) as ([] & L & w' & E & -> & Hw); [done|done| |].
  { unfold apply_command. eapply does_bind; [by apply does_MarkConsumed|]. rewrite Ht.
    intros ? ? [-> ->]. by apply does_ret. }
  exists w'. split; [|exact Hw]. unfold Handle, ConflictRetries.
  cbn [Nat.add attempts]. unfold applyInOneTransaction. by rewrite Hid, E.
Qed.

(** A pending timer over a connection that works. *)
Lemma expiry_fired (o : oracle) (t : Timers.Timer) (msgs : list message) (st : SeatState)
    (w : world) :
  let id := Timers.t_Subject t in
  let out := Expire st id (Timers.t_Token t) in
  calm o -> (forall n, commit_fate o n = Committed) ->
  NoDup (Timers.timer_ids (w_db w)) -> Timers.is_pending (Timers.t_ID t) (w_db w) = true ->
  loaded id (w_db w) msgs st -> id <> ""%string ->
  forallb storable (out_Events out) = true -> forallb framable (Messages out) = true ->
  Z.of_nat (length msgs) + Z.of_nat (length (out_Events out)) < 2 ^ 31 ->
  exists w' evs obs at_,
    Timers.fireOne o Fire t w = (Ok true, w') /\
    let d := w_db w in
    let d' := w_db w' in
    let origin := last_meta (recorded id d) in
    timers d' = mark_fired_row (Timers.t_ID t) at_ <$> timers d /\
    inbox d' = inbox d /\
    events d' = events d ++ evs /\
    Forall2 (holds_event id (expiry_meta origin)) (out_Events out) evs /\
    outbox d' = outbox d ++ obs /\
    Forall (fun r => unpublished r = true) obs /\
    Forall2 (announces (expiry_template id origin)) (Messages out) (row_message <$> obs) /\
    Forall (identified o) (row_message <$> obs) /\
    ev_version <$> evs = upto (Z.of_nat (length msgs) + 1) (length (out_Events out)) /\
    availability d' = availability d.
Proof.
  intros id out Hcalm Hc Hnd Hp Hl Hne Hst Hfr Hlen.
  destruct (WithTx_does o _ Hcalm (Timers.claim_and_fire Fire t) w _ Hc eq_refl
    (does_expiry o _ t msgs st _ Hcalm Hnd Hp Hl (or_intror (conj Hne (conj Hst (conj Hfr Hlen))))))
    as (got & L & w' & E & (evs & obs & -> & -> & H1 & H2 & H3 & H4 & H5) & Hw).
  exists w', evs, obs, (timestamptz (clock o (w_trips w))). split; [exact E|]. cbv zeta. rewrite Hw. unfold expiry_log.
  rewrite !apply_writes_app, apply_event_rows, apply_outbox_rows. by destruct (bool_decide (obs = [])).
Qed.

(** What an expiry does.  A pending timer whose hold still has the seat commits, in
    one transaction, its own claim, the expiry appended to the seat's stream, and its
    announcement, both under the correlation id of the stream's last event; a timer
    whose hold has ended commits its claim and nothing else. *)
Theorem expiry_effects (o : oracle) (t : Timers.Timer) (msgs : list message) (st : SeatState)
    (w : world) :
  let id := Timers.t_Subject t in
  let out := Expire st id (Timers.t_Token t) in
  calm o -> (forall n, commit_fate o n = Committed) ->
  NoDup (Timers.timer_ids (w_db w)) -> Timers.is_pending (Timers.t_ID t) (w_db w) = true ->
  loaded id (w_db w) msgs st -> id <> ""%string ->
  forallb storable (out_Events out) = true -> forallb framable (Messages out) = true ->
  Z.of_nat (length msgs) + Z.of_nat (length (out_Events out)) < 2 ^ 31 ->
  exists w' evs obs at_,
    Timers.fireOne o Fire t w = (Ok true, w') /\
    let d := w_db w in
    let d' := w_db w' in
    let origin := last_meta (recorded id d) in
    timers d' = mark_fired_row (Timers.t_ID t) at_ <$> timers d /\
    inbox d' = inbox d /\
    events d' = events d ++ evs /\
    Forall2 (holds_event id (expiry_meta origin)) (out_Events out) evs /\
    outbox d' = outbox d ++ obs /\
    Forall (fun r => unpublished r = true) obs /\
    Forall2 (announces (expiry_template id origin)) (Messages out) (row_message <$> obs).
Proof.
  intros. destruct (expiry_fired o t msgs st w)
    as (w' & evs & obs & at_ & E & I1 & I2 & I3 & I4 & I5 & I6 & I7 & _); [done..|].
  by exists w', evs, obs, at_.
Qed.
End properties.

(** ** Retries *)
Section retries.
Context `{TS : Timestamppb} `{PG : Postgres} `{PJ : !Protojson} `{EN : !Encoder}.
Context (o : oracle) (incoming : Envelope) (cmd : message) (w : world).

(** The outcome of the [n]-th attempt, when all are made. *)
Fixpoint nth_attempt (n : nat) : res unit * world :=
  match n with
  | O => applyInOneTransaction o incoming cmd w
  | S n => applyInOneTransaction o incoming cmd (snd (nth_attempt n))
  end.

Definition conflicted (r : res unit) : bool :=
  match r with Err e => errors_Is e ErrVersionConflict | Ok _ => false end.

Lemma attempts_from k n last :
  (exists j, (k <= j < k + n)%nat /\ (forall i, (k <= i < j)%nat -> conflicted (fst (nth_attempt i)) = true) /\
     conflicted (fst (nth_attempt j)) = false /\
     attempts o n incoming cmd last (match k with O => w | S k => snd (nth_attempt k) end) = nth_attempt j) \/
  ((forall i, (k <= i < k + n)%nat -> conflicted (fst (nth_attempt i)) = true) /\
   exists e, attempts o n incoming cmd last (match k with O => w | S k => snd (nth_attempt k) end) =
     (Err (EWrap ("inventory: " +:+ env_Type incoming +:+ " on " +:+ env_Subject incoming +:+
                  " after 3 retries: " +:+ Error e)%string e),
      match (k + n)%nat with O => w | S j => snd (nth_attempt j) end) /\
     (n = 0%nat -> e = last) /\ (n <> 0%nat -> fst (nth_attempt (k + n - 1)) = Err e)).
Proof.
  revert k last; induction n as [|n IH]; intros k last.
  { right. split; [lia|]. exists last. rewrite Nat.add_0_r. done. }
  assert (applyInOneTransaction o incoming cmd (match k with O => w | S k => snd (nth_attempt k) end) =
    nth_attempt k) as Hk by by destruct k.
  cbn [attempts]. rewrite Hk. destruct (conflicted (fst (nth_attempt k))) eqn:Hc.
  - destruct (nth_attempt k) as [[u|e] wk] eqn:Ek; [done|]. simpl in Hc. rewrite Hc.
    assert (wk = snd (nth_attempt k)) as -> by by rewrite Ek.
    destruct (IH (S k) e) as [(j & Hj & H1 & H2 & H3)|(H1 & x & H2 & H3 & H4)].
    + left. exists j. split_and!; [lia|lia| |done|done]. intros i Hi.
      destruct (decide (i = k)) as [->|]; [by rewrite Ek|apply H1; lia].
    + right. split.
      * intros i Hi. destruct (decide (i = k)) as [->|]; [by rewrite Ek|apply H1; lia].
      * exists x. rewrite Nat.add_succ_r. split_and!; [exact H2|done|]. intros _.
        destruct n; [|by rewrite <- Nat.add_succ_l; apply H4].
        rewrite H3 by done. replace (S (k + 0) - 1)%nat with k by lia. by rewrite Ek.
  - left. exists k. split_and!; [lia|lia|lia|done|].
    destruct (nth_attempt k) as [[u|e] wk]; [by destruct u|]. simpl in Hc. by rewrite Hc.
Qed.

(** C32: the retry is bounded and nothing but a version conflict is retried.  [Handle]
    makes at most [ConflictRetries + 1] attempts and returns the outcome of the first
    one that is not a version conflict, untouched; if all of them conflict it returns
    an error that still is an [ErrVersionConflict]. *)
Theorem Handle_retries :
  (exists j, (j <= ConflictRetries)%nat /\
     (forall i, (i < j)%nat -> conflicted (fst (nth_attempt i)) = true) /\
     conflicted (fst (nth_attempt j)) = false /\ Handle o incoming cmd w = nth_attempt j) \/
  ((forall i, (i <= ConflictRetries)%nat -> conflicted (fst (nth_attempt i)) = true) /\
   conflicted (fst (Handle o incoming cmd w)) = true /\
   snd (Handle o incoming cmd w) = snd (nth_attempt ConflictRetries)).
Proof.
  unfold Handle, ConflictRetries.
  destruct (attempts_from 0 (3 + 1) (ENew "%!w(<nil>)")) as [(j & Hj & H1 & H2 & H3)|(H1 & x & H2 & _ & H4)].
  - left. exists j. split_and!; [lia| |done|done]. intros i Hi. apply H1. lia.
  - right. split; [intros i Hi; apply H1; lia|]. rewrite H2. simpl. split; [|done].
    specialize (H1 3%nat).
    assert (fst (nth_attempt 3) = Err x) as H5 by (apply H4; done). rewrite H5 in H1. apply H1. lia.
Qed.
End retries.

(** ** Witnesses *)
Module Samples.
Import UnixTimestamps PlainPostgres NumberedJson Store.Samples.
#[export] Instance encoder : Encoder :=
  fun m => match json_marshal m with Ok b => Ok (Byte.x00 :: b) | Err e => Err e end.
Definition o : oracle := quiet 5000 (fun _ => "id").
Lemma o_calm : calm o.
Proof. done. Qed.
Definition incoming : Envelope :=
  {| env_ID := "cmd-1"; env_Source := "/saga"; env_Type := HoldSeat_FullName;
     env_Subject := seat; env_CorrelationID := "saga-1"; env_CausationID := "";
     env_TraceParent := "" |}.
Definition timer : timer_row :=
  {| tm_id := 1; tm_fire_at := 1000; tm_subject := seat; tm_token := "hold-1"; tm_fired_at := None |}.
Definition held_db : db := apply_writes one_hold [WTimer timer].
Lemma loaded_held : loaded seat held_db [held] taken.
Proof. exact loaded_taken. Qed.
End Samples.

Import UnixTimestamps PlainPostgres NumberedJson Store.Samples Samples.

Lemma command_effects_witness :
  exists w' evs, applyInOneTransaction o incoming hold (world_of empty_db) = (Ok tt, w') /\
    events (w_db w') = evs /\
    Forall2 (holds_event seat (command_meta incoming)) [held] evs.
Proof.
  destruct (command_effects o incoming hold seat [] zero_state decision (world_of empty_db))
    as (w' & evs & tms & obs & at_ & H1 & _ & H2 & H3 & _);
    [exact o_calm|reflexivity|reflexivity|reflexivity|reflexivity|done|exact loaded_empty|
     reflexivity|vm_compute; reflexivity|vm_compute; reflexivity|vm_compute; reflexivity|].
  exists w', evs. split; [exact H1|]. split; [exact H2|exact H3].
Defined.

Lemma redelivery_is_noop_witness :
  let w := world_of (apply_writes empty_db [WInbox (Consumer, "/saga", "cmd-1") 0]) in
  exists w', Handle o incoming hold w = (Ok tt, w') /\ w_db w' = w_db w.
Proof.
  intros w. apply (redelivery_is_noop o incoming hold seat w); try reflexivity.
  - exact o_calm.
  - by exists 0.
Defined.

Lemma expiry_effects_witness :
  exists w' evs, Timers.fireOne o Fire (Timers.scan_timer timer) (world_of held_db) = (Ok true, w') /\
    events (w_db w') = events held_db ++ evs /\ length evs = 1%nat.
Proof.
  destruct (expiry_effects o (Timers.scan_timer timer) [held] taken (world_of held_db))
    as (w' & evs & obs & at_ & H1 & _ & _ & H2 & H3 & _);
    [exact o_calm|reflexivity| |reflexivity|exact loaded_held|done|vm_compute; reflexivity|
     vm_compute; reflexivity|vm_compute; reflexivity|].
  - apply (bool_decide_unpack _). vm_compute. exact I.
  - exists w', evs. split; [exact H1|]. split; [exact H2|].
    symmetry. exact (Forall2_length _ _ _ H3).
Defined.
