(* ===== verification/Isolation.v ===== *)
(** * Isolation: seat streams under concurrent transactions

    What keeps a seat from being sold twice when many transactions run at once: the
    unique key on (stream, version), and an append at the version that was folded.
    [respects_streams] is what the other sessions may do meanwhile: the log of
    events only grows, by commits that keep every stream a history of its seat, and
    never with a version this transaction has already inserted (its unique-key
    entry makes them wait).  Under that rely, whatever interleaving and whatever
    failures, a command and an expiry keep every stream a history of its seat, so
    every stream stays alternating: one hold at a time.

    And what keeps a command from being carried out twice when it is delivered again:
    the unique key of the inbox.  [respects_delivery] is what the others may do
    meanwhile: they keep a recorded delivery, and wait where this transaction has
    recorded one.  Under any rely within that, any number of deliveries amounts to one
    committed execution of the decision, or to none. *)
From S2P Require Import Prelude Contracts Envelope Database Timers EventStore Inbox Outbox Codec Seat Store Commands.

(** The events of a transaction's log. *)
Definition log_event (w : write) : option event_row :=
  match w with WEvent r => Some r | _ => None end.
Definition log_events (L : list write) : list event_row := omap log_event L.

Lemma log_events_app L1 L2 : log_events (L1 ++ L2) = log_events L1 ++ log_events L2.
Proof. apply omap_app. Qed.

Lemma log_events_rows rs : log_events (WEvent <$> rs) = rs.
Proof.
  unfold log_events. induction rs as [|r rs IH]; [done|]. simpl. f_equal. exact IH.
Qed.

(** Nothing but an append touches the events table. *)
Lemma events_apply d L : events (apply_writes d L) = events d ++ log_events L.
Proof.
  revert d; induction L as [|w L IH]; intros d; [by rewrite app_nil_r|].
  rewrite apply_writes_cons, IH. by destruct w; simpl; rewrite <- ?app_assoc.
Qed.

(** Code none of whose statements appends an event. *)
Definition eventless {A} (p : prog A) : Prop := emits (fun w => log_event w = None) p.

Lemma log_events_none L : Forall (fun w => log_event w = None) L -> log_events L = [].
Proof. induction 1 as [|w L Hw _ IH]; [done|]. unfold log_events in *. simpl. by rewrite Hw. Qed.

Section isolation.
Context `{TS : Timestamppb} `{PG : Postgres} `{PJ : !Protojson} `{PJL : !ProtojsonLaws}.

Definition respects_streams (L : list write) (d d' : db) : Prop :=
  (consistent d -> consistent d') /\
  exists new, events d' = events d ++ new /\
    forall r r', r ∈ log_events L -> r' ∈ new ->
      ~ (ev_stream_id r = ev_stream_id r' /\ ev_version r = ev_version r').

(** The appended rows continue the stream of [id] in [d] by the events [add] of a
    decision. *)
Definition continues (id : string) (add : list message) (rs : list event_row) (d : db) : Prop :=
  exists msgs, rs <> [] /\ holds_history id d msgs /\ seat_history id (msgs ++ add) /\
    Forall (fun r => ev_stream_id r = id) rs /\
    ev_version <$> rs = upto (Z.of_nat (length msgs) + 1) (length rs) /\
    Forall2 (fun r m => Decode (row_event r) = Ok m) rs add /\
    Z.of_nat (length (msgs ++ add)) < 2 ^ 31.

(** What a transaction has appended by [add]: nothing, or one stream continued. *)
Definition appends (id : string) (add : list message) (L : list write) (d : db) : Prop :=
  consistent d /\
  ((add = [] /\ log_events L = []) \/ continues id add (log_events L) d).

(** A transaction that may commit. *)
Definition committable (L : list write) (d : db) : Prop := exists id add, appends id add L d.

(** ** Lemmas *)

(** The rows of a consistent stream determine its messages. *)
Lemma history_unique id d d' msgs msgs' :
  stream_rows id d' = stream_rows id d -> holds_history id d msgs -> holds_history id d' msgs' ->
  msgs' = msgs.
Proof.
  intros Hr (_ & H1 & _) (_ & H2 & _). rewrite Hr in H2. by eapply decoded_unique.
Qed.

(** A history only continues. *)
Lemma history_continues id d d' new msgs :
  events d' = events d ++ new -> holds_history id d msgs -> consistent d' ->
  exists later, holds_history id d' (msgs ++ later).
Proof.
  intros He (_ & Hm & _) Hd'. destruct (Hd' id) as [msgs' Hh']. pose proof Hh' as (_ & Hm' & _).
  rewrite (stream_rows_app id d d' new He) in Hm'.
  apply Forall2_app_inv_l in Hm' as (m1 & later & H1 & _ & ->). exists later.
  by rewrite (decoded_unique _ _ _ Hm H1) in Hh'.
Qed.

(** A stream whose next version nobody has taken has not grown. *)
Lemma stream_not_grown id d d' new :
  events d' = events d ++ new -> gapless id d -> gapless id d' ->
  version_taken id (Z.of_nat (length (stream_rows id d)) + 1) new = false ->
  stream_rows id d' = stream_rows id d.
Proof.
  intros He Hg Hg' Hn. rewrite (stream_rows_app id d d' new) by done.
  destruct (filter (fun r => ev_stream_id r = id) new) as [|r rs] eqn:Ef; [by rewrite app_nil_r|].
  exfalso. apply not_true_iff_false in Hn. apply Hn, version_taken_true.
  assert (ev_version r = Z.of_nat (length (stream_rows id d)) + 1) as Hv.
  { unfold gapless in Hg'. rewrite (stream_rows_app id d d' new), Ef, fmap_app, length_app in Hg' by done.
    rewrite upto_app in Hg'. unfold gapless in Hg. rewrite <- Hg in Hg'. apply app_inv_head in Hg'.
    simpl in Hg'. injection Hg' as Hv _. lia. }
  exists r. assert (r ∈ r :: rs) as Hr by by left. rewrite <- Ef in Hr.
  apply list_elem_of_filter in Hr as [Hid Hr]. done.
Qed.

Lemma appends_stable id add L d d' :
  respects_streams L d d' -> appends id add L d -> appends id add L d'.
Proof.
  intros [Hc (new & He & Hnew)] [Hd H]. split; [by apply Hc|].
  destruct H as [H|(msgs & Hne & Hh & Hall & Hid & Hv & Hdec & Hlen)]; [by left|].
  right. destruct (Hc Hd id) as [msgs' Hh'].
  pose proof (holds_history_length _ _ _ Hh) as Hl.
  assert (stream_rows id d' = stream_rows id d) as Hr.
  { eapply stream_not_grown; [exact He|apply Hh|apply Hh'|]. apply not_true_iff_false.
    rewrite version_taken_true. intros (r' & Hr' & Hid' & Hv').
    destruct (log_events L) as [|r rs]; [done|]. apply (Hnew r r'); [by left|done|].
    simpl in Hv. injection Hv as Hv _. apply Forall_cons in Hid as [Hid _]. split; [congruence|]. lia. }
  assert (msgs' = msgs) as -> by by eapply history_unique.
  by exists msgs.
Qed.

Lemma committable_stable L d d' : respects_streams L d d' -> committable L d -> committable L d'.
Proof. intros HR (id & add & H). exists id, add. by eapply appends_stable. Qed.

Lemma committable_consistent L d : committable L d -> consistent d.
Proof. by intros (id & add & H & _). Qed.

(** The stream a commit continues, and the others. *)
Lemma continued_history id add L d :
  continues id add (log_events L) d ->
  exists msgs, holds_history id d msgs /\ holds_history id (apply_writes d L) (msgs ++ add).
Proof.
  intros (msgs & Hne & Hh & Hall & Hid & Hv & Hdec & Hlen). exists msgs. split; [done|].
  pose proof (holds_history_length _ _ _ Hh) as Hl. destruct Hh as (Hg & Hd & _).
  destruct (gapless_append id d (apply_writes d L) (log_events L) Hg (events_apply d L) Hid)
    as [Hg' Hr']; [by rewrite <- Hl|].
  split; [done|]. split; [|done]. rewrite Hr'. by apply Forall2_app.
Qed.

Lemma other_stream id add L d id' :
  appends id add L d -> id' <> id -> stream_rows id' (apply_writes d L) = stream_rows id' d.
Proof.
  intros [_ H] Hne. rewrite (stream_rows_app id' d _ (log_events L)) by apply events_apply.
  rewrite list_filter_none, app_nil_r; [done|].
  destruct H as [[_ ->]|(msgs & _ & _ & _ & Hid & _)]; [constructor|].
  eapply Forall_impl; [exact Hid|]. intros r Hr. simpl in Hr. congruence.
Qed.

Lemma same_stream_holds id d d' msgs :
  stream_rows id d' = stream_rows id d -> holds_history id d msgs -> holds_history id d' msgs.
Proof. intros Hr. unfold holds_history, gapless. by rewrite Hr. Qed.

(** Committing what is committable keeps every stream a history. *)
Lemma appends_commit id add L d : appends id add L d -> consistent (apply_writes d L).
Proof.
  intros Ha id'. pose proof Ha as [Hd H]. destruct (Hd id') as [msgs' Hh'].
  destruct (decide (id' = id)) as [->|Hne];
    [|exists msgs'; eapply same_stream_holds; [by eapply other_stream|done]].
  destruct H as [[_ H]|(msgs & _ & Hm)%continued_history]; [|by eexists].
  exists msgs'. eapply same_stream_holds; [|done]. unfold stream_rows.
  by rewrite events_apply, H, app_nil_r.
Qed.

(** What a decision on a stream makes of it, once its rows are there. *)
Lemma decision_loaded id msgs st i out meta evs d d' :
  loaded id d msgs st -> target i = Ok id -> decide_input st i = Ok out ->
  Forall2 (holds_event id meta) (out_Events out) evs ->
  ev_version <$> evs = upto (Z.of_nat (length msgs) + 1) (length (out_Events out)) ->
  Z.of_nat (length msgs) + Z.of_nat (length (out_Events out)) < 2 ^ 31 ->
  events d' = events d ++ evs ->
  exists st', loaded id d' (msgs ++ out_Events out) st'.
Proof.
  intros (Hh & Hf & _) Ht Hd He Hv Hlen Hev. apply loaded_exists.
  pose proof (holds_history_length _ _ _ Hh) as Hl. destruct Hh as (Hg & Hdec & Hhist & _).
  pose proof (Forall2_length _ _ _ He) as Hle.
  destruct (gapless_append id d d' evs Hg Hev) as [Hg' Hr'].
  - apply Forall_forall. intros r Hr. clear -He Hr. induction He as [|m x ms rs Hx _ IH]; [by apply elem_of_nil in Hr|].
    apply elem_of_cons in Hr as [->|Hr]; [apply Hx|by apply IH].
  - by rewrite <- Hl, <- Hle.
  - split; [done|]. rewrite Hr'. split; [|split; [by eapply history_step|rewrite length_app; lia]].
    apply Forall2_app; [done|]. clear -He. induction He as [|m x ms rs Hx _ IH]; constructor; [apply Hx|done].
Qed.

Lemma committable_commit L d : committable L d -> consistent (apply_writes d L).
Proof. intros (id & add & H). by eapply appends_commit. Qed.

(** Code that appends nothing keeps what a transaction has appended. *)
Lemma wp_eventless_appends {A} (p : prog A) id add L d :
  eventless p -> appends id add L d ->
  wp respects_streams p L d (fun _ L' d' => appends id add L' d' /\ log_events L' = log_events L).
Proof.
  unfold eventless, emits. revert L d; induction p as [a|k IH|X q k IH]; intros L d Hp Hc; simpl in *.
  - done.
  - intros x. by apply IH.
  - intros d' now sq HR. destruct Hp as [Hq Hk]. specialize (Hq now sq (apply_writes d' L)).
    destruct (q _ _ _) as [[[x|e] ws] ?]; [|done]. apply log_events_none in Hq. simpl in Hq.
    assert (log_events (L ++ ws) = log_events L) as Hl by by rewrite log_events_app, Hq, app_nil_r.
    eapply wp_mono; [apply IH; [done|]|].
    + pose proof (appends_stable id add L d d' HR Hc) as [H1 H2]. split; [done|]. by rewrite Hl.
    + intros y L' d2 [H1 H2]. split; [done|]. congruence.
Qed.

Lemma wp_eventless {A} (p : prog A) L d :
  eventless p -> committable L d ->
  wp respects_streams p L d (fun _ L' d' => committable L' d' /\ log_events L' = log_events L).
Proof.
  intros Hp (id & add & H). eapply wp_mono; [by eapply wp_eventless_appends|].
  intros a L' d' [H1 H2]. split; [by exists id, add|done].
Qed.

(** A transaction that has appended nothing sees the committed streams. *)
Lemma stream_rows_view id L d :
  log_events L = [] -> stream_rows id (apply_writes d L) = stream_rows id d.
Proof. intros HL. unfold stream_rows. by rewrite events_apply, HL, app_nil_r. Qed.

Lemma wp_LoadSeat id L d :
  committable L d -> log_events L = [] ->
  wp respects_streams (LoadSeat id) L d (fun r L' d' =>
    match r with
    | Ok (st, meta) => log_events L' = [] /\ committable L' d' /\
        (exists msgs, loaded id d' msgs st) /\ meta = last_meta (recorded id d')
    | Err _ => True
    end).
Proof.
  intros Hc HL. unfold LoadSeat, Load. do 2 apply wp_tx_bind. apply wp_exec.
  intros d' now sq HR. simpl. rewrite app_nil_r.
  pose proof (committable_stable _ _ _ HR Hc) as Hc'.
  destruct (committable_consistent _ _ Hc' id) as [msgs Hh]. destruct (loaded_exists _ _ _ Hh) as [st Hl].
  assert (order_by (by_key ev_version) (filter (fun r => ev_stream_id r = id)
    (events (apply_writes d' L))) = stream_rows id d') as ->.
  { rewrite <- (stream_rows_view id L d' HL). apply gapless_order.
    unfold gapless. rewrite stream_rows_view by done. apply Hh. }
  apply wp_lift_bind. rewrite (decode_recorded_ok id _ msgs) by apply Hh.
  apply wp_lift_bind. destruct Hl as (Hl1 & Hf & Hl2). rewrite Hf. simpl.
  split; [done|]. split; [done|]. split; [by exists msgs|].
  unfold recorded. by rewrite gapless_order by apply Hh.
Qed.

(** The events of a decision are of registered types. *)
Lemma decided_registered st i id out m :
  decide_input st i = Ok out -> target i = Ok id -> m ∈ out_Events out ->
  registered (FullName m) = true.
Proof.
  intros Hd Ht Hm. apply json_registered.
  destruct (decided_events st i id out Hd Ht) as [Hn|(e & He & _ & Hs)].
  { rewrite Hn in Hm. by apply elem_of_nil in Hm. }
  rewrite He in Hm. apply list_elem_of_singleton in Hm as ->.
  destruct (bool_decide _); [destruct Hs as [(r & -> & _)|(r & -> & _)]|destruct Hs as [r ->]];
    simpl; set_solver.
Qed.

Lemma encode_events_inv id meta i evts stored :
  traverse (encode_event id meta) i evts = Ok stored ->
  Forall2 (fun m e => Encode (Some m) meta = Ok e) evts stored.
Proof.
  revert i stored; induction evts as [|m evts IH]; intros i stored; cbn [traverse].
  { intros [= <-]. constructor. }
  destruct (encode_event id meta i m) as [e|] eqn:He; [|done].
  destruct (traverse _ (S i) evts) as [es|] eqn:Es; [|done]. intros [= <-].
  constructor; [|by eapply IH]. unfold encode_event in He. by destruct (Encode (Some m) meta); simplify_eq/=.
Qed.

Lemma stored_rows_hold id meta evts stored rs :
  (forall m, m ∈ evts -> registered (FullName m) = true) ->
  Forall2 (fun m e => Encode (Some m) meta = Ok e) evts stored -> Forall2 stored_as stored rs ->
  Forall (fun r => ev_stream_id r = id) rs ->
  Forall2 (holds_event id meta) evts rs.
Proof.
  intros Hreg He. revert rs. induction He as [|m e evts stored Hme _ IH]; intros rs Hs Hid;
    inversion Hs as [|? r ? rs' Hr Hrs]; subst; constructor.
  - apply Forall_cons in Hid as [Hid _].
    apply (stored_decodes id m meta e r); [apply Hreg; by left|done..].
  - apply Forall_cons in Hid as [_ Hid]. apply IH; [|done..]. intros m' Hm'. apply Hreg. by right.
Qed.

Lemma held_rows_decode id meta evts rs :
  Forall2 (holds_event id meta) evts rs ->
  Forall2 (fun r m => Decode (row_event r) = Ok m) rs evts /\ Forall (fun r => ev_stream_id r = id) rs.
Proof.
  induction 1 as [|m r evts rs (H1 & _ & _ & H2) _ [IH1 IH2]]; by split; constructor.
Qed.

(** Appending a decision at the version it was folded from. *)
Lemma wp_AppendSeat id msgs st i out meta L d :
  consistent d -> log_events L = [] -> loaded id d msgs st ->
  target i = Ok id -> decide_input st i = Ok out ->
  wp respects_streams (AppendSeat id (st_Version st) (out_Events out) meta) L d
    (fun r L' d' => is_ok r = true -> exists rs, L' = L ++ (WEvent <$> rs) /\
      Forall2 (holds_event id meta) (out_Events out) rs /\
      ev_version <$> rs = upto (st_Version st + 1) (length rs) /\
      appends id (out_Events out) L' d').
Proof.
  intros Hc HL (Hh & Hf & Hwf & Hv) Ht Hd. unfold AppendSeat. case_bool_decide as Hne.
  { intros _. exists []. rewrite Hne, app_nil_r. split_and!; [done|constructor|done|]. by split; [|left]. }
  apply wp_lift_bind. destruct (traverse _ 0 _) as [stored|] eqn:Es; [|done].
  pose proof (encode_events_inv _ _ _ _ _ Es) as He. pose proof (Forall2_length _ _ _ He) as Hle.
  unfold Append. case_bool_decide as Hse; [by destruct (out_Events out), stored|].
  apply wp_lift_bind. destruct (traverse append_args 0 stored) as [rows|] eqn:Ea; [|done].
  apply wp_exec. intros d' now sq HR. unfold appendSQL.
  destruct (traverse cast_jsonb 0 rows) as [rows'|] eqn:Ec; [|done].
  destruct (insert_events _ _ _ _ _ _) as [[rs|] sq'] eqn:Ei; [|done]. intros _.
  pose proof (insert_events_int4 _ _ _ _ _ _ _ _ Ei) as Hint.
  apply insert_events_ok in Ei as (Hvers & Hcol & Hid & Hfree).
  rewrite events_apply, HL, app_nil_r in Hfree.
  assert (consistent d') as Hd' by by apply HR.
  assert (Forall2 (holds_event id meta) (out_Events out) rs) as Hrows.
  { eapply stored_rows_hold; [|exact He|by eapply stored_rows|done].
    intros m Hm. by eapply decided_registered. }
  exists rs. split; [done|]. split; [done|].
  pose proof (traverse_length _ _ _ _ Ea) as Hl1. pose proof (traverse_length _ _ _ _ Ec) as Hl2.
  pose proof (holds_history_length _ _ _ Hh) as Hl.
  assert (length rs = length rows') as Hl3 by (by rewrite <- Hcol, length_fmap).
  split; [rewrite Hvers; f_equal; lia|]. split; [done|]. right.
  rewrite log_events_app, HL, log_events_rows. simpl.
  assert (length (out_Events out) <> 0%nat) as Hlen0 by by destruct (out_Events out).
  destruct HR as [_ (new & Hev & _)]. destruct (Hd' id) as [msgs' Hh'].
  assert (stream_rows id d' = stream_rows id d) as Hr.
  { eapply stream_not_grown; [exact Hev|apply Hh|apply Hh'|]. apply not_true_iff_false.
    rewrite version_taken_true. intros (r' & Hr' & Hid' & Hv').
    destruct rs as [|r rs]; [simpl in *; lia|]. apply Forall_cons in Hfree as [Hfree _].
    apply not_true_iff_false in Hfree. apply Hfree, version_taken_true. exists r'.
    split_and!; [rewrite Hev; apply elem_of_app; by right|done|].
    rewrite Hl2, Hl1, <- Hle in Hvers. destruct (length (out_Events out)); [done|].
    simpl in Hvers. injection Hvers as Hvers _. lia. }
  assert (msgs' = msgs) as -> by by eapply history_unique.
  exists msgs. split_and!.
  - intros ->. simpl in *. lia.
  - exact Hh'.
  - eapply history_step; [apply Hh|exact Hf|exact Ht|exact Hd].
  - done.
  - rewrite Hvers. f_equal; lia.
  - by apply (held_rows_decode id meta).
  - rewrite length_app. enough (rows' <> []) as Hne' by (specialize (Hint Hne'); lia).
    intros ->. simpl in *. lia.
Qed.

(** ** Lemmas: the statements of the steps *)
Section step_statements.
Context `{EN : !Encoder} (P : forall X, stmt X -> Prop).

Lemma each_MarkConsumed c src id :
  P _ (Inbox.markSQL c src id) -> each_stmt P (MarkConsumed c src id).
Proof.
  intros HP. unfold MarkConsumed. destruct (_ || _ || _); [done|].
  by apply each_tx_bind; [apply each_exec|].
Qed.

Lemma each_MarkFired id : P _ (Timers.markFiredSQL id) -> each_stmt P (Timers.MarkFired id).
Proof. intros HP. by apply each_tx_bind; [apply each_exec|]. Qed.

Lemma each_scheduleTimers id ts :
  (forall at_ token, P _ (Timers.scheduleSQL at_ id token)) -> each_stmt P (scheduleTimers id ts).
Proof. intros HP. apply each_tx_each. intros t. by apply each_exec. Qed.

Lemma each_Enqueue msgs :
  (forall rows, P _ (enqueueSQL rows)) -> P _ (notifySQL NotifyChannel) -> each_stmt P (Enqueue msgs).
Proof.
  intros HP HN. unfold Enqueue. case_bool_decide; [done|].
  apply each_tx_bind; [done|]. intros rows. by apply each_tx_bind; [apply each_exec|].
Qed.

Lemma each_outgoing msgs tmpl : each_stmt P (outgoing msgs tmpl).
Proof.
  induction msgs as [|m msgs IH]; [done|]. cbn [outgoing].
  destruct (Encoder_Encode m); [|done]. intros id. by apply each_tx_bind.
Qed.

Lemma each_LoadSeat id : P _ (loadSQL id) -> each_stmt P (LoadSeat id).
Proof.
  intros HP. unfold LoadSeat, Load. apply each_tx_bind; [|intros; apply each_tx_bind; [done|]; intros;
    by apply each_tx_bind].
  apply each_tx_bind; [|done]. by apply each_exec.
Qed.

Lemma each_AppendSeat id v evts meta :
  (forall v rows, P _ (appendSQL id v rows)) -> each_stmt P (AppendSeat id v evts meta).
Proof.
  intros HP. unfold AppendSeat. case_bool_decide; [done|]. apply each_tx_bind; [done|].
  intros stored. unfold Append. case_bool_decide; [done|]. apply each_tx_bind; [done|].
  intros rows. by apply each_exec.
Qed.

(** The statements of a decision's writes, and of all it does. *)
Definition decision_statements (id : string) : Prop :=
  (forall v rows, P _ (appendSQL id v rows)) /\
  (forall at_ token, P _ (Timers.scheduleSQL at_ id token)) /\
  (forall rows, P _ (enqueueSQL rows)) /\ P _ (notifySQL NotifyChannel).

Lemma each_decide_and_write incoming cmd id :
  P _ (loadSQL id) -> decision_statements id -> each_stmt P (decide_and_write incoming cmd id).
Proof.
  intros HL (H1 & H2 & H3 & H4). unfold decide_and_write.
  apply each_tx_bind; [by apply each_LoadSeat|]. intros [st meta].
  apply each_tx_bind; [done|]. intros out.
  apply each_tx_bind; [by apply each_AppendSeat|]. intros [].
  apply each_tx_bind; [by apply each_scheduleTimers|]. intros [].
  apply each_tx_bind; [apply each_outgoing|]. intros ms. by apply each_Enqueue.
Qed.

Lemma each_apply_command incoming cmd id :
  (forall c src e, P _ (Inbox.markSQL c src e)) -> P _ (loadSQL id) -> decision_statements id ->
  each_stmt P (apply_command incoming cmd id).
Proof.
  intros HM HL HD. unfold apply_command. apply each_tx_bind; [by apply each_MarkConsumed|].
  intros [|]; [by apply each_decide_and_write|done].
Qed.

Lemma each_claim_and_fire t :
  (forall id, P _ (Timers.markFiredSQL id)) -> (forall id, P _ (loadSQL id)) ->
  (forall id, decision_statements id) -> each_stmt P (Timers.claim_and_fire Fire t).
Proof.
  intros HM HL HD. unfold Timers.claim_and_fire. apply each_tx_bind; [by apply each_MarkFired|].
  intros [|]; [|done]. apply each_tx_bind; [|done]. unfold Fire.
  destruct (HD (Timers.t_Subject t)) as (H1 & H2 & H3 & H4).
  apply each_tx_bind; [by apply each_LoadSeat|]. intros [st meta].
  case_bool_decide; [done|]. apply each_tx_bind; [by apply each_AppendSeat|]. intros [].
  apply each_tx_bind; [apply each_outgoing|]. intros ms. by apply each_Enqueue.
Qed.
End step_statements.

(** ** Lemmas: what the statements write *)
Section step_writes.
Context (P : write -> Prop).

Lemma writes_mark c src id : (forall k t, P (WInbox k t)) -> writes_only P _ (Inbox.markSQL c src id).
Proof.
  intros HP now sq d. unfold Inbox.markSQL.
  destruct (inbox d !! _); simpl; [constructor|by repeat constructor].
Qed.

Lemma writes_markFired id : (forall i t, P (WFired i t)) -> writes_only P _ (Timers.markFiredSQL id).
Proof.
  intros HP now sq d. unfold Timers.markFiredSQL.
  destruct (bool_decide _); simpl; [constructor|by repeat constructor].
Qed.

Lemma writes_load id : writes_only P _ (loadSQL id).
Proof. intros now sq d. constructor. Qed.

Lemma writes_append id v rows : (forall r, P (WEvent r)) -> writes_only P _ (appendSQL id v rows).
Proof.
  intros HP now sq d. unfold appendSQL. destruct (traverse cast_jsonb 0 rows); [|constructor].
  destruct (insert_events _ _ _ _ _ _) as [[rs|] ?]; [|constructor].
  apply Forall_fmap, Forall_true. intros r. apply HP.
Qed.

Lemma writes_schedule at_ id token :
  (forall r, P (WTimer r)) -> writes_only P _ (Timers.scheduleSQL at_ id token).
Proof. intros HP now sq d. by repeat constructor. Qed.

Lemma writes_enqueue rows : (forall r, P (WOutbox r)) -> writes_only P _ (enqueueSQL rows).
Proof. intros HP now sq d. simpl. apply Forall_fmap, Forall_true. intros r. apply HP. Qed.

Lemma writes_notify : (forall c, P (WNotify c)) -> writes_only P _ (notifySQL NotifyChannel).
Proof. intros HP now sq d. by repeat constructor. Qed.

Lemma writes_decision id :
  (forall r, P (WEvent r)) -> (forall r, P (WTimer r)) -> (forall r, P (WOutbox r)) ->
  (forall c, P (WNotify c)) -> decision_statements (writes_only P) id.
Proof.
  intros H1 H2 H3 H4. split_and!; intros; [by apply writes_append|by apply writes_schedule|
    by apply writes_enqueue|by apply writes_notify].
Qed.
End step_writes.

Context `{EN : !Encoder}.

Lemma appends_committable id add L d : appends id add L d -> committable L d.
Proof. intros H. by exists id, add. Qed.

Lemma committable_start d : consistent d -> committable [] d.
Proof. intros Hd. exists EmptyString, []. split; [done|by left]. Qed.

Lemma eventless_announces msgs tmpl : eventless (ms ← outgoing msgs tmpl; Enqueue ms).
Proof.
  apply each_tx_bind; [apply each_outgoing|]. intros ms.
  apply each_Enqueue; [intros; by apply writes_enqueue|by apply writes_notify].
Qed.

(** Eventless code at the end of a committable transaction. *)
Lemma wp_rest {A} (p : tx A) L d :
  eventless p -> committable L d ->
  wp respects_streams p L d (fun r L' d' => is_ok r = true -> committable L' d').
Proof. intros Hp Hc. eapply wp_mono; [by apply wp_eventless|]. by intros a L' d' [H _] _. Qed.

Definition may_commit {A} (r : res A) (L : list write) (d : db) : Prop :=
  is_ok r = true -> committable L d.

Lemma wp_apply_command incoming cmd id d :
  consistent d -> SeatID cmd = Ok id ->
  wp respects_streams (apply_command incoming cmd id) [] d may_commit.
Proof.
  intros Hd Hid. pose proof (committable_start d Hd) as Hc.
  unfold apply_command. apply wp_tx_bind.
  eapply wp_mono; [apply wp_eventless; [by apply each_MarkConsumed, writes_mark|exact Hc]|].
  intros [first|e] L d1 [Hc1 HL]; [|done]. destruct first; [|exact (fun _ => Hc1)].
  unfold decide_and_write. apply wp_tx_bind. eapply wp_mono; [by apply wp_LoadSeat|].
  intros [[st meta]|e] L2 d2; [|done]. intros (HL2 & Hc2 & [msgs Hl] & _).
  apply wp_lift_bind. destruct (Decide st cmd) as [out|e] eqn:Hdec; [|done].
  apply wp_tx_bind. eapply wp_mono.
  { apply (wp_AppendSeat id msgs st (Command cmd) out); try done. by eapply committable_consistent. }
  intros [[]|e] L3 d3 Hc3; [|done]. destruct (Hc3 eq_refl) as (rs & _ & _ & _ & Ha3). clear Hc3.
  apply appends_committable in Ha3 as Hc3.
  apply wp_rest; [|done]. apply each_tx_bind; [|intros []; apply eventless_announces].
  apply each_scheduleTimers. intros at_ token. by apply writes_schedule.
Qed.

Lemma wp_fire t d :
  consistent d -> wp respects_streams (Timers.claim_and_fire Fire t) [] d may_commit.
Proof.
  intros Hd. pose proof (committable_start d Hd) as Hc.
  unfold Timers.claim_and_fire. apply wp_tx_bind.
  eapply wp_mono; [apply wp_eventless; [by apply each_MarkFired, writes_markFired|exact Hc]|].
  intros [got|e] L d1 [Hc1 HL]; [|done]. destruct got; [|exact (fun _ => Hc1)].
  apply wp_tx_bind. unfold Fire. apply wp_tx_bind. eapply wp_mono; [by apply wp_LoadSeat|].
  intros [[st meta]|e] L2 d2; [|done]. intros (HL2 & Hc2 & [msgs Hl] & _).
  set (id := Timers.t_Subject t) in *. set (h := Timers.t_Token t).
  case_bool_decide as Hne; [exact (fun _ => Hc2)|].
  apply wp_tx_bind. eapply wp_mono.
  { apply (wp_AppendSeat id msgs st (Deadline id h) (Expire st id h)); try done.
    by eapply committable_consistent. }
  intros [[]|e] L3 d3 Hc3; [|done]. destruct (Hc3 eq_refl) as (rs & _ & _ & _ & Ha3). clear Hc3.
  apply appends_committable in Ha3 as Hc3.
  eapply wp_mono; [apply wp_rest; [|exact Hc3]|].
  - apply eventless_announces.
  - intros [[]|e] L4 d4 Hc4; [|done]. exact Hc4.
Qed.

(** ** Lemmas: a delivery is recorded with its effect *)
Section consume_once.
Context (k : inbox_key).

(** What other sessions may do to one delivery's record: keep it, and wait while
    this transaction holds its key. *)
Definition respects_delivery (L : list write) (d d' : db) : Prop :=
  (is_Some (inbox d !! k) -> is_Some (inbox d' !! k)) /\
  ((exists t, WInbox k t ∈ L) -> inbox d !! k = None -> inbox d' !! k = None).

Definition keeps_inbox (w : write) : Prop :=
  match w with WDeleteInbox _ => False | _ => True end.

Lemma inbox_kept d L : Forall keeps_inbox L -> is_Some (inbox d !! k) -> is_Some (inbox (apply_writes d L) !! k).
Proof.
  intros HL. revert d. induction HL as [|w L Hw _ IH]; intros d Hd; [done|].
  rewrite apply_writes_cons. apply IH. destruct w; simpl in *; try done.
  rewrite lookup_insert. by case_decide.
Qed.

Lemma recorded_drifts (R : list write -> db -> db -> Prop) d d' :
  (forall L d d', R L d d' -> respects_delivery L d d') -> drift R d d' ->
  is_Some (inbox d !! k) -> is_Some (inbox d' !! k).
Proof. intros HR. induction 1 as [|x y z [L Hxy] _ IH]; [done|]. intros Hx. by apply IH, (HR _ _ _ Hxy). Qed.

Lemma unrecorded_stays (R : list write -> db -> db -> Prop) t d d' :
  (forall L d d', R L d d' -> respects_delivery L d d') ->
  rtc (fun x y => exists L, [WInbox k t] `prefix_of` L /\ R L x y) d d' ->
  inbox d !! k = None -> inbox d' !! k = None.
Proof.
  intros HR. induction 1 as [|x y z (L & [l ->] & Hxy) _ IH]; [done|].
  intros Hx. apply IH, (HR _ _ _ Hxy); [|done]. exists t. by left.
Qed.

(** An execution of a command's transaction, at the moment it commits: it found the
    delivery recorded, and wrote nothing; or it did not, recorded it first, and decided
    the command under that record, which nobody else has made since. *)
Lemma command_completes (R : list write -> db -> db -> Prop) incoming cmd id d0 L d d' :
  k = (Consumer, env_Source incoming, env_ID incoming) ->
  (forall L d d', R L d d' -> respects_delivery L d d') ->
  completes R (apply_command incoming cmd id) [] d0 (Ok tt) L d -> R L d d' ->
  (L = [] /\ is_Some (inbox d' !! k)) \/
  (inbox d' !! k = None /\ is_Some (inbox (apply_writes d' L) !! k) /\
   exists t d1, R [] d0 d1 /\ inbox d1 !! k = None /\
     completes R (decide_and_write incoming cmd id) [WInbox k t] d1 (Ok tt) L d).
Proof.
  intros Hk HR (first & L1 & d1 & Hm & Hc)%completes_tx_bind Hd'. unfold MarkConsumed in Hm.
  destruct (_ || _ || _); [by destruct Hm|].
  apply completes_tx_bind in Hm as (n & L2 & d2 & He & Hret).
  apply completes_exec in He as (now & sq & x & ws & sq' & H0 & Eq & [= <-] & ->).
  change (apply_writes d2 []) with d2 in Eq. unfold Inbox.markSQL in Eq. rewrite <- Hk in Eq.
  destruct (inbox d2 !! k) as [t0|] eqn:Hin; injection Eq as <- <- _;
    destruct Hret as ([= <-] & <- & <-).
  - destruct Hc as (_ & <- & <-). left. split; [done|]. apply (HR _ _ _ Hd'). by exists t0.
  - right. set (t := timestamptz now) in *.
    change (completes R (decide_and_write incoming cmd id) [WInbox k t] d2 (Ok tt) L d) in Hc.
    pose proof (completes_moves R _ _ _ _ _ _ Hc) as Hm.
    assert (wp R (decide_and_write incoming cmd id) [WInbox k t] d2
      (fun _ L' d' => (exists rest, L' = [WInbox k t] ++ rest /\ Forall keeps_inbox rest) /\
        rtc (fun x y => exists L2, [WInbox k t] `prefix_of` L2 /\ R L2 x y) d2 d')) as Hw.
    { apply (wp_emits R keeps_inbox). by apply each_decide_and_write; [apply writes_load|apply writes_decision]. }
    apply (completes_wp R _ _ _ _ _ _ _ Hc) in Hw as [(rest & -> & Hrest) _].
    split; [|split].
    + apply (unrecorded_stays R t) in Hm; [|done..]. apply (HR _ _ _ Hd'); [|done]. exists t. by left.
    + change ([WInbox k t] ++ rest) with (WInbox k t :: rest). rewrite apply_writes_cons.
      apply inbox_kept; [done|]. simpl. rewrite lookup_insert_eq. by eexists.
    + by exists t, d2.
Qed.
End consume_once.

(** Nothing ever leaves the log of events. *)
Definition grows (d d' : db) : Prop := exists new, events d' = events d ++ new.

Lemma grows_refl d : grows d d.
Proof. exists []. by rewrite app_nil_r. Qed.

Lemma grows_trans d1 d2 d3 : grows d1 d2 -> grows d2 d3 -> grows d1 d3.
Proof. intros [n1 H1] [n2 H2]. exists (n1 ++ n2). by rewrite H2, H1, app_assoc. Qed.

(** Whatever [WithTx] does with code that commits only when it may. *)
Lemma WithTx_consistent o {A} (fn : tx A) w r w' :
  (forall n L d, respects_streams L d (others o n L d)) -> consistent (w_db w) ->
  (forall d, consistent d -> wp respects_streams fn [] d may_commit) ->
  WithTx o fn w = (r, w') -> consistent (w_db w') /\ grows (w_db w) (w_db w').
Proof.
  intros Ho Hd Hfn E.
  assert (forall d d', drift respects_streams d d' ->
    (consistent d -> consistent d') /\ grows d d') as Hdrift.
  { induction 1 as [|x y z [L [HR (new & He & _)]] _ [IH1 IH2]]; [split; [done|apply grows_refl]|].
    split; [by auto|]. eapply grows_trans; [by exists new|exact IH2]. }
  destruct (WithTx_cases respects_streams o fn w r w' may_commit Ho) as (d' & Hdr & H); [|exact E|].
  - intros d [HR _]. apply Hfn. by apply HR.
  - apply Hdrift in Hdr as [Hcons Hgrow].
    destruct H as [[_ ->]|(a & L & d & HQ & HR & -> & _)]; [by auto|]. split.
    + apply committable_commit. eapply committable_stable; [exact HR|]. by apply HQ.
    + eapply grows_trans; [exact Hgrow|]. exists (log_events L). apply events_apply.
Qed.

Lemma consistent_alternates d :
  consistent d -> forall id, exists msgs, holds_history id d msgs /\ alternates None msgs = true.
Proof.
  intros Hd id. destruct (Hd id) as [msgs Hh]. exists msgs. split; [done|].
  apply (history_shape id). apply Hh.
Qed.

(** ** Properties *)

(** No seat is sold twice, however transactions interleave.  While other sessions
    do anything that itself keeps every stream a history of its seat, a command
    handled with its retries leaves every stream a history of its seat: versions
    without a gap, and one hold at a time, ended before the next begins; and it has
    only added to the log.  Nothing is assumed about faults, commits or lost
    acknowledgements. *)
Theorem commands_never_oversell (o : oracle) (incoming : Envelope) (cmd : message) (w : world) :
  (forall n L d, respects_streams L d (others o n L d)) -> consistent (w_db w) ->
  let '(_, w') := Handle o incoming cmd w in
  consistent (w_db w') /\ grows (w_db w) (w_db w') /\
  forall id, exists msgs, holds_history id (w_db w') msgs /\ alternates None msgs = true.
Proof.
  intros Ho Hd. destruct (Handle o incoming cmd w) as [r w'] eqn:E.
  enough (consistent (w_db w') /\ grows (w_db w) (w_db w')) as [Hd' Hg]
    by (split_and!; [done|done|by apply consistent_alternates]).
  revert E. unfold Handle. generalize (ENew "%!w(<nil>)"), (ConflictRetries + 1)%nat.
  intros last n. revert last w Hd. induction n as [|n IH]; intros last w Hd; cbn [attempts].
  { intros [= _ <-]. split; [done|apply grows_refl]. }
  destruct (applyInOneTransaction o incoming cmd w) as [r1 w1] eqn:E1.
  assert (consistent (w_db w1) /\ grows (w_db w) (w_db w1)) as [Hd1 Hg1].
  { unfold applyInOneTransaction in E1. destruct (SeatID cmd) as [id|e] eqn:Hid.
    - eapply WithTx_consistent; [exact Ho|exact Hd| |exact E1].
      intros d Hcd. by apply wp_apply_command.
    - injection E1 as _ <-. split; [done|apply grows_refl]. }
  destruct r1 as [u|e]; [by intros [= _ <-]|].
  destruct (errors_Is e ErrVersionConflict); [|by intros [= _ <-]].
  intros E. destruct (IH _ _ Hd1 E) as [H1 H2]. split; [done|]. by eapply grows_trans.
Qed.

(** ** Lemmas: deliveries of one command *)

(** [n] deliveries of a command, each handled with its retries. *)
Fixpoint redeliver (o : oracle) (n : nat) (incoming : Envelope) (cmd : message) (w : world) :
    list (res unit) * world :=
  match n with
  | O => ([], w)
  | S n =>
      let '(r, w) := Handle o incoming cmd w in
      let '(rs, w) := redeliver o n incoming cmd w in (r :: rs, w)
  end.

Section once.
Context (R : list write -> db -> db -> Prop) (o : oracle) (incoming : Envelope) (cmd : message).
Let k : inbox_key := (Consumer, env_Source incoming, env_ID incoming).
Hypothesis others_keep_delivery : forall L d d', R L d d' -> respects_delivery k L d d'.
Hypothesis others_are : forall n L d, R L d (others o n L d).

(** The one time the command takes effect: the others alone lead to a state where the
    delivery is not recorded; there its record and one execution of the decision are
    committed, at a moment when it still is not recorded; and then the others go on. *)
Definition takes_effect (d d' : db) : Prop :=
  exists id t d1 L d2 d3, SeatID cmd = Ok id /\
    drift R d d1 /\ inbox d1 !! k = None /\
    completes R (decide_and_write incoming cmd id) [WInbox k t] d1 (Ok tt) L d2 /\
    R L d2 d3 /\ inbox d3 !! k = None /\ is_Some (inbox (apply_writes d3 L) !! k) /\
    drift R (apply_writes d3 L) d'.

Definition at_most_once (d d' : db) : Prop := drift R d d' \/ takes_effect d d'.

Lemma recorded_once d d' : is_Some (inbox d !! k) -> at_most_once d d' -> drift R d d'.
Proof.
  intros Hd [H|(id & t & d1 & L & d2 & d3 & _ & H1 & Hn & _)]; [done|].
  apply (recorded_drifts k R) in H1; [|done..]. rewrite Hn in H1. by destruct H1.
Qed.

Lemma at_most_once_keeps d d' :
  at_most_once d d' -> is_Some (inbox d !! k) -> is_Some (inbox d' !! k).
Proof. intros H Hd. apply (recorded_drifts k R d d'); [done| |done]. by apply recorded_once. Qed.

Lemma at_most_once_trans d1 d2 d3 : at_most_once d1 d2 -> at_most_once d2 d3 -> at_most_once d1 d3.
Proof.
  intros [H12|(id & t & e1 & L & e2 & e3 & H1 & H2 & H3 & H4 & H5 & H6 & H7 & H8)] H23.
  - destruct H23 as [H23|(id & t & e1 & L & e2 & e3 & H1 & H2 & H)]; [left|right].
    + unfold drift in *. by etrans.
    + exists id, t, e1, L, e2, e3. split; [done|]. split; [|done]. unfold drift in *. by etrans.
  - right. exists id, t, e1, L, e2, e3. split_and!; try done. unfold drift in *. etrans; [exact H8|].
    apply (recorded_once d2 d3); [|done]. by apply (recorded_drifts k R (apply_writes e3 L) d2).
Qed.

(** One attempt. *)
Lemma attempt_once w r w' :
  applyInOneTransaction o incoming cmd w = (r, w') ->
  at_most_once (w_db w) (w_db w') /\ (r = Ok tt -> is_Some (inbox (w_db w') !! k)).
Proof.
  unfold applyInOneTransaction. destruct (SeatID cmd) as [id|e] eqn:Hid.
  2:{ intros [= <- <-]. split; [left; apply rtc_refl|done]. }
  intros E. destruct (WithTx_completes R o _ w r w' others_are E) as (d' & Hd & H).
  destruct H as [[Hr <-]|([] & L & d0 & d & H0 & Hc & HL & Hw & _)].
  { split; [by left|]. by intros ->. }
  destruct (command_completes k R incoming cmd id d0 L d d' eq_refl others_keep_delivery Hc HL)
    as [[-> Hrec]|(Hn & Hrec & t & d1 & H1 & Hn1 & Hdw)].
  { rewrite Hw, apply_writes_nil. split; [by left|done]. }
  rewrite Hw. split; [|done]. right. exists id, t, d1, L, d, d'. split_and!; try done.
  eapply rtc_l; [by exists []|]. apply rtc_once. by exists [].
Qed.

Lemma attempts_once n last w r w' :
  attempts o n incoming cmd last w = (r, w') ->
  at_most_once (w_db w) (w_db w') /\ (r = Ok tt -> is_Some (inbox (w_db w') !! k)).
Proof.
  revert last w. induction n as [|n IH]; intros last w; cbn [attempts].
  { intros [= <- <-]. split; [left; apply rtc_refl|done]. }
  destruct (applyInOneTransaction o incoming cmd w) as [r1 w1] eqn:E1.
  apply attempt_once in E1 as [H1 Hr1]. destruct r1 as [[]|e]; [by intros [= <- <-]|].
  destruct (errors_Is e ErrVersionConflict); [|by intros [= <- <-]].
  intros [H2 Hr2]%IH. split; [by eapply at_most_once_trans|done].
Qed.

Lemma redeliver_once n w rs w' :
  redeliver o n incoming cmd w = (rs, w') ->
  at_most_once (w_db w) (w_db w') /\ (Ok tt ∈ rs -> is_Some (inbox (w_db w') !! k)).
Proof.
  revert w rs. induction n as [|n IH]; intros w rs; cbn [redeliver].
  { intros [= <- <-]. split; [left; apply rtc_refl|]. by intros ?%elem_of_nil. }
  destruct (Handle o incoming cmd w) as [r w1] eqn:E1. apply attempts_once in E1 as [H1 Hr1].
  destruct (redeliver o n incoming cmd w1) as [rs' w2] eqn:E2.
  intros [= <- <-]. destruct (IH _ _ E2) as [H2 Hr2]. split; [by eapply at_most_once_trans|].
  intros [Hr|Hr]%elem_of_cons; [|by apply Hr2]. by apply (at_most_once_keeps (w_db w1)), Hr1.
Qed.
End once.

(** C7: a command takes effect once, however often it is delivered and whatever fails.
    Let [R] be anything other sessions may do that keeps a recorded delivery and waits on
    the unique key.  Over any number of deliveries, each handled with its retries, and
    under any faults, either the others alone have made the database what it is; or the
    decision has been executed and committed once, together with the record of the
    delivery and at a moment when nobody had recorded it, between what the others did
    before and after.  Where the delivery was recorded from the start there is no effect,
    and a delivery reported as handled is recorded. *)
Theorem command_consumed_once (R : list write -> db -> db -> Prop) (o : oracle) (n : nat)
    (incoming : Envelope) (cmd : message) (w : world) rs w' :
  let k := (Consumer, env_Source incoming, env_ID incoming) in
  (forall L d d', R L d d' -> respects_delivery k L d d') -> (forall n L d, R L d (others o n L d)) ->
  redeliver o n incoming cmd w = (rs, w') ->
  (drift R (w_db w) (w_db w') \/ takes_effect R incoming cmd (w_db w) (w_db w')) /\
  (is_Some (inbox (w_db w) !! k) -> drift R (w_db w) (w_db w')) /\
  (Ok tt ∈ rs -> is_Some (inbox (w_db w') !! k)).
Proof.
  intros k HR Ho E. destruct (redeliver_once R o incoming cmd HR Ho n w rs w' E) as [H Hr].
  split; [exact H|]. split; [|done]. intros Hd. by apply (recorded_once R incoming cmd).
Qed.

(** Nor does an expiry.  The same holds of a timer fired by the scheduler. *)
Theorem expiries_never_oversell (o : oracle) (t : Timers.Timer) (w : world) :
  (forall n L d, respects_streams L d (others o n L d)) -> consistent (w_db w) ->
  let '(_, w') := Timers.fireOne o Fire t w in
  consistent (w_db w') /\ grows (w_db w) (w_db w') /\
  forall id, exists msgs, holds_history id (w_db w') msgs /\ alternates None msgs = true.
Proof.
  intros Ho Hd. destruct (Timers.fireOne o Fire t w) as [r w'] eqn:E.
  destruct (WithTx_consistent o (Timers.claim_and_fire Fire t) w r w') as [Hd' Hg];
    [done|done| |exact E|].
  { intros d Hcd. by apply wp_fire. }
  split_and!; [done|done|by apply consistent_alternates].
Qed.
End isolation.

(** ** Witnesses *)
Import UnixTimestamps PlainPostgres NumberedJson Store.Samples Commands.Samples.

Lemma o_respects n L d : respects_streams L d (others o n L d).
Proof. split; [done|]. exists []. rewrite app_nil_r. split; [done|]. by intros r r' _ ?%elem_of_nil. Qed.

Lemma commands_never_oversell_witness :
  consistent (w_db (snd (Handle o incoming hold (world_of empty_db)))).
Proof.
  pose proof (commands_never_oversell o incoming hold (world_of empty_db) o_respects
    empty_consistent) as H.
  destruct (Handle o incoming hold (world_of empty_db)) as [r w']. exact (proj1 H).
Defined.

Lemma expiries_never_oversell_witness :
  consistent (w_db (snd (Timers.fireOne o Fire (Timers.scan_timer timer) (world_of empty_db)))).
Proof.
  pose proof (expiries_never_oversell o (Timers.scan_timer timer) (world_of empty_db) o_respects
    empty_consistent) as H.
  destruct (Timers.fireOne o Fire _ _) as [r w']. exact (proj1 H).
Defined.

Lemma command_consumed_once_witness :
  let w := world_of empty_db in
  let w' := snd (redeliver o 3 incoming hold w) in
  is_Some (inbox (w_db w') !! (Consumer, "/saga", "cmd-1")) /\
  exists t L, completes (fun _ => eq) (decide_and_write incoming hold seat)
      [WInbox (Consumer, "/saga", "cmd-1") t] empty_db (Ok tt) L empty_db /\
    w_db w' = apply_writes empty_db L.
Proof.
  intros w w'. assert (forall d d', drift (fun _ => eq) d d' -> d = d') as Hsame.
  { induction 1 as [|x y z [_ ->] _ IH]; [done|exact IH]. }
  destruct (command_consumed_once (fun _ => eq) o 3 incoming hold w (fst (redeliver o 3 incoming hold w)) w')
    as (H & _ & Hr); [by intros L d d' <-|done|apply surjective_pairing|].
  assert (is_Some (inbox (w_db w') !! (Consumer, "/saga", "cmd-1"))) as Hrec by (apply Hr; vm_compute; by left).
  split; [exact Hrec|].
  destruct H as [H%Hsame|(id & t & d1 & L & d2 & d3 & Hid & <-%Hsame & _ & Hc & <- & _ & _ & Hd)].
  - rewrite <- H in Hrec. by destruct Hrec.
  - injection Hid as <-. assert (d2 = empty_db) as ->.
    { symmetry. apply Hsame. by eapply (completes_drift (fun _ => eq)). }
    apply Hsame in Hd. exists t, L. split; [exact Hc|exact (eq_sym Hd)].
Defined.
