(* ===== verification/Projection.v ===== *)
(** * Projection ([internal/inventory/projection.go])

    The browsing view [seat_availability]: a seat's row is re-derived from its
    stream, guarded by the version; the whole view can be rebuilt; one seat and the
    held seats of a flight are read from it.  Theorems: what a re-derivation leaves,
    that a rebuild is the fold of every stream, that a row reads back as the seat it
    was folded from, what the prefix search returns, and that a rebuild running
    beside other transactions can lose a row. *)
From Stdlib Require Import Ascii.
From S2P Require Import Prelude Contracts Database EventStore Codec Seat Store.

Record Availability := {
  a_SeatID : string;
  a_Status : Z;
  a_HoldID : string;
  a_BookingID : string;
  a_ExpiresAt : Time;
  a_Version : Z;
}.

#[global] Instance Availability_eq_dec : EqDecision Availability.
Proof. solve_decision. Defined.

(** [SQL] text matching: [%] any text, [_] one character, [\] takes the next one
    literally.  Characters are bytes here. *)
Fixpoint like (p s : string) : bool :=
  match p with
  | EmptyString => bool_decide (s = EmptyString)
  | String c p' =>
      if bool_decide (c = "%"%char) then
        (fix any s := like p' s || match s with EmptyString => false | String _ s' => any s' end) s
      else if bool_decide (c = "_"%char) then
        match s with EmptyString => false | String _ s' => like p' s' end
      else if bool_decide (c = "\"%char) then
        match p' with
        | EmptyString => false
        | String c' p'' =>
            match s with
            | EmptyString => false
            | String b s' => bool_decide (b = c') && like p'' s'
            end
        end
      else
        match s with
        | EmptyString => false
        | String b s' => bool_decide (b = c) && like p' s'
        end
  end.

Definition deadline (t : Time) : option Time := if IsZero t then None else Some t.

Definition parseStatus (s : string) : res Z :=
  if bool_decide (s = Status_String StatusFree) then Ok StatusFree
  else if bool_decide (s = Status_String StatusHeld) then Ok StatusHeld
  else Err (ENew ("inventory: unknown status " +:+ Quote s +:+ " in seat_availability")%string).

Section projection.
Context `{TS : Timestamppb} `{PG : Postgres} `{PJ : !Protojson}.

(** The row of a folded seat, as the columns keep it. *)
Definition availability_of (seatID : string) (s : SeatState) : availability_row :=
  {| av_seat_id := seatID; av_status := Status_String (st_Status s); av_hold_id := st_HoldID s;
     av_booking_id := st_BookingID s; av_expires_at := timestamptz <$> deadline (st_ExpiresAt s);
     av_version := st_Version s |}.

(** [INSERT ... ON CONFLICT (seat_id) DO UPDATE ... WHERE
    seat_availability.version < excluded.version] *)
Definition upsertAvailabilitySQL (row : availability_row) : stmt unit := fun _ sq d =>
  if negb (int4 (av_version row)) then (Err (EPg "22003" "integer out of range"), [], sq)
  else
    match availability d !! av_seat_id row with
    | Some r => (Ok tt, if av_version r <? av_version row then [WAvailability row] else [], sq)
    | None => (Ok tt, [WAvailability row], sq)
    end.

Definition project (seatID : string) : tx unit :=
  loaded ← LoadSeat seatID;
  let '(state, _) := loaded : SeatState * Meta in
  if st_Version state =? 0 then mret tt
  else
    exec (upsertAvailabilitySQL (availability_of seatID state))
      (fun e => EWrap ("inventory: project " +:+ seatID +:+ ": " +:+ Error e)%string e).

(** [DELETE FROM seat_availability] *)
Definition clearSQL : stmt unit := fun _ sq d =>
  (Ok tt, [WDeleteAvailability (map_to_list (availability d)).*1], sq).

Definition rebuild : tx unit :=
  ids ← Streams;
  _ ← exec clearSQL
        (fun e => EWrap ("inventory: clear seat_availability: " +:+ Error e)%string e);
  tx_each project ids.

Definition availabilitySQL (seatID : string) : stmt (option availability_row) := fun _ sq d =>
  (Ok (availability d !! seatID), [], sq).

Definition heldSeatsSQL (status flightPrefix : string) : stmt (list string) := fun _ sq d =>
  (Ok (order_by collate
         (map (fun kv => av_seat_id kv.2)
            (filter (fun kv : string * availability_row =>
                av_status kv.2 = status /\ like (flightPrefix +:+ "%")%string (av_seat_id kv.2) = true)
               (map_to_list (availability d))))), [], sq).

Section pool.
Context (o : oracle).

Definition Project (seatID : string) (w : world) : res unit * world := WithTx o (project seatID) w.

Definition Rebuild (w : world) : res unit * world := WithTx o rebuild w.

(** The row scanned into an [Availability]; a NULL deadline is the zero time. *)
Definition scan_availability (r : availability_row) : res Availability :=
  status ← parseStatus (av_status r);
  mret {| a_SeatID := av_seat_id r; a_Status := status; a_HoldID := av_hold_id r;
        a_BookingID := av_booking_id r;
        a_ExpiresAt := match av_expires_at r with Some t => t | None => 0 end;
        a_Version := av_version r |}.

(** The availability and whether there is a row, as an [option]. *)
Definition LoadAvailability (seatID : string) (w : world) : res (option Availability) * world :=
  match pool_exec o (availabilitySQL seatID)
        (fun e => EWrap ("inventory: read availability for " +:+ seatID +:+ ": " +:+ Error e)%string e)
        w with
  | (Err e, w) => (Err e, w)
  | (Ok None, w) => (Ok None, w)
  | (Ok (Some r), w) =>
    match scan_availability r with Err e => (Err e, w) | Ok a => (Ok (Some a), w) end
  end.

Definition HeldSeats (flightPrefix : string) (w : world) : res (list string) * world :=
  pool_exec o (heldSeatsSQL (Status_String StatusHeld) flightPrefix)
  (fun e => EWrap ("inventory: browse " +:+ flightPrefix +:+ ": " +:+ Error e)%string e) w.
End pool.

(** ** Lemmas *)

(** What a re-derivation makes of the row there was. *)
Definition rederived (id : string) (s : SeatState) (old : option availability_row) :
    option availability_row :=
  if st_Version s =? 0 then old
  else
    match old with
    | Some r => if av_version r <? st_Version s then Some (availability_of id s) else old
    | None => Some (availability_of id s)
    end.

Lemma loaded_version id d msgs st : loaded id d msgs st -> 0 <= st_Version st < 2 ^ 31.
Proof.
  intros (Hh & _ & _ & Hv). pose proof (holds_history_length _ _ _ Hh) as Hl.
  destruct Hh as (_ & _ & _ & Hn). lia.
Qed.

Lemma does_project o now id msgs st d :
  calm o -> loaded id d msgs st ->
  does o now (project id) d (fun _ L =>
    events (apply_writes d L) = events d /\
    availability (apply_writes d L) !! id = rederived id st (availability d !! id) /\
    forall id', id' <> id -> availability (apply_writes d L) !! id' = availability d !! id').
Proof.
  intros Hcalm Hl. pose proof (loaded_version _ _ _ _ Hl) as Hv. unfold project.
  eapply does_bind; [by apply (does_LoadSeat _ _ id msgs st)|]. intros ? ? [-> ->]. simpl.
  unfold rederived. destruct (st_Version st =? 0); [by apply does_ret|].
  apply does_exec; [done|]. intros sq. unfold upsertAvailabilitySQL. simpl.
  assert (int4 (st_Version st) = true) as -> by (unfold int4; lia). simpl.
  destruct (availability d !! id) as [r|] eqn:Hr; [destruct (av_version r <? st_Version st)|];
    do 3 eexists; (split; [reflexivity|]); simpl; rewrite ?lookup_insert_eq; split_and!; try done;
    intros id' Hne; by rewrite lookup_insert_ne.
Qed.

Lemma elem_of_streams id d : id ∈ remove_dups (ev_stream_id <$> events d) <-> stream_rows id d <> [].
Proof.
  rewrite elem_of_remove_dups, list_elem_of_fmap. unfold stream_rows. split.
  - intros (r & -> & Hr) Hf. assert (r ∈ filter (fun x => ev_stream_id x = ev_stream_id r) (events d))
      as Hin by by apply list_elem_of_filter. rewrite Hf in Hin. by apply elem_of_nil in Hin.
  - intros Hf. destruct (filter _ _) as [|r rs] eqn:E; [done|]. exists r.
    assert (r ∈ filter (fun x => ev_stream_id x = id) (events d)) as Hin by (rewrite E; by left).
    apply list_elem_of_filter in Hin as [? ?]. done.
Qed.

Lemma loaded_events id d d' msgs st : events d' = events d -> loaded id d msgs st -> loaded id d' msgs st.
Proof. unfold loaded, holds_history, gapless, stream_rows. by intros ->. Qed.

(** A view that has been cleared is empty, and a stream folds into it as it is. *)
Lemma clear_empties d :
  availability (apply_writes d [WDeleteAvailability (map_to_list (availability d)).*1]) = ∅.
Proof.
  simpl. apply map_eq. intros id. rewrite foldr_delete_lookup, lookup_empty.
  case_bool_decide as Hk; [done|]. apply eq_None_not_Some. intros [r Hr]. apply Hk.
  apply list_elem_of_fmap. exists (id, r). by rewrite elem_of_map_to_list.
Qed.

Lemma rederived_fresh id d msgs st :
  loaded id d msgs st -> stream_rows id d <> [] -> rederived id st None = Some (availability_of id st).
Proof.
  intros (_ & _ & _ & Hv) Hs. unfold rederived. assert ((st_Version st =? 0) = false) as ->; [|done].
  destruct (stream_rows id d); [done|]. simpl in Hv. lia.
Qed.

(** The loop of a rebuild over distinct streams. *)
Lemma does_project_each o now (ids : list string) d (st : string -> SeatState) :
  calm o -> NoDup ids -> (forall id, id ∈ ids -> exists msgs, loaded id d msgs (st id)) ->
  does o now (tx_each project ids) d (fun _ L =>
    events (apply_writes d L) = events d /\
    forall id, availability (apply_writes d L) !! id =
      if bool_decide (id ∈ ids) then rederived id (st id) (availability d !! id)
      else availability d !! id).
Proof.
  intros Hcalm. revert d. induction ids as [|id ids IH]; intros d Hn Hl; cbn [tx_each].
  { apply does_ret. split; [done|]. intros id. by rewrite bool_decide_eq_false_2 by apply not_elem_of_nil. }
  apply NoDup_cons in Hn as [Hid Hn]. destruct (Hl id) as [msgs Hl0]; [by left|].
  eapply does_bind; [by apply (does_project _ _ id msgs (st id))|].
  intros [] L (He & Ha & Hother). eapply does_mono; [apply IH; [done|]|].
  { intros id' Hid'. destruct (Hl id') as [msgs' Hl']; [by right|]. exists msgs'.
    by eapply loaded_events. }
  intros [] L' [He' Ha']. rewrite apply_writes_app. split; [congruence|].
  intros id'. rewrite Ha'. destruct (decide (id' = id)) as [->|Hne].
  - rewrite bool_decide_eq_false_2 by done. rewrite bool_decide_eq_true_2 by by left. done.
  - rewrite Hother by done. assert (id' ∈ id :: ids <-> id' ∈ ids) as Hiff
      by (rewrite elem_of_cons; naive_solver). repeat case_bool_decide; tauto.
Qed.
End projection.

(** ** Lemmas: reading the view back *)
Lemma parse_Status_String s : s = StatusFree \/ s = StatusHeld -> parseStatus (Status_String s) = Ok s.
Proof. intros [->| ->]; reflexivity. Qed.

Lemma parseStatus_ok t s : parseStatus t = Ok s -> t = Status_String s /\ (s = StatusFree \/ s = StatusHeld).
Proof. unfold parseStatus. repeat case_bool_decide; intros; simplify_eq; auto. Qed.

(** A pattern with no special character, then [%]: the texts that start with it. *)
Definition plain_char (c : ascii) : bool :=
  bool_decide (c <> "%"%char) && bool_decide (c <> "_"%char) && bool_decide (c <> "\"%char).
Fixpoint plain (p : string) : bool :=
  match p with EmptyString => true | String c p => plain_char c && plain p end.

Lemma like_percent s : like "%" s = true.
Proof.
  simpl. by induction s as [|c s IH].
Qed.

Lemma like_prefix p s : plain p = true -> like (p +:+ "%") s = String.prefix p s.
Proof.
  revert s; induction p as [|c p IH]; intros s Hp; [by rewrite like_percent; destruct s|].
  simpl in Hp. apply andb_true_iff in Hp as [Hc Hp]. unfold plain_char in Hc.
  rewrite !andb_true_iff, !bool_decide_eq_true in Hc. destruct Hc as [[H1 H2] H3].
  change ((String c p +:+ "%")%string) with (String c (p +:+ "%")). cbn [like].
  rewrite !bool_decide_eq_false_2 by done. destruct s as [|b s]; [done|]. cbn [String.prefix].
  rewrite IH by done. destruct (ascii_dec c b) as [->|Hne].
  - by rewrite bool_decide_eq_true_2.
  - by rewrite bool_decide_eq_false_2 by congruence.
Qed.

(** ** Properties *)
Section properties.
Context `{TS : Timestamppb} `{PG : Postgres} `{PJ : !Protojson}.

(** A re-derivation brings one seat's row up to its stream and never drags it
    back: afterwards the row is the fold of the stream, unless it was already at
    that version or past it, or the stream is empty, and then it is untouched; no
    other row changes; and doing it again changes nothing. *)
Theorem Project_refreshes (o : oracle) (id : string) (msgs : list message) (st : SeatState)
    (w : world) :
  calm o -> (forall n, commit_fate o n = Committed) -> loaded id (w_db w) msgs st ->
  exists w', Project o id w = (Ok tt, w') /\
    let old := availability (w_db w) !! id in
    availability (w_db w') !! id =
      match old with
      | Some r =>
          if (av_version r <? st_Version st) && negb (st_Version st =? 0)
          then Some (availability_of id st) else old
      | None => if st_Version st =? 0 then None else Some (availability_of id st)
      end /\
    (forall id', id' <> id -> availability (w_db w') !! id' = availability (w_db w) !! id') /\
    events (w_db w') = events (w_db w) /\
    exists w'', Project o id w' = (Ok tt, w'') /\
      forall id', availability (w_db w'') !! id' = availability (w_db w') !! id'.
Proof.
  intros Hcalm Hc Hl. unfold Project.
  destruct (WithTx_does o _ Hcalm (project id) w _ Hc eq_refl
    (does_project o _ id msgs st _ Hcalm Hl)) as ([] & L & w' & E & (He & Ha & Hother) & Hw).
  rewrite <- Hw in He, Ha, Hother.
  assert (loaded id (w_db w') msgs st) as Hl' by by eapply loaded_events.
  destruct (WithTx_does o _ Hcalm (project id) w' _ Hc eq_refl
    (does_project o _ id msgs st _ Hcalm Hl')) as ([] & L2 & w'' & E2 & (He2 & Ha2 & Hother2) & Hw2).
  rewrite <- Hw2 in He2, Ha2, Hother2.
  exists w'. split; [exact E|]. split; [|split_and!; [done|done|]].
  - rewrite Ha. unfold rederived. destruct (availability (w_db w) !! id) as [r|];
      destruct (st_Version st =? 0); rewrite ?andb_false_r, ?andb_true_r; done.
  - exists w''. split; [exact E2|]. intros id'. destruct (decide (id' = id)) as [->|Hne]; [|by auto].
    rewrite Ha2, Ha. unfold rederived. destruct (st_Version st =? 0); [done|].
    destruct (availability (w_db w) !! id) as [r|] eqn:Hr.
    + destruct (av_version r <? st_Version st) eqn:E1; [|by rewrite E1].
      simpl. by rewrite Z.ltb_irrefl.
    + simpl. by rewrite Z.ltb_irrefl.
Qed.

(** C23: a rebuild is the fold of the streams.  On a database nobody else is writing
    to, whatever the view held before, afterwards it has exactly one row per seat
    with a stream, the fold of that stream, and no other row. *)
Theorem Rebuild_folds_every_stream (o : oracle) (w : world) :
  calm o -> (forall n, commit_fate o n = Committed) -> consistent (w_db w) ->
  exists w', Rebuild o w = (Ok tt, w') /\ events (w_db w') = events (w_db w) /\
    forall id msgs st, loaded id (w_db w) msgs st ->
      availability (w_db w') !! id =
        if bool_decide (stream_rows id (w_db w) = []) then None else Some (availability_of id st).
Proof.
  intros Hcalm Hc Hd. set (d := w_db w) in *. set (now := clock o (w_trips w)).
  set (sts := fun id => state_of id d).
  assert (forall id, exists msgs, loaded id d msgs (sts id)) as Hsts by (intros id; by apply state_of_loaded).
  set (ids := order_by collate (remove_dups (ev_stream_id <$> events d))).
  assert (forall id, id ∈ ids <-> stream_rows id d <> []) as Hin
    by (intros id; unfold ids; by rewrite elem_of_order_by, elem_of_streams).
  destruct (WithTx_does o now Hcalm rebuild w (fun _ L =>
      events (apply_writes d L) = events d /\
      forall id, availability (apply_writes d L) !! id =
        if bool_decide (id ∈ ids) then rederived id (sts id) None else None))
    as ([] & L & w' & E & (He & Ha) & Hw); [done|done| |].
  { fold d. unfold rebuild. eapply does_bind.
    { apply (does_exec o now Hcalm _ _ _ (fun r L => r = ids /\ L = [])). intros sq.
      by do 3 eexists. }
    intros ? ? [-> ->]. simpl. eapply does_bind.
    { apply (does_exec o now Hcalm _ _ _ (fun _ L =>
        L = [WDeleteAvailability (map_to_list (availability d)).*1])). intros sq. by do 3 eexists. }
    intros [] ? ->. set (d1 := apply_writes d _).
    assert (availability d1 = ∅) as Hempty by apply clear_empties.
    eapply does_mono; [apply (does_project_each o now ids d1 sts Hcalm)|].
    - unfold ids. rewrite order_by_perm. apply NoDup_remove_dups.
    - intros id _. destruct (Hsts id) as [msgs Hl]. exists msgs. by eapply loaded_events.
    - intros [] L [H1 H2]. rewrite apply_writes_app. fold d1. split; [exact H1|].
      intros id. rewrite H2, Hempty, lookup_empty. done. }
  exists w'. split; [exact E|]. rewrite Hw. split; [exact He|]. intros id msgs st Hl.
  rewrite Ha. destruct (Hsts id) as [msgs' Hl'].
  assert (sts id = st) as -> by by eapply loaded_unique.
  destruct (decide (stream_rows id d = [])) as [Hs|Hs].
  - rewrite (bool_decide_eq_true_2 (stream_rows id d = [])) by done.
    rewrite bool_decide_eq_false_2; [done|]. by intros ?%Hin.
  - rewrite (bool_decide_eq_false_2 (stream_rows id d = [])) by done.
    rewrite bool_decide_eq_true_2 by by apply Hin. by apply (rederived_fresh id d msgs).
Qed.

(** A rebuild during which the others only act once, between the listing of the streams and
    the delete: it folds what was listed into the view they find. *)
Definition undisturbed (o : oracle) : oracle :=
  {| fault := fun _ => None; commit_fate := fun _ => Committed; others := fun _ _ d => d;
     clock := clock o; uuid := uuid o |}.

(** A statement that succeeds, and a transaction whose body does. *)
Lemma run_step (o : oracle) {X B} (q : stmt X) f (g : X -> tx B) w s x ws :
  healthy o w s = true ->
  q (s_now s) (w_seqs w) (view (round_trip o (s_log s) w) s) = (Ok x, ws, w_seqs w) ->
  run o (exec q f ≫= g) w s = run o (g x) (round_trip o (s_log s) w) (record ws s).
Proof. intros Hh Hq. rewrite run_tx_bind, run_exec by done. cbv zeta. by rewrite Hq. Qed.

Lemma WithTx_runs (o : oracle) {A} (fn : tx A) w a w' s' :
  fault o (w_trips w) = None -> commit_fate o (w_trips w') = Committed ->
  run o fn (round_trip o [] w) {| s_now := clock o (w_trips w); s_log := []; s_aborted := false |}
    = (Ok a, w', s') -> s_aborted s' = false ->
  WithTx o fn w = (Ok a, set_db (apply_writes (w_db (round_trip o (s_log s') w')) (s_log s'))
                           (round_trip o (s_log s') w')).
Proof. intros Hf Hc Hr Ha. unfold WithTx. cbv zeta. by rewrite Hf, Hr, Ha, Hc. Qed.

Lemma rebuild_beside (o : oracle) (w : world) (arrive : db -> db) (Q : unit -> list write -> Prop) :
  let d1 := arrive (w_db w) in
  let ids := order_by collate (remove_dups (ev_stream_id <$> events (w_db w))) in
  let clear := [WDeleteAvailability (map_to_list (availability d1)).*1] in
  let dc := apply_writes d1 clear in
  (forall n, fault o n = None) -> (forall n, commit_fate o n = Committed) ->
  (forall n L d, others o n L d = if bool_decide (n = S (S (w_trips w))) then arrive d else d) ->
  does (undisturbed o) (clock o (w_trips w)) (tx_each project ids) dc Q ->
  exists w' L, Rebuild o w = (Ok tt, w') /\ w_db w' = apply_writes dc L /\ Q tt L.
Proof.
  intros d1 ids clear dc Hf Hc Ho Hfold.
  set (s := {| s_now := clock o (w_trips w); s_log := []; s_aborted := false |}).
  set (w3 := round_trip o [] (round_trip o [] (round_trip o [] w))).
  assert (w_db w3 = d1) as Hw3.
  { unfold w3, round_trip. cbn [w_db w_trips]. rewrite !Ho.
    repeat case_bool_decide; solve [lia|done]. }
  assert (run o rebuild (round_trip o [] w) s = run (undisturbed o) (tx_each project ids) w3 (record clear s))
    as Hrun.
  { transitivity (run o (tx_each project ids) w3 (record clear s)).
    - unfold rebuild, Streams. erewrite (run_step _ _ _ _ _ _ ids []); [|unfold healthy; by rewrite Hf|].
      + erewrite (run_step _ _ _ _ _ _ tt clear); [reflexivity|unfold healthy; by rewrite Hf|].
        unfold clearSQL, clear. do 5 f_equal. by rewrite <- Hw3.
      + unfold streamsSQL, ids. do 4 f_equal. unfold view, round_trip. cbn [w_db w_trips s_log].
        rewrite !Ho. repeat case_bool_decide; solve [lia|done].
    - apply run_agrees; [done|]. intros n Hn. split; [apply Hf|]. intros L d.
      change (w_trips w3) with (S (S (S (w_trips w)))) in Hn. by rewrite Ho, bool_decide_eq_false_2 by lia. }
  destruct (Hfold w3 (record clear s)) as ([] & L & w5 & s5 & E & Hw5 & Hl & Ha & _ & HQ); [done|done| |].
  { unfold view. by rewrite Hw3. }
  pose proof (run_trips (undisturbed o) (tx_each project ids) w3 (record clear s)) as Htr.
  rewrite E in Htr, Hrun. change (S (S (S (w_trips w))) <= w_trips w5)%nat in Htr.
  eexists _, L. split; [apply (WithTx_runs o rebuild w _ _ _ (Hf _) (Hc _) Hrun)|].
  { done. }
  split; [|exact HQ]. unfold set_db, round_trip. cbn [w_db].
  rewrite Ho, bool_decide_eq_false_2 by lia. rewrite Hw5, Hl. unfold record. cbn [s_log s].
  by rewrite Hw3, apply_writes_app.
Qed.

(** C35: a rebuild can lose a row.  Nothing fails, and the only thing the others do is that
    between the rebuild's listing of the streams and its delete they begin the stream of a
    seat that had none, whether or not they also project it.  Then the rebuild succeeds and
    leaves that seat without a row, though its stream is there; every other row is the fold
    of its stream, as it should be. *)
Theorem Rebuild_can_lose_a_row (o : oracle) (w : world) (arrive : db -> db) (id : string) :
  let d := w_db w in
  let d1 := arrive d in
  (forall n, fault o n = None) -> (forall n, commit_fate o n = Committed) ->
  (forall n L d, others o n L d = if bool_decide (n = S (S (w_trips w))) then arrive d else d) ->
  consistent d1 -> (forall seat, seat <> id -> stream_rows seat d1 = stream_rows seat d) ->
  stream_rows id d = [] -> stream_rows id d1 <> [] ->
  exists w', Rebuild o w = (Ok tt, w') /\ events (w_db w') = events d1 /\
    stream_rows id (w_db w') <> [] /\ availability (w_db w') !! id = None /\
    forall seat msgs st, seat <> id -> loaded seat d1 msgs st ->
      availability (w_db w') !! seat =
        if bool_decide (stream_rows seat d1 = []) then None else Some (availability_of seat st).
Proof.
  intros d d1 Hf Hc Ho Hd1 Hsame Hnone Hsome.
  set (sts := fun seat => state_of seat d1).
  set (ids := order_by collate (remove_dups (ev_stream_id <$> events d))).
  assert (forall seat, seat ∈ ids <-> stream_rows seat d <> []) as Hin
    by (intros seat; unfold ids; by rewrite elem_of_order_by, elem_of_streams).
  set (dc := apply_writes d1 [WDeleteAvailability (map_to_list (availability d1)).*1]).
  destruct (rebuild_beside o w arrive (fun _ L => events (apply_writes dc L) = events dc /\
    forall seat, availability (apply_writes dc L) !! seat =
      if bool_decide (seat ∈ ids) then rederived seat (sts seat) (availability dc !! seat)
      else availability dc !! seat) Hf Hc Ho) as (w' & L & E & Hw & He & Ha).
  { apply does_project_each; [done|unfold ids; rewrite order_by_perm; apply NoDup_remove_dups|].
    intros seat _. destruct (state_of_loaded seat d1 Hd1) as [msgs Hl]. exists msgs. by eapply loaded_events. }
  fold d d1 dc in Hw. rewrite <- Hw in He, Ha. exists w'. split; [exact E|]. split; [exact He|].
  assert (availability dc = ∅) as Hempty by apply clear_empties. rewrite Hempty in Ha.
  split; [|split].
  - unfold stream_rows in *. by rewrite He.
  - rewrite Ha, bool_decide_eq_false_2, lookup_empty; [done|]. intros Hi%Hin. by apply Hi.
  - intros seat msgs st Hne Hl. rewrite Ha, lookup_empty.
    assert (sts seat = st) as ->.
    { destruct (state_of_loaded seat d1 Hd1) as [msgs' Hl']. by eapply loaded_unique. }
    rewrite (Hsame seat Hne). destruct (decide (stream_rows seat d = [])) as [Hs|Hs].
    + rewrite (bool_decide_eq_true_2 (stream_rows seat d = [])) by done.
      rewrite bool_decide_eq_false_2; [done|]. by intros ?%Hin.
    + rewrite (bool_decide_eq_false_2 (stream_rows seat d = [])) by done.
      rewrite bool_decide_eq_true_2 by by apply Hin.
      apply (rederived_fresh seat d1 msgs); [done|]. by rewrite Hsame.
Qed.

(** A row reads back as the seat it was folded from, with the deadline as the
    column keeps it and the zero time for none; a row whose status is not one of the
    two is refused, never taken for a free seat. *)
Theorem LoadAvailability_reads_back (o : oracle) (id : string) (w : world) :
  calm o -> (forall n, commit_fate o n = Committed) ->
  let '(r, w') := LoadAvailability o id w in
  w_db w' = w_db w /\
  match availability (w_db w) !! id with
  | None => r = Ok None
  | Some row =>
      (forall s, seat_wf s -> row = availability_of id s ->
         r = Ok (Some {| a_SeatID := id; a_Status := st_Status s; a_HoldID := st_HoldID s;
                         a_BookingID := st_BookingID s;
                         a_ExpiresAt := if IsZero (st_ExpiresAt s) then 0
                                        else timestamptz (st_ExpiresAt s);
                         a_Version := st_Version s |})) /\
      (av_status row <> "free" -> av_status row <> "held" -> is_ok r = false)
  end.
Proof.
  intros [Hf Ho] Hc. unfold LoadAvailability, pool_exec, availabilitySQL. rewrite Hf, Hc. simpl.
  rewrite !Ho. destruct (availability (w_db w) !! id) as [row|]; [|done].
  destruct (scan_availability row) as [a|e] eqn:E; simpl; (split; [by rewrite ?Ho|]); split.
  - intros s [Hs _] ->. unfold scan_availability in E. simpl in E.
    rewrite parse_Status_String in E by tauto. simpl in E. injection E as <-.
    do 3 f_equal. unfold deadline. by destruct (IsZero _).
  - intros H1 H2. exfalso. unfold scan_availability in E.
    destruct (parseStatus (av_status row)) as [s|] eqn:Ep; [|done].
    apply parseStatus_ok in Ep as [Ht [->| ->]]; rewrite Ht in *; done.
  - intros s [Hs _] ->. exfalso. unfold scan_availability in E. simpl in E.
    by rewrite parse_Status_String in E by tauto.
  - done.
Qed.

(** Browsing a flight.  For a prefix without [%], [_] or [\], the seats listed are
    exactly the held ones whose id starts with it, each once, in the collation's
    order. *)
Theorem HeldSeats_lists_the_flight `{PGL : !PostgresLaws} (o : oracle) (flight : string) (w : world) :
  calm o -> (forall n, commit_fate o n = Committed) -> plain flight = true ->
  (forall id r, availability (w_db w) !! id = Some r -> av_seat_id r = id) ->
  exists l w', HeldSeats o flight w = (Ok l, w') /\ NoDup l /\
    StronglySorted (fun x y => collate x y = true) l /\
    forall id, id ∈ l <->
      exists r, availability (w_db w) !! id = Some r /\ av_status r = "held" /\
        String.prefix flight id = true.
Proof.
  intros [Hf Ho] Hc Hp Hkey. unfold HeldSeats, pool_exec, heldSeatsSQL. rewrite Hf, Hc. simpl.
  rewrite !Ho. do 2 eexists. split; [reflexivity|]. set (rows := filter _ _).
  assert (forall kv, kv ∈ rows <-> availability (w_db w) !! kv.1 = Some kv.2 /\
    av_status kv.2 = "held" /\ String.prefix flight kv.1 = true) as Hin.
  { intros [k r]. unfold rows. rewrite list_elem_of_filter, elem_of_map_to_list. simpl.
    rewrite like_prefix by done. split; intros H; destruct H as [H1 H2].
    - rewrite (Hkey k r) in H1 by done. tauto.
    - rewrite (Hkey k r) by done. tauto. }
  assert (map (fun kv : string * availability_row => av_seat_id kv.2) rows = rows.*1) as ->.
  { apply list_fmap_ext. intros i [k r] Hi%list_elem_of_lookup_2. simpl.
    apply Hkey. by apply Hin in Hi as [? _]. }
  split_and!.
  - rewrite order_by_perm. eapply sublist_NoDup; [apply (NoDup_fst_map_to_list (availability (w_db w)))|].
    apply fmap_sublist, sublist_filter.
  - apply order_by_is_sorted; [apply collate_total|apply collate_trans].
  - intros id. rewrite elem_of_order_by, list_elem_of_fmap. split.
    + intros ([k r] & -> & H). apply Hin in H. simpl in *. eauto.
    + intros (r & H). exists (id, r). split; [done|]. by apply Hin.
Qed.
End properties.

(** ** Samples *)
Module Samples.
Import UnixTimestamps PlainPostgres NumberedJson Store.Samples.
Definition o : oracle := quiet 5000 (fun _ => "id").
Lemma o_calm_view : calm o.
Proof. done. Qed.
Definition row : availability_row := availability_of seat taken.

(** Another session takes the seat and projects it after the rebuild has listed
    the streams and before it clears the view. *)
Definition seat_taken (d : db) : db := apply_writes d [WEvent held_row; WAvailability row].
Definition busy : oracle :=
  {| fault := fun _ => None; commit_fate := fun _ => Committed;
     others := fun n _ d => if (n =? 2)%nat then seat_taken d else d;
     clock := fun _ => 5000; uuid := fun _ => "id" |}.
Definition view_with (r : availability_row) : db := apply_writes one_hold [WAvailability r].
Definition confirmed : availability_row :=
  {| av_seat_id := seat; av_status := "confirmed"; av_hold_id := ""; av_booking_id := "";
     av_expires_at := None; av_version := 1 |}.
End Samples.

Import UnixTimestamps PlainPostgres NumberedJson Store.Samples Samples.

(** The prefix is a pattern: an underscore in it matches any character. *)
Theorem HeldSeats_prefix_is_a_pattern :
  fst (HeldSeats o "seat_" (world_of (view_with row))) = Ok [seat] /\
  String.prefix "seat_" seat = false.
Proof. split; reflexivity. Qed.

(** ** Witnesses *)
Lemma Project_refreshes_witness :
  exists w', Project o seat (world_of one_hold) = (Ok tt, w') /\
    availability (w_db w') !! seat = Some (availability_of seat taken).
Proof.
  destruct (Project_refreshes o seat [held] taken (world_of one_hold) o_calm_view (fun _ => eq_refl)
    loaded_taken) as (w' & H1 & H2 & _).
  exists w'. split; [exact H1|exact H2].
Defined.

Lemma Rebuild_folds_every_stream_witness :
  exists w', Rebuild o (world_of one_hold) = (Ok tt, w') /\
    availability (w_db w') !! seat = Some (availability_of seat taken).
Proof.
  destruct (Rebuild_folds_every_stream o (world_of one_hold) o_calm_view (fun _ => eq_refl)
    one_hold_consistent) as (w' & H1 & _ & H2).
  exists w'. split; [exact H1|]. exact (H2 seat [held] taken loaded_taken).
Defined.

Lemma LoadAvailability_reads_back_witness :
  is_ok (fst (LoadAvailability o seat (world_of (view_with confirmed)))) = false.
Proof.
  pose proof (LoadAvailability_reads_back o seat (world_of (view_with confirmed)) o_calm_view
    (fun _ => eq_refl)) as H.
  destruct (LoadAvailability o seat (world_of (view_with confirmed))) as [r w'].
  destruct H as [_ [_ H]]. apply H; done.
Defined.

Lemma HeldSeats_lists_the_flight_witness :
  exists l w', HeldSeats o "seat-" (world_of (view_with row)) = (Ok l, w') /\ seat ∈ l.
Proof.
  destruct (HeldSeats_lists_the_flight o "seat-" (world_of (view_with row)) o_calm_view
    (fun _ => eq_refl) eq_refl) as (l & w' & H1 & _ & _ & H2).
  - intros id r. simpl. rewrite lookup_insert. case_decide; [|by rewrite lookup_empty].
    intros [= <-]. done.
  - exists l, w'. split; [exact H1|]. apply H2. exists row. split_and!; reflexivity.
Defined.

(** The seat is taken and projected after the rebuild has listed the streams. *)
Lemma Rebuild_can_lose_a_row_witness :
  exists w', Rebuild busy (world_of empty_db) = (Ok tt, w') /\ events (w_db w') = [held_row] /\
    Decode (row_event held_row) = Ok held /\ availability (w_db w') !! seat = None.
Proof.
  destruct (Rebuild_can_lose_a_row busy (world_of empty_db) seat_taken seat) as (w' & H1 & H2 & _ & H3 & _).
  - done.
  - done.
  - intros n L d. simpl. destruct (Nat.eqb_spec n 2) as [->|Hn]; [reflexivity|].
    by rewrite bool_decide_eq_false_2.
  - exact one_hold_consistent.
  - intros x Hx. change (filter (fun r => ev_stream_id r = x) [held_row] = []).
    rewrite filter_cons_False; [done|]. intros He. by apply Hx.
  - reflexivity.
  - discriminate.
  - exists w'. split; [exact H1|]. split; [exact H2|]. split; [|exact H3].
    assert (bool_decide (Decode (row_event held_row) = Ok held) = true) as H%bool_decide_eq_true
      by (vm_compute; reflexivity). exact H.
Defined.
