(* ===== verification/Kafka.v ===== *)
(** * Kafka ([internal/platform/kafka])

    [consumer.go]: a record is attempted with backoff, settled by success or by a
    dead letter, and only then marked; a batch leaves the rest of a stalled partition
    alone.  [producer.go], [admin.go]: messages to records, topic creation.

    franz-go, the clock and the context are the environment [E] with the operations
    of [Env]; the client is the list of the records marked for commit, of which the
    group commits the highest offset per partition.  Theorems: the retry budget, what
    settles a record, that within a batch no mark skips an unsettled record, what a
    dead letter carries, and that across batches a mark does skip one. *)
From S2P Require Import Prelude Envelope.

Definition ErrPermanent : err := ESentinel "permanent failure".
Definition RebalanceTimeout : Duration := 60 * Second.
Definition DefaultMaxAttempts : Z := 5.
Definition DefaultBaseBackoff : Duration := 100 * Millisecond.
Definition pollBatch : Z := 100.
Definition Partitions : Z := 6.

Record Record_ := {
  r_Topic : string;
  r_Key : string;
  r_Value : bytes;
  r_Headers : gmap string string;
  r_Partition : Z;
  r_Offset : Z;
}.

(** [kgo.Record]: the fields the code reads and writes. *)
Record kgo_Record := {
  kr_Topic : string;
  kr_Key : string;
  kr_Value : bytes;
  kr_Headers : list (string * string);
  kr_Partition : Z;
  kr_Offset : Z;
}.

#[global] Instance kgo_Record_eq_dec : EqDecision kgo_Record.
Proof. solve_decision. Defined.

Abbreviation topicPartition := (string * Z)%type (only parsing).
Definition partition_of (kr : kgo_Record) : topicPartition := (kr_Topic kr, kr_Partition kr).

Definition toRecord (kr : kgo_Record) : Record_ :=
  {| r_Topic := kr_Topic kr; r_Key := kr_Key kr; r_Value := kr_Value kr;
     r_Headers := foldl (fun h kv => <[kv.1 := kv.2]> h) ∅ (kr_Headers kr);
     r_Partition := kr_Partition kr; r_Offset := kr_Offset kr |}.

(** ** [producer.go]: the order in which a map is iterated is left open by Go. *)
Definition record (m : Message) : kgo_Record :=
  {| kr_Topic := msg_Topic m; kr_Key := msg_Key m; kr_Value := msg_Payload m;
     kr_Headers := map_to_list (msg_Headers m); kr_Partition := 0; kr_Offset := 0 |}.

(** The outside: the context, timers, randomness and a produced batch's first error. *)
Record Env (E : Type) := {
  ctx_Err : E -> bool;
  wait : Duration -> E -> bool * E;
  rand_Int64N : Z -> E -> Z * E;
  ProduceSync : list kgo_Record -> E -> res unit * E;
}.
Arguments ctx_Err {E}.
Arguments wait {E}.
Arguments rand_Int64N {E}.
Arguments ProduceSync {E}.

(** How a Go call ends: a value, a panic, or more steps than the fuel allows. *)
Inductive ran (A : Type) := Done (a : A) | Panicked | OutOfFuel.
Arguments Done {A} a.
Arguments Panicked {A}.
Arguments OutOfFuel {A}.

Section kafka.
Context {E : Type} (env : Env E).

Definition Handler : Type := Record_ -> E -> res unit * E.

Definition Publish (msgs : list Message) (e : E) : res unit * E :=
  if bool_decide (msgs = []) then (Ok tt, e)
  else
    let '(r, e) := ProduceSync env (record <$> msgs) e in
    (wrap_err (fun x => EWrap ("kafka: publish " +:+ Itoa (Z.of_nat (length msgs)) +:+
                               " records: " +:+ Error x)%string x) r, e).

(** [NewProducer] and [NewConsumer]; [newClient] is what [kgo.NewClient] returns. *)
Definition NewProducer (newClient : res unit) : res unit :=
  wrap_err (fun e => EWrap ("kafka: new producer: " +:+ Error e)%string e) newClient.

Record ConsumerConfig := {
  cfg_Brokers : list string;
  cfg_Group : string;
  cfg_Topics : list string;
  cfg_Handler : option Handler;
  cfg_DLQ : bool;
  cfg_MaxAttempts : Z;
  cfg_BaseBackoff : Duration;
}.

Definition NewConsumer (newClient : res unit) (cfg : ConsumerConfig) : res ConsumerConfig :=
  match cfg_Handler cfg with
  | None => Err (ENew "kafka: consumer needs a handler")
  | Some _ =>
      if bool_decide (cfg_Group cfg = "") then Err (ENew "kafka: consumer needs a group")
      else
        let cfg :=
          {| cfg_Brokers := cfg_Brokers cfg; cfg_Group := cfg_Group cfg;
             cfg_Topics := cfg_Topics cfg; cfg_Handler := cfg_Handler cfg; cfg_DLQ := cfg_DLQ cfg;
             cfg_MaxAttempts := if cfg_MaxAttempts cfg <=? 0 then DefaultMaxAttempts
                                else cfg_MaxAttempts cfg;
             cfg_BaseBackoff := if cfg_BaseBackoff cfg <=? 0 then DefaultBaseBackoff
                                else cfg_BaseBackoff cfg |} in
        match newClient with
        | Err e => Err (EWrap ("kafka: new consumer: " +:+ Error e)%string e)
        | Ok _ => Ok cfg
        end
  end.

Section consumer.
Context (handler : Handler) (dlq : bool) (maxAttempts : Z) (baseBackoff : Duration).

(** [rand.Int64N] panics unless its argument is positive. *)
Definition backoff (base : Duration) (attempt : Z) (e : E) : option (Duration * E) :=
  let d := int64 (Z.shiftl base (attempt - 1)) in
  if d <=? 0 then None
  else let '(x, e) := rand_Int64N env d e in Some (int64 (x + d), e).

(** The loop of [attempt] from its [n]-th turn; with the error come the number of
turns made and the waits taken. *)
Fixpoint attempt_from (fuel : nat) (n : Z) (waits : list Duration) (r : Record_) (e : E) :
  ran (res unit * Z * list Duration * E) :=
  match fuel with
  | O => OutOfFuel
  | S fuel =>
    match handler r e with
    | (Ok _, e) => Done (Ok tt, n, waits, e)
    | (Err x, e) =>
        if errors_Is x ErrPermanent || (maxAttempts <=? n) then Done (Err x, n, waits, e)
        else
          match backoff baseBackoff n e with
          | None => Panicked
          | Some (d, e) =>
              match wait env d e with
              | (true, e) => Done (Err x, n, waits ++ [d], e)
              | (false, e) => attempt_from fuel (n + 1) (waits ++ [d]) r e
              end
          end
    end
  end.

Definition attempt (r : Record_) (e : E) : ran (res unit * Z * list Duration * E) :=
  attempt_from (Z.to_nat maxAttempts) 1 [] r e.

Definition dead_letter (r : Record_) (cause : err) : Message :=
  {| msg_Topic := (r_Topic r +:+ ".dlq")%string; msg_Key := r_Key r; msg_Payload := r_Value r;
   msg_Headers :=
     <["sagaflow_dlq_error" := Error cause]>
       (<["sagaflow_dlq_offset" := Itoa (r_Offset r)]>
         (<["sagaflow_dlq_partition" := Itoa (r_Partition r)]>
           (<["sagaflow_dlq_topic" := r_Topic r]> (r_Headers r)))) |}.

Definition deadLetter (r : Record_) (cause : err) (e : E) : res unit * E :=
  if dlq then Publish [dead_letter r cause] e
  else (Err (EWrap ("kafka: no DLQ configured, cannot settle: " +:+ Error cause)%string cause), e).

(** [handle]: whether the record was marked. *)
Definition handle (kr : kgo_Record) (e : E) : ran (bool * E) :=
  let r := toRecord kr in
  match attempt r e with
  | Done (Ok _, _, _, e) => Done (true, e)
  | Done (Err x, _, _, e) =>
    if ctx_Err env e then Done (false, e)
    else
      match deadLetter r x e with
      | (Err _, e) => Done (false, e)
      | (Ok _, e) => Done (true, e)
      end
  | Panicked => Panicked
  | OutOfFuel => OutOfFuel
  end.

(** [handleBatch] from a set of stalled partitions; [marks] are the records marked
so far, latest last. *)
Fixpoint handle_records (stalled : list topicPartition) (marks : list kgo_Record)
  (batch : list kgo_Record) (e : E) : ran (list kgo_Record * E) :=
  match batch with
  | [] => Done (marks, e)
  | kr :: batch =>
    if bool_decide (partition_of kr ∈ stalled) then handle_records stalled marks batch e
    else
      match handle kr e with
      | Done (true, e) => handle_records stalled (marks ++ [kr]) batch e
      | Done (false, e) => handle_records (partition_of kr :: stalled) marks batch e
      | Panicked => Panicked
      | OutOfFuel => OutOfFuel
      end
  end.

Definition handleBatch (marks batch : list kgo_Record) (e : E) : ran (list kgo_Record * E) :=
  handle_records [] marks batch e.

(** [Run] against what its polls fetch: [None] is a closed client. *)
Fixpoint Run (polls : list (option (list kgo_Record))) (marks : list kgo_Record) (e : E) :
  ran (list kgo_Record * E) :=
  match polls with
  | [] => Done (marks, e)
  | None :: _ => Done (marks, e)
  | Some batch :: polls =>
    if ctx_Err env e then Done (marks, e)
    else
      match handleBatch marks batch e with
      | Done (marks, e) => Run polls marks e
      | Panicked => Panicked
      | OutOfFuel => OutOfFuel
      end
  end.
End consumer.

(** ** [admin.go]: [created] is the per-topic response of [CreateTopics]. *)
Definition TopicAlreadyExists : err := ESentinel "TOPIC_ALREADY_EXISTS".

Fixpoint first_create_error (created : list (string * option err)) : res unit :=
  match created with
  | [] => Ok tt
  | (topic, Some e) :: created =>
      if errors_Is e TopicAlreadyExists then first_create_error created
      else Err (EWrap ("kafka: create topic " +:+ topic +:+ ": " +:+ Error e)%string e)
  | (_, None) :: created => first_create_error created
  end.

Definition EnsureTopics (client : res unit) (response : res (list (string * option err))) : res unit :=
  _ ← wrap_err (fun e => EWrap ("kafka: admin client: " +:+ Error e)%string e) client;
  created ← wrap_err (fun e => EWrap ("kafka: create topics: " +:+ Error e)%string e) response;
  first_create_error created.
End kafka.

(** The offset the group commits for a partition: past the highest mark. *)
Definition committed_offset (tp : topicPartition) (marks : list kgo_Record) : Z :=
  foldr (fun kr m => if bool_decide (partition_of kr = tp) then Z.max (kr_Offset kr + 1) m else m)
    0 marks.

(** ** Lemmas *)
Lemma headers_of_list (l : list (string * string)) :
  NoDup l.*1 -> foldl (fun (h : gmap string string) kv => <[kv.1 := kv.2]> h) ∅ l = list_to_map l.
Proof.
  intros Hn. enough (forall m, foldl (fun (h : gmap string string) kv => <[kv.1 := kv.2]> h) m l =
    list_to_map l ∪ m) as H
    by by rewrite H, (right_id_L ∅ (∪)).
  induction l as [|[k v] l IH]; intros m; [simpl; by rewrite (left_id_L ∅ (∪))|].
  apply NoDup_cons in Hn as [Hk Hn]. cbn [foldl list_to_map fst snd]. rewrite IH by done.
  rewrite <- insert_union_r by by apply not_elem_of_list_to_map_1.
  by rewrite insert_union_l.
Qed.

Lemma toRecord_headers m : r_Headers (toRecord (record m)) = msg_Headers m.
Proof. simpl. rewrite headers_of_list by apply NoDup_fst_map_to_list. apply list_to_map_to_list. Qed.

(** Backoff that does not overflow: the [n]-th wait is in [[base * 2^(n-1), base * 2^n)]. *)
Section backoff_lemmas.
Context {E : Type} (env : Env E).
Context (rand_range : forall d e, 0 < d -> 0 <= fst (rand_Int64N env d e) < d).

Lemma backoff_range base n e :
  0 < base -> 1 <= n -> base * 2 ^ n < 2 ^ 63 ->
  exists d e', backoff env base n e = Some (d, e') /\ base * 2 ^ (n - 1) <= d < base * 2 ^ n.
Proof.
  intros Hb Hn Hmax. unfold backoff. rewrite Z.shiftl_mul_pow2 by lia.
  assert (2 ^ n = 2 * 2 ^ (n - 1)) as Hp.
  { rewrite <- Z.pow_succ_r by lia. f_equal. lia. }
  assert (0 < 2 ^ (n - 1)) as Hp0 by (apply Z.pow_pos_nonneg; lia).
  set (D := base * 2 ^ (n - 1)) in *. assert (0 < D) as HD by (unfold D; nia).
  assert (base * 2 ^ n = 2 * D) as H2 by (unfold D; rewrite Hp; lia).
  rewrite int64_small by lia. assert ((D <=? 0) = false) as -> by lia.
  pose proof (rand_range D e HD) as Hr. destruct (rand_Int64N env D e) as [x e']. simpl in Hr.
  exists (x + D), e'. rewrite int64_small by lia. split; [done|lia].
Qed.
End backoff_lemmas.

Section doubling.
Context (base : Duration).

(** The waits of the first turns: the [k]-th of them, from 0, is within its bounds. *)
Definition doubling (waits : list Duration) : Prop :=
  forall k d, waits !! k = Some d -> base * 2 ^ Z.of_nat k <= d < base * 2 ^ (Z.of_nat k + 1).

Lemma doubling_snoc waits d :
  doubling waits ->
  base * 2 ^ Z.of_nat (length waits) <= d < base * 2 ^ (Z.of_nat (length waits) + 1) ->
  doubling (waits ++ [d]).
Proof.
  intros Hw Hd k x Hk. apply lookup_app_Some in Hk as [Hk|[Hlen Hk]]; [by apply Hw|].
  destruct (k - length waits)%nat as [|j] eqn:Ej; [|done]. simpl in Hk. injection Hk as <-.
  by replace k with (length waits) by lia.
Qed.

Lemma doubling_sum waits :
  doubling waits -> foldr Z.add 0 waits <= 2 * base * (2 ^ Z.of_nat (length waits) - 1).
Proof.
  induction waits as [|d waits IH] using rev_ind; intros Hw; [simpl; lia|].
  assert (doubling waits) as Hw'.
  { intros k x Hk. apply Hw. by apply lookup_app_l_Some. }
  specialize (IH Hw'). rewrite foldr_snoc, foldr_Zadd, length_app. simpl.
  destruct (Hw (length waits) d) as [_ Hd]; [by rewrite list_lookup_middle|].
  replace (Z.of_nat (length waits + 1)) with (Z.of_nat (length waits) + 1) by lia.
  rewrite Z.pow_add_r in * by lia. lia.
Qed.
End doubling.

Section attempt_lemmas.
Context {E : Type} (env : Env E) (handler : Handler (E := E)) (maxAttempts : Z) (base : Duration).
Context (rand_range : forall d e, 0 < d -> 0 <= fst (rand_Int64N env d e) < d).
Context (Hmax : 1 <= maxAttempts) (Hbase : 0 < base) (Hfit : base * 2 ^ maxAttempts < 2 ^ 63).

(** How an attempt ends. *)
Definition spent (res : res unit) (n : Z) (waits : list Duration) : Prop :=
  1 <= n <= maxAttempts /\ doubling base waits /\ (length waits < Z.to_nat maxAttempts)%nat /\
  match res with
  | Ok _ => Z.of_nat (length waits) = n - 1
  | Err x =>
      (Z.of_nat (length waits) = n - 1 /\ (errors_Is x ErrPermanent = true \/ n = maxAttempts)) \/
      (Z.of_nat (length waits) = n /\ errors_Is x ErrPermanent = false)
  end.

Lemma attempt_from_spent fuel n waits r e :
  1 <= n -> n + Z.of_nat fuel = maxAttempts + 1 -> Z.of_nat (length waits) = n - 1 -> (0 < fuel)%nat ->
  doubling base waits ->
  exists res n' waits' e', attempt_from env handler maxAttempts base fuel n waits r e =
    Done (res, n', waits', e') /\ spent res n' waits'.
Proof.
  revert n waits e. induction fuel as [|fuel IH]; intros n waits e Hn Hf Hl H0 Hw; [lia|].
  cbn [attempt_from]. destruct (handler r e) as [[[]|x] e1].
  { do 4 eexists. split; [reflexivity|]. split_and!; [lia|lia|exact Hw|lia|lia]. }
  destruct (errors_Is x ErrPermanent) eqn:Hp.
  { do 4 eexists. split; [reflexivity|]. split_and!; [lia|lia|exact Hw|lia|]. left. auto. }
  destruct (maxAttempts <=? n) eqn:Hm.
  { do 4 eexists. split; [reflexivity|]. split_and!; [lia|lia|exact Hw|lia|]. left. split; [lia|].
    right. lia. }
  cbn [orb].
  assert (base * 2 ^ n < 2 ^ 63) as Hfit'.
  { pose proof (Z.pow_le_mono_r 2 n maxAttempts). nia. }
  destruct (backoff_range env rand_range base n e1) as (d & e2 & -> & Hd); [lia..|].
  assert (doubling base (waits ++ [d])) as Hw2.
  { apply doubling_snoc; [done|]. rewrite Hl. by replace (n - 1 + 1) with n by lia. }
  assert (length (waits ++ [d]) = S (length waits)) as Hl2 by (rewrite length_app; simpl; lia).
  destruct (wait env d e2) as [[] e3].
  { do 4 eexists. split; [reflexivity|]. split_and!; [lia|lia|exact Hw2|lia|]. right. split; [lia|done]. }
  apply IH; [lia..|done].
Qed.
End attempt_lemmas.

(** ** Lemmas: a batch *)
Section batch_lemmas.
Context {E : Type} (env : Env E) (handler : Handler (E := E)) (dlq : bool).
Context (maxAttempts : Z) (base : Duration).

(** A record is settled from state [e]: its handler succeeded, or it failed, the
    context was live, and the broker took its dead letter. *)
Definition settled (kr : kgo_Record) (e : E) : Prop :=
  exists r n waits e1, attempt env handler maxAttempts base (toRecord kr) e = Done (r, n, waits, e1) /\
    match r with
    | Ok _ => True
    | Err x =>
        ctx_Err env e1 = false /\ dlq = true /\
        fst (Publish env [dead_letter (toRecord kr) x] e1) = Ok tt
    end.

Lemma handle_settled kr e b e' :
  handle env handler dlq maxAttempts base kr e = Done (b, e') -> b = true <-> settled kr e.
Proof.
  unfold handle, settled.
  destruct (attempt _ _ _ _ _ e) as [[[[r n] waits] e1]| |] eqn:Ea; [|done|done].
  destruct r as [u|x].
  { intros [= <- <-]. split; [|done]. intros _. by do 4 eexists. }
  destruct (ctx_Err env e1) eqn:Hc.
  { intros [= <- <-]. split; [done|]. intros (r & n' & w' & e2 & [= <- <- <- <-] & H).
    destruct H. congruence. }
  unfold deadLetter. destruct dlq.
  - destruct (Publish env _ e1) as [[[]|y] e2] eqn:Ep; intros [= <- <-]; (split; [|]); try done.
    + intros _. do 4 eexists. split; [reflexivity|]. simpl. by rewrite Ep.
    + intros (r & n' & w' & e3 & [= <- <- <- <-] & _ & _ & H). by rewrite Ep in H.
  - intros [= <- <-]. split; [done|]. intros (r & n' & w' & e3 & [= <- <- <- <-] & _ & H & _). done.
Qed.

Definition of_partition (tp : topicPartition) (l : list kgo_Record) : list kgo_Record :=
  filter (fun kr => partition_of kr = tp) l.

Lemma handle_records_prefix stalled marks batch e marks' e' :
  handle_records env handler dlq maxAttempts base stalled marks batch e = Done (marks', e') ->
  exists new, marks' = marks ++ new /\
    (forall tp, of_partition tp new `prefix_of` of_partition tp batch) /\
    (forall tp, tp ∈ stalled -> of_partition tp new = []) /\
    (forall kr, kr ∈ new -> exists e0, settled kr e0).
Proof.
  revert stalled marks e. induction batch as [|kr batch IH]; intros stalled marks e; simpl.
  { intros [= <- <-]. exists []. rewrite app_nil_r. split_and!; try done.
    by intros kr ?%elem_of_nil. }
  assert (forall tp new, of_partition tp new `prefix_of` of_partition tp batch ->
    tp <> partition_of kr -> of_partition tp new `prefix_of` of_partition tp (kr :: batch)) as Hskip.
  { intros tp new H Hne. unfold of_partition in *. by rewrite filter_cons_False by congruence. }
  case_bool_decide as Hst.
  - intros H. apply IH in H as (new & -> & H1 & H2 & H3). exists new. split_and!; try done.
    intros tp. destruct (decide (tp = partition_of kr)) as [->|Hne]; [|by apply Hskip].
    rewrite H2 by done. apply prefix_nil.
  - destruct (handle env handler dlq maxAttempts base kr e) as [[[] e1]| |] eqn:Eh; [| |done|done].
    + intros H. apply IH in H as (new & -> & H1 & H2 & H3). exists (kr :: new).
      rewrite <- app_assoc. split_and!; [done| | |].
      * intros tp. unfold of_partition in *. destruct (decide (partition_of kr = tp)).
        -- rewrite !filter_cons_True by done. by apply prefix_cons.
        -- rewrite !filter_cons_False by done. apply H1.
      * intros tp Htp. unfold of_partition in *. rewrite filter_cons_False; [by apply H2|].
        intros <-. done.
      * intros x [->|Hx]%elem_of_cons; [|by apply H3]. exists e.
        by apply (handle_settled kr e true e1).
    + intros H. apply IH in H as (new & -> & H1 & H2 & H3). exists new. split_and!; [done| |set_solver|done].
      intros tp. destruct (decide (tp = partition_of kr)) as [->|Hne]; [|by apply Hskip].
      rewrite H2 by by left. apply prefix_nil.
Qed.

(** What the handler and the outside keep. *)
Record kept (S : E -> Prop) : Prop := {
  handler_keeps r e : S e -> S (snd (handler r e));
  wait_keeps d e : S e -> S (snd (wait env d e));
  rand_keeps d e : S e -> S (snd (rand_Int64N env d e));
  produce_keeps ms e : S e -> S (snd (ProduceSync env ms e));
}.

Lemma attempt_keeps (S : E -> Prop) fuel n waits r e res n' waits' e' :
  kept S -> attempt_from env handler maxAttempts base fuel n waits r e = Done (res, n', waits', e') ->
  S e -> S e'.
Proof.
  intros HS. revert n waits e. induction fuel as [|fuel IH]; intros n waits e; [done|]. cbn [attempt_from].
  intros Ha He. pose proof (handler_keeps S HS r e He) as H1. destruct (handler r e) as [[u|x] e1].
  { by injection Ha as _ _ _ <-. }
  destruct (_ || _); [by injection Ha as _ _ _ <-|]. unfold backoff in Ha.
  destruct (_ <=? 0); [done|]. pose proof (fun d => rand_keeps S HS d e1 H1) as H2.
  match type of Ha with context [rand_Int64N env ?d e1] => specialize (H2 d) end.
  destruct (rand_Int64N env _ e1) as [y e2]. simpl in H2.
  match type of Ha with context [wait env ?d e2] => pose proof (wait_keeps S HS d e2 H2) as H3 end.
  destruct (wait env _ e2) as [[] e3]; [by injection Ha as _ _ _ <-|]. by eapply IH.
Qed.

Lemma attempt_succeeds fuel n waits r e u n' waits' e' :
  attempt_from env handler maxAttempts base fuel n waits r e = Done (Ok u, n', waits', e') ->
  exists e0, handler r e0 = (Ok tt, e').
Proof.
  revert n waits e. induction fuel as [|fuel IH]; intros n waits e; [done|]. cbn [attempt_from].
  destruct (handler r e) as [[[]|x] e1] eqn:Eh; [intros [= _ _ _ <-]; by exists e|].
  destruct (_ || _); [done|]. destruct (backoff _ _ _ e1) as [[d e2]|]; [|done].
  destruct (wait env d e2) as [[] e3]; [done|]. apply IH.
Qed.

Lemma handle_keeps (S : E -> Prop) kr e b e' :
  kept S -> handle env handler dlq maxAttempts base kr e = Done (b, e') -> S e -> S e'.
Proof.
  intros HS. unfold handle. destruct (attempt _ _ _ _ _ e) as [[[[r n] waits] e1]| |] eqn:Ea; [|done..].
  intros H He. pose proof (attempt_keeps S _ _ _ _ _ _ _ _ _ HS Ea He) as H1. destruct r as [u|x].
  { by injection H as _ <-. }
  destruct (ctx_Err env e1); [by injection H as _ <-|]. unfold deadLetter, Publish in H.
  destruct dlq; [|by injection H as _ <-]. simpl in H.
  pose proof (produce_keeps S HS [record (dead_letter (toRecord kr) x)] e1 H1) as H2.
  destruct (ProduceSync env _ e1) as [[[]|y] e2]; by injection H as _ <-.
Qed.

(** A marked record was handled, or its dead letter was taken, in a state from which the
    batch went on to its last. *)
Definition handled (kr : kgo_Record) (e' : E) : Prop :=
  (exists e1 e2, handler (toRecord kr) e1 = (Ok tt, e2) /\
     forall S : E -> Prop, kept S -> S e2 -> S e') \/
  (dlq = true /\ exists x e1 e2, Publish env [dead_letter (toRecord kr) x] e1 = (Ok tt, e2) /\
     forall S : E -> Prop, kept S -> S e2 -> S e').

Lemma handle_handles kr e e' :
  handle env handler dlq maxAttempts base kr e = Done (true, e') -> handled kr e'.
Proof.
  unfold handle, handled. destruct (attempt _ _ _ _ _ e) as [[[[r n] waits] e1]| |] eqn:Ea; [|done..].
  destruct r as [u|x].
  { intros [= <-]. left. apply attempt_succeeds in Ea as [e0 He]. by exists e0, e1. }
  destruct (ctx_Err env e1); [done|]. unfold deadLetter. destruct dlq; [|done].
  destruct (Publish env _ e1) as [[[]|y] e2] eqn:Ep; [|done]. intros [= <-]. right. split; [done|].
  by exists x, e1, e2.
Qed.

Lemma handled_later kr e e' :
  (forall S : E -> Prop, kept S -> S e -> S e') -> handled kr e -> handled kr e'.
Proof.
  intros H [(e1 & e2 & H1 & H2)|(Hd & x & e1 & e2 & H1 & H2)]; [left; exists e1, e2|right];
    (split; [done|]); [|exists x, e1, e2; split; [done|]]; intros S HS HS2; by apply H, H2.
Qed.

Lemma batch_keeps (S : E -> Prop) stalled marks batch e marks' e' :
  kept S -> handle_records env handler dlq maxAttempts base stalled marks batch e = Done (marks', e') ->
  S e -> S e'.
Proof.
  intros HS. revert stalled marks e. induction batch as [|kr batch IH]; intros stalled marks e; simpl.
  { by intros [= _ <-]. }
  case_bool_decide; [by apply IH|].
  destruct (handle env handler dlq maxAttempts base kr e) as [[[] e1]| |] eqn:Eh; [| |done..];
    intros H1 He; (eapply IH; [exact H1|by eapply handle_keeps]).
Qed.

Lemma batch_handles stalled marks batch e marks' e' :
  handle_records env handler dlq maxAttempts base stalled marks batch e = Done (marks', e') ->
  exists new, marks' = marks ++ new /\ Forall (fun kr => handled kr e') new.
Proof.
  revert stalled marks e. induction batch as [|kr batch IH]; intros stalled marks e; simpl.
  { intros [= <- <-]. exists []. by rewrite app_nil_r. }
  case_bool_decide; [by apply IH|].
  destruct (handle env handler dlq maxAttempts base kr e) as [[[] e1]| |] eqn:Eh; [| |done..].
  - intros H1. pose proof H1 as (new & -> & Hnew)%IH. exists (kr :: new). rewrite <- app_assoc.
    split; [done|]. constructor; [|done]. eapply handled_later; [|by eapply handle_handles].
    intros S HS. by eapply batch_keeps.
  - apply IH.
Qed.

(** A batch in two parts: of what the first leaves stalled, only its own partitions are new. *)
Lemma handle_records_app stalled marks batch1 batch2 e marks1 e1 :
  handle_records env handler dlq maxAttempts base stalled marks batch1 e = Done (marks1, e1) ->
  exists stalled1,
    handle_records env handler dlq maxAttempts base stalled marks (batch1 ++ batch2) e =
    handle_records env handler dlq maxAttempts base stalled1 marks1 batch2 e1 /\
    forall tp, tp ∈ stalled1 -> tp ∈ stalled \/ exists kr, kr ∈ batch1 /\ partition_of kr = tp.
Proof.
  revert stalled marks e. induction batch1 as [|kr batch1 IH]; intros stalled marks e; simpl.
  { intros [= -> ->]. exists stalled. split; [done|]. by left. }
  case_bool_decide as Hst; [|destruct (handle _ _ _ _ _ kr e) as [[[] e2]| |]; [| |done..]];
    intros (stalled1 & Heq & Hs)%IH; exists stalled1; (split; [exact Heq|]); intros tp Htp;
    specialize (Hs tp Htp); set_solver.
Qed.

(** The first record of its partition is handled, whatever comes before it. *)
Lemma handle_records_reaches marks pre kr post e marks1 e1 :
  Forall (fun z => partition_of z <> partition_of kr) pre ->
  handleBatch env handler dlq maxAttempts base marks pre e = Done (marks1, e1) ->
  exists stalled, handleBatch env handler dlq maxAttempts base marks (pre ++ kr :: post) e =
    match handle env handler dlq maxAttempts base kr e1 with
    | Done (true, e2) => handle_records env handler dlq maxAttempts base stalled (marks1 ++ [kr]) post e2
    | Done (false, e2) =>
        handle_records env handler dlq maxAttempts base (partition_of kr :: stalled) marks1 post e2
    | Panicked => Panicked
    | OutOfFuel => OutOfFuel
    end.
Proof.
  intros Hpre (stalled & Heq & Hs)%(handle_records_app [] marks pre (kr :: post)). exists stalled.
  unfold handleBatch. rewrite Heq. simpl. rewrite bool_decide_eq_false_2; [done|].
  intros [?%elem_of_nil|(z & Hz & Hp)]%Hs; [done|]. rewrite Forall_forall in Hpre. by apply (Hpre z).
Qed.

Lemma marked_was_fetched stalled marks batch e marks' e' kr :
  handle_records env handler dlq maxAttempts base stalled marks batch e = Done (marks', e') ->
  kr ∈ marks' -> kr ∈ marks \/ kr ∈ batch.
Proof.
  intros (new & -> & Hp & _)%handle_records_prefix [?|Hn]%elem_of_app; [by left|right].
  destruct (Hp (partition_of kr)) as [l Hl].
  assert (kr ∈ of_partition (partition_of kr) batch) as H; [|by apply list_elem_of_filter in H as [_ ?]].
  rewrite Hl. apply elem_of_app. left. by apply list_elem_of_filter.
Qed.

Section total.
Context (rand_range : forall d e, 0 < d -> 0 <= fst (rand_Int64N env d e) < d).
Context (Hmax : 1 <= maxAttempts) (Hbase : 0 < base) (Hfit : base * 2 ^ maxAttempts < 2 ^ 63).

Lemma handle_ends kr e : exists b e', handle env handler dlq maxAttempts base kr e = Done (b, e').
Proof.
  unfold handle, attempt.
  destruct (attempt_from_spent env handler maxAttempts base rand_range Hmax Hbase Hfit
    (Z.to_nat maxAttempts) 1 [] (toRecord kr) e) as ([u|x] & n & waits & e1 & -> & _);
    [lia|lia|done|lia|by intros k d|by do 2 eexists|].
  destruct (ctx_Err env e1); [by do 2 eexists|].
  destruct (deadLetter env dlq _ x e1) as [[u|y] e2]; by do 2 eexists.
Qed.

Lemma handle_records_ends stalled marks batch e :
  exists marks' e', handle_records env handler dlq maxAttempts base stalled marks batch e = Done (marks', e').
Proof.
  revert stalled marks e. induction batch as [|kr batch IH]; intros stalled marks e; simpl; [by do 2 eexists|].
  case_bool_decide; [apply IH|]. destruct (handle_ends kr e) as ([] & e1 & ->); apply IH.
Qed.
(** The first record of its partition in a batch: it is marked if and only if it is settled
    from the state in which those before it leave the outside. *)
Lemma first_of_partition marks pre kr post e :
  Forall (fun z => partition_of z <> partition_of kr) pre ->
  (kr ∉ marks ++ pre ++ post) ->
  exists m0 e0 m1 e1, handleBatch env handler dlq maxAttempts base marks pre e = Done (m0, e0) /\
    handleBatch env handler dlq maxAttempts base marks (pre ++ kr :: post) e = Done (m1, e1) /\
    (settled kr e0 <-> kr ∈ m1).
Proof.
  intros Hpre Hnew. rewrite !elem_of_app in Hnew.
  destruct (handle_records_ends [] marks pre e) as (m0 & e0 & H0).
  destruct (handle_records_reaches marks pre kr post e m0 e0 Hpre H0) as (st & H1).
  destruct (handle_ends kr e0) as (b & e2 & Eb). pose proof (handle_settled kr e0 b e2 Eb) as Hs.
  rewrite Eb in H1. exists m0, e0. destruct b.
  - destruct (handle_records_ends st (m0 ++ [kr]) post e2) as (m1 & e1 & H2). exists m1, e1.
    split; [exact H0|]. split; [by rewrite H1, H2|]. split; [intros _|intros _; by apply Hs].
    apply handle_records_prefix in H2 as (new & -> & _). rewrite !elem_of_app. left. right. by left.
  - destruct (handle_records_ends (partition_of kr :: st) m0 post e2) as (m1 & e1 & H2). exists m1, e1.
    split; [exact H0|]. split; [by rewrite H1, H2|]. split; [intros H; by apply Hs in H|].
    intros [Hm|?]%(marked_was_fetched _ _ _ _ _ _ _ H2); [|tauto].
    apply (marked_was_fetched _ _ _ _ _ _ _ H0) in Hm. tauto.
Qed.
End total.
End batch_lemmas.

Lemma committed_past kr marks :
  kr ∈ marks -> kr_Offset kr < committed_offset (partition_of kr) marks.
Proof.
  induction marks as [|z marks IH]; [by intros ?%elem_of_nil|]. simpl.
  intros [<-|Hkr]%elem_of_cons; [rewrite bool_decide_eq_true_2 by done; lia|].
  specialize (IH Hkr). case_bool_decide; lia.
Qed.

(** ** Properties *)
Section properties.
Context {E : Type} (env : Env E) (handler : Handler (E := E)).


(** Offsets advance only over settled records, in order.  Whatever the handler and
    the broker do, of every partition the records a batch marks are the first ones it
    fetched, without a gap; each of them was settled: its handler succeeded, or the
    broker took its dead letter; and nothing marked before is unmarked. *)
Theorem batch_marks_settled_prefix (dlq : bool) (maxAttempts : Z) (base : Duration)
    (marks batch : list kgo_Record) (e : E) marks' e' :
  handleBatch env handler dlq maxAttempts base marks batch e = Done (marks', e') ->
  exists new, marks' = marks ++ new /\
    (forall tp, of_partition tp new `prefix_of` of_partition tp batch) /\
    (forall kr, kr ∈ new -> exists e0, settled env handler dlq maxAttempts base kr e0).
Proof.
  intros H. apply handle_records_prefix in H as (new & H1 & H2 & _ & H3). by exists new.
Qed.
End properties.

(** A dead letter replays.  Produced and consumed again, it has the key and the
    value of the record that failed, the topic of its queue, its provenance, the text
    of the cause, and every other header as it was. *)
Theorem dead_letter_keeps_the_record (r : Record_) (cause : err) :
  let r' := toRecord (record (dead_letter r cause)) in
  r_Key r' = r_Key r /\ r_Value r' = r_Value r /\ r_Topic r' = (r_Topic r +:+ ".dlq")%string /\
  r_Headers r' !! "sagaflow_dlq_topic" = Some (r_Topic r) /\
  r_Headers r' !! "sagaflow_dlq_partition" = Some (Itoa (r_Partition r)) /\
  r_Headers r' !! "sagaflow_dlq_offset" = Some (Itoa (r_Offset r)) /\
  r_Headers r' !! "sagaflow_dlq_error" = Some (Error cause) /\
  (forall k, String.prefix "sagaflow_dlq_" k = false -> r_Headers r' !! k = r_Headers r !! k).
Proof.
  cbv zeta. rewrite toRecord_headers. unfold dead_letter; simpl. split_and!; try done.
  - by do 3 (rewrite lookup_insert_ne by done); rewrite lookup_insert_eq.
  - by do 2 (rewrite lookup_insert_ne by done); rewrite lookup_insert_eq.
  - by rewrite lookup_insert_ne, lookup_insert_eq.
  - by rewrite lookup_insert_eq.
  - intros k Hk. rewrite !lookup_insert_ne; [done|..]; intros <-; discriminate Hk.
Qed.

(** C34: across batches a mark does skip an unsettled record.  Let [x] be the first record of
    its partition in a batch, and not settled: its handling has failed, and so has its dead
    letter.  Let [y] be the first record of that partition in the next batch, at a higher
    offset.  Both batches are handled to their ends; and if [y] is settled, then [Run] has
    marked [y], has not marked [x], and the group commits an offset past [x], so that [x]
    is not delivered again. *)
Theorem Run_commits_past_an_unsettled_record {E : Type} (env : Env E) (handler : Handler (E := E))
    (dlq : bool) (maxAttempts : Z) (base : Duration) (marks pre1 post1 pre2 post2 : list kgo_Record)
    (x y : kgo_Record) (e : E) :
  let run := handleBatch env handler dlq maxAttempts base in
  let is_settled := settled env handler dlq maxAttempts base in
  (forall d e, 0 < d -> 0 <= fst (rand_Int64N env d e) < d) ->
  1 <= maxAttempts -> 0 < base -> base * 2 ^ maxAttempts < 2 ^ 63 ->
  (forall e, ctx_Err env e = false) ->
  NoDup (marks ++ (pre1 ++ x :: post1) ++ (pre2 ++ y :: post2)) ->
  partition_of y = partition_of x -> kr_Offset x < kr_Offset y ->
  Forall (fun z => partition_of z <> partition_of x) pre1 ->
  Forall (fun z => partition_of z <> partition_of x) pre2 ->
  exists m0 e0, run marks pre1 e = Done (m0, e0) /\
    (~ is_settled x e0 ->
     exists m1 e1 m2 e2, run marks (pre1 ++ x :: post1) e = Done (m1, e1) /\
       run m1 pre2 e1 = Done (m2, e2) /\
       (is_settled y e2 ->
        exists marks' e', Run env handler dlq maxAttempts base
            [Some (pre1 ++ x :: post1); Some (pre2 ++ y :: post2)] marks e = Done (marks', e') /\
          (x ∉ marks') /\ y ∈ marks' /\ kr_Offset x < committed_offset (partition_of x) marks')).
Proof.
  intros run is_settled Hrand Hmax Hbase Hfit Hctx Hnd Hpart Hoff Hpre1 Hpre2.
  rewrite <- Hpart in Hpre2. repeat rewrite ?NoDup_app, ?NoDup_cons in Hnd.
  destruct (first_of_partition env handler dlq maxAttempts base Hrand Hmax Hbase Hfit marks pre1 x post1 e Hpre1)
    as (m0 & e0 & m1 & e1 & H0 & H1 & Hx); [set_solver|].
  assert (forall z, z ∈ m1 -> z ∈ marks \/ z ∈ pre1 ++ x :: post1) as Hm1
    by (intros z; apply (marked_was_fetched _ _ _ _ _ _ _ _ _ _ _ _ H1)).
  exists m0, e0. split; [exact H0|]. intros Hxs. exists m1, e1.
  destruct (first_of_partition env handler dlq maxAttempts base Hrand Hmax Hbase Hfit m1 pre2 y post2 e1 Hpre2)
    as (m2 & e2 & marks' & e' & H2 & H3 & Hy); [set_solver|].
  exists m2, e2. split; [exact H1|]. split; [exact H2|]. intros Hys. apply Hy in Hys.
  exists marks', e'. split; [cbn [Run]; by rewrite Hctx, H1, Hctx, H3|]. split; [|split; [exact Hys|]].
  - intros Hm. apply (marked_was_fetched _ _ _ _ _ _ _ _ _ _ _ _ H3) in Hm. set_solver.
  - pose proof (committed_past y marks' Hys) as Hc. rewrite Hpart in Hc. lia.
Qed.

(** ** Samples *)
Module Samples.
(** The environment counts the batches the broker is handed, and refuses the first. *)
Definition env : Env nat :=
  {| ctx_Err := fun _ => false; wait := fun _ e => (false, e); rand_Int64N := fun _ e => (0, e);
     ProduceSync := fun _ e => (if (e =? 0)%nat then Err (ENew "broker down") else Ok tt, S e) |}.
Definition kr (offset : Z) : kgo_Record :=
  {| kr_Topic := "inventory.commands"; kr_Key := "seat-1"; kr_Value := [];
     kr_Headers := []; kr_Partition := 0; kr_Offset := offset |}.
(** Fails for good on the first record only. *)
Definition handler : Handler (E := nat) := fun r e =>
  if r_Offset r =? 7 then (Err (EWrap "permanent failure: bad" ErrPermanent), e) else (Ok tt, e).
Lemma rand_range d e : 0 < d -> 0 <= fst (rand_Int64N env d e) < d.
Proof. simpl. lia. Qed.
End Samples.

Import Samples.

(** The default budget is between 1.5 and 3 seconds of waiting. *)
Theorem default_budget_fits (E : Type) (env : Env E) (h : Handler) (r : Record_) (e : E) :
  (forall d e, 0 < d -> 0 <= fst (rand_Int64N env d e) < d) ->
  exists res n waits e',
    attempt env h DefaultMaxAttempts DefaultBaseBackoff r e = Done (res, n, waits, e') /\
    foldr Z.add 0 waits <= 3 * Second < RebalanceTimeout.
Proof.
  intros Hrand.
  destruct (attempt_from_spent env h DefaultMaxAttempts DefaultBaseBackoff Hrand)
    with 5%nat 1 (@nil Duration) r e as (res & n & waits & e' & Ea & Hn & Hd & Hl & _);
    try (unfold DefaultMaxAttempts, DefaultBaseBackoff, Millisecond; simpl; lia).
  { by intros k d. }
  exists res, n, waits, e'. split; [exact Ea|]. pose proof (doubling_sum _ waits Hd) as Hs.
  assert (2 ^ Z.of_nat (length waits) <= 2 ^ 4) as Hp
    by (apply Z.pow_le_mono_r; [lia|]; change (Z.to_nat DefaultMaxAttempts) with 5%nat in Hl; lia).
  unfold DefaultBaseBackoff, RebalanceTimeout, Second, Millisecond in *. lia.
Qed.


Lemma batch_marks_settled_prefix_witness :
  exists new, [kr 5; kr 6] = [] ++ new /\
    of_partition ("inventory.commands", 0) new `prefix_of`
      of_partition ("inventory.commands", 0) [kr 5; kr 6; kr 7; kr 8].
Proof.
  destruct (batch_marks_settled_prefix env handler true 5 100 [] [kr 5; kr 6; kr 7; kr 8] 0%nat
    [kr 5; kr 6] 1%nat) as (new & H1 & H2 & _); [reflexivity|].
  exists new. split; [exact H1|apply H2].
Defined.

(** Record 7 fails, its dead letter is refused; the next poll's record 8 succeeds. *)
Lemma Run_commits_past_an_unsettled_record_witness :
  exists e', Run env handler true DefaultMaxAttempts DefaultBaseBackoff
      [Some [kr 7]; Some [kr 8]] [] 0%nat = Done ([kr 8], e') /\
    (kr 7 ∉ [kr 8]) /\ 7 < committed_offset (partition_of (kr 7)) [kr 8].
Proof.
  destruct (Run_commits_past_an_unsettled_record env handler true DefaultMaxAttempts DefaultBaseBackoff
    [] [] [] [] [] (kr 7) (kr 8) 0%nat rand_range) as (m0 & e0 & H0 & H); try done.
  - apply (bool_decide_unpack _). vm_compute. exact I.
  - injection H0 as <- <-. destruct H as (m1 & e1 & m2 & e2 & H1 & H2 & H).
    { intros (r & n & w & e1 & H & Hs). vm_compute in H. injection H as <- <- <- <-.
      destruct Hs as (_ & _ & Hs). vm_compute in Hs. discriminate Hs. }
    vm_compute in H1. injection H1 as <- <-. vm_compute in H2. injection H2 as <- <-.
    destruct H as (marks' & e' & Hr & Hx & Hy & Ho).
    { exists (Ok tt), 1, [], 1%nat. split; [reflexivity|exact I]. }
    assert (marks' = [kr 8]) as -> by (vm_compute in Hr; injection Hr as <- _; reflexivity).
    exists e'. split; [exact Hr|]. split; [exact Hx|exact Ho].
Defined.
