(* ===== verification/Consumers.v ===== *)
(** * Consumers ([internal/inventory/consumers.go])

    The two record handlers of the service, over the environment in which the
    database is the state: commands are parsed, decoded and applied; events only
    name the seat whose row is re-derived.  Theorems: which failures are permanent
    and touch nothing, that a projection never looks at the payload, and that a
    stored event of an unknown type is not one of the permanent failures. *)
From S2P Require Import Prelude Kafka Contracts Envelope Database EventStore Inbox Codec Seat Store Commands Projection.

Definition ProjectionConsumer : string := "inventory.projection".

Section consumers.
Context `{TS : Timestamppb} `{PG : Postgres} `{PJ : !Protojson} `{EN : !Encoder}.

(** [Decoder] reads a framed message off the wire. *)
Class Decoder := Decoder_Decode : bytes -> res message.

Context `{DE : Decoder} (o : oracle).

(** [fmt.Errorf("%w: %v", kafka.ErrPermanent, err)]: only the first verb wraps. *)
Definition permanent (e : err) : err :=
  EWrap (Error Kafka.ErrPermanent +:+ ": " +:+ Error e)%string Kafka.ErrPermanent.

Definition Commands : Kafka.Handler (E := world) := fun r w =>
  match Parse (Kafka.r_Headers r) with
  | Err e => (Err (permanent e), w)
  | Ok incoming =>
      match Decoder_Decode (Kafka.r_Value r) with
      | Err e => (Err (permanent e), w)
      | Ok cmd =>
          match Handle o incoming cmd w with
          | (Ok u, w) => (Ok u, w)
          | (Err e, w) =>
              if errors_Is e ErrUnknownCommand then
                (Err (EJoin (Error Kafka.ErrPermanent +:+ ": " +:+ Error e)%string
                            Kafka.ErrPermanent e), w)
              else (Err e, w)
          end
      end
  end.

Definition Projections : Kafka.Handler (E := world) := fun r w =>
  match Parse (Kafka.r_Headers r) with
  | Err e => (Err (permanent e), w)
  | Ok incoming =>
      if bool_decide (env_Subject incoming = "") then
        (Err (EWrap (Error Kafka.ErrPermanent +:+ ": inventory: event " +:+ env_ID incoming +:+
                     " names no seat in ce_subject")%string Kafka.ErrPermanent), w)
      else Project o (env_Subject incoming) w
  end.

(** ** Properties *)

(** C33: what a command record comes to, in every case.  Headers that are not an envelope,
    bytes that do not decode and messages that are not commands are permanent failures,
    and none of them touches the database.  Any other command is handled, the handler
    alone touches the database, and its outcome is passed on as it is: its success, and
    its error, which stays transient unless the handler itself marked it permanent.  Only
    an error that is [ErrUnknownCommand] is made permanent, and it is still that error. *)
Theorem Commands_classifies (r : Kafka.Record_) (w : world) :
  let '(res, w') := Commands r w in
  match Parse (Kafka.r_Headers r), Decoder_Decode (Kafka.r_Value r) with
  | Err _, _ | Ok _, Err _ =>
      w' = w /\ exists e, res = Err e /\ errors_Is e Kafka.ErrPermanent = true
  | Ok incoming, Ok cmd =>
      match SeatID cmd with
      | Err _ =>
          w' = w /\ exists e, res = Err e /\ errors_Is e Kafka.ErrPermanent = true /\
            errors_Is e ErrUnknownCommand = true
      | Ok _ =>
          w' = snd (Handle o incoming cmd w) /\
          match fst (Handle o incoming cmd w) with
          | Ok _ => res = Ok tt
          | Err e =>
              if errors_Is e ErrUnknownCommand then
                exists e', res = Err e' /\ errors_Is e' Kafka.ErrPermanent = true /\
                  forall x, errors_Is e x = true -> errors_Is e' x = true
              else res = Err e
          end
      end
  end.
Proof.
  unfold Commands. destruct (Parse _) as [incoming|e]; [|split; [done|]; by eexists].
  destruct (Decoder_Decode _) as [cmd|e]; [|split; [done|]; by eexists].
  destruct (SeatID cmd) as [id|e] eqn:Hid.
  - destruct (Handle o incoming cmd w) as [[[]|e] w1]; [done|]. cbn [fst snd].
    destruct (errors_Is e ErrUnknownCommand) eqn:He; [|done]. split; [done|].
    eexists. split; [reflexivity|]. split; [reflexivity|]. intros x Hx. simpl. rewrite Hx.
    by rewrite ?orb_true_r.
  - assert (e = unknown_command cmd) as -> by (destruct cmd; simpl in Hid; congruence).
    assert (Handle o incoming cmd w = (Err (unknown_command cmd), w)) as ->.
    { unfold Handle. cbn [Nat.add ConflictRetries attempts]. unfold applyInOneTransaction.
      by rewrite Hid. }
    assert (errors_Is (unknown_command cmd) ErrUnknownCommand = true) as Hu by reflexivity.
    rewrite Hu. split; [done|]. eexists. split; [reflexivity|]. split; [reflexivity|].
    reflexivity.
Qed.

(** A notification about a seat only names it.  Two records with the same headers
    have the same outcome whatever their payload; without a subject the failure is
    permanent and nothing is touched; with one, exactly that seat is projected. *)
Theorem Projections_reads_no_payload (r : Kafka.Record_) (v : bytes) (w : world) :
  let r' := {| Kafka.r_Topic := Kafka.r_Topic r; Kafka.r_Key := Kafka.r_Key r; Kafka.r_Value := v;
               Kafka.r_Headers := Kafka.r_Headers r; Kafka.r_Partition := Kafka.r_Partition r;
               Kafka.r_Offset := Kafka.r_Offset r |} in
  Projections r' w = Projections r w /\
  match Parse (Kafka.r_Headers r) with
  | Ok incoming =>
      if bool_decide (env_Subject incoming = "") then
        snd (Projections r w) = w /\
        exists e, fst (Projections r w) = Err e /\ errors_Is e Kafka.ErrPermanent = true
      else Projections r w = Project o (env_Subject incoming) w
  | Err _ =>
      snd (Projections r w) = w /\
      exists e, fst (Projections r w) = Err e /\ errors_Is e Kafka.ErrPermanent = true
  end.
Proof.
  split; [done|]. unfold Projections. destruct (Parse _) as [incoming|e].
  - destruct (bool_decide _); [|done]. split; [done|]. by eexists.
  - split; [done|]. by eexists.
Qed.
End consumers.

(** ** A stored event of an unknown type *)
Module Samples.
Import UnixTimestamps PlainPostgres NumberedJson Store.Samples Commands.Samples.
#[export] Instance decoder : Decoder := fun _ => Ok hold.
Definition stranger : event_row :=
  {| ev_global_seq := 1; ev_stream_id := seat; ev_version := 1; ev_type := "acme.Unknown";
     ev_data := [Byte.x7b]; ev_meta := ∅; ev_recorded_at := 0 |}.
Definition delivered : Kafka.Record_ :=
  {| Kafka.r_Topic := CommandsTopic; Kafka.r_Key := seat; Kafka.r_Value := [];
     Kafka.r_Headers := Headers incoming; Kafka.r_Partition := 0; Kafka.r_Offset := 0 |}.
End Samples.

Import UnixTimestamps PlainPostgres NumberedJson Store.Samples Commands.Samples Samples.

(** A command for a seat whose stream holds an event of a type the registry does not
    know fails with [ErrUnknownType], and not as a permanent failure. *)
Theorem unknown_stored_type_is_retried :
  exists e w', Commands o delivered (world_of (apply_writes empty_db [WEvent stranger])) = (Err e, w') /\
    errors_Is e ErrUnknownType = true /\ errors_Is e Kafka.ErrPermanent = false.
Proof. do 2 eexists. split; [reflexivity|]. split; reflexivity. Qed.
