(* ===== verification/Delivery.v ===== *)
(** * Delivery: what the offsets of the commands' consumer mean

    The composition of the consumer's batches ([Kafka]), the command handler ([Consumers],
    [Commands]) and the record of deliveries ([Inbox]): a record whose offset may be
    committed has its delivery recorded, in the transaction that carried out its command,
    or its dead letter was taken by the broker. *)
From S2P Require Import Prelude Kafka Contracts Envelope Database Timers EventStore Inbox Outbox Codec Seat Store Commands Isolation Projection Consumers.

Section delivery.
Context `{TS : Timestamppb} `{PG : Postgres} `{PJ : !Protojson} `{PJL : !ProtojsonLaws}
  `{EN : !Encoder} `{DE : !Decoder}.
Context (o : oracle) (env : Kafka.Env world).

Definition recorded_delivery (k : inbox_key) (w : world) : Prop := is_Some (inbox (w_db w) !! k).

(** The outside and the handler of the consumer, with what the broker has taken written
    down. *)
Definition noting {A} (f : world -> A * world) (s : world * list Kafka.kgo_Record) :
    A * (world * list Kafka.kgo_Record) :=
  let '(a, w) := f (fst s) in (a, (w, snd s)).

Definition noted : Kafka.Env (world * list Kafka.kgo_Record) :=
  {| Kafka.ctx_Err s := Kafka.ctx_Err env (fst s);
     Kafka.wait d := noting (Kafka.wait env d);
     Kafka.rand_Int64N d := noting (Kafka.rand_Int64N env d);
     Kafka.ProduceSync rs s :=
       let '(r, w) := Kafka.ProduceSync env rs (fst s) in
       (r, (w, snd s ++ match r with Ok _ => rs | Err _ => [] end)) |}.

Definition noted_commands : Kafka.Handler (E := world * list Kafka.kgo_Record) :=
  fun r => noting (Consumers.Commands o r).

(** The outside of the consumer, and the other sessions, keep recorded deliveries: nothing
    is pruned while the batch runs. *)
Record deliveries_stay : Prop := {
  others_keep k n L d : respects_delivery k L d (others o n L d);
  waiting_keeps k d w : recorded_delivery k w -> recorded_delivery k (snd (Kafka.wait env d w));
  drawing_keeps k d w : recorded_delivery k w -> recorded_delivery k (snd (Kafka.rand_Int64N env d w));
  producing_keeps k ms w : recorded_delivery k w -> recorded_delivery k (snd (Kafka.ProduceSync env ms w));
}.

(** ** Lemmas *)
Section kept.
Hypothesis Hstay : deliveries_stay.

Definition keeps_key (k : inbox_key) (_ : list write) (d d' : db) : Prop :=
  is_Some (inbox d !! k) -> is_Some (inbox d' !! k).

Lemma drift_keeps k d d' : drift (keeps_key k) d d' -> is_Some (inbox d !! k) -> is_Some (inbox d' !! k).
Proof. induction 1 as [|x y z [L HR] _ IH]; [done|]. intros Hx. by apply IH, HR. Qed.

(** An attempt keeps every delivery. *)
Lemma attempt_keeps_key k incoming cmd w :
  recorded_delivery k w -> recorded_delivery k (snd (applyInOneTransaction o incoming cmd w)).
Proof.
  intros Hk. unfold applyInOneTransaction. destruct (SeatID cmd) as [id|e]; [|done].
  destruct (WithTx o _ w) as [r w'] eqn:E. simpl.
  destruct (WithTx_cases (keeps_key k) o (apply_command incoming cmd id) w r w'
    (fun _ L _ => Forall keeps_inbox L)) as (d' & Hd & H); [| |exact E|].
  - intros n L d. by destruct (others_keep Hstay k n L d).
  - intros d _. eapply wp_mono.
    { apply (wp_emits _ keeps_inbox).
      apply each_apply_command; [intros; by apply writes_mark|apply writes_load|by apply writes_decision]. }
    by intros r' L d' [(rest & -> & Hrest) _].
  - apply drift_keeps in Hd; [|exact Hk]. unfold recorded_delivery.
    destruct H as [[_ ->]|(a & L & d & HL & _ & -> & _)]; [exact Hd|]. by apply inbox_kept.
Qed.

Lemma attempts_keep k n incoming cmd last w :
  recorded_delivery k w -> recorded_delivery k (snd (attempts o n incoming cmd last w)).
Proof.
  revert last w. induction n as [|n IH]; intros last w Hk; cbn [attempts]; [done|].
  pose proof (attempt_keeps_key k incoming cmd w Hk) as H.
  destruct (applyInOneTransaction o incoming cmd w) as [[u|e] w1]; [done|].
  destruct (errors_Is e ErrVersionConflict); [by apply IH|done].
Qed.

(** A success was recorded. *)
Lemma attempts_record n incoming cmd last w u w' :
  attempts o n incoming cmd last w = (Ok u, w') ->
  recorded_delivery (Consumer, env_Source incoming, env_ID incoming) w'.
Proof.
  revert last w. induction n as [|n IH]; intros last w; cbn [attempts]; [done|].
  destruct (applyInOneTransaction o incoming cmd w) as [r w1] eqn:E.
  apply (attempt_once _ o incoming cmd (fun _ _ _ H => H) (others_keep Hstay _)) in E as [_ H].
  destruct r as [[]|e].
  - intros [= _ <-]. by apply H.
  - destruct (errors_Is e ErrVersionConflict); [apply IH|done].
Qed.

Lemma commands_keep k r w : recorded_delivery k w -> recorded_delivery k (snd (Consumers.Commands o r w)).
Proof.
  intros Hk. unfold Consumers.Commands. destruct (Parse _) as [incoming|e]; [|done].
  destruct (Decoder_Decode _) as [cmd|e]; [|done]. unfold Handle.
  pose proof (attempts_keep k (ConflictRetries + 1) incoming cmd (ENew "%!w(<nil>)") w Hk) as H.
  destruct (attempts _ _ _ _ _ w) as [[u|e] w1]; [done|]. by destruct (errors_Is e ErrUnknownCommand).
Qed.

Lemma commands_record r w w' :
  Consumers.Commands o r w = (Ok tt, w') ->
  exists incoming, Parse (Kafka.r_Headers r) = Ok incoming /\
    recorded_delivery (Consumer, env_Source incoming, env_ID incoming) w'.
Proof.
  unfold Consumers.Commands. destruct (Parse _) as [incoming|e]; [|done].
  destruct (Decoder_Decode _) as [cmd|e]; [|done]. unfold Handle.
  destruct (attempts _ _ _ _ _ w) as [[u|e] w1] eqn:E; [|by destruct (errors_Is e ErrUnknownCommand)].
  intros [= _ <-]. exists incoming. split; [done|]. by eapply attempts_record.
Qed.

Lemma noting_fst {A} (f : world -> A * world) s : fst (snd (noting f s)) = snd (f (fst s)).
Proof. unfold noting. by destruct (f (fst s)). Qed.

Lemma noting_snd {A} (f : world -> A * world) s : snd (snd (noting f s)) = snd s.
Proof. unfold noting. by destruct (f (fst s)). Qed.

Lemma deliveries_kept k : Kafka.kept noted noted_commands (fun s => recorded_delivery k (fst s)).
Proof.
  split; simpl.
  - intros r s Hs. unfold noted_commands. rewrite noting_fst. by apply commands_keep.
  - intros d s Hs. rewrite noting_fst. by apply (waiting_keeps Hstay).
  - intros d s Hs. rewrite noting_fst. by apply (drawing_keeps Hstay).
  - intros rs s Hs. pose proof (producing_keeps Hstay k rs (fst s) Hs) as H.
    by destruct (Kafka.ProduceSync env rs (fst s)).
Qed.

Lemma taken_kept kr : Kafka.kept noted noted_commands (fun s => kr ∈ snd s).
Proof.
  split; simpl.
  - intros r s Hs. unfold noted_commands. by rewrite noting_snd.
  - intros d s Hs. by rewrite noting_snd.
  - intros d s Hs. by rewrite noting_snd.
  - intros rs s Hs. destruct (Kafka.ProduceSync env rs (fst s)). apply elem_of_app. by left.
Qed.

Lemma published_taken m s s' :
  Kafka.Publish noted [m] s = (Ok tt, s') -> Kafka.record m ∈ snd s'.
Proof.
  unfold Kafka.Publish. simpl. destruct (Kafka.ProduceSync env _ (fst s)) as [[u|e] w]; [|done].
  intros [= _ <-]. apply elem_of_app. right. by left.
Qed.
End kept.

(** ** Property *)

(** C8: no command is skipped.  When a batch of the commands' consumer has run, whatever the
    database, the broker and the other sessions did, as long as recorded deliveries are not
    pruned meanwhile: of every partition the records it marked, whose offsets are committed,
    are the first ones it fetched, without a gap; and of each of them either the delivery is
    recorded in the database, or the broker has taken, during this batch, its dead letter. *)
Theorem marked_commands_are_settled (dlq : bool) (maxAttempts : Z) (base : Duration)
    (marks batch : list Kafka.kgo_Record) (w : world) marks' w' taken :
  deliveries_stay ->
  Kafka.handleBatch noted noted_commands dlq maxAttempts base marks batch (w, []) =
    Kafka.Done (marks', (w', taken)) ->
  exists new, marks' = marks ++ new /\
    (forall tp, Kafka.of_partition tp new `prefix_of` Kafka.of_partition tp batch) /\
    forall kr, kr ∈ new ->
      (exists incoming, Parse (Kafka.r_Headers (Kafka.toRecord kr)) = Ok incoming /\
         is_Some (inbox (w_db w') !! (Consumer, env_Source incoming, env_ID incoming))) \/
      (dlq = true /\ exists cause,
         Kafka.record (Kafka.dead_letter (Kafka.toRecord kr) cause) ∈ taken).
Proof.
  intros Hstay H. pose proof H as (new & -> & Hp & _)%Kafka.handle_records_prefix.
  apply Kafka.batch_handles in H as (new' & E & Hnew). apply app_inv_head in E as <-.
  exists new. split; [done|]. split; [done|]. intros kr Hkr. rewrite Forall_forall in Hnew.
  destruct (Hnew kr Hkr) as [([w1 t1] & [w2 t2] & Hh & Hlater)|(Hd & x & s1 & s2 & Hpub & Hlater)];
    [left|right].
  - unfold noted_commands, noting in Hh. simpl in Hh.
    destruct (Consumers.Commands o (Kafka.toRecord kr) w1) as [r w3] eqn:E. injection Hh as -> -> _.
    destruct (commands_record Hstay _ _ _ E) as (incoming & Hpa & Hr). exists incoming.
    split; [done|]. by apply (Hlater _ (deliveries_kept Hstay _)).
  - split; [done|]. exists x. apply (Hlater _ (taken_kept _)). by eapply published_taken.
Qed.
End delivery.

(** ** Witness *)
Module Samples.
Import UnixTimestamps PlainPostgres NumberedJson Store.Samples Commands.Samples Consumers.Samples.

(** A broker that takes everything, beside an otherwise idle database. *)
Definition broker_env : Kafka.Env world :=
  {| Kafka.ctx_Err := fun _ => false; Kafka.wait := fun _ w => (false, w);
     Kafka.rand_Int64N := fun _ w => (0, w); Kafka.ProduceSync := fun _ w => (Ok tt, w) |}.
Definition fetched : Kafka.kgo_Record :=
  {| Kafka.kr_Topic := CommandsTopic; Kafka.kr_Key := seat; Kafka.kr_Value := [];
     Kafka.kr_Headers := map_to_list (Headers incoming); Kafka.kr_Partition := 0;
     Kafka.kr_Offset := 0 |}.
Lemma samples_stay : deliveries_stay o broker_env.
Proof. split; [|done..]. intros k n L d. split; [done|]. by intros _. Qed.
End Samples.

Import UnixTimestamps PlainPostgres NumberedJson Store.Samples Commands.Samples Consumers.Samples Samples.

Lemma marked_commands_are_settled_witness :
  exists marks' w' taken new,
    Kafka.handleBatch (noted broker_env) (noted_commands o) true 5 100 [] [fetched] (world_of empty_db, []) =
      Kafka.Done (marks', (w', taken)) /\ marks' = [] ++ new /\ length marks' = 1%nat.
Proof.
  destruct (Kafka.handleBatch (noted broker_env) (noted_commands o) true 5 100 [] [fetched]
    (world_of empty_db, [])) as [[marks' [w' taken]]| |] eqn:E.
  - destruct (marked_commands_are_settled o broker_env true 5 100 [] [fetched] (world_of empty_db) marks' w'
      taken samples_stay E) as (new & Hnew & _).
    exists marks', w', taken, new. split; [reflexivity|]. split; [exact Hnew|].
    apply (f_equal (fun r => match r with Kafka.Done (ms, _) => length ms | _ => 0%nat end)) in E.
    rewrite <- E. vm_compute. reflexivity.
  - exfalso. apply (f_equal (fun r => match r with Kafka.Done _ => true | _ => false end)) in E.
    revert E. vm_compute. discriminate.
  - exfalso. apply (f_equal (fun r => match r with Kafka.Done _ => true | _ => false end)) in E.
    revert E. vm_compute. discriminate.
Defined.
