(* ===== verification/Sessions.v ===== *)
(** * Sessions: one database under any number of transactions

    The rely of the other files, discharged: a machine in which any number of
    sessions run the service's own transactions side by side.  A session is the rest
    of its code and the log of its uncommitted writes.  Its statements see the
    committed state under its own log, draw from the shared sequences, and wait while
    another session holds a lock on what they write: a row it has claimed or a unique
    key it has inserted.  A session can be rolled back at any moment, which stands for
    an error of its closure, a raised statement, a lost connection and a crash of the
    process; a commit applies its log.

    What it gives its users: [reachable_ids], what sequences and locks make of the timers'
    ids; [reachable_invariant], the rule by which a property of the committed state that
    transactions keep under a rely, which their commits respect, holds of every reachable
    state; and [after_reachable], by which concrete states are shown reachable. *)
From S2P Require Import Prelude Contracts Envelope Database Timers EventStore Inbox Outbox Codec Seat Store Commands Isolation Projection.

(** ** Locks *)
Inductive lock :=
  | LEvent (streamID : string) (version : Z)
  | LInbox (consumer source eventID : string)
  | LTimer (id : Z)
  | LSeat (seatID : string).

Definition lock_of (w : write) : option lock :=
  match w with
  | WEvent r => Some (LEvent (ev_stream_id r) (ev_version r))
  | WInbox (c, s, e) _ => Some (LInbox c s e)
  | WTimer r => Some (LTimer (tm_id r))
  | WFired id _ => Some (LTimer id)
  | WAvailability r => Some (LSeat (av_seat_id r))
  | _ => None
  end.

(** The writes [ws] wait for a transaction whose log is [L]. *)
Definition waits (ws L : list write) : Prop :=
  exists w w' l, w ∈ ws /\ w' ∈ L /\ lock_of w = Some l /\ lock_of w' = Some l.

Lemma waits_sym L1 L2 : waits L1 L2 -> waits L2 L1.
Proof. intros (w & w' & l & H). exists w', w, l. tauto. Qed.

Lemma waits_app_l L1 L2 L : waits (L1 ++ L2) L -> waits L1 L \/ waits L2 L.
Proof.
  intros (w & w' & l & [Hw|Hw]%elem_of_app & H); [left|right]; by exists w, w', l.
Qed.

(** ** The machine *)

(** The code of a transaction, ending with whether its closure returned nil. *)
Definition transaction {A} (p : tx A) : prog bool := prog_bind p (fun r => Ret (is_ok r)).

Section machine.
Context `{TS : Timestamppb} `{PG : Postgres} `{PJ : !Protojson} `{EN : !Encoder}.

(** What a session was started for. *)
Inductive origin :=
  | OfCommand (incoming : Envelope) (cmd : message) (seatID : string)
  | OfTimer (t : Timers.Timer)
  | OfUpkeep.

Record live := { lv_code : prog bool; lv_log : list write; lv_about : origin }.

(** The committed state, the sequences, the due timers schedulers have read so far,
    and the sessions. *)
Record machine := {
  mc_db : db;
  mc_seqs : seqs;
  mc_due : list Timers.Timer;
  mc_live : gmap nat live;
}.

Definition with_live (f : gmap nat live -> gmap nat live) (m : machine) : machine :=
  {| mc_db := mc_db m; mc_seqs := mc_seqs m; mc_due := mc_due m; mc_live := f (mc_live m) |}.

Definition with_db (d : db) (m : machine) : machine :=
  {| mc_db := d; mc_seqs := mc_seqs m; mc_due := mc_due m; mc_live := mc_live m |}.

Definition with_seqs (sq : seqs) (m : machine) : machine :=
  {| mc_db := mc_db m; mc_seqs := sq; mc_due := mc_due m; mc_live := mc_live m |}.

Definition with_due (ts : list Timers.Timer) (m : machine) : machine :=
  {| mc_db := mc_db m; mc_seqs := mc_seqs m; mc_due := ts; mc_live := mc_live m |}.

(** One cycle of the outbox: what the publisher answers is not the database's. *)
Definition drain_cycle (locked : Z -> bool) (published : list Claimed -> res unit) : tx unit :=
  claimed ← claim locked;
  if bool_decide (claimed = []) then mret tt
  else _ ← lift (published claimed); mark claimed.

(** The transactions of the service. *)
Inductive begins (due : list Timers.Timer) : prog bool -> origin -> Prop :=
  | begins_command incoming cmd id :
      SeatID cmd = Ok id ->
      begins due (transaction (apply_command incoming cmd id)) (OfCommand incoming cmd id)
  | begins_fire t :
      t ∈ due -> begins due (transaction (Timers.claim_and_fire Fire t)) (OfTimer t)
  | begins_project id : begins due (transaction (project id)) OfUpkeep
  | begins_rebuild : begins due (transaction rebuild) OfUpkeep
  | begins_drain locked published : begins due (transaction (drain_cycle locked published)) OfUpkeep.

(** The statements that delete old rows, each a transaction of its own. *)
Inductive housekeeping : stmt Z -> Prop :=
  | prunes_timers olderThan : housekeeping (Timers.pruneSQL olderThan)
  | prunes_inbox olderThan : housekeeping (Inbox.pruneSQL olderThan)
  | prunes_outbox olderThan : housekeeping (Outbox.pruneSQL olderThan).

Inductive step (m : machine) : machine -> Prop :=
  | step_begin i p about :
      mc_live m !! i = None -> begins (mc_due m) p about ->
      step m (with_live <[i := {| lv_code := p; lv_log := []; lv_about := about |}]> m)
  | step_id i k L about id :
      mc_live m !! i = Some {| lv_code := NewID k; lv_log := L; lv_about := about |} ->
      step m (with_live <[i := {| lv_code := k id; lv_log := L; lv_about := about |}]> m)
  | step_sql i X (q : stmt X) k L about now x ws sq :
      mc_live m !! i = Some {| lv_code := Sql q k; lv_log := L; lv_about := about |} ->
      q now (mc_seqs m) (apply_writes (mc_db m) L) = (Ok x, ws, sq) ->
      (forall j lv, j <> i -> mc_live m !! j = Some lv -> ~ waits ws (lv_log lv)) ->
      step m (with_seqs sq (with_live
        <[i := {| lv_code := k (Ok x); lv_log := L ++ ws; lv_about := about |}]> m))
  | step_raised i X (q : stmt X) k L about now e ws sq :
      mc_live m !! i = Some {| lv_code := Sql q k; lv_log := L; lv_about := about |} ->
      q now (mc_seqs m) (apply_writes (mc_db m) L) = (Err e, ws, sq) ->
      step m (with_seqs sq (with_live (delete i) m))
  | step_rollback i : step m (with_live (delete i) m)
  | step_commit i L about :
      mc_live m !! i = Some {| lv_code := Ret true; lv_log := L; lv_about := about |} ->
      step m (with_db (apply_writes (mc_db m) L) (with_live (delete i) m))
  | step_due now limit rows ws sq :
      Timers.dueSQL limit now (mc_seqs m) (mc_db m) = (Ok rows, ws, sq) ->
      step m (with_due (mc_due m ++ (Timers.scan_timer <$> rows)) m)
  | step_housekeeping q now n ws sq :
      housekeeping q -> q now (mc_seqs m) (mc_db m) = (Ok n, ws, sq) ->
      step m (with_db (apply_writes (mc_db m) ws) m).

(** A new database and no session. *)
Definition machine_start : machine :=
  {| mc_db := empty_db; mc_seqs := {| events_seq := 0; outbox_seq := 0; timers_seq := 0 |};
     mc_due := []; mc_live := ∅ |}.

Definition reachable : machine -> Prop := rtc step machine_start.

Lemma reachable_ind' (I : machine -> Prop) :
  I machine_start -> (forall m m', reachable m -> I m -> step m m' -> I m') ->
  forall m, reachable m -> I m.
Proof.
  intros H0 Hs. apply (rtc_ind_r I machine_start); [exact H0|]. intros x y Hx Hxy IH. by eapply Hs.
Qed.

(** ** Lemmas: the timers' ids *)

(** A statement that inserts timers draws their ids from the sequence. *)
Definition draws_ids X (q : stmt X) : Prop :=
  forall now sq d, let '(_, ws, sq') := q now sq d in
    timers_seq sq <= timers_seq sq' /\
    (forall r, WTimer r ∈ ws -> timers_seq sq < tm_id r <= timers_seq sq') /\
    (forall r r', WTimer r ∈ ws -> WTimer r' ∈ ws -> tm_id r = tm_id r' -> r = r').

Lemma draws_none X (q : stmt X) :
  writes_only (fun w => forall r, w <> WTimer r) X q ->
  (forall now sq d, timers_seq (q now sq d).2 = timers_seq sq) -> draws_ids X q.
Proof.
  intros Hw Hs now sq d. specialize (Hw now sq d). specialize (Hs now sq d).
  destruct (q now sq d) as [[x ws] sq']. simpl in *. rewrite Forall_forall in Hw.
  split; [lia|]. split; [|intros r r' Hr]; [intros r Hr|]; by destruct (Hw _ Hr r).
Qed.

Lemma draws_schedule at_ id token : draws_ids _ (Timers.scheduleSQL at_ id token).
Proof.
  intros now sq d. unfold Timers.scheduleSQL. simpl. split; [lia|]. split.
  - intros r [= ->]%list_elem_of_singleton. simpl. lia.
  - intros r r' [= ->]%list_elem_of_singleton [= ->]%list_elem_of_singleton. done.
Qed.

Lemma draws_mark c src id : draws_ids _ (Inbox.markSQL c src id).
Proof.
  apply draws_none; [by apply writes_mark|]. intros now sq d. unfold Inbox.markSQL.
  by destruct (inbox d !! _).
Qed.

Lemma draws_markFired id : draws_ids _ (Timers.markFiredSQL id).
Proof. apply draws_none; [by apply writes_markFired|done]. Qed.

Lemma draws_load id : draws_ids _ (loadSQL id).
Proof. apply draws_none; [apply writes_load|done]. Qed.

Lemma draws_append id v rows : draws_ids _ (appendSQL id v rows).
Proof.
  apply draws_none; [by apply writes_append|]. intros now sq d. unfold appendSQL.
  destruct (traverse cast_jsonb 0 rows) as [rows'|]; [|done].
  destruct (insert_events_seqs now id v sq (events d) rows') as [_ H].
  by destruct (insert_events _ _ _ _ _ _) as [[rs|] sq'].
Qed.

Lemma draws_decision id : decision_statements draws_ids id.
Proof.
  split_and!; intros; [apply draws_append|apply draws_schedule|..].
  - apply draws_none; [by apply writes_enqueue|done].
  - apply draws_none; [by apply writes_notify|done].
Qed.

(** The view's and the outbox's transactions touch none of the other tables. *)
Definition touches_view (w : write) : Prop :=
  match w with WAvailability _ | WDeleteAvailability _ | WPublished _ _ => True | _ => False end.

Section view_statements.
Context (P : forall X, stmt X -> Prop).
Hypothesis P_view : forall X (q : stmt X),
  writes_only touches_view X q -> (forall now sq d, (q now sq d).2 = sq) -> P X q.

Lemma each_project id : each_stmt P (project id).
Proof.
  unfold project. apply each_tx_bind; [apply each_LoadSeat, P_view; [apply writes_load|done]|].
  intros [st meta]. destruct (_ =? 0); [done|]. apply each_exec, P_view.
  - intros now sq d. unfold upsertAvailabilitySQL. destruct (negb _); [constructor|].
    destruct (availability d !! _); [destruct (_ <? _)|]; by repeat constructor.
  - intros now sq d. unfold upsertAvailabilitySQL. destruct (negb _); [done|].
    by destruct (availability d !! _); [destruct (_ <? _)|].
Qed.

Lemma each_rebuild : each_stmt P rebuild.
Proof.
  unfold rebuild. apply each_tx_bind.
  - apply each_exec, P_view; [intros now sq d; constructor|done].
  - intros ids. apply each_tx_bind; [|intros []; apply each_tx_each, each_project].
    apply each_exec, P_view; [|done]. intros now sq d. by repeat constructor.
Qed.

Lemma each_drain_cycle locked published : each_stmt P (drain_cycle locked published).
Proof.
  unfold drain_cycle, claim. apply each_tx_bind.
  - apply each_tx_bind; [|done]. apply each_exec, P_view; [intros now sq d; constructor|done].
  - intros claimed. case_bool_decide; [done|]. apply each_tx_bind; [done|]. intros _.
    apply each_exec, P_view; [|done]. intros now sq d. by repeat constructor.
Qed.
End view_statements.

Lemma each_transaction (P : forall X, stmt X -> Prop) {A} (p : tx A) :
  each_stmt P p -> each_stmt P (transaction p).
Proof. intros Hp. by apply each_bind. Qed.

Lemma begins_draws due p about : begins due p about -> each_stmt draws_ids p.
Proof.
  assert (forall X (q : stmt X), writes_only touches_view X q ->
    (forall now sq d, (q now sq d).2 = sq) -> draws_ids X q) as Hview.
  { intros X q Hq Hs. apply draws_none; [|intros now sq d; by rewrite Hs].
    intros now sq d. eapply Forall_impl; [apply Hq|]. by intros w Hw r ->. }
  intros [incoming cmd id _|t _|id| |locked published]; apply each_transaction.
  - apply each_apply_command; [apply draws_mark|apply draws_load|apply draws_decision].
  - apply each_claim_and_fire; [apply draws_markFired|apply draws_load|apply draws_decision].
  - by apply each_project.
  - by apply each_rebuild.
  - by apply each_drain_cycle.
Qed.

(** The same timer, whether it has fired or not. *)
Definition same_timer (r r0 : timer_row) : Prop :=
  tm_id r = tm_id r0 /\ tm_subject r = tm_subject r0 /\ tm_token r = tm_token r0 /\
  tm_fire_at r = tm_fire_at r0.

Lemma timers_apply d L r :
  r ∈ timers (apply_writes d L) ->
  exists r0, same_timer r r0 /\ (r0 ∈ timers d \/ WTimer r0 ∈ L).
Proof.
  revert d. induction L as [|w L IH]; intros d; [exists r; split; [done|by left]|].
  rewrite apply_writes_cons. intros (r0 & Hs & [Hr|Hr])%IH; [|exists r0; split; [done|right; by right]].
  destruct w; simpl in Hr; try (exists r0; split; [done|by left]).
  - apply elem_of_app in Hr as [Hr|Hr]; [exists r0; split; [done|by left]|].
    apply list_elem_of_singleton in Hr as ->. exists r1. split; [done|]. right. by left.
  - apply list_elem_of_fmap in Hr as (r1 & -> & Hr). exists r1. split; [|by left].
    unfold mark_fired_row in Hs. by case_bool_decide.
  - apply list_elem_of_filter in Hr as [_ Hr]. exists r0. split; [done|by left].
Qed.

(** A due timer is the row it was read from. *)
Definition reads (t : Timers.Timer) (r : timer_row) : Prop :=
  tm_id r = Timers.t_ID t -> tm_subject r = Timers.t_Subject t /\ tm_token r = Timers.t_Token t.

(** What sequences and locks make of the timers' ids. *)
Record ids_ok (m : machine) : Prop := {
  ids_drawn r : r ∈ timers (mc_db m) -> tm_id r <= timers_seq (mc_seqs m);
  ids_unique r r' :
    r ∈ timers (mc_db m) -> r' ∈ timers (mc_db m) -> tm_id r = tm_id r' -> same_timer r r';
  ids_due t : t ∈ mc_due m -> Timers.t_ID t <= timers_seq (mc_seqs m);
  ids_read t r : t ∈ mc_due m -> r ∈ timers (mc_db m) -> reads t r;
  ids_log i lv r : mc_live m !! i = Some lv -> WTimer r ∈ lv_log lv ->
    tm_id r <= timers_seq (mc_seqs m) /\
    (forall r', r' ∈ timers (mc_db m) -> tm_id r' <> tm_id r) /\
    (forall t, t ∈ mc_due m -> Timers.t_ID t <> tm_id r);
  ids_log_unique i lv r r' : mc_live m !! i = Some lv ->
    WTimer r ∈ lv_log lv -> WTimer r' ∈ lv_log lv -> tm_id r = tm_id r' -> r = r';
  ids_apart i j lv lv' : i <> j -> mc_live m !! i = Some lv -> mc_live m !! j = Some lv' ->
    ~ waits (lv_log lv) (lv_log lv');
  ids_about i lv t : mc_live m !! i = Some lv -> lv_about lv = OfTimer t -> t ∈ mc_due m;
  ids_code i lv : mc_live m !! i = Some lv -> each_stmt draws_ids (lv_code lv);
}.

Lemma ids_ok_start : ids_ok machine_start.
Proof.
  split; cbn; intros; exfalso; try set_solver;
    match goal with H : ∅ !! _ = Some _ |- _ => by apply lookup_empty_Some in H end.
Qed.

(** A session replaced by one that has logged and read no more. *)
Lemma ids_ok_live m i lv lv' :
  ids_ok m -> mc_live m !! i = Some lv ->
  lv_log lv' = lv_log lv -> lv_about lv' = lv_about lv -> each_stmt draws_ids (lv_code lv') ->
  ids_ok (with_live <[i := lv']> m).
Proof.
  intros [] Hi Hl Ha Hc. split; simpl; try done.
  - intros j x r. rewrite lookup_insert. case_decide as E; [intros [= <-]|by eauto].
    rewrite Hl. by eauto.
  - intros j x r r'. rewrite lookup_insert. case_decide as E; [intros [= <-]|by eauto].
    rewrite Hl. by eauto.
  - intros j k x y Hjk. rewrite !lookup_insert.
    case_decide as E1; case_decide as E2; subst; [done|intros [= <-]; rewrite Hl; by eauto| |by eauto].
    intros Hx [= <-]. rewrite Hl. by eauto.
  - intros j x t. rewrite lookup_insert. case_decide as E; [intros [= <-]|by eauto].
    rewrite Ha. by eauto.
  - intros j x. rewrite lookup_insert. case_decide as E; [by intros [= <-]|by eauto].
Qed.

Lemma ids_ok_delete m i : ids_ok m -> ids_ok (with_live (delete i) m).
Proof.
  intros []. split; simpl; try done; intros *; rewrite ?lookup_delete_Some; naive_solver.
Qed.

(** A statement's draws from the sequence and its log. *)
Lemma ids_ok_sql m i X (q : stmt X) k L about now x ws sq :
  ids_ok m ->
  mc_live m !! i = Some {| lv_code := Sql q k; lv_log := L; lv_about := about |} ->
  q now (mc_seqs m) (apply_writes (mc_db m) L) = (Ok x, ws, sq) ->
  (forall j lv, j <> i -> mc_live m !! j = Some lv -> ~ waits ws (lv_log lv)) ->
  ids_ok (with_seqs sq (with_live
    <[i := {| lv_code := k (Ok x); lv_log := L ++ ws; lv_about := about |}]> m)).
Proof.
  intros H Hi Hq Hw. pose proof (ids_code m H i _ Hi) as [Hd Hk]. specialize (Hd now (mc_seqs m) (apply_writes (mc_db m) L)).
  rewrite Hq in Hd. destruct Hd as (Hle & Hdraw & Huniq). destruct H as [D1 D2 D3 D4 D5 D6 D7 D8 D9].
  split; simpl; try done.
  - intros r Hr. specialize (D1 r Hr). lia.
  - intros t Ht. specialize (D3 t Ht). lia.
  - intros j y r. rewrite lookup_insert. case_decide as E; [intros [= <-]|]; simpl.
    + intros [Hr|Hr]%elem_of_app; [specialize (D5 i _ r Hi Hr); naive_solver lia|].
      specialize (Hdraw r Hr). split; [lia|]. split.
      * intros r' Hr'. specialize (D1 r' Hr'). lia.
      * intros t Ht. specialize (D3 t Ht). lia.
    + intros Hy Hr. specialize (D5 j y r Hy Hr). naive_solver lia.
  - intros j y r r'. rewrite lookup_insert. case_decide as E; [intros [= <-]|by eauto]; simpl.
    rewrite !elem_of_app. intros [Hr|Hr] [Hr'|Hr'] Heq; [by eapply (D6 i)| | |by eauto].
    + destruct (D5 i _ r Hi Hr) as (? & _). specialize (Hdraw r' Hr'). lia.
    + destruct (D5 i _ r' Hi Hr') as (? & _). specialize (Hdraw r Hr). lia.
  - intros j l y z Hjl. rewrite !lookup_insert. case_decide as E1; case_decide as E2; subst.
    + done.
    + intros [= <-] Hz [Hwt|Hwt]%waits_app_l; [by eapply (D7 j l)|by eapply (Hw l)].
    + intros Hy [= <-] [Hwt|Hwt]%waits_sym%waits_app_l.
      * eapply (D7 l j); [done|exact Hi|exact Hy|exact Hwt].
      * by eapply (Hw j).
    + by eauto.
  - intros j y t. rewrite lookup_insert. case_decide as E; [intros [= <-]|by eauto]. simpl.
    intros Ha. by eapply (D8 i).
  - intros j y. rewrite lookup_insert. case_decide as E; [intros [= <-]; apply Hk|by eauto].
Qed.

(** A commit. *)
Lemma ids_ok_commit m i lv :
  ids_ok m -> mc_live m !! i = Some lv ->
  ids_ok (with_db (apply_writes (mc_db m) (lv_log lv)) (with_live (delete i) m)).
Proof.
  intros [D1 D2 D3 D4 D5 D6 D7 D8 D9] Hi. split; simpl.
  - intros r (r0 & (Hid & _) & [Hr|Hr])%timers_apply; rewrite Hid; [by apply D1|by eapply D5].
  - intros r r' (r0 & Hs & Hr)%timers_apply (r0' & Hs' & Hr')%timers_apply Heq.
    assert (same_timer r0 r0') as H0; [|unfold same_timer in *; intuition congruence].
    assert (tm_id r0 = tm_id r0') as Heq0 by (unfold same_timer in *; intuition congruence).
    destruct Hr as [Hr|Hr], Hr' as [Hr'|Hr'].
    + by apply D2.
    + destruct (D5 i lv r0' Hi Hr') as (_ & H & _). by destruct (H r0 Hr).
    + destruct (D5 i lv r0 Hi Hr) as (_ & H & _). by destruct (H r0' Hr').
    + by rewrite (D6 i lv r0 r0' Hi Hr Hr' Heq0).
  - exact D3.
  - intros t r Ht (r0 & Hs & [Hr|Hr])%timers_apply Hid.
    + destruct (D4 t r0 Ht Hr); unfold same_timer in *; intuition congruence.
    + destruct (D5 i lv r0 Hi Hr) as (_ & _ & H). destruct (H t Ht).
      unfold same_timer in *; intuition congruence.
  - intros j y r [Hji Hj]%lookup_delete_Some Hr. destruct (D5 j y r Hj Hr) as (H1 & H2 & H3).
    split_and!; [done| |done]. intros r' (r0 & (Hid & _) & [Hr0|Hr0])%timers_apply; rewrite Hid;
      [by apply H2|].
    intros Heq. apply (D7 i j lv y Hji Hi Hj). exists (WTimer r0), (WTimer r), (LTimer (tm_id r)).
    simpl. by rewrite Heq.
  - intros j y r r' [_ Hj]%lookup_delete_Some. by eauto.
  - intros j l y z Hjl [_ Hj]%lookup_delete_Some [_ Hl]%lookup_delete_Some. by eauto.
  - intros j y t [_ Hj]%lookup_delete_Some. by eauto.
  - intros j y [_ Hj]%lookup_delete_Some. by eauto.
Qed.

Lemma ids_ok_seqs m sq :
  ids_ok m -> timers_seq (mc_seqs m) <= timers_seq sq -> ids_ok (with_seqs sq m).
Proof.
  intros [D1 D2 D3 D4 D5 D6 D7 D8 D9] Hle. split; simpl; try done.
  - intros r Hr. specialize (D1 r Hr). lia.
  - intros t Ht. specialize (D3 t Ht). lia.
  - intros i lv r Hi Hr. specialize (D5 i lv r Hi Hr). naive_solver lia.
Qed.

Lemma ids_ok_fewer m d :
  ids_ok m -> (forall r, r ∈ timers d -> exists r0, same_timer r r0 /\ r0 ∈ timers (mc_db m)) ->
  ids_ok (with_db d m).
Proof.
  intros [D1 D2 D3 D4 D5 D6 D7 D8 D9] Hd. split; simpl; try done.
  - intros r (r0 & (Hid & _) & Hr)%Hd. rewrite Hid. by apply D1.
  - intros r r' (r0 & Hs & Hr)%Hd (r0' & Hs' & Hr')%Hd Heq.
    assert (same_timer r0 r0') as H0 by (apply D2; unfold same_timer in *; intuition congruence).
    unfold same_timer in *. intuition congruence.
  - intros t r Ht (r0 & Hs & Hr)%Hd Hid. destruct (D4 t r0 Ht Hr);
      unfold same_timer in *; intuition congruence.
  - intros i lv r Hi Hr. destruct (D5 i lv r Hi Hr) as (H1 & H2 & H3). split_and!; [done| |done].
    intros r' (r0 & (Hid & _) & Hr')%Hd. rewrite Hid. by apply H2.
Qed.

Lemma ids_ok_due m rows :
  ids_ok m -> (forall r, r ∈ rows -> r ∈ timers (mc_db m)) ->
  ids_ok (with_due (mc_due m ++ (Timers.scan_timer <$> rows)) m).
Proof.
  intros [D1 D2 D3 D4 D5 D6 D7 D8 D9] Hrows.
  assert (forall t, t ∈ mc_due m ++ (Timers.scan_timer <$> rows) ->
    t ∈ mc_due m \/ exists r, r ∈ timers (mc_db m) /\ t = Timers.scan_timer r) as Hin.
  { intros t [Ht|(r & -> & Hr)%list_elem_of_fmap]%elem_of_app; [by left|right]. exists r. eauto. }
  split; simpl; try done.
  - intros t [Ht|(r & Hr & ->)]%Hin; [by apply D3|by apply D1].
  - intros t r [Ht|(r0 & Hr0 & ->)]%Hin Hr; [by apply D4|]. intros Hid.
    destruct (D2 r r0 Hr Hr0 Hid) as (_ & H1 & H2 & _). done.
  - intros i lv r Hi Hr. destruct (D5 i lv r Hi Hr) as (H1 & H2 & H3). split_and!; [done..|].
    intros t [Ht|(r0 & Hr0 & ->)]%Hin; [by apply H3|by apply H2].
  - intros i lv t Hi Ha. apply elem_of_app. left. by eapply D8.
Qed.

Lemma ids_ok_begin m i p about :
  ids_ok m -> mc_live m !! i = None -> begins (mc_due m) p about ->
  ids_ok (with_live <[i := {| lv_code := p; lv_log := []; lv_about := about |}]> m).
Proof.
  intros [D1 D2 D3 D4 D5 D6 D7 D8 D9] Hi Hb. split; simpl; try done.
  - intros j y r. rewrite lookup_insert. case_decide; [intros [= <-] ?%elem_of_nil; done|by eauto].
  - intros j y r r'. rewrite lookup_insert. case_decide; [intros [= <-] ?%elem_of_nil; done|by eauto].
  - intros j l y z Hjl. rewrite !lookup_insert. case_decide; case_decide; subst; [done|..|by eauto].
    + intros [= <-] _ (w & ? & ? & ?%elem_of_nil & _). done.
    + intros _ [= <-] (? & w & ? & _ & ?%elem_of_nil & _). done.
  - intros j y t. rewrite lookup_insert. case_decide; [intros [= <-]|by eauto]. simpl. intros ->.
    by inversion Hb; subst.
  - intros j y. rewrite lookup_insert. case_decide; [intros [= <-]; by eapply begins_draws|by eauto].
Qed.

(** What housekeeping writes. *)
Lemma housekeeping_writes q now sq d n ws sq' :
  housekeeping q -> q now sq d = (Ok n, ws, sq') ->
  exists w, ws = [w] /\
    match w with
    | WDeleteTimers ids =>
        forall id, id ∈ ids -> exists r, r ∈ timers d /\ tm_id r = id /\ Timers.pending r = false
    | WDeleteInbox _ | WDeleteOutbox _ => True
    | _ => False
    end.
Proof.
  intros [olderThan|olderThan|olderThan] Hq; injection Hq as _ <- _; eexists; (split; [reflexivity|]);
    [|done..]. intros id (r & -> & [Ho Hr]%list_elem_of_filter)%list_elem_of_fmap.
  exists r. split; [done|]. split; [done|]. unfold Timers.old_enough, Timers.pending in *.
  destruct (tm_fired_at r); [by rewrite bool_decide_eq_false|done].
Qed.

(** In every reachable state: the ids of timers, committed or not, and of timers that
    schedulers hold, were drawn from the sequence; no id names two timers, ever; and
    no two sessions hold a lock in common. *)
Lemma reachable_ids m : reachable m -> ids_ok m.
Proof.
  revert m. apply reachable_ind'; [apply ids_ok_start|]. intros m m' _ H [].
  - by apply ids_ok_begin.
  - eapply ids_ok_live; [done..|]. simpl. by apply (ids_code m H _ _ H0).
  - by eapply ids_ok_sql.
  - apply ids_ok_seqs; [by apply ids_ok_delete|]. simpl.
    pose proof (ids_code m H _ _ H0) as [Hd _]. specialize (Hd now (mc_seqs m) (apply_writes (mc_db m) L)).
    rewrite H1 in Hd. by destruct Hd.
  - by apply ids_ok_delete.
  - by apply (ids_ok_commit m i {| lv_code := Ret true; lv_log := L; lv_about := about |}).
  - apply ids_ok_due; [done|]. unfold Timers.dueSQL in H0. injection H0 as <- _ _.
    intros r Hr. apply elem_of_take in Hr as (? & Hr%list_elem_of_lookup_2 & _).
    apply elem_of_order_by, list_elem_of_filter in Hr. tauto.
  - apply ids_ok_fewer; [done|].
    destruct (housekeeping_writes _ _ _ _ _ _ _ H0 H1) as (w & -> & Hw).
    intros r (r0 & Hs & [Hr|Hr])%timers_apply; [by exists r0|].
    apply list_elem_of_singleton in Hr as <-. done.
Qed.

(** ** Rely and guarantee

    [R about L d d']: what a session for [about] that holds the log [L] relies on;
    [Q about L d]: what it has achieved when it is ready to commit; [D d]: what the
    committed state satisfies. *)
Section rely_guarantee.
Context (D : db -> Prop) (R : origin -> list write -> db -> db -> Prop)
  (Q : origin -> list write -> db -> Prop).
Hypothesis R_refl : forall about L d, R about L d d.
Hypothesis R_trans : forall about L d1 d2 d3, R about L d1 d2 -> R about L d2 d3 -> R about L d1 d3.
Hypothesis Q_stable : forall about L d d', R about L d d' -> D d -> Q about L d -> Q about L d'.
Hypothesis D_start : D empty_db.
Hypothesis begins_ok : forall due p about d, begins due p about -> D d ->
  wp (R about) p [] d (fun ok L d => ok = true -> Q about L d).
Hypothesis commit_ok : forall m i L about,
  reachable m -> D (mc_db m) ->
  mc_live m !! i = Some {| lv_code := Ret true; lv_log := L; lv_about := about |} ->
  Q about L (mc_db m) ->
  D (apply_writes (mc_db m) L) /\
  forall j lv, j <> i -> mc_live m !! j = Some lv ->
    R (lv_about lv) (lv_log lv) (mc_db m) (apply_writes (mc_db m) L).
Hypothesis housekeeping_ok : forall q now sq d n ws sq',
  housekeeping q -> q now sq d = (Ok n, ws, sq') -> D d ->
  D (apply_writes d ws) /\ forall about L, R about L d (apply_writes d ws).

(** A session that achieves its goal from some earlier state, from which the others
    have kept to the rely. *)
Definition on_course (d : db) (lv : live) : Prop :=
  exists d0, D d0 /\ R (lv_about lv) (lv_log lv) d0 d /\
    wp (R (lv_about lv)) (lv_code lv) (lv_log lv) d0
      (fun ok L d => ok = true -> Q (lv_about lv) L d).

Lemma on_course_moves d d' lv :
  R (lv_about lv) (lv_log lv) d d' -> on_course d lv -> on_course d' lv.
Proof.
  intros Hr (d0 & H1 & H2 & H3). exists d0. split; [done|]. split; [|done]. by eapply R_trans.
Qed.

Lemma on_course_ready d L about :
  on_course d {| lv_code := Ret true; lv_log := L; lv_about := about |} -> Q about L d.
Proof. intros (d0 & H1 & H2 & H3). eapply Q_stable; [exact H2|exact H1|]. by apply H3. Qed.

(** One step keeps the state and every session on course. *)
Lemma step_keeps m m' :
  reachable m -> step m m' ->
  D (mc_db m) /\ (forall i lv, mc_live m !! i = Some lv -> on_course (mc_db m) lv) ->
  D (mc_db m') /\ (forall i lv, mc_live m' !! i = Some lv -> on_course (mc_db m') lv).
Proof.
  intros Hm Hstep [Hs Hon]. destruct Hstep as [i p about Hi Hb|i k L about id Hi|
    i X q k L about now x ws sq Hi Hq Hw|i X q k L about now e ws sq Hi Hq|i|i L about Hi|
    now limit rows ws sq Hq|q now n ws sq Hh Hq]; simpl.
  - split; [done|]. intros j lv [[<- <-]|[_ Hj]]%lookup_insert_Some; [|by eapply Hon].
    exists (mc_db m). split; [done|]. split; [apply R_refl|]. by eapply begins_ok.
  - split; [done|]. intros j lv [[<- <-]|[_ Hj]]%lookup_insert_Some; [|by eapply Hon].
    destruct (Hon i _ Hi) as (d0 & H1 & H2 & H3). exists d0.
    split; [done|]. split; [exact H2|exact (H3 id)].
  - split; [done|]. intros j lv [[<- <-]|[_ Hj]]%lookup_insert_Some; [|by eapply Hon].
    destruct (Hon i _ Hi) as (d0 & H1 & H2 & H3). simpl in *. exists (mc_db m).
    split; [done|]. split; [apply R_refl|]. specialize (H3 (mc_db m) now (mc_seqs m) H2).
    by rewrite Hq in H3.
  - split; [done|]. intros j lv [_ Hj]%lookup_delete_Some. by eapply Hon.
  - split; [done|]. intros j lv [_ Hj]%lookup_delete_Some. by eapply Hon.
  - destruct (commit_ok m i L about Hm Hs Hi) as [H1 H2]; [by apply on_course_ready, (Hon i)|].
    split; [done|]. intros j lv [Hij Hj]%lookup_delete_Some.
    eapply on_course_moves; [by eapply H2|by eapply Hon].
  - done.
  - destruct (housekeeping_ok _ _ _ _ _ _ _ Hh Hq Hs) as [H1 H2]. split; [done|].
    intros j lv Hj. eapply on_course_moves; [apply H2|by eapply Hon].
Qed.

Lemma reachable_invariant m :
  reachable m ->
  D (mc_db m) /\ forall i lv, mc_live m !! i = Some lv -> on_course (mc_db m) lv.
Proof.
  revert m. apply reachable_ind'; [|intros m m' Hm IH Hs; by eapply step_keeps].
  split; [exact D_start|]. intros i lv Hi. cbn in Hi. by apply lookup_empty_Some in Hi.
Qed.
End rely_guarantee.

(** ** A session alone

    What it writes until it commits at [now], with every drawn id [fresh]. *)
Section solo.
Context (now : Time) (fresh : string) (d : db).

Fixpoint solo (p : prog bool) (L : list write) (sq : seqs) : option (list write * seqs) :=
  match p with
  | Ret ok => if ok then Some (L, sq) else None
  | NewID k => solo (k fresh) L sq
  | Sql q k =>
      match q now sq (apply_writes d L) with
      | (Ok x, ws, sq) => solo (k (Ok x)) (L ++ ws) sq
      | (Err _, _, _) => None
      end
  end.

Lemma solo_ready p about L sq due L' sq' :
  solo p L sq = Some (L', sq') ->
  rtc step
    {| mc_db := d; mc_seqs := sq; mc_due := due;
       mc_live := {[0%nat := {| lv_code := p; lv_log := L; lv_about := about |}]} |}
    {| mc_db := d; mc_seqs := sq'; mc_due := due;
       mc_live := {[0%nat := {| lv_code := Ret true; lv_log := L'; lv_about := about |}]} |}.
Proof.
  revert L sq. induction p as [ok|k IH|X q k IH]; intros L sq; cbn [solo]; intros E.
  - destruct ok; [|done]. injection E as <- <-. apply rtc_refl.
  - eapply rtc_l; [|by eapply IH].
    match goal with |- step ?m _ => pose proof (step_id m 0 k L about fresh) as H end.
    unfold with_live in H; simpl in H. rewrite insert_singleton_eq in H. apply H.
    by rewrite lookup_singleton_eq.
  - destruct (q now sq (apply_writes d L)) as [[[x|e] ws] sq1] eqn:Eq; [|done].
    eapply rtc_l; [|by eapply IH].
    match goal with |- step ?m _ => pose proof (step_sql m 0 X q k L about now x ws sq1) as H end.
    unfold with_live, with_seqs in H; simpl in H. rewrite insert_singleton_eq in H. apply H; [|done|].
    + by rewrite lookup_singleton_eq.
    + intros j lv Hj. rewrite lookup_singleton_ne; done.
Qed.

Lemma solo_steps p about L sq due L' sq' :
  solo p L sq = Some (L', sq') ->
  rtc step
    {| mc_db := d; mc_seqs := sq; mc_due := due;
       mc_live := {[0%nat := {| lv_code := p; lv_log := L; lv_about := about |}]} |}
    {| mc_db := apply_writes d L'; mc_seqs := sq'; mc_due := due; mc_live := ∅ |}.
Proof.
  intros E. eapply rtc_r; [by eapply solo_ready|].
  match goal with |- step ?m _ => pose proof (step_commit m 0 L' about) as H end.
  unfold with_db, with_live in H; simpl in H. rewrite delete_singleton_eq in H. apply H.
  by rewrite lookup_singleton_eq.
Qed.

(** A first session, about to commit. *)
Definition poised (p : prog bool) (about : origin) (sq : seqs) (due : list Timers.Timer) : machine :=
  match solo p [] sq with
  | Some (L, sq') =>
      {| mc_db := d; mc_seqs := sq'; mc_due := due;
         mc_live := {[0%nat := {| lv_code := Ret true; lv_log := L; lv_about := about |}]} |}
  | None => {| mc_db := d; mc_seqs := sq; mc_due := due; mc_live := ∅ |}
  end.

Definition solo_log (p : prog bool) (sq : seqs) : list write :=
  match solo p [] sq with Some (L, _) => L | None => [] end.

Lemma poised_live p about sq due :
  solo_log p sq <> [] ->
  mc_live (poised p about sq due) !! 0%nat =
    Some {| lv_code := Ret true; lv_log := solo_log p sq; lv_about := about |}.
Proof.
  unfold solo_log, poised. destruct (solo p [] sq) as [[L sq']|]; [|done].
  intros _. apply lookup_singleton_eq.
Qed.

(** From a reachable state with no session, one that begins a transaction. *)
Definition after (p : prog bool) (sq : seqs) (due : list Timers.Timer) : machine :=
  match solo p [] sq with
  | Some (L, sq') => {| mc_db := apply_writes d L; mc_seqs := sq'; mc_due := due; mc_live := ∅ |}
  | None => {| mc_db := d; mc_seqs := sq; mc_due := due; mc_live := ∅ |}
  end.

Lemma after_idle p sq due :
  after p sq due =
    {| mc_db := mc_db (after p sq due); mc_seqs := mc_seqs (after p sq due); mc_due := due;
       mc_live := ∅ |}.
Proof. unfold after. by destruct (solo p [] sq) as [[L sq']|]. Qed.

Lemma begun_reachable p about sq due :
  begins due p about ->
  reachable {| mc_db := d; mc_seqs := sq; mc_due := due; mc_live := ∅ |} ->
  reachable {| mc_db := d; mc_seqs := sq; mc_due := due;
               mc_live := {[0%nat := {| lv_code := p; lv_log := []; lv_about := about |}]} |}.
Proof.
  intros Hb Hr. eapply rtc_r; [exact Hr|].
  match goal with |- step ?m _ => apply (step_begin m 0 p about) end; [apply lookup_empty|done].
Qed.

Lemma after_reachable p about sq due :
  begins due p about ->
  reachable {| mc_db := d; mc_seqs := sq; mc_due := due; mc_live := ∅ |} ->
  reachable (after p sq due).
Proof.
  intros Hb Hr. unfold after. destruct (solo p [] sq) as [[L sq']|] eqn:E; [|done].
  apply (begun_reachable _ _ _ _ Hb) in Hr. unfold reachable in *. etransitivity; [exact Hr|].
  by eapply (solo_steps p about).
Qed.

Lemma poised_reachable p about sq due :
  begins due p about ->
  reachable {| mc_db := d; mc_seqs := sq; mc_due := due; mc_live := ∅ |} ->
  reachable (poised p about sq due).
Proof.
  intros Hb Hr. unfold poised. destruct (solo p [] sq) as [[L sq']|] eqn:E; [|done].
  apply (begun_reachable _ _ _ _ Hb) in Hr. unfold reachable in *. etransitivity; [exact Hr|].
  by eapply (solo_ready p about).
Qed.
End solo.
End machine.
