(* ===== verification/Deadlines.v ===== *)
(** * Deadlines: what every reachable state of the machine satisfies

    The rely of [Isolation.v] is a theorem here, not a hypothesis: whatever the
    sessions of [Sessions.v] do to each other, every stream stays a history of its
    seat, and a seat that is held always has a pending timer that carries the hold's
    id and fires at its deadline, so that no hold outlives its deadline for want of a
    wake-up.  The timer is the last row scheduled for the seat and the hold: a hold
    that is released and taken again under the same id has more than one. *)
From S2P Require Import Prelude Contracts Envelope Database Timers EventStore Inbox Outbox Codec Seat Store Commands Isolation Projection Sessions.

Section deadlines.
Context `{TS : Timestamppb} `{PG : Postgres} `{PJ : !Protojson} `{PJL : !ProtojsonLaws}
  `{EN : !Encoder}.

(** The last timer scheduled for a seat and a hold. *)
Definition last_timer (seat hold : string) (d : db) : option timer_row :=
  last (filter (fun r => tm_subject r = seat /\ tm_token r = hold) (timers d)).

(** Every held seat waits for its deadline. *)
Definition timed (d : db) : Prop := forall seat,
  let s := state_of seat d in
  st_Status s = StatusHeld ->
  exists r, last_timer seat (st_HoldID s) d = Some r /\ Timers.pending r = true /\
    tm_fire_at r = timestamptz (st_ExpiresAt s).

(** What the service's transactions keep of the committed state. *)
Definition sound (d : db) : Prop := consistent d /\ timed d /\ NoDup (Timers.timer_ids d).

(** A due timer that a held seat is waiting for. *)
Definition awaited (t : Timers.Timer) (d : db) : Prop :=
  let s := state_of (Timers.t_Subject t) d in
  st_Status s = StatusHeld /\ st_HoldID s = Timers.t_Token t /\
  exists r, last_timer (Timers.t_Subject t) (Timers.t_Token t) d = Some r /\
    tm_id r = Timers.t_ID t.

(** What a session may rely on while it runs for the timer [about]. *)
Definition respects (about : origin) (L : list write) (d d' : db) : Prop :=
  respects_streams L d d' /\ (sound d -> sound d') /\
  (forall t, about = OfTimer t -> sound d -> ~ awaited t d -> ~ awaited t d').

(** The writes to the timers. *)
Definition timer_write (w : write) : option write :=
  match w with WTimer _ | WFired _ _ | WDeleteTimers _ => Some w | _ => None end.
Definition timer_writes (L : list write) : list write := omap timer_write L.

(** A transaction ready to commit: one stream continued by at most one event, with the
    timers its events ask for; or for a due timer, its claim, and then the expiry
    of its hold unless nobody waits for it. *)
Definition ready (about : origin) (L : list write) (d : db) : Prop :=
  exists id add, appends id add L d /\ (length add <= 1)%nat /\
    ((exists rs, timer_writes L = WTimer <$> rs /\
        Forall2 (fun t r => Timers.scheduled_as (tmr_FireAt t) id (tmr_Token t) r)
          (omap asks add) rs) \/
     (exists t at_, about = OfTimer t /\ timer_writes L = [WFired (Timers.t_ID t) at_] /\
        ((id = Timers.t_Subject t /\ exists x, add = [MSeatHoldExpired x]) \/
         (add = [] /\ ~ awaited t d)))).

(** ** Lemmas: timers of a state *)
Lemma timer_writes_app L1 L2 : timer_writes (L1 ++ L2) = timer_writes L1 ++ timer_writes L2.
Proof. apply omap_app. Qed.

Lemma timer_writes_none L : Forall (fun w => timer_write w = None) L -> timer_writes L = [].
Proof.
  induction 1 as [|w L Hw _ IH]; [done|]. unfold timer_writes in *. simpl. by rewrite Hw.
Qed.

Lemma timer_write_elem r L : WTimer r ∈ timer_writes L -> WTimer r ∈ L.
Proof. intros (w & Hw & E)%list_elem_of_omap. destruct w; simplify_eq/=; done. Qed.

Lemma timers_of_writes d d' L :
  timers d = timers d' -> timers (apply_writes d L) = timers (apply_writes d' (timer_writes L)).
Proof.
  revert d d'. induction L as [|w L IH]; intros d d' Hd; [done|]. rewrite apply_writes_cons.
  unfold timer_writes; simpl. destruct (timer_write w) as [w'|] eqn:E.
  - rewrite apply_writes_cons. apply IH. destruct w; simpl in *; simplify_eq; simpl; congruence.
  - apply IH. by destruct w.
Qed.

Lemma last_timer_same seat hold d d' :
  timers d' = timers d -> last_timer seat hold d' = last_timer seat hold d.
Proof. unfold last_timer. by intros ->. Qed.

Lemma last_timer_elem seat hold d r :
  last_timer seat hold d = Some r -> r ∈ timers d /\ tm_subject r = seat /\ tm_token r = hold.
Proof.
  unfold last_timer. intros Hr. apply last_Some_elem_of, list_elem_of_filter in Hr. tauto.
Qed.

(** A row appended; a row marked; rows deleted. *)
Lemma last_timer_snoc seat hold d d' r :
  timers d' = timers d ++ [r] ->
  last_timer seat hold d' =
    if decide (tm_subject r = seat /\ tm_token r = hold) then Some r else last_timer seat hold d.
Proof.
  unfold last_timer. intros ->. rewrite filter_app. case_decide as E.
  - rewrite filter_cons_True, filter_nil by done. apply last_snoc.
  - rewrite filter_cons_False, filter_nil by done. by rewrite app_nil_r.
Qed.

Lemma last_timer_marked seat hold d d' id at_ :
  timers d' = mark_fired_row id at_ <$> timers d ->
  (forall r, last_timer seat hold d = Some r -> tm_id r <> id) ->
  last_timer seat hold d' = last_timer seat hold d.
Proof.
  unfold last_timer. intros -> Hr.
  rewrite filter_fmap_same by (intros r; unfold mark_fired_row; by case_bool_decide).
  rewrite fmap_last. destruct (last _) as [r|]; [|done]. simpl. f_equal.
  unfold mark_fired_row. rewrite bool_decide_eq_false_2; [done|by apply Hr].
Qed.

Lemma last_timer_kept seat hold d d' (P : timer_row -> Prop) `{!forall r, Decision (P r)} r :
  timers d' = filter P (timers d) -> last_timer seat hold d = Some r -> P r ->
  last_timer seat hold d' = Some r.
Proof.
  unfold last_timer. intros ->. generalize (timers d). intros l.
  induction l as [|x l IH] using rev_ind; [done|]. rewrite !filter_app.
  destruct (decide (tm_subject x = seat /\ tm_token x = hold)) as [HQ|HQ].
  - rewrite filter_cons_True, filter_nil, last_snoc by done. intros [= ->] HP.
    rewrite filter_cons_True, filter_nil by done.
    rewrite filter_cons_True, filter_nil by done. apply last_snoc.
  - rewrite filter_cons_False, filter_nil, app_nil_r by done. intros Hl HP.
    rewrite filter_cons, filter_nil. case_decide.
    + rewrite filter_cons_False, filter_nil, app_nil_r by done. by apply IH.
    + rewrite filter_nil, app_nil_r. by apply IH.
Qed.

(** ** Lemmas: what a commit makes of a stream and its timer *)
Section commit.
Context (about : origin) (L : list write) (d : db).
Hypothesis Hready : ready about L d.
Hypothesis Hread : forall t r, about = OfTimer t -> r ∈ timers d -> reads t r.

Lemma ready_consistent : consistent d /\ consistent (apply_writes d L).
Proof.
  destruct Hready as (id & add & Ha & _). split; [apply Ha|by eapply appends_commit].
Qed.

(** The timers of the committed state. *)
Lemma commit_timers :
  exists ws, timers (apply_writes d L) = timers (apply_writes d ws) /\ timer_writes L = ws.
Proof. eexists. split; [by apply timers_of_writes|done]. Qed.

(** A stream that the commit leaves alone, or continues by one event. *)
Lemma commit_streams id add seat :
  appends id add L d -> (length add <= 1)%nat ->
  (stream_rows seat (apply_writes d L) = stream_rows seat d /\ (seat <> id \/ add = [])) \/
  (seat = id /\ exists e, add = [e] /\
    Apply (state_of id d) e = Ok (state_of id (apply_writes d L))).
Proof.
  intros Ha Hlen. destruct (decide (seat = id)) as [->|Hne];
    [|left; split; [by eapply other_stream|by left]].
  destruct Ha as [_ [[-> HL]|Hc]].
  { left. split; [|by right]. unfold stream_rows. by rewrite events_apply, HL, app_nil_r. }
  right. split; [done|]. pose proof Hc as (_ & Hne & _ & _ & _ & _ & Hdec & _).
  apply continued_history in Hc as (msgs & H1 & H2).
  destruct add as [|e [|]]; [|..|simpl in Hlen; lia].
  { by apply Forall2_nil_inv_r in Hdec. }
  exists e. split; [done|]. by eapply state_of_append.
Qed.

(** A seat held after it was held before, with the same timer; or its hold was just
    taken, and its timer with it. *)
Lemma commit_held seat :
  let d' := apply_writes d L in
  let s := state_of seat d' in
  st_Status s = StatusHeld ->
  (s = state_of seat d /\ last_timer seat (st_HoldID s) d' = last_timer seat (st_HoldID s) d) \/
  (exists r, last_timer seat (st_HoldID s) d' = Some r /\ WTimer r ∈ L /\ Timers.pending r = true /\
    tm_fire_at r = timestamptz (st_ExpiresAt s)).
Proof.
  intros d' s Hheld. destruct Hready as (id & add & Ha & Hlen & Ht).
  destruct commit_timers as (ws & Htd & Hws). rewrite Hws in Ht.
  destruct (commit_streams id add seat Ha Hlen) as [[Hr Hadd]|(-> & e & -> & Happ)].
  - left. apply state_of_same in Hr. fold d' s in Hr. split; [done|].
    destruct Ht as [(rs & -> & Hrs)|(t & at_ & Habout & -> & Hfire)].
    + rewrite apply_timer_rows in Htd. simpl in Htd.
      destruct rs as [|r rs]; [by apply last_timer_same; rewrite app_nil_r in Htd|].
      destruct add as [|e [|]]; [by apply Forall2_nil_inv_l in Hrs| |simpl in Hlen; lia].
      destruct Hadd as [Hne|?]; [|done]. simpl in Hrs.
      destruct (asks e); [|by apply Forall2_nil_inv_l in Hrs].
      apply Forall2_cons in Hrs as [(_ & Hs & _) Hrs]. apply Forall2_nil_inv_l in Hrs as ->.
      rewrite (last_timer_snoc _ _ d _ r) by exact Htd. rewrite decide_False; [done|].
      intros [? _]. congruence.
    + apply (last_timer_marked _ _ _ _ (Timers.t_ID t) at_); [exact Htd|].
      intros r Hl Hid. pose proof (last_timer_elem _ _ _ _ Hl) as (Hin & Hs & Htok).
      destruct (Hread t r Habout Hin Hid) as [Hs' Htok'].
      destruct Hfire as [[-> (x & ->)]|[_ Hna]]; [destruct Hadd; [congruence|done]|].
      apply Hna. unfold awaited. rewrite <- Hs', <- Htok', Hs, Htok, <- Hr. eauto.
  - destruct Ht as [(rs & -> & Hrs)|(t & at_ & _ & _ & [[_ (x & [= ->])]|[? _]])]; [| |done].
    2:{ simpl in Happ. injection Happ as Happ. fold d' s in Happ. by rewrite <- Happ in Hheld. }
    fold d' s in Happ. rewrite apply_timer_rows in Htd. simpl in Htd.
    destruct e; simpl in Happ; try done; injection Happ as Happ;
      try (rewrite <- Happ in Hheld; done).
    right. simpl in Hrs. inversion Hrs as [|? r ? rs' (Hf & Hs & Htok & Hp) Hrs']; subst rs.
    inversion Hrs'; subst rs'. exists r. rewrite <- Happ. simpl in *. split_and!.
    + rewrite (last_timer_snoc _ _ d _ r) by exact Htd. by rewrite decide_True.
    + apply timer_write_elem. rewrite Hws. by left.
    + done.
    + done.
Qed.

Hypothesis Hfresh : forall r r', WTimer r ∈ L -> r' ∈ timers d -> tm_id r' <> tm_id r.

Lemma commit_timer_ids : NoDup (Timers.timer_ids d) -> NoDup (Timers.timer_ids (apply_writes d L)).
Proof.
  intros Hnd. destruct Hready as (id & add & _ & Hlen & Ht). destruct commit_timers as (ws & Htd & Hws).
  unfold Timers.timer_ids. rewrite Htd. rewrite Hws in Ht.
  destruct Ht as [(rs & -> & Hrs)|(t & at_ & _ & -> & _)].
  - rewrite apply_timer_rows. simpl. destruct rs as [|r rs]; [by rewrite app_nil_r|].
    destruct add as [|e [|]]; [by apply Forall2_nil_inv_l in Hrs| |simpl in Hlen; lia].
    simpl in Hrs. destruct (asks e); [|by apply Forall2_nil_inv_l in Hrs].
    apply Forall2_cons in Hrs as [_ Hrs]. apply Forall2_nil_inv_l in Hrs as ->.
    rewrite fmap_app. apply NoDup_app. split_and!; [done| |apply NoDup_singleton].
    intros i (r' & -> & Hr')%list_elem_of_fmap Hi%list_elem_of_singleton.
    apply (Hfresh r r'); [|done|done]. apply timer_write_elem. rewrite Hws. by left.
  - destruct (Timers.marked_timers (Timers.t_ID t) at_ d (apply_writes d [WFired (Timers.t_ID t) at_]))
      as (E & _); [done|]. unfold Timers.timer_ids in *. by rewrite E.
Qed.

Lemma commit_sound : sound d -> sound (apply_writes d L).
Proof.
  intros (_ & Htm & Hnd). split; [apply ready_consistent|]. split; [|by apply commit_timer_ids].
  intros seat s Hs. destruct (commit_held seat Hs) as [[Hst Hl]|(r & ? & _ & ? & ?)]; [|by exists r].
  fold s in Hst, Hl. rewrite Hl, Hst. apply Htm. by rewrite <- Hst.
Qed.

Lemma commit_unawaited t :
  (forall r, WTimer r ∈ L -> Timers.t_ID t <> tm_id r) ->
  ~ awaited t d -> ~ awaited t (apply_writes d L).
Proof.
  intros Hid Hna (Hs & Hh & r & Hr & Hrid). apply Hna.
  destruct (commit_held _ Hs) as [[Hst Hl]|(r' & Hr' & Hin & _)]; rewrite Hh in *.
  - unfold awaited. rewrite <- Hst. split_and!; [done..|]. exists r. by rewrite <- Hl.
  - rewrite Hr in Hr'. injection Hr' as ->. by destruct (Hid r' Hin).
Qed.
End commit.

(** ** Lemmas: what housekeeping makes of them *)
Section housekeeping.
Context (d d' : db) (gone : timer_row -> Prop) `{!forall r, Decision (gone r)}.
Hypothesis Hev : events d' = events d.
Hypothesis Htm : timers d' = filter (fun r => ~ gone r) (timers d).
Hypothesis Hgone : sound d -> forall r, r ∈ timers d -> gone r -> Timers.pending r = false.

Lemma kept_state seat : state_of seat d' = state_of seat d.
Proof. apply state_of_same. unfold stream_rows. by rewrite Hev. Qed.

Lemma kept_timer seat :
  sound d -> st_Status (state_of seat d) = StatusHeld ->
  last_timer seat (st_HoldID (state_of seat d)) d' = last_timer seat (st_HoldID (state_of seat d)) d.
Proof.
  intros Hd Hs. destruct Hd as (Hc & Ht & Hnd). destruct (Ht seat Hs) as (r & Hl & Hp & _).
  rewrite Hl. eapply last_timer_kept; [exact Htm|exact Hl|]. intros Hg.
  rewrite (Hgone (conj Hc (conj Ht Hnd)) r) in Hp; [done| |done]. by eapply last_timer_elem.
Qed.

Lemma kept_sound : sound d -> sound d'.
Proof.
  intros Hd. pose proof Hd as (Hc & Ht & Hnd). split_and!.
  - intros id. destruct (Hc id) as [msgs Hh]. exists msgs. eapply same_stream_holds; [|done].
    unfold stream_rows. by rewrite Hev.
  - intros seat s. subst s. rewrite kept_state. intros Hs. rewrite kept_timer by done. by apply Ht.
  - unfold Timers.timer_ids. rewrite Htm. eapply sublist_NoDup; [exact Hnd|].
    apply fmap_sublist, sublist_filter.
Qed.

Lemma kept_unawaited t : sound d -> ~ awaited t d -> ~ awaited t d'.
Proof.
  intros Hd Hna (Hs & Hh & Hr). apply Hna. rewrite kept_state in Hs, Hh. split_and!; [done..|].
  pose proof (kept_timer _ Hd Hs) as E. rewrite Hh in E. by rewrite E in Hr.
Qed.
End housekeeping.

(** ** Lemmas: the transactions get ready *)
Lemma respects_streams_refl L d : respects_streams L d d.
Proof.
  split; [done|]. exists []. rewrite app_nil_r. split; [done|]. by intros r r' _ ?%elem_of_nil.
Qed.

Lemma respects_refl about L d : respects about L d d.
Proof. split; [apply respects_streams_refl|]. split; [done|]. auto. Qed.

Lemma respects_trans about L d1 d2 d3 :
  respects about L d1 d2 -> respects about L d2 d3 -> respects about L d1 d3.
Proof.
  intros ([H1 (n1 & E1 & K1)] & S1 & A1) ([H2 (n2 & E2 & K2)] & S2 & A2). split_and!; [|by auto|].
  - split; [by auto|]. exists (n1 ++ n2). rewrite E2, E1, app_assoc. split; [done|].
    intros r r' Hr [Hr'|Hr']%elem_of_app; [by apply K1|by apply K2].
  - intros t Ht Hs Hna. eapply A2; [done|by apply S1|by eapply A1].
Qed.

Lemma ready_stable about L d d' : respects about L d d' -> sound d -> ready about L d -> ready about L d'.
Proof.
  intros (HR & _ & HA) Hd (id & add & Ha & Hlen & Ht). exists id, add.
  split; [by eapply appends_stable|]. split; [done|]. destruct Ht as [Ht|(t & at_ & Hab & Hw & Hf)]; [by left|].
  right. exists t, at_. split_and!; [done..|]. destruct Hf as [Hf|[-> Hna]]; [by left|right].
  split; [done|]. by apply (HA t).
Qed.

(** Neither an event nor a timer. *)
Definition silent (w : write) : Prop := log_event w = None /\ timer_write w = None.

Lemma wp_silent {A} (p : prog A) about id add L d :
  emits silent p -> appends id add L d ->
  wp (respects about) p L d (fun _ L' d' =>
    appends id add L' d' /\ timer_writes L' = timer_writes L).
Proof.
  intros Hp Ha. eapply wp_mono.
  { apply wp_conj; [eapply wp_weaken_rely; [by intros ??? [HR _]; exact HR|]; eapply wp_eventless_appends; [|exact Ha]; eapply emits_weaken; [|exact Hp]; by intros w [? _]|].
    by apply (wp_emits _ silent). }
  intros x L' d' [[Ha' _] [(rest & -> & Hrest) _]]. split; [done|].
  rewrite timer_writes_app, (timer_writes_none rest), app_nil_r; [done|].
  eapply Forall_impl; [exact Hrest|]. by intros w [_ Hw].
Qed.

Lemma timer_writes_timers rs : timer_writes (WTimer <$> rs) = WTimer <$> rs.
Proof.
  unfold timer_writes. induction rs as [|r rs IH]; [done|]. simpl. f_equal. exact IH.
Qed.

Lemma timer_writes_events rs : timer_writes (WEvent <$> rs) = [].
Proof. apply timer_writes_none, Forall_fmap, Forall_true. done. Qed.

Lemma wp_scheduleTimers about id add ts L d :
  appends id add L d ->
  wp (respects about) (scheduleTimers id ts) L d (fun r L' d' => is_ok r = true ->
    appends id add L' d' /\ exists rs, L' = L ++ (WTimer <$> rs) /\
      Forall2 (fun t r => Timers.scheduled_as (tmr_FireAt t) id (tmr_Token t) r) ts rs).
Proof.
  unfold scheduleTimers. revert L d. induction ts as [|t ts IH]; intros L d Ha.
  { intros _. split; [done|]. exists []. by rewrite app_nil_r. }
  cbn [tx_each]. apply wp_tx_bind, wp_exec. intros d' now sq (HR & _). cbn.
  set (r := {| tm_id := _ |}). eapply wp_mono.
  { apply (IH (L ++ [WTimer r]) d'). pose proof (appends_stable _ _ _ _ _ HR Ha) as [Hc H].
    split; [done|]. by rewrite log_events_app, app_nil_r. }
  intros x L' d2 H Hx. destruct (H Hx) as (Ha' & rs & -> & Hrs). split; [done|]. exists (r :: rs).
  rewrite <- app_assoc. split; [done|]. constructor; [|done]. done.
Qed.

Lemma silent_announces msgs tmpl : emits silent (ms ← outgoing msgs tmpl; Enqueue ms).
Proof.
  apply each_tx_bind; [apply each_outgoing|]. intros ms.
  apply each_Enqueue; [intros; by apply writes_enqueue|by apply writes_notify].
Qed.

(** The end of a transaction, whose closure returned nil. *)
Definition gets_ready (about : origin) {A} (r : res A) (L : list write) (d : db) : Prop :=
  is_ok r = true -> ready about L d.

(** A transaction that has so far written neither event nor timer. *)
Definition fresh_tx (L : list write) (d : db) : Prop :=
  appends EmptyString [] L d /\ timer_writes L = [].

Lemma fresh_ready about L d : fresh_tx L d -> ready about L d.
Proof.
  intros [Ha Hw]. exists EmptyString, []. split_and!; [done|simpl; lia|]. left. exists [].
  by split; [|constructor].
Qed.

Lemma appends_nothing id L d : appends id [] L d -> log_events L = [].
Proof.
  intros [_ [[_ ?]|(msgs & Hne & _ & _ & _ & _ & Hdec & _)]]; [done|].
  by apply Forall2_nil_inv_r in Hdec.
Qed.

Lemma wp_load about id L d :
  appends EmptyString [] L d ->
  wp (respects about) (LoadSeat id) L d (fun r L' d' =>
    match r with
    | Ok (st, _) => consistent d' /\ log_events L' = [] /\ timer_writes L' = timer_writes L /\
        exists msgs, loaded id d' msgs st
    | Err _ => True
    end).
Proof.
  intros Ha. eapply wp_mono.
  { apply wp_conj; [eapply wp_weaken_rely; [by intros ??? [HR _]; exact HR|]; apply (wp_LoadSeat id)|].
    - by eapply appends_committable.
    - by eapply appends_nothing.
    - apply (wp_emits _ silent). apply each_LoadSeat, writes_load. }
  intros [[st meta]|e] L' d' [H [(rest & -> & Hrest) _]]; [|done]. destruct H as (Hl & Hc & Hld & _).
  split; [by eapply committable_consistent|]. split; [done|]. split; [|done].
  rewrite timer_writes_app, (timer_writes_none rest), app_nil_r; [done|].
  eapply Forall_impl; [exact Hrest|]. by intros w [_ Hw].
Qed.

Lemma wp_append about id msgs st i out meta L d :
  consistent d -> log_events L = [] -> loaded id d msgs st ->
  target i = Ok id -> decide_input st i = Ok out ->
  wp (respects about) (AppendSeat id (st_Version st) (out_Events out) meta) L d
    (fun r L' d' => is_ok r = true ->
      appends id (out_Events out) L' d' /\ timer_writes L' = timer_writes L).
Proof.
  intros Hc HL Hld Ht Hd. eapply wp_mono.
  { eapply wp_weaken_rely; [by intros ??? [HR _]; exact HR|]. by eapply wp_AppendSeat. }
  intros r L' d' H Hr. destruct (H Hr) as (rs & -> & _ & _ & Ha). split; [done|].
  by rewrite timer_writes_app, timer_writes_events, app_nil_r.
Qed.

(** A command. *)
Lemma command_gets_ready about incoming cmd id d :
  consistent d -> SeatID cmd = Ok id ->
  wp (respects about) (apply_command incoming cmd id) [] d (gets_ready about).
Proof.
  intros Hd Hid. unfold apply_command. apply wp_tx_bind. eapply wp_mono.
  { apply (wp_silent _ _ EmptyString []); [|by split; [|left]]. by apply each_MarkConsumed, writes_mark. }
  intros [[|]|e] L d1 [Ha HT]; [|by intros _; apply fresh_ready|done].
  unfold decide_and_write. apply wp_tx_bind. eapply wp_mono; [by apply wp_load|].
  intros [[st meta]|e] L2 d2; [|done]. intros (Hc2 & HL2 & HT2 & msgs & Hl).
  apply wp_lift_bind. destruct (Decide st cmd) as [out|e] eqn:Hdec; [|done].
  apply wp_tx_bind. eapply wp_mono; [by apply (wp_append _ id msgs st (Command cmd) out)|].
  intros [[]|e] L3 d3 H3; [|done]. destruct (H3 eq_refl) as [Ha3 HT3].
  apply wp_tx_bind. eapply wp_mono; [by apply wp_scheduleTimers|].
  intros [[]|e] L4 d4 H4; [|done]. destruct (H4 eq_refl) as [Ha4 (rs & HT4 & Hrs)].
  eapply wp_mono; [apply wp_silent; [apply silent_announces|exact Ha4]|].
  intros r L5 d5 [Ha5 HT5] _. exists id, (out_Events out). split; [done|].
  split; [by apply (decided_one st (Command cmd) id)|]. left. exists rs.
  rewrite (decided_timers st cmd out Hdec) in Hrs. split; [|done].
  by rewrite HT5, HT4, timer_writes_app, timer_writes_timers, HT3, HT2, HT.
Qed.

(** A claim hits one row, or none. *)
Lemma wp_claim about id d :
  sound d ->
  wp (respects about) (Timers.MarkFired id) [] d (fun got L d' =>
    sound d' /\ log_events L = [] /\
    match got with
    | Ok true => exists at_, timer_writes L = [WFired id at_]
    | _ => timer_writes L = []
    end).
Proof.
  intros Hd. unfold Timers.MarkFired. apply wp_tx_bind, wp_exec. intros d' now sq (_ & HS & _).
  specialize (HS Hd). rewrite apply_writes_nil. rewrite Timers.markFiredSQL_cases by apply HS.
  destruct (Timers.is_pending id d'); cbn; (split; [exact HS|]); [|done]. split; [done|]. by eexists.
Qed.

(** The firing of a due timer. *)
Lemma fire_gets_ready t d :
  sound d -> wp (respects (OfTimer t)) (Timers.claim_and_fire Fire t) [] d (gets_ready (OfTimer t)).
Proof.
  intros Hd. unfold Timers.claim_and_fire. apply wp_tx_bind. eapply wp_mono; [by apply wp_claim|].
  intros [[|]|e] L d1 ((Hc1 & _) & HL & HT); [| |done].
  2:{ intros _. apply fresh_ready. by split; [split; [|left]|]. }
  destruct HT as [at_ HT]. apply wp_tx_bind. unfold Fire. apply wp_tx_bind.
  eapply wp_mono; [apply wp_load; by split; [|left]|].
  intros [[st meta]|e] L2 d2; [|done]. intros (Hc2 & HL2 & HT2 & msgs & Hl).
  set (id := Timers.t_Subject t) in *. set (h := Timers.t_Token t). set (out := Expire st id h).
  rewrite HT in HT2. case_bool_decide as Hne.
  - intros _. exists id, []. split; [by split; [|left]|]. split; [simpl; lia|]. right.
    exists t, at_. split_and!; [done..|]. right. split; [done|]. intros (Hs & Hh & _).
    destruct (state_of_loaded id d2 Hc2) as [msgs' Hl'].
    pose proof (loaded_unique _ _ _ _ _ _ Hl Hl') as E. unfold id in E. rewrite E in Hs, Hh.
    revert Hne. unfold out, Expire. rewrite Hs, Hh. by rewrite !bool_decide_eq_false_2 by tauto.
  - assert (exists x, out_Events out = [MSeatHoldExpired x]) as [x Hx].
    { revert Hne. unfold out, Expire. destruct (_ || _); [done|]. intros _. by eexists. }
    apply wp_tx_bind. eapply wp_mono; [by apply (wp_append _ id msgs st (Deadline id h) out)|].
    intros [[]|e] L3 d3 H3; [|done]. destruct (H3 eq_refl) as [Ha3 HT3].
    eapply wp_mono; [apply wp_silent; [apply silent_announces|exact Ha3]|].
    intros [[]|e] L4 d4 [Ha4 HT4]; [|done]. intros _. rewrite Hx in Ha4.
    exists id, [MSeatHoldExpired x]. split_and!; [done|done|]. right. exists t, at_.
    split_and!; [done|congruence|]. left. eauto.
Qed.

(** What touches the view or the outbox alone. *)
Lemma view_gets_ready about (p : tx unit) d :
  consistent d -> emits touches_view p -> wp (respects about) p [] d (gets_ready about).
Proof.
  intros Hd Hp. eapply wp_mono.
  { apply (wp_silent _ _ EmptyString []); [|by split; [|left]]. eapply emits_weaken; [|exact Hp].
    by intros []. }
  intros r L d' [Ha HT] _. by apply fresh_ready.
Qed.

Lemma begins_ready due p about d :
  begins due p about -> sound d ->
  wp (respects about) p [] d (fun ok L d' => ok = true -> ready about L d').
Proof.
  intros Hb Hd. pose proof Hd as [Hc _].
  assert (forall (A : Type) (q : tx A), wp (respects about) q [] d (gets_ready about) ->
    wp (respects about) (transaction q) [] d (fun ok L d' => ok = true -> ready about L d')) as Htx.
  { intros A q Hq. apply wp_bind. eapply wp_mono; [exact Hq|]. done. }
  assert (forall X (q : stmt X), writes_only touches_view X q ->
    (forall now sq d, (q now sq d).2 = sq) -> writes_only touches_view X q) as Hview by done.
  destruct Hb; apply Htx.
  - by apply command_gets_ready.
  - by apply fire_gets_ready.
  - by apply view_gets_ready, each_project.
  - by apply view_gets_ready, each_rebuild.
  - by apply view_gets_ready, each_drain_cycle.
Qed.

(** ** The invariant of the machine *)
Lemma event_locks r r' L L' :
  r ∈ log_events L -> r' ∈ log_events L' ->
  ev_stream_id r = ev_stream_id r' /\ ev_version r = ev_version r' -> waits L L'.
Proof.
  intros (w & Hw & E)%list_elem_of_omap (w' & Hw' & E')%list_elem_of_omap [H1 H2].
  destruct w; simplify_eq/=. destruct w'; simplify_eq/=. eexists _, _, _. split_and!; [done|done|done|].
  simpl. by rewrite H1, H2.
Qed.

(** What housekeeping does to what sessions rely on. *)
Lemma housekeeping_respects q now sq d n ws sq' about L :
  housekeeping q -> q now sq d = (Ok n, ws, sq') -> respects about L d (apply_writes d ws).
Proof.
  intros Hq E. destruct (housekeeping_writes _ _ _ _ _ _ _ Hq E) as (w & -> & Hw).
  set (ids := match w with WDeleteTimers ids => ids | _ => [] end).
  set (d' := apply_writes d [w]).
  assert (events d' = events d) as Hev by by destruct w.
  assert (timers d' = filter (fun r => ~ tm_id r ∈ ids) (timers d)) as Htm.
  { unfold ids. destruct w; try done; symmetry; apply list_filter_all, Forall_true; by intros r ?%elem_of_nil. }
  assert (sound d -> forall r, r ∈ timers d -> tm_id r ∈ ids -> Timers.pending r = false) as Hgone.
  { intros (_ & _ & Hnd) r Hr Hid. unfold ids in Hid. destruct w; try by apply elem_of_nil in Hid.
    destruct (Hw _ Hid) as (r' & Hr' & Heq & Hp). by rewrite (Timers.timer_unique d r r'). }
  split_and!.
  - split; [|exists []; rewrite app_nil_r; split; [exact Hev|by intros r r' _ ?%elem_of_nil]].
    intros Hc id. destruct (Hc id) as [msgs Hh]. exists msgs. eapply same_stream_holds; [|done].
    unfold stream_rows. by rewrite Hev.
  - intros Hd. by apply (kept_sound d d' (fun r => tm_id r ∈ ids) Hev Htm Hgone).
  - intros t _ Hd. by apply (kept_unawaited d d' (fun r => tm_id r ∈ ids) Hev Htm Hgone).
Qed.

Lemma sound_start : sound empty_db.
Proof.
  split_and!; [|by intros seat s|constructor]. intros id. exists [].
  split; [done|]. split; [constructor|]. split; [constructor|done].
Qed.

(** A commit keeps the state sound, and to what the other sessions rely on. *)
Lemma commit_guarantee m i L about :
  ids_ok m -> sound (mc_db m) ->
  mc_live m !! i = Some {| lv_code := Ret true; lv_log := L; lv_about := about |} ->
  ready about L (mc_db m) ->
  sound (apply_writes (mc_db m) L) /\
  forall j lv, j <> i -> mc_live m !! j = Some lv ->
    respects (lv_about lv) (lv_log lv) (mc_db m) (apply_writes (mc_db m) L).
Proof.
  intros Hids Hs Hi Hr. set (lv0 := {| lv_code := Ret true; lv_log := L; lv_about := about |}) in *.
  assert (forall t r, about = OfTimer t -> r ∈ timers (mc_db m) -> reads t r) as Hread.
  { intros t r Ht Hin. eapply (ids_read m Hids); [|done]. by apply (ids_about m Hids i lv0). }
  assert (sound (apply_writes (mc_db m) L)) as Hs'.
  { apply (commit_sound _ _ _ Hr Hread); [|done]. intros r r' Hin Hin'. by apply (ids_log m Hids i lv0). }
  split; [done|]. intros j lv Hij Hj. split_and!; [|done|].
  - split; [intros _; apply Hs'|]. exists (log_events L).
    split; [apply events_apply|]. intros r r' Hin Hin' He.
    apply (ids_apart m Hids j i lv lv0); [done..|]. by eapply event_locks.
  - intros t Ht _. apply (commit_unawaited about _ _ Hr Hread). intros r Hin.
    apply (ids_log m Hids i lv0); [done..|]. by apply (ids_about m Hids j lv).
Qed.

Lemma reachable_sound m :
  reachable m ->
  sound (mc_db m) /\
  forall i lv, mc_live m !! i = Some lv -> on_course sound respects ready (mc_db m) lv.
Proof.
  apply reachable_invariant.
  - apply respects_refl.
  - apply respects_trans.
  - apply ready_stable.
  - apply sound_start.
  - apply begins_ready.
  - intros m' i L about Hm Hs Hi Hr. 
    apply (commit_guarantee m' i L about); try done. by apply reachable_ids.
  - intros q now sq d n ws sq' Hq E Hd. split; [|intros about L; by eapply housekeeping_respects].
    by eapply (housekeeping_respects _ _ _ _ _ _ _ OfUpkeep []).
Qed.

(** A session about to commit is ready to. *)
Lemma reachable_ready m i L about :
  reachable m ->
  mc_live m !! i = Some {| lv_code := Ret true; lv_log := L; lv_about := about |} ->
  ready about L (mc_db m).
Proof.
  intros Hm Hi. eapply (on_course_ready sound respects); [apply ready_stable|].
  by eapply (reachable_sound m Hm).
Qed.

(** Versions that are unique within each stream. *)
Lemma stream_versions_unique (rows : list event_row) :
  (forall id, NoDup (ev_version <$> filter (fun r => ev_stream_id r = id) rows)) ->
  NoDup ((fun r => (ev_stream_id r, ev_version r)) <$> rows).
Proof.
  induction rows as [|r rows IH]; intros H; [constructor|]. apply NoDup_cons. split.
  - intros (r' & [= Hid Hv] & Hr')%list_elem_of_fmap. specialize (H (ev_stream_id r)).
    rewrite filter_cons_True in H by done. apply NoDup_cons in H as [Hn _]. apply Hn.
    rewrite Hv. apply list_elem_of_fmap_2, list_elem_of_filter. done.
  - apply IH. intros id. specialize (H id). rewrite filter_cons in H.
    case_decide; [by apply NoDup_cons in H as [_ ?]|done].
Qed.

(** ** Properties *)

(** C1: no seat is sold twice, in any reachable state.  However commands, expiries,
    projections, rebuilds, outbox cycles and housekeeping of any number of processes
    interleave, fail or are rolled back, every stream is a history of its seat: its
    versions have no gap, it folds, and in it one hold is taken only after the one
    before it was released or expired. *)
Theorem no_seat_sold_twice (m : machine) (seat : string) :
  reachable m ->
  exists msgs, holds_history seat (mc_db m) msgs /\ alternates None msgs = true /\
    Fold msgs = Ok (state_of seat (mc_db m)).
Proof.
  intros [[Hc _] _]%reachable_sound. destruct (consistent_alternates _ Hc seat) as (msgs & Hh & Ha).
  exists msgs. split; [done|]. split; [done|]. by apply state_of_fold.
Qed.

(** C15: the log is well typed.  In every reachable state the events have distinct keys
    (stream, version); every version is a positive [INTEGER]; and every row decodes, to a
    seat event about the seat whose stream it is in. *)
Theorem events_are_typed (m : machine) :
  reachable m ->
  NoDup ((fun r => (ev_stream_id r, ev_version r)) <$> events (mc_db m)) /\
  forall r, r ∈ events (mc_db m) ->
    1 <= ev_version r < 2 ^ 31 /\
    exists e, Decode (row_event r) = Ok e /\ is_seat_event e = true /\
      event_seat e = Some (ev_stream_id r).
Proof.
  intros [[Hc _] _]%reachable_sound. split.
  - apply stream_versions_unique. intros id. destruct (Hc id) as (msgs & Hg & _).
    unfold gapless, stream_rows in Hg. rewrite Hg. apply NoDup_upto.
  - intros r Hr. destruct (Hc (ev_stream_id r)) as (msgs & Hh). pose proof Hh as (Hg & Hd & Hs & Hlen).
    rewrite (holds_history_length _ _ _ Hh) in Hlen.
    assert (r ∈ stream_rows (ev_stream_id r) (mc_db m)) as Hin by by apply list_elem_of_filter.
    split.
    + assert (ev_version r ∈ ev_version <$> stream_rows (ev_stream_id r) (mc_db m)) as Hv
        by by apply list_elem_of_fmap_2.
      rewrite Hg in Hv. apply elem_of_upto in Hv. lia.
    + apply list_elem_of_lookup in Hin as [i Hi].
      destruct (Forall2_lookup_l _ _ _ _ _ Hd Hi) as (e & He & Hdec). exists e.
      apply history_shape in Hs as (_ & Hseat & _). rewrite Forall_lookup in Hseat.
      specialize (Hseat i e He). split; [exact Hdec|]. split; [|exact Hseat]. by destruct e.
Qed.

(** C11: no hold waits for a deadline that is not scheduled.  In every reachable state, a
    seat that is held has a timer that has not fired, for that seat, carrying the id of
    that hold, and due at its deadline; and no two timers have the same id. *)
Theorem held_seats_are_timed (m : machine) (seat : string) :
  reachable m ->
  let s := state_of seat (mc_db m) in
  NoDup (Timers.timer_ids (mc_db m)) /\
  (st_Status s = StatusHeld ->
   exists r, r ∈ timers (mc_db m) /\
     Timers.scheduled_as (st_ExpiresAt s) seat (st_HoldID s) r).
Proof.
  intros [(_ & Ht & Hnd) _]%reachable_sound s. split; [done|]. intros Hs.
  destruct (Ht seat Hs) as (r & Hl & Hp & Hf). exists r.
  apply last_timer_elem in Hl as (? & ? & ?). done.
Qed.
End deadlines.

(** ** Witnesses *)
Module Samples.
Import UnixTimestamps PlainPostgres NumberedJson Store.Samples Commands.Samples.
Definition no_rows : seqs := {| events_seq := 0; outbox_seq := 0; timers_seq := 0 |}.

(** A process alone handles one hold command. *)
Definition one_held : machine :=
  after 5000 "id" empty_db (transaction (apply_command incoming hold seat)) no_rows [].
Lemma one_held_reachable : reachable one_held.
Proof.
  apply (after_reachable _ _ _ _ (OfCommand incoming hold seat)); [by apply begins_command|]. apply rtc_refl.
Qed.
Lemma one_held_is_held : st_Status (state_of seat (mc_db one_held)) = StatusHeld.
Proof. vm_compute. reflexivity. Qed.
End Samples.

Import UnixTimestamps PlainPostgres NumberedJson Store.Samples Commands.Samples Samples.

Lemma no_seat_sold_twice_witness :
  length (events (mc_db one_held)) = 1%nat /\
  exists msgs, holds_history seat (mc_db one_held) msgs /\ alternates None msgs = true.
Proof.
  split; [vm_compute; reflexivity|].
  destruct (no_seat_sold_twice one_held seat one_held_reachable) as (msgs & H1 & H2 & _).
  by exists msgs.
Defined.

Lemma events_are_typed_witness :
  exists e, event_seat e = Some seat /\ is_seat_event e = true.
Proof.
  destruct (events_are_typed one_held one_held_reachable) as [_ H].
  destruct (events (mc_db one_held)) as [|r rows] eqn:E.
  - exfalso. apply (f_equal length) in E. revert E. vm_compute. done.
  - destruct (H r) as (_ & e & _ & H1 & H2); [by left|]. exists e. split; [|exact H1]. rewrite H2.
    apply (f_equal (fmap ev_stream_id)) in E. revert E. vm_compute. by intros [= <- _].
Defined.

Lemma held_seats_are_timed_witness :
  exists r, r ∈ timers (mc_db one_held) /\ tm_token r = "hold-1" /\ Timers.pending r = true.
Proof.
  destruct (held_seats_are_timed one_held seat one_held_reachable) as [_ H].
  destruct (H one_held_is_held) as (r & Hr & _ & _ & Htok & Hp). exists r. split; [exact Hr|].
  split; [|exact Hp]. rewrite Htok. vm_compute. reflexivity.
Defined.
