(* ===== verification/Views.v ===== *)
(** * Views: what the browsing view may show

    The view is eventually consistent: a projection can be late, and a rebuild beside
    other writers can lose a row.  What it can never do, in any reachable state of the
    machine of [Sessions.v], is show what never was: each row is the fold of a prefix of
    its seat's committed stream. *)
From S2P Require Import Prelude Contracts Envelope Database Timers EventStore Inbox Outbox Codec Seat Store Commands Isolation Projection Sessions Deadlines.

Section views.
Context `{TS : Timestamppb} `{PG : Postgres} `{PJ : !Protojson} `{PJL : !ProtojsonLaws}
  `{EN : !Encoder}.

(** The row is what its seat was after the first events of its stream. *)
Definition snapshot (row : availability_row) (d : db) : Prop :=
  exists past later st,
    holds_history (av_seat_id row) d (past ++ later) /\ past <> [] /\ Fold past = Ok st /\
    row = availability_of (av_seat_id row) st /\ av_version row = Z.of_nat (length past).

Definition truthful (d : db) : Prop :=
  sound d /\
  forall seat row, availability d !! seat = Some row -> av_seat_id row = seat /\ snapshot row d.

(** The rows a transaction is about to show. *)
Definition shows (L : list write) (d : db) : Prop :=
  forall row, WAvailability row ∈ L -> snapshot row d.

(** ** Lemmas *)
Lemma snapshot_stays row d d' :
  consistent d' -> grows d d' -> snapshot row d -> snapshot row d'.
Proof.
  intros Hd' [new He] (past & later & st & Hh & H).
  destruct (history_continues _ _ _ _ _ He Hh Hd') as [more Hm].
  exists past, (later ++ more), st. by rewrite app_assoc.
Qed.

Lemma respects_grows about L d d' :
  respects about L d d' -> consistent d -> consistent d' /\ grows d d'.
Proof. intros ([Hc (new & He & _)] & _) Hd. split; [by apply Hc|by exists new]. Qed.

Lemma shows_stays about L L' d d' :
  respects about L d d' -> consistent d -> shows L' d -> shows L' d'.
Proof.
  intros Hr Hd Hs row Hrow. destruct (respects_grows _ _ _ _ Hr Hd). eapply snapshot_stays; [done..|].
  by apply Hs.
Qed.

(** Code that writes no row of the view. *)
Definition unseen (w : write) : Prop := forall row, w <> WAvailability row.

Lemma wp_unseen {A} (p : prog A) about L d :
  emits unseen p -> consistent d -> shows L d ->
  wp (respects about) p L d (fun _ L' d' => consistent d' /\ shows L' d').
Proof.
  unfold emits. revert L d; induction p as [a|k IH|X q k IH]; intros L d Hp Hd Hs; simpl in *;
    [done|intros id; by apply IH|].
  intros d' now sq HR. destruct Hp as [Hq Hk]. specialize (Hq now sq (apply_writes d' L)).
  destruct (q _ _ _) as [[[x|e] ws] ?]; [|done]. apply IH; [done| |].
  - by destruct (respects_grows _ _ _ _ HR Hd).
  - intros row [Hrow|Hrow]%elem_of_app; [by eapply shows_stays|].
    simpl in Hq. rewrite Forall_forall in Hq. by destruct (Hq _ Hrow row).
Qed.

(** A session that has appended nothing. *)
Definition looking (L : list write) (d : db) : Prop :=
  consistent d /\ log_events L = [] /\ shows L d.

Lemma wp_project about id L d :
  looking L d ->
  wp (respects about) (project id) L d (fun r L' d' => is_ok r = true -> looking L' d').
Proof.
  intros (Hd & HL & Hs). unfold project. apply wp_tx_bind. eapply wp_mono.
  { apply wp_conj; [apply wp_load; by split; [|left]|].
    apply wp_unseen; [|exact Hd|exact Hs]. apply each_LoadSeat, writes_load. }
  intros [[st meta]|e] L2 d2 [H (_ & Hs2)]; [|done]. destruct H as (Hc2 & HL2 & _ & msgs & Hl).
  destruct (st_Version st =? 0) eqn:Hv; [by intros _|].
  apply wp_exec. intros d3 now sq HR. destruct (respects_grows _ _ _ _ HR Hc2) as [Hc3 Hg].
  assert (snapshot (availability_of id st) d3) as Hsnap.
  { eapply snapshot_stays; [done..|]. pose proof (loaded_version _ _ _ _ Hl) as Hr.
    destruct Hl as (Hh & Hf & _ & Hvs). pose proof (holds_history_length _ _ _ Hh) as Hlen.
    exists msgs, [], st. rewrite app_nil_r. split; [exact Hh|].
    split; [|split_and!; [done|done|simpl; lia]]. intros ->. simpl in Hlen. lia. }
  unfold upsertAvailabilitySQL. destruct (negb _); [done|].
  assert (forall ws, Forall (eq (WAvailability (availability_of id st))) ws -> looking (L2 ++ ws) d3) as Hok.
  { intros ws Hws. rewrite Forall_forall in Hws. split; [done|]. split.
    - rewrite log_events_app, HL2. apply log_events_none, Forall_forall. by intros w <-%Hws.
    - intros row [Hrow|Hrow]%elem_of_app; [by eapply shows_stays|].
      apply Hws in Hrow. by injection Hrow as <-. }
  destruct (availability _ !! _) as [r|]; [destruct (_ <? _)|]; intros _; apply Hok; by repeat constructor.
Qed.

Lemma wp_project_each about ids L d :
  looking L d ->
  wp (respects about) (tx_each project ids) L d (fun r L' d' => is_ok r = true -> looking L' d').
Proof.
  revert L d. induction ids as [|id ids IH]; intros L d Hl; cbn [tx_each]; [by intros _|].
  apply wp_tx_bind. eapply wp_mono; [by apply wp_project|].
  intros [[]|e] L' d' H; [|done]. by apply IH, H.
Qed.

Lemma wp_looking {A} (p : prog A) about L d :
  emits (fun w => unseen w /\ log_event w = None) p -> looking L d ->
  wp (respects about) p L d (fun _ L' d' => looking L' d').
Proof.
  intros Hp (Hd & HL & Hs). eapply wp_mono.
  { apply wp_conj; [apply wp_unseen; [eapply emits_weaken; [|exact Hp]; by intros w []|done|done]|].
    apply (wp_emits _ (fun w => log_event w = None)). eapply emits_weaken; [|exact Hp]. by intros w []. }
  intros a L' d' [[Hd' Hs'] [(rest & -> & Hrest) _]]. split; [done|]. split; [|done].
  by rewrite log_events_app, HL, log_events_none.
Qed.

Lemma wp_rebuild about d :
  looking [] d ->
  wp (respects about) rebuild [] d (fun r L' d' => is_ok r = true -> looking L' d').
Proof.
  intros Hl. unfold rebuild. apply wp_tx_bind. eapply wp_mono.
  { apply wp_looking; [|exact Hl]. apply each_exec. intros now sq d0. constructor. }
  intros [ids|e] L1 d1 H1; [|done]. apply wp_tx_bind. eapply wp_mono.
  { apply wp_looking; [|exact H1]. apply each_exec. intros now sq d0. by repeat constructor. }
  intros [[]|e] L2 d2 H2; [|done]. by apply wp_project_each.
Qed.

(** Every transaction of the service shows what was. *)
Lemma begins_shows due p about d :
  begins due p about -> consistent d ->
  wp (respects about) p [] d (fun ok L d => ok = true -> shows L d).
Proof.
  intros Hb Hd.
  assert (shows [] d) as H0 by by intros row ?%elem_of_nil.
  assert (looking [] d) as Hlook by done.
  assert (forall (A : Type) (q : tx A), emits unseen q ->
    wp (respects about) (transaction q) [] d (fun ok L d => ok = true -> shows L d)) as Hun.
  { intros A q Hq. eapply wp_mono; [apply wp_unseen; [by apply each_transaction|done|done]|].
    by intros ok L d' [_ Hs] _. }
  assert (forall (A : Type) (q : tx A),
    wp (respects about) q [] d (fun r L d' => is_ok r = true -> looking L d') ->
    wp (respects about) (transaction q) [] d (fun ok L d => ok = true -> shows L d)) as Hlk.
  { intros A q Hq. apply wp_bind. eapply wp_mono; [exact Hq|]. intros r L d' H Hr. by apply H. }
  destruct Hb as [incoming cmd id _|t _|id| |locked published].
  - apply Hun, each_apply_command; [intros; by apply writes_mark|apply writes_load|by apply writes_decision].
  - apply Hun, each_claim_and_fire; [intros; by apply writes_markFired|intros; apply writes_load|].
    intros. by apply writes_decision.
  - by apply Hlk, wp_project.
  - by apply Hlk, wp_rebuild.
  - apply Hun. unfold drain_cycle, claim. apply each_tx_bind.
    + apply each_tx_bind; [|done]. apply each_exec. intros now sq d0. constructor.
    + intros claimed. case_bool_decide; [done|]. apply each_tx_bind; [done|]. intros _.
      apply each_exec. intros now sq d0. by repeat constructor.
Qed.

(** The rows of the view after a commit. *)
Lemma view_rows d L seat row :
  availability (apply_writes d L) !! seat = Some row ->
  availability d !! seat = Some row \/ (WAvailability row ∈ L /\ av_seat_id row = seat).
Proof.
  revert d. induction L as [|w L IH]; intros d; [by left|].
  rewrite apply_writes_cons. intros [H|[H ?]]%IH; [|right; split; [by right|done]].
  destruct w; simpl in H; try by left.
  - rewrite lookup_insert in H. case_decide as E; [|by left].
    injection H as <-. right. by split; [left|].
  - rewrite foldr_delete_lookup in H. case_bool_decide; [done|by left].
Qed.

Lemma truthful_grows d d' :
  truthful d -> sound d' -> grows d d' ->
  (forall seat row, availability d' !! seat = Some row ->
     availability d !! seat = Some row \/ (snapshot row d /\ av_seat_id row = seat)) ->
  truthful d'.
Proof.
  intros [Hs Hd] Hs' Hg Hrows. split; [done|]. intros seat row Hrow.
  destruct (Hrows seat row Hrow) as [Hr|[Hr Hid]].
  - destruct (Hd seat row Hr) as [Hid Hsnap]. split; [done|]. by eapply snapshot_stays; [apply Hs'|..].
  - split; [done|]. by eapply snapshot_stays; [apply Hs'|..].
Qed.

Lemma reachable_truthful m : reachable m -> truthful (mc_db m).
Proof.
  intros Hm. eapply (reachable_invariant truthful respects (fun _ => shows)); [..|exact Hm]; clear m Hm.
  - apply respects_refl.
  - apply respects_trans.
  - intros about L d d' HR [[Hc _] _]. by eapply shows_stays.
  - split; [apply sound_start|]. intros seat row Hrow. cbn in Hrow. by apply lookup_empty_Some in Hrow.
  - intros due p about d Hb [[Hc _] _]. by eapply begins_shows.
  - intros m i L about Hm Hd Hi Hq. destruct (commit_guarantee m i L about) as [Hs Hj];
      [by apply reachable_ids|apply Hd|done|by eapply reachable_ready|].
    split; [|exact Hj]. eapply truthful_grows; [exact Hd|exact Hs|by eexists; apply events_apply|].
    intros seat row [Hr|[Hr ?]]%view_rows; [by left|right]. split; [by apply Hq|done].
  - intros q now sq d n ws sq' Hq E Hd.
    assert (forall about L, respects about L d (apply_writes d ws)) as HR
      by (intros about L; by eapply housekeeping_respects).
    split; [|done]. pose proof (HR OfUpkeep []) as (Hr & Hsd & _).
    eapply truthful_grows; [exact Hd|by apply Hsd, Hd|by destruct Hr as [_ (new & ? & _)]; exists new|].
    intros seat row [Hrow|[Hrow _]]%view_rows; [by left|].
    destruct (housekeeping_writes _ _ _ _ _ _ _ Hq E) as (w & -> & Hw).
    apply list_elem_of_singleton in Hrow as <-. done.
Qed.

(** ** Properties *)

(** C14: the view never shows what never was.  In every reachable state, whatever
    projections and rebuilds run beside each other and beside writers, a row of the view
    is the fold of a non-empty prefix of its seat's stream, and its version is the length
    of that prefix: it may lag behind the stream, and never runs ahead of it. *)
Theorem view_shows_the_past (m : machine) (seat : string) (row : availability_row) :
  reachable m -> availability (mc_db m) !! seat = Some row ->
  exists past later st,
    holds_history seat (mc_db m) (past ++ later) /\ past <> [] /\ Fold past = Ok st /\
    row = availability_of seat st /\ av_version row = Z.of_nat (length past).
Proof. intros [_ H]%reachable_truthful Hrow. by destruct (H seat row Hrow) as [<- ?]. Qed.
End views.

(** ** Witness *)
Module Samples.
Import UnixTimestamps PlainPostgres NumberedJson Store.Samples Commands.Samples Deadlines.Samples.

(** The held seat of [Deadlines.Samples], projected. *)
Definition one_shown : machine :=
  after 5000 "id" (mc_db one_held) (transaction (project seat)) (mc_seqs one_held) [].
Lemma one_shown_reachable : reachable one_shown.
Proof.
  apply (after_reachable _ _ _ _ OfUpkeep); [constructor|]. unfold one_held. rewrite <- after_idle.
  apply one_held_reachable.
Qed.
Definition shown : availability_row := availability_of seat taken.
End Samples.

Import UnixTimestamps PlainPostgres NumberedJson Store.Samples Samples.

Lemma view_shows_the_past_witness :
  exists past later, holds_history seat (mc_db one_shown) (past ++ later) /\ length past = 1%nat.
Proof.
  destruct (view_shows_the_past one_shown seat shown one_shown_reachable) as (past & later & st & H1 & _ & _ & _ & H2).
  - vm_compute. reflexivity.
  - exists past, later. split; [exact H1|]. change (av_version shown) with 1 in H2. lia.
Defined.
