(* ===== verification/Overdue.v ===== *)
(** * Overdue: the scheduler frees what is overdue

    The liveness of holds: from a reachable state of the machine of [Sessions.v], over a
    connection that works, the turns of [Run] fire the due timers a batch at a time, the
    earliest first, until no seat is held past its deadline; and a hold ends only where a timer of that very
    hold has come due, and no other seat changes. *)
From S2P Require Import Prelude Contracts Envelope Database Timers EventStore Inbox Outbox Codec Seat Store Commands Isolation Projection Sessions Deadlines.

Section overdue.
Context `{TS : Timestamppb} `{PG : Postgres} `{PJ : !Protojson} `{PJL : !ProtojsonLaws}
  `{EN : !Encoder}.

(** The expiry of the seat can be stored and announced. *)
Definition expirable (seat : string) (s : SeatState) : bool :=
  let out := Expire s seat (st_HoldID s) in
  negb (bool_decide (seat = "")) && (st_Version s <? 2 ^ 31 - 1) &&
  forallb storable (out_Events out) && forallb framable (Messages out).

(** ** Lemmas: one deadline *)
Lemma expiry_log_events t at_ evs obs : log_events (expiry_log t at_ evs obs) = evs.
Proof.
  unfold expiry_log. rewrite !log_events_app, log_events_rows.
  rewrite (log_events_none (WOutbox <$> obs)) by (apply Forall_fmap, Forall_true; done).
  simpl. by destruct (bool_decide _); rewrite app_nil_r.
Qed.

Lemma expiry_log_timers t at_ evs obs :
  timer_writes (expiry_log t at_ evs obs) = [WFired (Timers.t_ID t) at_].
Proof.
  unfold expiry_log. rewrite !timer_writes_app.
  rewrite (timer_writes_none (WEvent <$> evs)) by (apply Forall_fmap, Forall_true; done).
  rewrite (timer_writes_none (WOutbox <$> obs)) by (apply Forall_fmap, Forall_true; done).
  by destruct (bool_decide _).
Qed.

Lemma expiry_log_schedules t at_ evs obs r : WTimer r ∉ expiry_log t at_ evs obs.
Proof.
  intros Hr. assert (WTimer r ∈ timer_writes (expiry_log t at_ evs obs)) as H.
  { apply list_elem_of_omap. by exists (WTimer r). }
  rewrite expiry_log_timers in H. by apply list_elem_of_singleton in H.
Qed.

(** What the transaction of a deadline commits is what the machine's sessions do. *)
Lemma expiry_ready t msgs st d meta at_ evs obs :
  let id := Timers.t_Subject t in
  let out := Expire st id (Timers.t_Token t) in
  consistent d -> loaded id d msgs st ->
  Forall2 (holds_event id meta) (out_Events out) evs ->
  ev_version <$> evs = upto (Z.of_nat (length msgs) + 1) (length (out_Events out)) ->
  (out_Events out <> [] -> Z.of_nat (length msgs) + Z.of_nat (length (out_Events out)) < 2 ^ 31) ->
  ready (OfTimer t) (expiry_log t at_ evs obs) d.
Proof.
  intros id out Hc Hl He Hv Hlen. exists id, (out_Events out). pose proof Hl as (Hh & Hf & _).
  destruct (decide (out_Events out = [])) as [Hnil|Hsome].
  - rewrite Hnil in *. apply Forall2_nil_inv_l in He as ->. split; [|split; [simpl; lia|right]].
    { split; [done|]. left. by rewrite expiry_log_events. }
    exists t, at_. split; [done|]. split; [apply expiry_log_timers|]. right. split; [done|].
    intros (Hs & Hh' & _). destruct (state_of_loaded id d Hc) as [msgs' Hl'].
    pose proof (loaded_unique _ _ _ _ _ _ Hl Hl') as E. fold id in Hs, Hh'. rewrite E in Hs, Hh'.
    revert Hnil. unfold out, Expire. rewrite Hs, Hh'. by rewrite !bool_decide_eq_false_2 by tauto.
  - assert (exists x, out_Events out = [MSeatHoldExpired x]) as [x Hx].
    { revert Hsome. unfold out, Expire. destruct (_ || _); [done|]. intros _. by eexists. }
    split; [|split; [by rewrite Hx|right]].
    + split; [done|]. right. rewrite expiry_log_events. exists msgs.
      split; [by intros ->; apply Forall2_nil_inv_r in He|]. split; [exact Hh|].
      split; [apply (history_step id msgs st (Deadline id (Timers.t_Token t))); [apply Hh|done..]|].
      split_and!.
      * clear -He. induction He as [|m r ms rs Hr _ IH]; constructor; [apply Hr|exact IH].
      * rewrite Hv. f_equal. by apply Forall2_length in He.
      * clear -He. induction He as [|m r ms rs Hr _ IH]; constructor; [apply Hr|exact IH].
      * rewrite length_app. specialize (Hlen Hsome). lia.
    + exists t, at_. split; [done|]. split; [apply expiry_log_timers|]. left.
      split; [done|]. by exists x.
Qed.

Lemma Expire_dead s seat hold :
  ~ (st_Status s = StatusHeld /\ st_HoldID s = hold) -> Expire s seat hold = no_outcome.
Proof.
  intros Hn. unfold Expire. destruct (decide (st_Status s = StatusHeld)) as [Hs|Hs].
  - rewrite (bool_decide_eq_true_2 (st_HoldID s <> hold)) by tauto. by rewrite orb_true_r.
  - by rewrite (bool_decide_eq_true_2 (st_Status s <> StatusHeld)).
Qed.

Lemma expirable_expiry seat hold st :
  (st_Status st = StatusHeld -> st_HoldID st = hold -> expirable seat st = true) ->
  let out := Expire st seat hold in
  out_Events out = [] \/
  (seat <> ""%string /\ forallb storable (out_Events out) = true /\
   forallb framable (Messages out) = true /\
   st_Version st + Z.of_nat (length (out_Events out)) < 2 ^ 31).
Proof.
  intros He out. destruct (decide (st_Status st = StatusHeld /\ st_HoldID st = hold)) as [[Hs Hh]|Hn].
  - right. specialize (He Hs Hh). unfold expirable in He. rewrite Hh in He. fold out in He.
    rewrite !andb_true_iff, negb_true_iff, bool_decide_eq_false in He.
    destruct He as (((? & Hv) & ?) & ?). split_and!; [done..|].
    assert (length (out_Events out) = 1%nat) as ->; [|lia].
    unfold out, Expire. by rewrite Hs, Hh, !bool_decide_eq_false_2 by tauto.
  - left. unfold out. by rewrite Expire_dead.
Qed.

(** A due timer, whose seat can be expired if its hold is live. *)
Definition fireable (r : timer_row) (d : db) : Prop :=
  r ∈ timers d /\ Timers.pending r = true /\
  let s := state_of (tm_subject r) d in
  (st_Status s = StatusHeld -> st_HoldID s = tm_token r -> expirable (tm_subject r) s = true).

Lemma does_fire o now r d :
  calm o -> sound d -> fireable r d ->
  let t := Timers.scan_timer r in
  does o now (Timers.claim_and_fire Fire t) d (fun got L =>
    got = true /\ ready (OfTimer t) L d /\ timer_writes L = [WFired (tm_id r) (timestamptz now)] /\
    (log_events L = [] \/
     let s := state_of (tm_subject r) d in st_Status s = StatusHeld /\ st_HoldID s = tm_token r)).
Proof.
  intros Hcalm (Hc & _ & Hnd) (Hin & Hp & Hex) t.
  destruct (state_of_loaded (tm_subject r) d Hc) as [msgs Hl].
  pose proof Hl as (Hh & _ & _ & Hv). rewrite <- (holds_history_length _ _ _ Hh) in Hv.
  apply expirable_expiry in Hex. rewrite Hv in Hex.
  eapply does_mono; [apply (does_expiry o now t msgs); [done|done| |exact Hl|exact Hex]|].
  { apply Timers.is_pending_true. by exists r. }
  intros got L (evs & obs & -> & -> & He & Hvs & _). split; [done|].
  split; [|split; [apply expiry_log_timers|]].
  - eapply expiry_ready; [done|exact Hl|exact He|exact Hvs|].
    intros Hne. destruct Hex as [|(_ & _ & _ & ?)]; [by destruct Hne|done].
  - rewrite expiry_log_events. set (s := state_of (tm_subject r) d) in *.
    destruct (decide (st_Status s = StatusHeld /\ st_HoldID s = tm_token r)) as [H|Hn]; [by right|left].
    change (Timers.t_Subject t) with (tm_subject r) in He. change (Timers.t_Token t) with (tm_token r) in He.
    rewrite Expire_dead in He by done. by apply Forall2_nil_inv_l in He.
Qed.

(** A hold that a timer of its own has ended. *)
Definition lapsed_by (r : timer_row) (seat : string) (s s' : SeatState) : Prop :=
  st_Status s = StatusHeld /\ tm_subject r = seat /\ tm_token r = st_HoldID s /\ s' = freed_state s.

(** Firing it on a connection that works: every seat is as it was, but for the hold the
    timer is about. *)
Lemma fire_due o r (w : world) :
  calm o -> (forall n, commit_fate o n = Committed) -> sound (w_db w) -> fireable r (w_db w) ->
  exists w' at_, Timers.fireOne o Fire (Timers.scan_timer r) w = (Ok true, w') /\
    sound (w_db w') /\
    timers (w_db w') = mark_fired_row (tm_id r) at_ <$> timers (w_db w) /\
    forall seat, let s := state_of seat (w_db w) in let s' := state_of seat (w_db w') in
      s' = s \/ lapsed_by r seat s s'.
Proof.
  intros Hcalm Hc Hs Hf. set (t := Timers.scan_timer r).
  destruct (WithTx_does o _ Hcalm (Timers.claim_and_fire Fire t) w _ Hc eq_refl
    (does_fire o _ r _ Hcalm Hs Hf)) as (got & L & w' & E & (-> & Hr & HT & Hev) & Hw).
  assert (forall x, WTimer x ∉ L) as Hno.
  { intros x Hx. assert (WTimer x ∈ timer_writes L) as H
      by (apply list_elem_of_omap; by exists (WTimer x)).
    rewrite HT in H. by apply list_elem_of_singleton in H. }
  assert (forall t' x, OfTimer t = OfTimer t' -> x ∈ timers (w_db w) -> reads t' x) as Hread.
  { intros t' x [= <-] Hx Hid. destruct Hf as (Hin & _). destruct Hs as (_ & _ & Hnd).
    by rewrite (Timers.timer_unique _ x r Hnd Hx Hin Hid). }
  eexists w', _. split; [exact E|]. rewrite Hw. split; [|split].
  - apply (commit_sound _ _ _ Hr Hread); [|done]. intros x x' Hx. by destruct (Hno x).
  - by rewrite (timers_of_writes _ (w_db w) L), HT.
  - intros seat s s'. destruct Hev as [Hnone|[Hheld Htok]].
    { left. apply state_of_same. unfold stream_rows. by rewrite events_apply, Hnone, app_nil_r. }
    destruct Hr as (id & add & Ha & Hlen & Hadd).
    destruct (commit_streams L (w_db w) id add seat Ha Hlen) as [[Hsame _]|(-> & e & -> & Happ)].
    { left. by apply state_of_same. }
    right. destruct Hadd as [(rs & Hrs & _)|(t' & at_ & [= <-] & _ & [[-> (x & [= ->])]|[? _]])]; [|..|done].
    { rewrite HT in Hrs. by destruct rs. }
    simpl in Happ. injection Happ as Happ. by split_and!.
Qed.

(** ** Lemmas: a pass *)

Definition pends (r : timer_row) (d : db) : Prop := r ∈ timers d /\ Timers.pending r = true.

(** Since [d0] no timer has been scheduled, and every seat is as it was, but for holds that
    a timer of their own has ended which was due by [now]. *)
Definition still (now : Time) (d0 d : db) : Prop :=
  sound d /\ (forall x, pends x d -> pends x d0) /\
  forall seat, let s := state_of seat d0 in let s' := state_of seat d in
    s' = s \/ exists r, pends r d0 /\ tm_fire_at r <= now /\ lapsed_by r seat s s'.

Lemma still_later now now' d0 d : now <= now' -> still now d0 d -> still now' d0 d.
Proof.
  intros Hle (Hs & Hp & Hst). split; [done|]. split; [done|]. intros seat s s'.
  destruct (Hst seat) as [H|(r & H1 & H2 & H3)]; [by left|right]. exists r. split; [done|]. by split; [lia|].
Qed.

Lemma still_held now d0 d seat :
  still now d0 d -> st_Status (state_of seat d) = StatusHeld -> state_of seat d = state_of seat d0.
Proof.
  intros (_ & _ & Hst) Hh. destruct (Hst seat) as [H|(r & _ & _ & _ & _ & _ & H)]; [done|].
  by rewrite H in Hh.
Qed.

Lemma pends_marked r at_ d d' :
  NoDup (Timers.timer_ids d) -> pends r d -> timers d' = mark_fired_row (tm_id r) at_ <$> timers d ->
  forall x, pends x d' <-> pends x d /\ x <> r.
Proof.
  intros Hnd [Hr _] Ht x. unfold pends. rewrite Ht, list_elem_of_fmap. split.
  - intros [(y & -> & Hy) Hp]. unfold mark_fired_row in *. case_bool_decide as Hid; [done|].
    split; [done|]. by intros ->.
  - intros [[Hx Hp] Hne]. split; [|done]. exists x. split; [|done].
    unfold mark_fired_row. rewrite bool_decide_eq_false_2; [done|].
    intros Hid. by apply Hne, (Timers.timer_unique d).
Qed.

Lemma fire_batch o d0 now rows (w : world) :
  calm o -> (forall n, commit_fate o n = Committed) -> NoDup rows ->
  (forall seat, let s := state_of seat d0 in st_Status s = StatusHeld -> expirable seat s = true) ->
  still now d0 (w_db w) -> (forall r, r ∈ rows -> pends r (w_db w) /\ tm_fire_at r <= now) ->
  exists w', Timers.fire_each o Fire (Timers.scan_timer <$> rows) w = (length rows, w') /\
    still now d0 (w_db w') /\ forall x, pends x (w_db w') <-> pends x (w_db w) /\ x ∉ rows.
Proof.
  intros Hcalm Hc Hnd Hex. revert w. induction rows as [|r rows IH]; intros w Hst Hrows.
  { exists w. split; [done|]. split; [done|]. intros x. split; [|by intros []].
    intros Hx. split; [done|]. apply not_elem_of_nil. }
  apply NoDup_cons in Hnd as [Hr Hnd]. destruct (Hrows r) as [[Hin Hp] Hdue]; [by left|].
  pose proof Hst as (Hs & Hp0 & Hseats).
  destruct (fire_due o r w Hcalm Hc Hs) as (w1 & at_ & E & Hs1 & Ht & Hfired).
  { split; [done|]. split; [done|]. intros s Hh _. pose proof (still_held _ _ _ _ Hst Hh) as Heq.
    fold s in Heq. rewrite Heq. apply Hex. by rewrite <- Heq. }
  pose proof Hs as (_ & _ & Hids). pose proof (pends_marked r at_ _ _ Hids (conj Hin Hp) Ht) as Hmark.
  destruct (IH Hnd w1) as (w' & E' & Hs' & Hp').
  - split; [done|]. split; [intros x Hx; by apply Hp0, Hmark|]. intros seat s s'.
    destruct (Hfired seat) as [Heq|Hl]; [unfold s'; rewrite Heq; apply Hseats|].
    pose proof (still_held _ _ _ _ Hst (proj1 Hl)) as Heq. rewrite Heq in Hl. right.
    exists r. split; [by apply Hp0|]. by split.
  - intros x Hx. destruct (Hrows x) as [Hpx ?]; [by right|]. split; [|done]. apply Hmark.
    split; [done|]. by intros ->.
  - exists w'. cbn [fmap list_fmap Timers.fire_each]. rewrite E, E'.
    rewrite bool_decide_eq_true_2 by done. split; [done|]. split; [done|].
    intros x. rewrite Hp', Hmark, elem_of_cons. tauto.
Qed.

(** ** Lemmas: the backlog *)
Lemma elem_of_due T d r : r ∈ Timers.due_rows T d <-> pends r d /\ tm_fire_at r <= T.
Proof. unfold Timers.due_rows, pends. rewrite elem_of_order_by, list_elem_of_filter. tauto. Qed.

Lemma due_nodup T d : sound d -> NoDup (Timers.due_rows T d).
Proof.
  intros (_ & _ & Hnd). unfold Timers.due_rows. rewrite order_by_perm.
  apply NoDup_filter. by eapply NoDup_fmap_1.
Qed.

(** Of a list in order, what is taken comes before what is not. *)
Lemma taken_before n T d x y :
  x ∈ take n (Timers.due_rows T d) -> y ∈ Timers.due_rows T d -> y ∉ take n (Timers.due_rows T d) ->
  tm_fire_at x <= tm_fire_at y.
Proof.
  intros Hx Hy Hny. rewrite <- (take_drop n (Timers.due_rows T d)) in Hy.
  apply elem_of_app in Hy as [?|Hy]; [done|].
  eapply (StronglySorted_app_1_elem_of (fun x y => tm_fire_at x <= tm_fire_at y)); [|exact Hx|exact Hy].
  rewrite take_drop. apply order_by_key_sorted.
Qed.

(** A batch of what is due by [now] is a batch of what was due by [T], the earlier first. *)
Lemma due_shrinks n T now d d' :
  T <= now -> sound d -> sound d' ->
  (forall x, pends x d' <-> pends x d /\ x ∉ take n (Timers.due_rows now d)) ->
  (length (Timers.due_rows T d') <= length (Timers.due_rows T d) - n)%nat.
Proof.
  intros HT Hd Hd' Hp. set (batch := take n (Timers.due_rows now d)) in *.
  destruct (decide (Timers.due_rows T d' = [])) as [->|Hne]; [simpl; lia|].
  destruct (Timers.due_rows T d') as [|y ys] eqn:E; [done|].
  assert (y ∈ Timers.due_rows T d') as Hy by (rewrite E; by left). rewrite <- E in *.
  apply elem_of_due in Hy as [[Hy Hny]%Hp HyT].
  assert (y ∈ Timers.due_rows now d) as Hyd by (apply elem_of_due; split; [done|lia]).
  assert (forall x, x ∈ batch -> x ∈ Timers.due_rows T d) as Hsub.
  { intros x Hx. pose proof (taken_before n now d x y Hx Hyd Hny) as Hxy.
    apply elem_of_due. split; [|lia]. apply elem_of_take in Hx as (i & Hx%list_elem_of_lookup_2 & _).
    by apply elem_of_due in Hx as [? _]. }
  assert (length batch = n) as Hlen.
  { unfold batch. apply length_take_le. destruct (decide (n <= length (Timers.due_rows now d))%nat); [done|].
    exfalso. apply Hny. unfold batch. by rewrite take_ge by lia. }
  assert (length (batch ++ Timers.due_rows T d') <= length (Timers.due_rows T d))%nat as H;
    [|rewrite length_app in H; lia].
  apply submseteq_length, NoDup_submseteq.
  - apply NoDup_app. split; [eapply sublist_NoDup; [by apply (due_nodup now d)|apply sublist_take]|].
    split; [|by apply due_nodup]. intros x Hx [[_ Hnx]%Hp _]%elem_of_due. done.
  - intros x [?|Hx]%elem_of_app; [by apply Hsub|]. apply elem_of_due in Hx as [[Hx _]%Hp ?].
    by apply elem_of_due.
Qed.

Lemma tick_shrinks o d0 T (w : world) :
  calm o -> (forall n, commit_fate o n = Committed) ->
  (forall seat, let s := state_of seat d0 in st_Status s = StatusHeld -> expirable seat s = true) ->
  let now := clock o (w_trips w) in
  still now d0 (w_db w) -> T <= now ->
  still now d0 (w_db (snd (Timers.Tick o Fire w))) /\
  (length (Timers.due_rows T (w_db (snd (Timers.Tick o Fire w)))) <=
   length (Timers.due_rows T (w_db w)) - Timers.BatchSize)%nat.
Proof.
  intros Hcalm Hc Hex now Hs HT. pose proof Hcalm as [Hf Ho]. unfold Timers.Tick, Timers.Due, pool_exec.
  rewrite Hf, Hc. simpl. rewrite !Ho. fold now.
  set (batch := take _ _). set (w1 := set_db _ _). assert (w_db w1 = w_db w) as Hw1 by done.
  destruct (fire_batch o d0 now batch w1 Hcalm Hc) as (w' & E & Hs' & Hp); [|done|by rewrite Hw1| |].
  - eapply sublist_NoDup; [apply (due_nodup now (w_db w)), Hs|apply sublist_take].
  - intros r Hr. apply elem_of_take in Hr as (i & Hr%list_elem_of_lookup_2 & _).
    by apply elem_of_due in Hr.
  - rewrite E. simpl. split; [done|]. rewrite Hw1 in Hp.
    apply (due_shrinks _ T now); [done|apply Hs|apply Hs'|exact Hp].
Qed.

(** Deleting fired timers leaves the backlog. *)
Lemma prune_still o d0 now T (w : world) :
  calm o -> (forall n, commit_fate o n = Committed) -> still now d0 (w_db w) ->
  still now d0 (w_db (Timers.pruneFired o w)) /\
  (length (Timers.due_rows T (w_db (Timers.pruneFired o w))) <=
   length (Timers.due_rows T (w_db w)))%nat.
Proof.
  intros [Hf Ho] Hc (Hs & Hp0 & Hst). unfold Timers.pruneFired, Timers.Prune, pool_exec.
  rewrite Hf, Hc. simpl. rewrite !Ho. set (old := filter _ _).
  destruct (Timers.pruneSQL Timers.Retention (clock o (w_trips w)) (w_seqs w) (w_db w))
    as [[r ws] sq] eqn:E. pose proof E as E'. injection E' as <- <- _. fold old in E |- *.
  pose proof (housekeeping_respects _ _ _ _ _ _ _ OfUpkeep [] (prunes_timers _) E) as (_ & HS & _).
  specialize (HS Hs). assert (forall x, pends x (apply_writes (w_db w) [WDeleteTimers (tm_id <$> old)]) ->
    pends x (w_db w)) as Hkept.
  { intros x [Hx Hp]. split; [|done]. simpl in Hx. by apply list_elem_of_filter in Hx as [_ Hx]. }
  split.
  - split; [done|]. split; [intros x Hx; by apply Hp0, Hkept|]. intros seat s s'. unfold s'.
    rewrite (state_of_same seat (w_db w)) by done. apply Hst.
  - apply submseteq_length, NoDup_submseteq; [by apply due_nodup|].
    intros y [Hy HT]%elem_of_due. apply elem_of_due. split; [by apply Hkept|done].
Qed.

Lemma sleep_db o now (w : world) :
  calm o -> (forall n, commit_fate o n = Committed) -> w_db (snd (Timers.sleep o now w)) = w_db w.
Proof.
  intros [Hf Ho] Hc. unfold Timers.sleep, Timers.NextDue, pool_exec. rewrite Hf, Hc. simpl.
  rewrite !Ho. by destruct (Timers.min_fire_at _).
Qed.

Lemma batches_left B n k k' : (k <= S (S n) * B -> k' <= k - B -> k' <= S n * B)%nat.
Proof. rewrite !Nat.mul_succ_l. pose proof (Nat.le_0_l (n * B)). lia. Qed.

(** Turns of the loop, none of them the last, and then the last. *)
Lemma turns_free o d0 T stop wakes (w : world) :
  calm o -> (forall n, commit_fate o n = Committed) ->
  (forall seat, let s := state_of seat d0 in st_Status s = StatusHeld -> expirable seat s = true) ->
  Forall (fun x => snd x <> Timers.ContextDone) wakes ->
  (forall n k, (n <= k)%nat -> clock o n <= clock o k) ->
  T <= clock o (w_trips w) -> still (clock o (w_trips w)) d0 (w_db w) ->
  (length (Timers.due_rows T (w_db w)) <= S (length wakes) * Timers.BatchSize)%nat ->
  exists w', fst (Timers.Run o Fire (wakes ++ [(stop, Timers.ContextDone)]) w) = Some w' /\
    still (clock o (w_trips w')) d0 (w_db w') /\ Timers.due_rows T (w_db w') = [].
Proof.
  intros Hcalm Hc Hex Hwakes Hclock. revert w. induction Hwakes as [|[now c] wakes Hcn _ IH];
    intros w HT Hs Hlen; cbn [app Timers.Run];
    destruct (tick_shrinks o d0 T w Hcalm Hc Hex Hs HT) as [Hs1 Hl1];
    pose proof (Timers.Tick_trips o Fire w) as Ht1;
    set (w1 := snd (Timers.Tick o Fire w)) in *;
    match goal with |- context [Timers.sleep o ?now w1] =>
      pose proof (sleep_db o now w1 Hcalm Hc) as Hdb; pose proof (Timers.sleep_trips o now w1) as Ht2;
      destruct (Timers.sleep o now w1) as [dur w2] end; simpl in Hdb, Ht2;
    assert (clock o (w_trips w) <= clock o (w_trips w2)) as Hle by (apply Hclock; lia);
    apply (still_later _ _ _ _ Hle) in Hs1; rewrite <- Hdb in Hs1, Hl1.
  - exists w2. split; [done|]. split; [done|]. apply nil_length_inv. cbn [length] in Hlen. lia.
  - destruct c; [done| |].
    + destruct (IH w2) as (w' & E & H); [lia|done|by eapply batches_left|].
      exists w'. destruct (Timers.Run o Fire _ w2) as [r ds]. done.
    + pose proof (Timers.pruneFired_trips o w2) as Ht3.
      destruct (prune_still o d0 _ T w2 Hcalm Hc Hs1) as [Hs2 Hl2].
      assert (clock o (w_trips w2) <= clock o (w_trips (Timers.pruneFired o w2))) as Hle2 by (apply Hclock; lia).
      destruct (IH (Timers.pruneFired o w2)) as (w' & E & H);
        [lia|by apply (still_later _ _ _ _ Hle2)|eapply batches_left; [exact Hlen|lia]|].
      exists w'. destruct (Timers.Run o Fire _ (Timers.pruneFired o w2)) as [r ds]. done.
Qed.

(** ** Properties *)

(** C9: no hold outlives its deadline, and no other hold is touched.  From a reachable
    state with any backlog of due timers, over a working connection and with live seats
    that can be expired, the scheduler's [Run] works the backlog off a batch at a time:
    whatever wakes its turns, once it has made as many turns as the backlog has batches and
    its context ends, the deadline of every held seat is past the time at which it began.
    And every seat is exactly as it was, held or not, unless it was held and a pending
    timer of the seat and of that very hold has come due by the end; then that hold has
    ended and nothing else has happened to the seat. *)
Theorem overdue_holds_are_freed (m : machine) (o : oracle) (w : world)
    (wakes : list (Time * Timers.wake)) (stop : Time) :
  let start := clock o (w_trips w) in
  let due := Timers.due_rows start (w_db w) in
  reachable m -> w_db w = mc_db m -> calm o -> (forall n, commit_fate o n = Committed) ->
  (forall n k, (n <= k)%nat -> clock o n <= clock o k) ->
  (forall seat, let s := state_of seat (w_db w) in
     st_Status s = StatusHeld -> expirable seat s = true) ->
  Forall (fun x => snd x <> Timers.ContextDone) wakes ->
  (length due <= S (length wakes) * Timers.BatchSize)%nat ->
  exists w', fst (Timers.Run o Fire (wakes ++ [(stop, Timers.ContextDone)]) w) = Some w' /\
    forall seat, let s := state_of seat (w_db w) in let s' := state_of seat (w_db w') in
      (st_Status s' = StatusHeld -> s' = s /\ start < timestamptz (st_ExpiresAt s')) /\
      (s' = s \/
       (st_Status s = StatusHeld /\ s' = freed_state s /\
        exists r, r ∈ timers (w_db w) /\ Timers.pending r = true /\ tm_subject r = seat /\
          tm_token r = st_HoldID s /\ tm_fire_at r <= clock o (w_trips w'))).
Proof.
  intros start due [Hs _]%reachable_sound Hw Hcalm Hc Hclock Hex Hwakes Hlen. rewrite <- Hw in Hs.
  destruct (turns_free o (w_db w) start stop wakes w Hcalm Hc Hex Hwakes Hclock) as (w' & E & Hst & Hdue);
    [done|by split_and!; [..|left]|exact Hlen|].
  exists w'. split; [done|]. intros seat s s'. split.
  - intros Hh. split; [by apply (still_held _ _ _ _ Hst)|]. destruct Hst as ((_ & Htm & _) & _).
    destruct (Htm seat Hh) as (r & Hr & Hp & Hfa). fold s' in Hr, Hfa.
    destruct (decide (start < timestamptz (st_ExpiresAt s'))); [done|]. exfalso.
    assert (r ∈ Timers.due_rows start (w_db w')) as H; [|rewrite Hdue in H; by apply elem_of_nil in H].
    apply elem_of_due. split; [split; [by eapply last_timer_elem|done]|lia].
  - destruct Hst as (_ & _ & Hst). destruct (Hst seat) as [H|(r & [Hr Hp] & Hfa & Hh & Hsub & Htok & Hf)]; [by left|].
    right. split; [done|]. split; [done|]. by exists r.
Qed.
End overdue.

(** ** Witness *)
Module Samples.
Import UnixTimestamps PlainPostgres NumberedJson Store.Samples Commands.Samples Deadlines.Samples.

(** The held seat of [Deadlines.Samples], a moment after its deadline. *)
Definition late : oracle := quiet (st_ExpiresAt taken + 1000) (fun _ => "id").
Definition too_late : world :=
  {| w_db := mc_db one_held; w_seqs := mc_seqs one_held; w_trips := 0; w_ids := 0 |}.
Lemma only_seat id :
  st_Status (state_of id (mc_db one_held)) = StatusHeld -> id = seat.
Proof.
  intros Hs. destruct (decide (id = seat)) as [|Hne]; [done|]. exfalso.
  assert (stream_rows id (mc_db one_held) = []) as Hr.
  { unfold stream_rows. apply list_filter_none.
    assert (ev_stream_id <$> events (mc_db one_held) = [seat]) as He by (vm_compute; reflexivity).
    apply Forall_forall. intros r Hr. apply (list_elem_of_fmap_2 ev_stream_id) in Hr.
    rewrite He in Hr. apply list_elem_of_singleton in Hr. congruence. }
  unfold state_of, recorded in Hs. by rewrite Hr in Hs.
Qed.
End Samples.

Import UnixTimestamps PlainPostgres NumberedJson Store.Samples Commands.Samples Deadlines.Samples Samples.

Lemma overdue_holds_are_freed_witness :
  st_Status (state_of seat (w_db too_late)) = StatusHeld /\
  exists w', fst (Timers.Run late Fire [(0, Timers.ContextDone)] too_late) = Some w' /\
    st_Status (state_of seat (w_db w')) <> StatusHeld.
Proof.
  split; [exact one_held_is_held|].
  destruct (overdue_holds_are_freed one_held late too_late [] 0 one_held_reachable) as (w' & H1 & H2).
  - reflexivity.
  - done.
  - done.
  - intros n k _. simpl. lia.
  - intros id s Hs. unfold s in *. rewrite (only_seat id Hs). vm_compute. reflexivity.
  - constructor.
  - apply (bool_decide_unpack _). vm_compute. exact I.
  - exists w'. split; [exact H1|]. intros Hs. destruct (proj1 (H2 seat) Hs) as [Heq Hlate]. cbv zeta in Hlate. rewrite Heq in Hlate.
    revert Hlate. vm_compute. done.
Defined.
