(* ===== verification/Commits.v ===== *)
(** * Commits: what a command's transaction commits

    The refinement that makes concurrent commands look atomic.  A session that is about to
    commit a command, in any reachable state of the machine of [Sessions.v], has nothing to
    write, or its whole effect is that of the decision of [Seat.v]: on the state committed
    at this very moment, whenever the decision appends anything, and otherwise (it only
    replies) on a state the seat was in while the transaction ran. *)
From S2P Require Import Prelude Contracts Envelope Database Timers EventStore Inbox Outbox Codec Seat Store Commands Isolation Projection Sessions Deadlines.

Section commits.
Context `{TS : Timestamppb} `{PG : Postgres} `{PJ : !Protojson} `{PJL : !ProtojsonLaws}
  `{EN : !Encoder}.

(** The sessions also wait for each other's deliveries. *)
Definition relies (about : origin) (L : list write) (d d' : db) : Prop :=
  respects about L d d' /\
  forall k at_, WInbox k at_ ∈ L -> inbox d !! k = None -> inbox d' !! k = None.

Definition delivery (incoming : Envelope) : inbox_key :=
  (Consumer, env_Source incoming, env_ID incoming).

(** The log of a command that was decided. *)
Definition command_log (incoming : Envelope) (at_ : Time) (evs : list event_row)
    (tms : list timer_row) (obs : list outbox_row) : list write :=
  [WInbox (delivery incoming) at_] ++ (WEvent <$> evs) ++ (WTimer <$> tms) ++ (WOutbox <$> obs) ++
  (if bool_decide (obs = []) then [] else [WNotify NotifyChannel]).

(** The rows of a decision. *)
Definition effects (incoming : Envelope) (id : string) (out : Outcome) (evs : list event_row)
    (tms : list timer_row) (obs : list outbox_row) : Prop :=
  Forall2 (holds_event id (command_meta incoming)) (out_Events out) evs /\
  Forall2 (fun t r => Timers.scheduled_as (tmr_FireAt t) id (tmr_Token t) r) (out_Timers out) tms /\
  Forall (fun r => unpublished r = true) obs /\
  Forall2 (announces (command_template incoming id)) (Messages out) (row_message <$> obs).

(** A decision on the stream [past], which has grown by [later] only if nothing was
    decided to append. *)
Definition decided (incoming : Envelope) (cmd : message) (id : string) (L : list write) (d : db) :
    Prop :=
  inbox d !! delivery incoming = None /\
  exists past later st out at_ evs tms obs,
    L = command_log incoming at_ evs tms obs /\
    holds_history id d (past ++ later) /\ Fold past = Ok st /\ Decide st cmd = Ok out /\
    (out_Events out <> [] -> later = []) /\
    ev_version <$> evs = upto (Z.of_nat (length past) + 1) (length evs) /\
    appends id (out_Events out) L d /\ effects incoming id out evs tms obs.

Definition done_with (about : origin) (L : list write) (d : db) : Prop :=
  match about with
  | OfCommand incoming cmd id => SeatID cmd = Ok id /\ (L = [] \/ decided incoming cmd id L d)
  | _ => True
  end.

(** ** Lemmas *)
Lemma relies_respects about L d d' : relies about L d d' -> respects about L d d'.
Proof. by intros []. Qed.

Lemma relies_refl about L d : relies about L d d.
Proof. split; [apply respects_refl|done]. Qed.

Lemma relies_trans about L d1 d2 d3 :
  relies about L d1 d2 -> relies about L d2 d3 -> relies about L d1 d3.
Proof. intros [H1 K1] [H2 K2]. split; [by eapply respects_trans|eauto]. Qed.

Lemma command_log_events incoming at_ evs tms obs :
  log_events (command_log incoming at_ evs tms obs) = evs.
Proof.
  unfold command_log. rewrite !log_events_app, log_events_rows.
  rewrite (log_events_none (WTimer <$> tms)) by (apply Forall_fmap, Forall_true; done).
  rewrite (log_events_none (WOutbox <$> obs)) by (apply Forall_fmap, Forall_true; done).
  simpl. by destruct (bool_decide _); rewrite app_nil_r.
Qed.

(** A stream continued at the version it was read at has not moved since. *)
Lemma continued_unmoved id add L d past later :
  appends id add L d -> log_events L <> [] ->
  ev_version <$> log_events L = upto (Z.of_nat (length past) + 1) (length (log_events L)) ->
  holds_history id d (past ++ later) -> later = [].
Proof.
  intros [_ [[_ ?]|(msgs & _ & Hm & _ & _ & Hv & _)]] Hne Hv' Hh; [done|].
  pose proof (history_unique id d d _ _ eq_refl Hm Hh) as E.
  destruct (log_events L) as [|r rs]; [done|]. rewrite Hv in Hv'. simpl in Hv'.
  injection Hv' as Hv' _. apply (f_equal length) in E. rewrite length_app in E.
  destruct later; [done|]. simpl in E. lia.
Qed.

Lemma decided_stable incoming cmd id about L d d' :
  relies about L d d' -> consistent d -> decided incoming cmd id L d -> decided incoming cmd id L d'.
Proof.
  intros [HR HI] Hd (Hin & past & later & st & out & at_ & evs & tms & obs & HL & Hh & Hf & Hdec & Hlate & Hv & Ha & He).
  pose proof HR as ([Hc (new & Hnew & _)] & _).
  destruct (history_continues _ _ _ _ _ Hnew Hh (Hc Hd)) as [more Hm]. rewrite <- app_assoc in Hm.
  pose proof (appends_stable _ _ _ _ _ (proj1 HR) Ha) as Ha'.
  split; [apply (HI _ at_); [rewrite HL; by left|done]|].
  exists past, (later ++ more), st, out, at_, evs, tms, obs. split_and!; try done; [by apply Hm..|].
  intros Hsome. pose proof He as (Hevs & _). rewrite HL in Ha'.
  eapply continued_unmoved; [exact Ha'| | |exact Hm]; rewrite command_log_events; [|done].
  intros ->. by apply Forall2_nil_inv_r in Hevs.
Qed.

(** While a delivery's record is in the log, nobody else records it. *)
Lemma wp_unrecorded {A} (p : prog A) about k at_ L d :
  WInbox k at_ ∈ L -> inbox d !! k = None ->
  wp (relies about) p L d (fun _ _ d' => inbox d' !! k = None).
Proof.
  revert L d. induction p as [a|f IH|X q f IH]; intros L d HL Hin; simpl; [done|by eauto|].
  intros d' now sq [_ HI]. destruct (q _ _ _) as [[[x|e] ws] ?]; [|done].
  apply IH; [apply elem_of_app; by left|by eapply HI].
Qed.

(** A stream that was [past] only continues. *)
Definition was (id : string) (past : list message) (d : db) : Prop :=
  consistent d /\ exists later, holds_history id d (past ++ later).

Lemma was_stable about id past L d d' : relies about L d d' -> was id past d -> was id past d'.
Proof.
  intros [([Hc (new & He & _)] & _) _] [Hd [later Hh]]. split; [by apply Hc|].
  destruct (history_continues _ _ _ _ _ He Hh (Hc Hd)) as [more Hm].
  exists (later ++ more). by rewrite app_assoc.
Qed.

(** The steps of the transaction, with what they add to the log. *)
Lemma wp_loads about id L d :
  consistent d -> log_events L = [] ->
  wp (relies about) (LoadSeat id) L d (fun r L' d' =>
    match r with
    | Ok (st, _) => L' = L /\ consistent d' /\ exists msgs, loaded id d' msgs st
    | Err _ => True
    end).
Proof.
  intros Hd HL. eapply wp_mono.
  { apply wp_conj; [|apply (wp_emits _ (fun _ => False)), each_LoadSeat, writes_load].
    eapply wp_weaken_rely; [by intros ??? [[HR _] _]; exact HR|]. apply wp_LoadSeat; [|done].
    exists EmptyString, []. by split; [|left]. }
  intros [[st meta]|e] L' d' [H [(rest & -> & Hrest) _]]; [|done]. destruct H as (_ & Hc & Hl & _).
  destruct Hrest; [|done]. rewrite app_nil_r. split; [done|]. split; [|done].
  by eapply committable_consistent.
Qed.

Lemma wp_outgoing (R : list write -> db -> db -> Prop) msgs tmpl L d :
  wp R (outgoing msgs tmpl) L d (fun r L' d' =>
    L' = L /\ d' = d /\ forall out, r = Ok out -> Forall2 (announces tmpl) msgs out).
Proof.
  induction msgs as [|m msgs IH]; cbn [outgoing].
  { split; [done|]. split; [done|]. intros out [= <-]. constructor. }
  destruct (Encoder_Encode m) as [payload|e] eqn:Hp; [|done]. intros id.
  apply wp_tx_bind. eapply wp_mono; [exact IH|]. intros [out|e] L' d' (-> & -> & H); [|done].
  split; [done|]. split; [done|]. intros out' [= <-]. constructor; [|by apply H].
  split_and!; try done. by exists id.
Qed.

Lemma wp_announces (R : list write -> db -> db -> Prop) msgs tmpl L d :
  wp R (ms ← outgoing msgs tmpl; Enqueue ms) L d (fun r L' d' => is_ok r = true ->
    exists obs, L' = L ++ (WOutbox <$> obs) ++ (if bool_decide (obs = []) then [] else [WNotify NotifyChannel]) /\
      Forall (fun r => unpublished r = true) obs /\
      Forall2 (announces tmpl) msgs (row_message <$> obs)).
Proof.
  apply wp_tx_bind. eapply wp_mono; [apply wp_outgoing|].
  intros [out|e] L' d' (-> & -> & Hout); [|done]. specialize (Hout out eq_refl). unfold Enqueue.
  case_bool_decide as Hnil.
  { intros _. subst out. apply Forall2_nil_inv_r in Hout as ->. exists [].
    rewrite bool_decide_eq_true_2, app_nil_r by done. split_and!; [done|constructor|constructor]. }
  apply wp_lift_bind. destruct (traverse enqueue_arg 0 out) as [rows|] eqn:Et; [|done].
  assert (rows = out) as ->.
  { clear -Et. revert rows Et. generalize 0%nat. induction out as [|m out IH]; intros i rows; cbn [traverse].
    { by intros [= <-]. }
    unfold enqueue_arg at 1. destruct (Validate m); [|done].
    destruct (traverse enqueue_arg (S i) out) eqn:E; [|done]. intros [= <-]. f_equal. by eapply IH. }
  apply wp_tx_bind, wp_exec. intros d1 now sq _. unfold enqueueSQL.
  apply wp_exec. intros d2 now2 sq2 _ _. exists (outbox_rows (outbox_seq sq) out).
  pose proof (outbox_rows_messages (outbox_seq sq) out) as Hm. split; [|split].
  - rewrite <- app_assoc. do 2 f_equal. rewrite bool_decide_eq_false_2; [done|]. intros Hn.
    rewrite Hn in Hm. by destruct out.
  - apply outbox_rows_unpublished.
  - by rewrite Hm.
Qed.

(** The writes of a decision on a loaded state. *)
Lemma wp_writes about incoming cmd id msgs st out L d :
  consistent d -> log_events L = [] -> loaded id d msgs st ->
  SeatID cmd = Ok id -> Decide st cmd = Ok out ->
  wp (relies about)
    (_ ← AppendSeat id (st_Version st) (out_Events out) (command_meta incoming);
     _ ← scheduleTimers id (out_Timers out);
     ms ← outgoing (Messages out) (command_template incoming id);
     Enqueue ms) L d
    (fun r L' d' => is_ok r = true -> exists evs tms obs,
      L' = L ++ (WEvent <$> evs) ++ (WTimer <$> tms) ++ (WOutbox <$> obs) ++
        (if bool_decide (obs = []) then [] else [WNotify NotifyChannel]) /\
      ev_version <$> evs = upto (st_Version st + 1) (length evs) /\
      appends id (out_Events out) L' d' /\ effects incoming id out evs tms obs).
Proof.
  intros Hd HL Hl Hid Hdec. apply wp_tx_bind. eapply wp_mono.
  { eapply wp_weaken_rely; [by intros ??? [[HR _] _]; exact HR|].
    by apply (wp_AppendSeat id msgs st (Command cmd) out). }
  intros [[]|e] L3 d3 H3; [|done]. destruct (H3 eq_refl) as (evs & -> & Hevs & Hv & Ha3).
  apply wp_tx_bind. eapply wp_mono.
  { eapply wp_weaken_rely; [by apply relies_respects|]. by apply wp_scheduleTimers. }
  intros [[]|e] L4 d4 H4; [|done]. destruct (H4 eq_refl) as (Ha4 & tms & -> & Htms).
  eapply wp_mono.
  { apply wp_conj; [apply wp_announces|]. eapply wp_weaken_rely; [by apply relies_respects|].
    apply wp_silent; [apply silent_announces|exact Ha4]. }
  intros r L5 d5 [H5 [Ha5 _]] Hr. destruct (H5 Hr) as (obs & -> & Hu & Hobs).
  exists evs, tms, obs. rewrite <- !app_assoc in *. done.
Qed.

(** The transaction of a first delivery, from the moment it is recorded. *)
Lemma wp_decides about incoming cmd id at_ d :
  consistent d -> SeatID cmd = Ok id -> inbox d !! delivery incoming = None ->
  wp (relies about) (decide_and_write incoming cmd id) [WInbox (delivery incoming) at_] d
    (fun r L d' => is_ok r = true -> decided incoming cmd id L d').
Proof.
  intros Hd Hid Hin. set (L0 := [WInbox _ _]). eapply wp_mono.
  { apply wp_conj; [|by apply (wp_unrecorded _ about (delivery incoming) at_); [left|]].
    unfold decide_and_write. apply wp_tx_bind. eapply wp_mono; [by apply (wp_loads about id)|].
    instantiate (1 := fun r L d' => is_ok r = true -> inbox d' !! delivery incoming = None ->
      decided incoming cmd id L d').
    intros [[st meta]|e] L2 d2; [|done]. intros (-> & Hc2 & msgs & Hl).
    apply wp_lift_bind. destruct (Decide st cmd) as [out|e] eqn:Hdec; [|done].
    eapply wp_mono.
    { apply wp_conj; [by apply (wp_writes _ incoming cmd id msgs st out)|].
      apply (wp_stable _ (was id msgs)); [apply was_stable|]. split; [done|]. exists [].
      rewrite app_nil_r. apply Hl. }
    intros r L5 d5 [H [_ [later Hh]]] Hr Hnone. destruct (H Hr) as (evs & tms & obs & -> & Hv & Ha & He).
    pose proof Hl as (Hm & Hf & _ & Hver). rewrite <- (holds_history_length _ _ _ Hm) in Hver.
    rewrite Hver in Hv. split; [done|].
    assert (log_events (command_log incoming at_ evs tms obs) = evs) as Hlog by apply command_log_events.
    exists msgs, later, st, out, at_, evs, tms, obs.
    split; [done|]. split; [exact Hh|]. split; [done|]. split; [done|]. split_and!; [|done|done|apply He..].
    intros Hsome. eapply continued_unmoved; [exact Ha| | |exact Hh]; change (L0 ++ _) with (command_log incoming at_ evs tms obs);
      rewrite Hlog; [|done].
    intros ->. destruct He as (Hevs & _). by apply Forall2_nil_inv_r in Hevs. }
  intros r L d' [H Hnone] Hr. by apply H.
Qed.

Lemma command_done incoming cmd id d :
  consistent d -> SeatID cmd = Ok id ->
  wp (relies (OfCommand incoming cmd id)) (apply_command incoming cmd id) [] d
    (fun r L d' => is_ok r = true -> L = [] \/ decided incoming cmd id L d').
Proof.
  intros Hd Hid. unfold apply_command, MarkConsumed. destruct (_ || _ || _); [done|].
  do 2 apply wp_tx_bind. apply wp_exec. intros d1 now sq [([Hc _] & _) _]. unfold Inbox.markSQL.
  change (apply_writes d1 []) with d1. fold (delivery incoming).
  destruct (inbox d1 !! delivery incoming) as [t0|] eqn:Hin; [by intros _; left|].
  eapply (wp_mono _ (decide_and_write incoming cmd id)).
  - apply wp_decides; [by apply Hc|done|done].
  - intros r L d2 H Hr. right. by apply H.
Qed.

(** Whatever the others commit, a session waits for its delivery's record. *)
Lemma commit_relies m i L about :
  reachable m ->
  mc_live m !! i = Some {| lv_code := Ret true; lv_log := L; lv_about := about |} ->
  sound (apply_writes (mc_db m) L) /\
  forall j lv, j <> i -> mc_live m !! j = Some lv ->
    relies (lv_about lv) (lv_log lv) (mc_db m) (apply_writes (mc_db m) L).
Proof.
  intros Hm Hi. pose proof (reachable_ids m Hm) as Hids.
  destruct (commit_guarantee m i L about) as [Hs Hr];
    [done|by apply reachable_sound|done|by eapply reachable_ready|].
  split; [done|]. intros j lv Hij Hj. split; [by apply (Hr j lv)|]. intros k at_ Hk Hin.
  assert (forall t, WInbox k t ∉ L) as Hno.
  { intros t Ht. apply (ids_apart m Hids j i lv _ Hij Hj Hi).
    exists (WInbox k at_), (WInbox k t). destruct k as [[c s] e]. by exists (LInbox c s e). }
  clear -Hno Hin. revert Hin. generalize (mc_db m). induction L as [|w L IH]; intros d Hin; [done|].
  rewrite apply_writes_cons. apply IH; [intros t Ht; apply (Hno t); by right|].
  destruct w as [| |k' t'| | | | | | | | |]; try done; simpl.
  - rewrite lookup_insert_ne; [done|]. intros ->. apply (Hno t'). by left.
  - rewrite foldr_delete_lookup. by case_bool_decide.
Qed.

Lemma begins_done due p about d :
  begins due p about -> sound d ->
  wp (relies about) p [] d (fun ok L d => ok = true -> done_with about L d).
Proof.
  intros Hb [Hd _]. destruct Hb as [incoming cmd id Hid|t _|id| |locked published];
    [|by eapply wp_mono; [apply wp_extends|]..].
  apply wp_bind. eapply wp_mono; [by apply command_done|]. intros r L d' H Hr. split; [done|by apply H].
Qed.

Lemma done_stable about L d d' : relies about L d d' -> sound d -> done_with about L d -> done_with about L d'.
Proof.
  intros HR [Hd _]. destruct about as [incoming cmd id| |]; try done.
  intros [Hid [HL|H]]; (split; [done|]); [by left|right]. by eapply decided_stable.
Qed.

Lemma housekeeping_relies q now sq d n ws sq' :
  housekeeping q -> q now sq d = (Ok n, ws, sq') -> sound d ->
  sound (apply_writes d ws) /\ forall about L, relies about L d (apply_writes d ws).
Proof.
  intros Hq E Hd.
  assert (forall about L, respects about L d (apply_writes d ws)) as HR
    by (intros about L; by eapply housekeeping_respects).
  split; [by apply (HR OfUpkeep [])|]. intros about L. split; [done|]. intros k at_ _ Hin.
  destruct (housekeeping_writes _ _ _ _ _ _ _ Hq E) as (w & -> & Hw). destruct w; try done; simpl.
  rewrite foldr_delete_lookup. by case_bool_decide.
Qed.

Lemma reachable_done m i L about :
  reachable m ->
  mc_live m !! i = Some {| lv_code := Ret true; lv_log := L; lv_about := about |} ->
  done_with about L (mc_db m).
Proof.
  intros Hm Hi. eapply (on_course_ready sound relies done_with); [apply done_stable|].
  eapply (reachable_invariant sound relies done_with); [..|exact Hm|exact Hi].
  - apply relies_refl.
  - apply relies_trans.
  - apply done_stable.
  - apply sound_start.
  - apply begins_done.
  - intros m' j L' about' Hm' _ Hj _. by eapply commit_relies.
  - apply housekeeping_relies.
Qed.

(** ** Properties *)

(** C3: concurrent commands are atomic.  Whatever the other sessions of a reachable state
    have done meanwhile, a session that is about to commit a command either has nothing to
    write, or commits, together with the record of a delivery that nobody had recorded,
    the complete outcome of one decision of the command: its events at the next versions,
    its timers, and its announcements.  If the decision appends anything it was made on the
    state of the seat that is committed at this moment; otherwise, a mere reply, it was made
    on a state the stream has been in. *)
Theorem commands_commit_atomically (m : machine) (i : nat) (L : list write)
    (incoming : Envelope) (cmd : message) (id : string) :
  reachable m ->
  mc_live m !! i =
    Some {| lv_code := Ret true; lv_log := L; lv_about := OfCommand incoming cmd id |} ->
  let d := mc_db m in
  let d' := apply_writes d L in
  SeatID cmd = Ok id /\
  (d' = d \/
   inbox d !! (Consumer, env_Source incoming, env_ID incoming) = None /\
   exists past later st out evs tms obs at_,
     holds_history id d (past ++ later) /\ Fold past = Ok st /\ Decide st cmd = Ok out /\
     (out_Events out <> [] -> later = []) /\
     inbox d' = <[(Consumer, env_Source incoming, env_ID incoming) := at_]> (inbox d) /\
     events d' = events d ++ evs /\
     Forall2 (holds_event id (command_meta incoming)) (out_Events out) evs /\
     ev_version <$> evs = upto (Z.of_nat (length past) + 1) (length evs) /\
     timers d' = timers d ++ tms /\
     Forall2 (fun t r => Timers.scheduled_as (tmr_FireAt t) id (tmr_Token t) r) (out_Timers out) tms /\
     outbox d' = outbox d ++ obs /\ Forall (fun r => unpublished r = true) obs /\
     Forall2 (announces (command_template incoming id)) (Messages out) (row_message <$> obs)).
Proof.
  intros Hm Hi d d'. pose proof (reachable_done m i L _ Hm Hi) as [Hid [->|H]]; (split; [done|]); [by left|].
  destruct H as (Hin & past & later & st & out & at_ & evs & tms & obs & -> & Hh & Hf & Hdec & Hlate & Hv & _ & H1 & H2 & H3 & H4).
  right. split; [done|]. exists past, later, st, out, evs, tms, obs, at_.
  split; [done|]. do 3 (split; [done|]). unfold d', command_log.
  rewrite !apply_writes_app, apply_event_rows, apply_timer_rows, apply_outbox_rows.
  by destruct (bool_decide (obs = [])).
Qed.
End commits.

(** ** Witness *)
Module Samples.
Import UnixTimestamps PlainPostgres NumberedJson Store.Samples Commands.Samples Deadlines.Samples.

(** A process alone, about to commit one hold command. *)
Definition hold_code : prog bool := transaction (apply_command incoming hold seat).
Definition hold_log : list write := solo_log 5000 "id" empty_db hold_code no_rows.
Definition about_to_hold : machine :=
  poised 5000 "id" empty_db hold_code (OfCommand incoming hold seat) no_rows [].
Lemma hold_log_length : length hold_log = 5%nat.
Proof. vm_compute. reflexivity. Qed.
Lemma about_to_hold_reachable : reachable about_to_hold.
Proof. apply poised_reachable; [by apply begins_command|]. apply rtc_refl. Qed.
Lemma about_to_hold_live :
  mc_live about_to_hold !! 0%nat =
    Some {| lv_code := Ret true; lv_log := hold_log; lv_about := OfCommand incoming hold seat |}.
Proof. apply poised_live. intros E. pose proof hold_log_length as H. unfold hold_log in H. by rewrite E in H. Qed.
Lemma about_to_hold_db : mc_db about_to_hold = empty_db.
Proof. unfold about_to_hold, poised. by destruct (solo _ _ _ _ _ _) as [[L sq']|]. Qed.
End Samples.

Import UnixTimestamps PlainPostgres NumberedJson Store.Samples Commands.Samples Samples.

Lemma commands_commit_atomically_witness :
  exists st out, Decide st hold = Ok out /\ st_Status st = StatusFree /\ length (out_Timers out) = 1%nat.
Proof.
  pose proof (commands_commit_atomically about_to_hold 0 hold_log incoming hold seat
    about_to_hold_reachable about_to_hold_live) as [_ [H|H]].
  - exfalso. rewrite about_to_hold_db in H. apply (f_equal (fun d => length (events d))) in H.
    revert H. vm_compute. done.
  - destruct H as (_ & past & later & st & out & evs & tms & obs & at_ & Hh & Hf & Hd & _ & _ & _ & _ & _ & Ht & Htm & _).
    rewrite about_to_hold_db in Hh, Ht. destruct Hh as (_ & Hp & _).
    apply Forall2_nil_inv_l in Hp. destruct past; [|done]. injection Hf as <-.
    exists zero_state, out. split; [exact Hd|]. split; [reflexivity|].
    rewrite (Forall2_length _ _ _ Htm). apply (f_equal length) in Ht. rewrite length_app in Ht.
    simpl in Ht. rewrite <- Ht. vm_compute. reflexivity.
Defined.
