(* ===== verification/Expiries.v ===== *)
(** * Expiries: what a deadline's transaction commits

    The counterpart of [Commits.v] for the scheduler: a session that is about to commit a
    deadline, in any reachable state of the machine of [Sessions.v], found the timer claimed
    by somebody else and writes nothing; or claims it, and either nobody waits for it, or it
    frees the seat it is for, by the event that [Expire] decides on the state of the seat
    that is committed at this moment. *)
From S2P Require Import Prelude Contracts Envelope Database Timers EventStore Inbox Outbox Codec Seat Store Commands Isolation Projection Sessions Deadlines Overdue Commits.

Section expiries.
Context `{TS : Timestamppb} `{PG : Postgres} `{PJ : !Protojson} `{PJL : !ProtojsonLaws}
  `{EN : !Encoder}.

(** The sessions also wait for each other's claims. *)
Definition relies_claims (about : origin) (L : list write) (d d' : db) : Prop :=
  respects about L d d' /\
  forall id at_, WFired id at_ ∈ L ->
    Timers.is_pending id d = true -> Timers.is_pending id d' = true.

(** The stream held the rows [rows], of the messages [past], and has only grown. *)
Definition held_rows (id : string) (rows : list event_row) (past : list message) (d : db) : Prop :=
  consistent d /\ length rows = length past /\
  exists more later, stream_rows id d = rows ++ more /\ holds_history id d (past ++ later).

(** A claimed deadline, decided on the stream [past] that ended with an event of metadata
    [meta]; the stream has grown only if the deadline was for nothing. *)
Definition fired (t : Timers.Timer) (L : list write) (d : db) : Prop :=
  let id := Timers.t_Subject t in
  Timers.is_pending (Timers.t_ID t) d = true /\
  exists past later st meta at_ evs obs,
    let out := Expire st id (Timers.t_Token t) in
    L = expiry_log t at_ evs obs /\
    holds_history id d (past ++ later) /\ Fold past = Ok st /\
    (out_Events out <> [] -> later = [] /\ meta = last_meta (recorded id d)) /\
    ev_version <$> evs = upto (Z.of_nat (length past) + 1) (length evs) /\
    appends id (out_Events out) L d /\
    Forall2 (holds_event id (expiry_meta meta)) (out_Events out) evs /\
    Forall (fun r => unpublished r = true) obs /\
    Forall2 (announces (expiry_template id meta)) (Messages out) (row_message <$> obs).

Definition fires (about : origin) (L : list write) (d : db) : Prop :=
  match about with OfTimer t => L = [] \/ fired t L d | _ => True end.

(** ** Lemmas *)
Lemma relies_claims_respects about L d d' : relies_claims about L d d' -> respects_streams L d d'.
Proof. by intros [[HR _] _]. Qed.

Lemma relies_claims_refl about L d : relies_claims about L d d.
Proof. split; [apply respects_refl|done]. Qed.

Lemma relies_claims_trans about L d1 d2 d3 :
  relies_claims about L d1 d2 -> relies_claims about L d2 d3 -> relies_claims about L d1 d3.
Proof. intros [H1 K1] [H2 K2]. split; [by eapply respects_trans|eauto]. Qed.

Lemma held_rows_stable about id rows past L d d' :
  relies_claims about L d d' -> held_rows id rows past d -> held_rows id rows past d'.
Proof.
  intros [([Hc (new & He & _)] & _) _] (Hd & Hl & more & later & Hr & Hh).
  split; [by apply Hc|]. split; [done|].
  destruct (history_continues _ _ _ _ _ He Hh (Hc Hd)) as [later' Hm].
  exists (more ++ filter (fun r => ev_stream_id r = id) new), (later ++ later').
  split; [|by rewrite app_assoc]. by rewrite (stream_rows_app id d d' new He), Hr, app_assoc.
Qed.

(** A stream that has not moved has the metadata it had. *)
Lemma held_rows_meta id rows past d :
  held_rows id rows past d -> holds_history id d past ->
  last_meta (recorded id d) = last_meta (scan_event id <$> rows).
Proof.
  intros (_ & Hl & more & later & Hr & _) Hh. pose proof (holds_history_length _ _ _ Hh) as Hn.
  rewrite Hr, length_app in Hn. destruct more; [|simpl in Hn; lia]. rewrite app_nil_r in Hr.
  unfold recorded. rewrite gapless_order by apply Hh. by rewrite Hr.
Qed.

(** A stream read again, as long as before. *)
Lemma recorded_same id d d' : stream_rows id d' = stream_rows id d -> recorded id d' = recorded id d.
Proof. unfold recorded, stream_rows. by intros ->. Qed.

Lemma same_length_rows id d d' new msgs :
  events d' = events d ++ new -> holds_history id d msgs -> holds_history id d' msgs ->
  stream_rows id d' = stream_rows id d.
Proof.
  intros Hnew Hh Hh'. pose proof (stream_rows_app id d d' new Hnew) as E.
  pose proof (f_equal length E) as El. rewrite length_app in El.
  rewrite <- (holds_history_length _ _ _ Hh), <- (holds_history_length _ _ _ Hh') in El.
  rewrite E. destruct (filter _ new); [by rewrite app_nil_r|simpl in El; lia].
Qed.

(** Claims. *)
Lemma wp_claimed about id d :
  sound d ->
  wp (relies_claims about) (Timers.MarkFired id) [] d (fun got L d' => sound d' /\
    match got with
    | Ok true => exists at_, L = [WFired id at_] /\ Timers.is_pending id d' = true
    | Ok false => L = []
    | Err _ => True
    end).
Proof.
  intros Hd. unfold Timers.MarkFired. apply wp_tx_bind, wp_exec. intros d' now sq ((_ & HS & _) & _).
  specialize (HS Hd). rewrite apply_writes_nil. rewrite Timers.markFiredSQL_cases by apply HS.
  destruct (Timers.is_pending id d') eqn:Hp; cbn; (split; [exact HS|]); [|done]. by eexists.
Qed.

Lemma wp_still_claimed {A} (p : prog A) about id at_ L d :
  WFired id at_ ∈ L -> Timers.is_pending id d = true ->
  wp (relies_claims about) p L d (fun _ _ d' => Timers.is_pending id d' = true).
Proof.
  revert L d. induction p as [a|f IH|X q f IH]; intros L d HL Hin; simpl; [done|by eauto|].
  intros d' now sq [_ HI]. destruct (q _ _ _) as [[[x|e] ws] ?]; [|done].
  apply IH; [apply elem_of_app; by left|by eapply HI].
Qed.

(** What the firer loads. *)
Lemma wp_loads_meta about id L d :
  consistent d -> log_events L = [] ->
  wp (relies_claims about) (LoadSeat id) L d (fun r L' d' =>
    match r with
    | Ok (st, meta) => L' = L /\ consistent d' /\ exists msgs rows,
        loaded id d' msgs st /\ held_rows id rows msgs d' /\ meta = last_meta (scan_event id <$> rows)
    | Err _ => True
    end).
Proof.
  intros Hd HL. eapply wp_mono.
  { apply wp_conj; [|apply (wp_emits _ (fun _ => False)), each_LoadSeat, writes_load].
    eapply wp_weaken_rely; [by apply relies_claims_respects|]. apply wp_LoadSeat; [|done].
    exists EmptyString, []. by split; [|left]. }
  intros [[st meta]|e] L' d' [H [(rest & -> & Hrest) _]]; [|done].
  destruct H as (_ & Hc & [msgs Hl] & ->). apply committable_consistent in Hc.
  destruct Hrest; [|done]. rewrite app_nil_r. split; [done|]. split; [done|].
  exists msgs, (stream_rows id d'). split; [done|]. pose proof Hl as (Hh & _). split.
  - split; [done|]. split; [by symmetry; apply holds_history_length|]. exists [], []. by rewrite !app_nil_r.
  - unfold recorded. by rewrite gapless_order by apply Hh.
Qed.

(** The closure of the firer. *)
Lemma wp_expires t at_ d :
  consistent d ->
  wp (relies_claims (OfTimer t)) (Fire t) [WFired (Timers.t_ID t) at_] d
    (fun r L d' => is_ok r = true -> Timers.is_pending (Timers.t_ID t) d' = true -> fired t L d').
Proof.
  intros Hd. unfold Fire. set (id := Timers.t_Subject t). set (h := Timers.t_Token t). set (L0 := [_]).
  apply wp_tx_bind. eapply wp_mono; [by apply (wp_loads_meta _ id)|].
  intros [[st meta]|e] L1 d1; [|done]. intros (-> & Hc & msgs & rows & Hl & Hrows & Hmeta).
  set (out := Expire st id h). case_bool_decide as Hne.
  { intros _ Hp. split; [done|]. exists msgs, [], st, meta, at_, [], [].
    cbv zeta. fold id h out. rewrite app_nil_r. pose proof Hl as (Hh & Hf & _).
    assert (Messages out = []) as -> by (revert Hne; unfold out, Expire; by destruct (_ || _)).
    rewrite Hne. split_and!; [done..|by split; [|left]|constructor|constructor|constructor]. }
  eapply wp_mono.
  { apply wp_conj; [|by apply (wp_stable _ (held_rows id rows msgs)); [apply held_rows_stable|]].
    apply wp_tx_bind. eapply wp_mono.
    { eapply wp_weaken_rely; [by apply relies_claims_respects|].
      by apply (wp_AppendSeat id msgs st (Deadline id h) out). }
    instantiate (1 := fun r L d' => is_ok r = true -> exists evs obs,
      L = expiry_log t at_ evs obs /\ ev_version <$> evs = upto (st_Version st + 1) (length evs) /\
      appends id (out_Events out) L d' /\
      Forall2 (holds_event id (expiry_meta meta)) (out_Events out) evs /\
      Forall (fun r => unpublished r = true) obs /\
      Forall2 (announces (expiry_template id meta)) (Messages out) (row_message <$> obs)).
    intros [[]|e] L2 d2 H2; [|done]. destruct (H2 eq_refl) as (evs & -> & He & Hv & Ha).
    eapply wp_mono.
    { apply wp_conj; [apply wp_announces|].
      eapply wp_weaken_rely; [by intros ??? [HR _]; exact HR|].
      apply wp_silent; [apply silent_announces|exact Ha]. }
    intros r L3 d3 [H3 [Ha3 _]] Hr. destruct (H3 Hr) as (obs & -> & Hu & Ho).
    exists evs, obs. rewrite <- app_assoc in *. done. }
  intros r L d2 [H Hrows2] Hr Hp. destruct (H Hr) as (evs & obs & -> & Hv & Ha & He & Hu & Ho).
  split; [done|]. pose proof Hl as (Hm & Hf & _ & Hver).
  rewrite <- (holds_history_length _ _ _ Hm) in Hver. rewrite Hver in Hv.
  pose proof Hrows2 as (_ & _ & more & later & _ & Hh).
  assert (later = []) as ->.
  { eapply continued_unmoved; [exact Ha| | |exact Hh]; rewrite expiry_log_events; [|done].
    intros ->. by apply Forall2_nil_inv_r in He. }
  exists msgs, [], st, meta, at_, evs, obs. cbv zeta. fold id h out. split_and!; try done.
  intros _. split; [done|]. rewrite Hmeta. symmetry. eapply held_rows_meta; [exact Hrows2|].
  by rewrite app_nil_r in Hh.
Qed.

Lemma fire_done t d :
  sound d ->
  wp (relies_claims (OfTimer t)) (Timers.claim_and_fire Fire t) [] d
    (fun r L d' => is_ok r = true -> L = [] \/ fired t L d').
Proof.
  intros Hd. unfold Timers.claim_and_fire. apply wp_tx_bind. eapply wp_mono; [by apply wp_claimed|].
  intros [[|]|e] L d1 [[Hc _] HL]; [|by left|done]. destruct HL as (at_ & -> & Hp).
  apply wp_tx_bind. eapply wp_mono.
  { apply wp_conj; [by apply wp_expires|]. by apply (wp_still_claimed _ _ (Timers.t_ID t) at_); [left|]. }
  intros [[]|e] L2 d2 [H Hp2]; [|done]. intros _. right. by apply H.
Qed.

(** What others commit. *)
Lemma pending_kept id d L :
  (forall at_, WFired id at_ ∉ L) -> (forall ids, WDeleteTimers ids ∉ L) ->
  Timers.is_pending id d = true -> Timers.is_pending id (apply_writes d L) = true.
Proof.
  revert d. induction L as [|w L IH]; intros d Hno Hdel Hp; [done|]. rewrite apply_writes_cons.
  apply IH; [intros a Ha; apply (Hno a); by right|intros a Ha; apply (Hdel a); by right|].
  apply Timers.is_pending_true in Hp as (r & Hr & Hid & Hp). apply Timers.is_pending_true.
  destruct w as [| |k' t'| r' | id' at_| ids | | | | | |]; simpl; eauto.
  - exists r. split; [apply elem_of_app; by left|done].
  - exists r. split; [|done]. apply list_elem_of_fmap. exists r. split; [|done].
    unfold mark_fired_row. rewrite bool_decide_eq_false_2; [done|]. rewrite Hid. intros ->.
    apply (Hno at_). by left.
  - exfalso. apply (Hdel ids). by left.
Qed.

(** A log that is ready deletes no timer. *)
Lemma ready_keeps_rows about L d ids : ready about L d -> WDeleteTimers ids ∉ L.
Proof.
  intros (id & add & _ & _ & Ht) Hin.
  assert (WDeleteTimers ids ∈ timer_writes L) as H
    by (apply list_elem_of_omap; by exists (WDeleteTimers ids)).
  destruct Ht as [(rs & E & _)|(t & at_ & _ & E & _)]; rewrite E in H.
  - by apply list_elem_of_fmap in H as (r & ? & _).
  - by apply list_elem_of_singleton in H.
Qed.

Lemma commit_relies_claims m i L about :
  reachable m ->
  mc_live m !! i = Some {| lv_code := Ret true; lv_log := L; lv_about := about |} ->
  sound (apply_writes (mc_db m) L) /\
  forall j lv, j <> i -> mc_live m !! j = Some lv ->
    relies_claims (lv_about lv) (lv_log lv) (mc_db m) (apply_writes (mc_db m) L).
Proof.
  intros Hm Hi. pose proof (reachable_ids m Hm) as Hids. pose proof (reachable_ready m i L about Hm Hi) as Hr.
  destruct (commit_guarantee m i L about) as [Hs HR]; [done|by apply reachable_sound|done..|].
  split; [done|]. intros j lv Hij Hj. split; [by apply (HR j lv)|]. intros id at_ Hin.
  apply pending_kept; [|intros ids; by eapply ready_keeps_rows].
  intros at' Hat. apply (ids_apart m Hids j i lv _ Hij Hj Hi).
  exists (WFired id at_), (WFired id at'), (LTimer id). done.
Qed.

Lemma housekeeping_relies_claims q now sq d n ws sq' :
  housekeeping q -> q now sq d = (Ok n, ws, sq') -> sound d ->
  sound (apply_writes d ws) /\ forall about L, relies_claims about L d (apply_writes d ws).
Proof.
  intros Hq E Hd.
  assert (forall about L, respects about L d (apply_writes d ws)) as HR
    by (intros about L; by eapply housekeeping_respects).
  split; [by apply (HR OfUpkeep [])|]. intros about L. split; [done|]. intros id _ _ Hp.
  destruct (housekeeping_writes _ _ _ _ _ _ _ Hq E) as (w & -> & Hw).
  apply Timers.is_pending_true in Hp as (r & Hr & Hid & Hp). apply Timers.is_pending_true.
  destruct w; try done; simpl; eauto. exists r. split; [|done].
  apply list_elem_of_filter. split; [|done]. intros (r' & Hr' & Heq & Hp')%Hw.
  destruct Hd as (_ & _ & Hnd). rewrite (Timers.timer_unique d r' r) in Hp' by done. congruence.
Qed.

Lemma begins_fires due p about d :
  begins due p about -> sound d ->
  wp (relies_claims about) p [] d (fun ok L d => ok = true -> fires about L d).
Proof.
  intros Hb Hd. destruct Hb as [incoming cmd id _|t _|id| |locked published];
    try by (eapply wp_mono; [apply wp_extends|]).
  apply wp_bind. eapply wp_mono; [by apply fire_done|]. intros r L d' H Hr. by apply H.
Qed.

Lemma fires_stable about L d d' :
  relies_claims about L d d' -> sound d -> fires about L d -> fires about L d'.
Proof.
  intros HR [Hd _]. destruct about as [|t|]; try done. intros [->|H]; [by left|right].
  destruct H as (Hp & past & later & st & meta & at_ & evs & obs & HL & Hh & Hf & Hsome & Hv & Ha & He & Ho).
  pose proof HR as [([Hc (new & Hnew & _)] & _) Hclaim].
  destruct (history_continues _ _ _ _ _ Hnew Hh (Hc Hd)) as [more Hm]. rewrite <- app_assoc in Hm.
  pose proof (appends_stable _ _ _ _ _ (relies_claims_respects _ _ _ _ HR) Ha) as Ha'.
  split; [apply (Hclaim _ at_); [rewrite HL; by left|done]|].
  exists past, (later ++ more), st, meta, at_, evs, obs. cbv zeta.
  split_and!; try done; [|apply Ho..]. intros Hne. destruct (Hsome Hne) as [-> ->].
  assert (more = []) as ->.
  { eapply continued_unmoved; [exact Ha'| | |exact Hm]; rewrite HL, expiry_log_events; [|done].
    intros ->. by apply Forall2_nil_inv_r in He. }
  split; [done|]. symmetry. f_equal. apply recorded_same. rewrite !app_nil_r in *.
  by eapply same_length_rows.
Qed.

Lemma reachable_fires m i L t :
  reachable m ->
  mc_live m !! i = Some {| lv_code := Ret true; lv_log := L; lv_about := OfTimer t |} ->
  L = [] \/ fired t L (mc_db m).
Proof.
  intros Hm Hi. change (fires (OfTimer t) L (mc_db m)).
  eapply (on_course_ready sound relies_claims fires); [apply fires_stable|].
  eapply (reachable_invariant sound relies_claims fires); [..|exact Hm|exact Hi].
  - apply relies_claims_refl.
  - apply relies_claims_trans.
  - apply fires_stable.
  - apply sound_start.
  - apply begins_fires.
  - intros m' j L' about' Hm' _ Hj _. by eapply commit_relies_claims.
  - apply housekeeping_relies_claims.
Qed.

(** A claimed deadline that finds nobody waiting for it. *)
Lemma nothing_to_expire seat hold st :
  out_Events (Expire st seat hold) = [] -> Expire st seat hold = no_outcome.
Proof. unfold Expire. by destruct (_ || _). Qed.

(** The event of a deadline, and the state it needs. *)
Lemma something_to_expire seat hold st :
  out_Events (Expire st seat hold) <> [] ->
  st_Status st = StatusHeld /\ st_HoldID st = hold /\
  exists x, out_Events (Expire st seat hold) = [MSeatHoldExpired x] /\
    Messages (Expire st seat hold) = [MSeatHoldExpired x] /\
    SeatHoldExpired_HoldId x = hold /\ SeatHoldExpired_SeatId x = seat /\
    SeatHoldExpired_BookingId x = st_BookingID st.
Proof.
  unfold Expire. destruct (_ || _) eqn:E; [done|]. intros _.
  apply orb_false_iff in E as [Es%bool_decide_eq_false%dec_stable Eh%bool_decide_eq_false%dec_stable].
  split; [done|]. split; [done|]. eexists. split_and!; [reflexivity..| | |]; simpl; congruence.
Qed.

Lemma expired_unawaited t at_ obs d : ready (OfTimer t) (expiry_log t at_ [] obs) d -> ~ awaited t d.
Proof.
  intros (id & add & [_ Ha] & _ & [(rs & E & _)|(t' & at' & [= <-] & _ & [[_ [x ->]]|[_ Hna]])]); [| |done].
  - rewrite expiry_log_timers in E. destruct rs; [done|]. by injection E.
  - destruct Ha as [[? _]|(msgs & Hne & _)]; [done|]. by rewrite expiry_log_events in Hne.
Qed.

(** ** Properties *)

(** C4: concurrent deadlines are atomic.  Whatever the other sessions of a reachable state
    have done meanwhile, a session that is about to commit a due timer either lost it to
    another claim and has nothing to write; or the timer is still pending, its commit marks
    it, and then either no held seat waits for that timer, and nothing else is written; or
    the seat it is for is held, at this very moment, by the hold it names: then the commit
    appends that hold's expiry to the seat's stream at the next version, under the
    correlation id of the stream's last event, announces it, and frees the seat. *)
Theorem expiries_commit_atomically (m : machine) (i : nat) (L : list write) (t : Timers.Timer) :
  reachable m ->
  mc_live m !! i = Some {| lv_code := Ret true; lv_log := L; lv_about := OfTimer t |} ->
  let d := mc_db m in
  let d' := apply_writes d L in
  let id := Timers.t_Subject t in
  let s := state_of id d in
  d' = d \/
  Timers.is_pending (Timers.t_ID t) d = true /\ Timers.is_pending (Timers.t_ID t) d' = false /\
  ((~ awaited t d /\ events d' = events d /\ outbox d' = outbox d /\ inbox d' = inbox d) \/
   (st_Status s = StatusHeld /\ st_HoldID s = Timers.t_Token t /\
    st_Status (state_of id d') = StatusFree /\ inbox d' = inbox d /\
    let meta := last_meta (recorded id d) in
    exists x row box,
      SeatHoldExpired_HoldId x = Timers.t_Token t /\ SeatHoldExpired_SeatId x = id /\
      SeatHoldExpired_BookingId x = st_BookingID s /\
      events d' = events d ++ [row] /\
      holds_event id (expiry_meta meta) (MSeatHoldExpired x) row /\
      ev_version row = Z.of_nat (length (stream_rows id d)) + 1 /\
      outbox d' = outbox d ++ [box] /\ unpublished box = true /\
      announces (expiry_template id meta) (MSeatHoldExpired x) (row_message box))).
Proof.
  intros Hm Hi d d' id s. pose proof (reachable_ready m i L _ Hm Hi) as Hr.
  destruct (reachable_fires m i L t Hm Hi) as [->|Hf]; [by left|right].
  destruct Hf as (Hp & past & later & st & meta & at_ & evs & obs & -> & Hh & Hfold & Hsome & Hv & Ha & He & Hu & Ho).
  fold d in Hr, Hp, Hh, Hsome, Ha. fold id in Hh, Hsome, Ha, He, Ho.
  set (out := Expire st id (Timers.t_Token t)) in *.
  assert (events d' = events d ++ evs /\ outbox d' = outbox d ++ obs /\ inbox d' = inbox d /\
    timers d' = mark_fired_row (Timers.t_ID t) at_ <$> timers d) as (Ee & Eo & Ei & Et).
  { unfold d', expiry_log. rewrite !apply_writes_app, apply_event_rows, apply_outbox_rows.
    by destruct (bool_decide (obs = [])). }
  split; [done|]. split; [by apply (Timers.marked_timers _ at_ d)|].
  destruct (decide (out_Events out = [])) as [Hnil|Hne]; [left|right].
  - rewrite Hnil in He. apply Forall2_nil_inv_l in He as ->.
    assert (Messages out = []) as Hm0
      by (unfold out in *; by rewrite (nothing_to_expire _ _ _ Hnil)).
    rewrite Hm0 in Ho. apply Forall2_nil_inv_l, fmap_nil_inv in Ho as ->.
    rewrite app_nil_r in Ee, Eo. split; [|done]. by eapply expired_unawaited.
  - destruct (Hsome Hne) as [-> ->]. rewrite app_nil_r in Hh.
    pose proof (state_of_fold id d past Hh) as Hst. rewrite Hfold in Hst. injection Hst as Est.
    fold s in Est. destruct (something_to_expire _ _ _ Hne) as (Hs & Hid & x & Hx & Hm1 & H1 & H2 & H3).
    fold out in Hx, Hm1. rewrite Hx in He, Ha. rewrite Hm1 in Ho. rewrite <- Est.
    apply Forall2_cons_inv_l in He as (row & ? & He & Hnil%Forall2_nil_inv_l & ->). subst.
    apply Forall2_cons_inv_l in Ho as (b & bs & Ho & Hnil%Forall2_nil_inv_l & Hobs). subst bs.
    destruct obs as [|box [|]]; try done. injection Hobs as <-.
    split; [done|]. split; [done|]. split; [|split; [done|]].
    + destruct (commit_streams _ d id _ id Ha) as [[_ [?|?]]|(_ & e & [= <-] & Happ)]; [simpl; lia|done..|].
      injection Happ as Happ. exact (eq_sym (f_equal st_Status Happ)).
    + exists x, row, box. rewrite <- (holds_history_length _ _ _ Hh).
      apply Forall_cons in Hu as [Hu _]. injection Hv as Hv. done.
Qed.
End expiries.

(** ** Witness *)
Module Samples.
Import UnixTimestamps PlainPostgres NumberedJson Store.Samples Commands.Samples Deadlines.Samples.

(** A process alone holds a seat, reads that its deadline has passed, and is about to
    commit its expiry. *)
Definition held_db : db := mc_db one_held.
Definition held_seqs : seqs := mc_seqs one_held.
Definition passed : Time := st_ExpiresAt (state_of seat held_db) + 1000.
Definition due : list Timers.Timer :=
  match Timers.dueSQL 1 passed held_seqs held_db with
  | (Ok rows, _, _) => Timers.scan_timer <$> rows
  | _ => []
  end.
Definition deadline : Timers.Timer :=
  match due with t :: _ => t | [] => {| Timers.t_ID := 0; Timers.t_FireAt := 0; Timers.t_Subject := ""; Timers.t_Token := "" |} end.
Definition expiry_code : prog bool := transaction (Timers.claim_and_fire Fire deadline).
Definition about_to_expire : machine :=
  poised passed "id-2" held_db expiry_code (OfTimer deadline) held_seqs due.
Definition expiry_writes : list write := solo_log passed "id-2" held_db expiry_code held_seqs.
Lemma deadline_due : deadline ∈ due.
Proof.
  assert (length due = 1%nat) as H by (vm_compute; reflexivity). unfold deadline.
  destruct due as [|t ts]; [done|by left].
Qed.
Lemma expiry_writes_length : length expiry_writes = 4%nat.
Proof. vm_compute. reflexivity. Qed.
Lemma about_to_expire_reachable : reachable about_to_expire.
Proof.
  apply poised_reachable; [apply begins_fire, deadline_due|].
  pose proof one_held_reachable as H. unfold one_held in H. rewrite after_idle in H.
  fold one_held in H. eapply rtc_r; [exact H|].
  match type of H with reachable ?m => pose proof (step_due m passed 1) as Hs end.
  unfold with_due in Hs. simpl in Hs. fold held_db held_seqs in Hs |- *. by eapply Hs.
Qed.
Lemma about_to_expire_live :
  mc_live about_to_expire !! 0%nat =
    Some {| lv_code := Ret true; lv_log := expiry_writes; lv_about := OfTimer deadline |}.
Proof.
  apply poised_live. intros E. pose proof expiry_writes_length as H. unfold expiry_writes in H.
  by rewrite E in H.
Qed.
Lemma about_to_expire_db : mc_db about_to_expire = held_db.
Proof. unfold about_to_expire, poised. by destruct (solo _ _ _ _ _ _) as [[L sq']|]. Qed.
End Samples.

Import UnixTimestamps PlainPostgres NumberedJson Store.Samples Samples.

Lemma expiries_commit_atomically_witness :
  st_Status (state_of seat held_db) = StatusHeld /\
  st_Status (state_of seat (apply_writes held_db expiry_writes)) = StatusFree.
Proof.
  split; [exact Deadlines.Samples.one_held_is_held|].
  assert (Timers.t_Subject deadline = seat) as Hseat by (vm_compute; reflexivity).
  pose proof (expiries_commit_atomically about_to_expire 0 expiry_writes deadline
    about_to_expire_reachable about_to_expire_live) as H.
  rewrite about_to_expire_db, Hseat in H.
  assert (length (events (apply_writes held_db expiry_writes)) = S (length (events held_db))) as Hlen
    by (vm_compute; reflexivity).
  destruct H as [H|(_ & _ & [(_ & H & _)|(_ & _ & H & _)])].
  - rewrite H in Hlen. lia.
  - rewrite H in Hlen. lia.
  - exact H.
Defined.
