(* ===== verification/Refinement.v ===== *)
(** * Refinement: the machine implements the seats

    The specification is a row of abstract seats ([Seat.seat_spec]) that one input at a
    time moves.  The implementation is the machine of [Sessions.v]: any number of commands,
    deadlines, projections, rebuilds, outbox cycles and housekeeping statements, interleaved
    statement by statement, rolled back or committed.  Each commit that appends an event is
    one move of the specification, by the command or the deadline its session was started
    for; every other step of the machine leaves every seat as it is. *)
From stdpp Require Import functions.
From S2P Require Import Prelude Contracts Envelope Database Timers EventStore Inbox Outbox Codec Seat Store Commands Isolation Projection Sessions Deadlines Overdue Commits Expiries.

(** ** The specification *)
Section specification.
Context `{TS : Timestamppb}.

(** The runs of the abstract seats: every input moves the seat it is for. *)
Inductive seats_run : list input -> (string -> seat_spec) -> Prop :=
  | seats_start : seats_run [] (fun _ => Available)
  | seats_move ins a i id :
      seats_run ins a -> target i = Ok id -> spec_step (a id) i <> a id ->
      seats_run (ins ++ [i]) (<[id := spec_step (a id) i]> a).
End specification.

Section refinement.
Context `{TS : Timestamppb} `{PG : Postgres} `{PJ : !Protojson} `{PJL : !ProtojsonLaws}
  `{EN : !Encoder}.

(** ** Executions, with the inputs of the sessions that appended, in the order of commits *)
Definition input_of (about : origin) : option input :=
  match about with
  | OfCommand _ cmd _ => Some (Command cmd)
  | OfTimer t => Some (Deadline (Timers.t_Subject t) (Timers.t_Token t))
  | OfUpkeep => None
  end.

Definition committed (i : nat) (L : list write) (m : machine) : machine :=
  with_db (apply_writes (mc_db m) L) (with_live (delete i) m).

Inductive execution : list input -> machine -> Prop :=
  | execution_start : execution [] machine_start
  | execution_silent ins m m' :
      execution ins m -> step m m' -> events (mc_db m') = events (mc_db m) -> execution ins m'
  | execution_commit ins m i L about inp :
      execution ins m ->
      mc_live m !! i = Some {| lv_code := Ret true; lv_log := L; lv_about := about |} ->
      input_of about = Some inp -> log_events L <> [] ->
      execution (ins ++ [inp]) (committed i L m).

Definition seats_of (d : db) (id : string) : seat_spec := abstract (state_of id d).

(** ** Lemmas *)
Lemma execution_reachable ins m : execution ins m -> reachable m.
Proof.
  induction 1 as [|ins m m' _ IH Hs _|ins m i L about inp _ IH Hi _ _]; [apply rtc_refl|..].
  - by eapply rtc_r.
  - eapply rtc_r; [exact IH|]. by eapply step_commit.
Qed.

(** The log of a session that keeps the view or the outbox holds nothing else. *)
Definition upkeep_quiet (about : origin) (L : list write) (_ : db) : Prop :=
  about = OfUpkeep -> Forall touches_view L.

Lemma begins_quiet due p about d :
  begins due p about ->
  wp (fun _ _ _ => True) p [] d (fun ok L d => ok = true -> upkeep_quiet about L d).
Proof.
  intros Hb.
  assert (forall (A : Type) (q : tx A), emits touches_view q ->
    wp (fun _ _ _ => True) (transaction q) [] d (fun ok L d => ok = true -> Forall touches_view L)) as Hq.
  { intros A q Hq. eapply wp_mono; [apply (wp_emits _ touches_view); by apply each_transaction|].
    by intros ok L d' [(rest & -> & Hrest) _] _. }
  destruct Hb as [incoming cmd id _|t _|id| |locked published];
    try by (eapply wp_mono; [apply wp_extends|]).
  all: eapply wp_mono; [apply Hq|by intros ok L d' H Hok _; apply H].
  - by apply each_project.
  - by apply each_rebuild.
  - by apply each_drain_cycle.
Qed.

Lemma reachable_quiet m i L :
  reachable m ->
  mc_live m !! i = Some {| lv_code := Ret true; lv_log := L; lv_about := OfUpkeep |} ->
  Forall touches_view L.
Proof.
  intros Hm Hi. assert (upkeep_quiet OfUpkeep L (mc_db m)) as H; [|by apply H].
  eapply (on_course_ready (fun _ => True) (fun _ _ _ _ => True) upkeep_quiet); [done|].
  eapply (reachable_invariant (fun _ => True) (fun _ _ _ _ => True) upkeep_quiet);
    [done..| | | |exact Hm|exact Hi].
  - intros due p about d Hb _. by eapply begins_quiet.
  - done.
  - done.
Qed.

Lemma upkeep_no_events m i L :
  reachable m ->
  mc_live m !! i = Some {| lv_code := Ret true; lv_log := L; lv_about := OfUpkeep |} ->
  log_events L = [].
Proof.
  intros Hm Hi. apply log_events_none. eapply Forall_impl; [by eapply reachable_quiet|]. by intros [].
Qed.

(** Every step is silent, or the commit of a session that has an input. *)
Lemma reachable_execution m : reachable m -> exists ins, execution ins m.
Proof.
  revert m. apply reachable_ind'; [exists []; constructor|]. intros m m' Hm [ins He] Hs.
  pose proof Hs as Hstep. destruct Hs; try by (exists ins; eapply execution_silent).
  - destruct (decide (log_events L = [])) as [Hnil|Hne].
    { exists ins. eapply execution_silent; [exact He|exact Hstep|]. simpl.
      by rewrite events_apply, Hnil, app_nil_r. }
    destruct (input_of about) as [inp|] eqn:E.
    + exists (ins ++ [inp]). by eapply (execution_commit ins m i L about inp).
    + destruct about; try done. by destruct (Hne (upkeep_no_events m i L Hm H)).
  - exists ins. eapply execution_silent; [exact He|exact Hstep|].
    destruct (housekeeping_writes _ _ _ _ _ _ _ H H0) as (w & -> & Hw). simpl.
    by destruct w.
Qed.

(** What a decision on the committed state of a seat makes of the seats. *)
Lemma decision_moves id i past st out L d :
  holds_history id d past -> Fold past = Ok st -> target i = Ok id -> decide_input st i = Ok out ->
  out_Events out <> [] -> log_events L <> [] -> appends id (out_Events out) L d ->
  spec_step (seats_of d id) i <> seats_of d id /\
  forall id', seats_of (apply_writes d L) id' =
    (<[id := spec_step (seats_of d id) i]> (seats_of d) : string -> seat_spec) id'.
Proof.
  intros Hh Hf Ht Hd Hne HL Ha. pose proof (state_of_fold id d past Hh) as Hst.
  rewrite Hf in Hst. injection Hst as Hst.
  destruct (loaded_exists id d past Hh) as (st' & _ & Hf' & Hwf & _). rewrite Hf in Hf'. injection Hf' as <-.
  destruct (decide_input_implements (length past) st i out Hwf Hd) as (s' & Hs' & _ & Habs & Hiff & _).
  unfold seats_of. rewrite <- Hst. split; [intros E; by apply Hne, Hiff|].
  intros id'. destruct (decide (id' = id)) as [->|Hid].
  - rewrite fn_lookup_insert, <- Habs. f_equal. pose proof Ha as [_ [[? _]|Hc]]; [done|].
    apply continued_history in Hc as (msgs & H1 & H2).
    assert (msgs = past) as -> by (by eapply (history_unique id d d)).
    apply state_of_fold in H2. unfold Fold in H2. rewrite (fold_from_app _ _ _ _ _ Hf) in H2.
    simpl in H2. congruence.
  - rewrite fn_lookup_insert_ne by done. f_equal. apply state_of_same. by eapply other_stream.
Qed.

(** The simulation: a session's commit that appends is a move of the specification. *)
Lemma commit_simulates m i L about inp :
  reachable m ->
  mc_live m !! i = Some {| lv_code := Ret true; lv_log := L; lv_about := about |} ->
  input_of about = Some inp -> log_events L <> [] ->
  exists id, target inp = Ok id /\ spec_step (seats_of (mc_db m) id) inp <> seats_of (mc_db m) id /\
    forall id', seats_of (mc_db (committed i L m)) id' =
      (<[id := spec_step (seats_of (mc_db m) id) inp]> (seats_of (mc_db m)) : string -> seat_spec) id'.
Proof.
  intros Hm Hi Hin HL. destruct about as [incoming cmd id|t|]; [| |done]; injection Hin as <-.
  - destruct (reachable_done m i L _ Hm Hi) as [Hid [->|H]]; [done|].
    destruct H as (_ & past & later & st & out & at_ & evs & tms & obs & E & Hh & Hf & Hdec & Hlate & _ & Ha & He & _).
    assert (out_Events out <> []) as Hne.
    { intros Hnil. rewrite Hnil in He. apply Forall2_nil_inv_l in He as ->.
      by rewrite E, command_log_events in HL. }
    rewrite (Hlate Hne), app_nil_r in Hh. exists id. split; [done|].
    by eapply (decision_moves id (Command cmd)).
  - destruct (reachable_fires m i L t Hm Hi) as [->|H]; [done|].
    destruct H as (_ & past & later & st & meta & at_ & evs & obs & E & Hh & Hf & Hlate & _ & Ha & He & _).
    set (out := Expire st _ _) in *.
    assert (out_Events out <> []) as Hne.
    { intros Hnil. rewrite Hnil in He. apply Forall2_nil_inv_l in He as ->.
      by rewrite E, expiry_log_events in HL. }
    destruct (Hlate Hne) as [-> _]. rewrite app_nil_r in Hh. exists (Timers.t_Subject t). split; [done|].
    by eapply (decision_moves _ (Deadline _ _) past st out).
Qed.

Lemma silent_seats d d' id : events d' = events d -> seats_of d' id = seats_of d id.
Proof. intros E. unfold seats_of. f_equal. apply state_of_same. unfold stream_rows. by rewrite E. Qed.

Lemma execution_simulates ins m :
  execution ins m -> exists a, seats_run ins a /\ forall id, seats_of (mc_db m) id = a id.
Proof.
  induction 1 as [|ins m m' He (a & Ha & Hs) Hst Hev|ins m i L about inp He (a & Ha & Hs) Hi Hin HL].
  - exists (fun _ => Available). split; [constructor|done].
  - exists a. split; [done|]. intros id. rewrite <- Hs. by apply silent_seats.
  - destruct (commit_simulates m i L about inp) as (id & Ht & Hne & Hmv); [by eapply execution_reachable|done..|].
    exists (<[id := spec_step (a id) inp]> a). rewrite Hs in Hne. split; [by apply seats_move|].
    intros id'. rewrite Hmv, Hs. unfold insert, fn_insert. case_decide; [done|apply Hs].
Qed.

(** ** Properties *)

(** C2: the machine refines the seats.  The executions of the machine reach its reachable
    states; and in every one of them, with however many commands, deadlines, projections,
    rebuilds, outbox cycles and housekeeping statements interleaved, rolled back or lost,
    the state of all the seats is what the inputs of the sessions that appended events,
    taken one at a time in the order in which they committed, make of free seats: each of
    those inputs moved the seat it is for, as the specification of the seat says, and left
    every other seat as it was. *)
Theorem machine_refines_seats (m : machine) :
  (reachable m <-> exists ins, execution ins m) /\
  forall ins, execution ins m ->
    exists a, seats_run ins a /\ forall id, abstract (state_of id (mc_db m)) = a id.
Proof.
  split; [split|].
  - apply reachable_execution.
  - intros [ins He]. by eapply execution_reachable.
  - intros ins. apply execution_simulates.
Qed.
End refinement.

(** ** Witness *)
Import UnixTimestamps PlainPostgres NumberedJson Store.Samples Commands.Samples Deadlines.Samples.

Lemma machine_refines_seats_witness :
  exists ins a, execution ins one_held /\ seats_run ins a /\
    exists hold booking deadline, a seat = Taken hold booking deadline.
Proof.
  destruct (machine_refines_seats one_held) as [[Hr _] Hs].
  destruct (Hr one_held_reachable) as [ins He]. destruct (Hs ins He) as (a & Ha & Hall).
  exists ins, a. split; [exact He|]. split; [exact Ha|]. rewrite <- Hall. unfold abstract.
  rewrite bool_decide_eq_true_2 by exact one_held_is_held. eauto.
Defined.
