(* ===== verification/Listening.v ===== *)
(** * Listening ([internal/platform/outbox/poller.go]: [listen] and the loop of [Run])

    A poller's [Run] in steps: its election, the subscription of a connection of its own
    ([LISTEN]), the goroutine that turns notifications into wake-ups of a channel with one
    slot, the loop of drains and [select], and the deferred calls when its context ends.
    Sessions of the service, their commits and the context are the outside.  ([Outbox.v]
    has what one drain does, and the election among pollers.)  Theorems: a poller that waits
    with nothing to wake it has left no row unpublished; and when its context ends, [Run]
    can return, with its goroutine ended before the connection that it reads is given back,
    and the lock last. *)
From S2P Require Import Prelude Contracts Envelope Database Timers EventStore Inbox Outbox Codec Seat Store Commands Isolation Projection Sessions Deadlines Overdue Commits Expiries Refinement.

Section listening.
Context `{PG : Postgres}.

(** ** State *)

(** The goroutine of [listen]: in [WaitForNotification], before its [select], ended. *)
Inductive goroutine := NotStarted | Waits | Wakes | Ended.

(** The connection of [listen]: in the pool, acquired, subscribed with notifications it has
    received that nobody has read, or gone away. *)
Inductive connection := Pooled | Acquired | Subscribed (unread : nat) | Broken.

(** Where [Run] is. *)
Inductive place :=
  | Elects
  | StandsBy
  | Acquires
  | Subscribes
  | Claims
  | Publishes (rows : list outbox_row)
  | Selects
  | Prunes
  | Stops
  | Unlocks (r : option err)
  | Returned (r : option err).

(** What the deferred calls give back, in order. *)
Inductive given_back := ListenConn | ElectionLock.

(** [ld_skipped] are the rows that the last claim found locked, [ld_failed] tells whether
    the last drain ended with an error. *)
Record leader := {
  ld_at : place;
  ld_listener : goroutine;
  ld_woken : bool;
  ld_conn : connection;
  ld_lock : bool;
  ld_cancelled : bool;
  ld_db : db;
  ld_skipped : Z -> bool;
  ld_failed : bool;
  ld_back : list given_back;
}.

Definition goes (p : place) (s : leader) : leader :=
  {| ld_at := p; ld_listener := ld_listener s; ld_woken := ld_woken s; ld_conn := ld_conn s;
     ld_lock := ld_lock s; ld_cancelled := ld_cancelled s; ld_db := ld_db s;
     ld_skipped := ld_skipped s; ld_failed := ld_failed s; ld_back := ld_back s |}.
Definition set_listener (g : goroutine) (s : leader) : leader :=
  {| ld_at := ld_at s; ld_listener := g; ld_woken := ld_woken s; ld_conn := ld_conn s;
     ld_lock := ld_lock s; ld_cancelled := ld_cancelled s; ld_db := ld_db s;
     ld_skipped := ld_skipped s; ld_failed := ld_failed s; ld_back := ld_back s |}.
Definition set_woken (b : bool) (s : leader) : leader :=
  {| ld_at := ld_at s; ld_listener := ld_listener s; ld_woken := b; ld_conn := ld_conn s;
     ld_lock := ld_lock s; ld_cancelled := ld_cancelled s; ld_db := ld_db s;
     ld_skipped := ld_skipped s; ld_failed := ld_failed s; ld_back := ld_back s |}.
Definition set_conn (c : connection) (s : leader) : leader :=
  {| ld_at := ld_at s; ld_listener := ld_listener s; ld_woken := ld_woken s; ld_conn := c;
     ld_lock := ld_lock s; ld_cancelled := ld_cancelled s; ld_db := ld_db s;
     ld_skipped := ld_skipped s; ld_failed := ld_failed s; ld_back := ld_back s |}.
Definition set_lock (b : bool) (s : leader) : leader :=
  {| ld_at := ld_at s; ld_listener := ld_listener s; ld_woken := ld_woken s; ld_conn := ld_conn s;
     ld_lock := b; ld_cancelled := ld_cancelled s; ld_db := ld_db s;
     ld_skipped := ld_skipped s; ld_failed := ld_failed s; ld_back := ld_back s |}.
Definition cancel (s : leader) : leader :=
  {| ld_at := ld_at s; ld_listener := ld_listener s; ld_woken := ld_woken s; ld_conn := ld_conn s;
     ld_lock := ld_lock s; ld_cancelled := true; ld_db := ld_db s;
     ld_skipped := ld_skipped s; ld_failed := ld_failed s; ld_back := ld_back s |}.
Definition commit (L : list write) (s : leader) : leader :=
  {| ld_at := ld_at s; ld_listener := ld_listener s; ld_woken := ld_woken s; ld_conn := ld_conn s;
     ld_lock := ld_lock s; ld_cancelled := ld_cancelled s; ld_db := apply_writes (ld_db s) L;
     ld_skipped := ld_skipped s; ld_failed := ld_failed s; ld_back := ld_back s |}.
Definition claimed_past (skipped : Z -> bool) (s : leader) : leader :=
  {| ld_at := ld_at s; ld_listener := ld_listener s; ld_woken := ld_woken s; ld_conn := ld_conn s;
     ld_lock := ld_lock s; ld_cancelled := ld_cancelled s; ld_db := ld_db s;
     ld_skipped := skipped; ld_failed := ld_failed s; ld_back := ld_back s |}.
Definition drained (failed : bool) (s : leader) : leader :=
  {| ld_at := Selects; ld_listener := ld_listener s; ld_woken := ld_woken s; ld_conn := ld_conn s;
     ld_lock := ld_lock s; ld_cancelled := ld_cancelled s; ld_db := ld_db s;
     ld_skipped := ld_skipped s; ld_failed := failed; ld_back := ld_back s |}.
Definition gives_back (x : given_back) (s : leader) : leader :=
  {| ld_at := ld_at s; ld_listener := ld_listener s; ld_woken := ld_woken s; ld_conn := ld_conn s;
     ld_lock := ld_lock s; ld_cancelled := ld_cancelled s; ld_db := ld_db s;
     ld_skipped := ld_skipped s; ld_failed := ld_failed s; ld_back := ld_back s ++ [x] |}.

(** ** Steps *)
Inductive leader_event :=
  | Elected (r : res bool)
  | ConnAcquired (r : option err)
  | Listened (r : option err)
  | ClaimsRows (locked : Z -> bool)
  | DrainFails
  | CommitsMark (now : Time) (acknowledged : bool)
  | Woken
  | PollTick
  | PruneTick
  | Pruned (now : option Time)
  | SeesDone
  | ListenerEnded
  | LockReleased
  | ReadsNotification
  | SendsWake
  | ReadFails
  | OthersCommit (L : list write)
  | ConnLost
  | CtxCancelled.

(** [listen]: [Acquire] and [LISTEN]. *)
Definition listen_step (s : leader) (ev : leader_event) : option leader :=
  match ld_at s, ev with
  | Acquires, ConnAcquired (Some e) =>
      Some (goes (Unlocks (Some (EWrap ("outbox: acquire listen conn: " +:+ Error e)%string e))) s)
  | Acquires, ConnAcquired None => Some (goes Subscribes (set_conn Acquired s))
  | Subscribes, Listened (Some e) =>
      Some (goes (Unlocks (Some (EWrap ("outbox: listen: " +:+ Error e)%string e)))
             (gives_back ListenConn (set_conn Pooled s)))
  | Subscribes, Listened None =>
      Some (goes Claims (set_listener Waits (set_woken false (set_conn (Subscribed 0) s))))
  | _, _ => None
  end.

(** The goroutine of [listen]. *)
Definition listener_step (s : leader) (ev : leader_event) : option leader :=
  match ld_listener s, ev with
  | Waits, ReadsNotification =>
      match ld_conn s with
      | Subscribed (S unread) => Some (set_listener Wakes (set_conn (Subscribed unread) s))
      | _ => None
      end
  | Waits, ReadFails =>
      if ld_cancelled s then Some (set_listener Ended s)
      else match ld_conn s with Broken => Some (set_listener Ended s) | _ => None end
  | Wakes, SendsWake => Some (set_listener Waits (set_woken true s))
  | _, _ => None
  end.

(** The [stop] that [listen] returns: it waits for the goroutine. *)
Definition stop_step (s : leader) : option leader :=
  match ld_listener s with
  | Ended => Some (goes (Unlocks None) (gives_back ListenConn (set_conn Pooled s)))
  | _ => None
  end.

(** A cycle of [Drain] inside [drainAll]: the claim, and the rest up to the commit; an error
    anywhere ends [drainAll]. *)
Definition drain_step (s : leader) (ev : leader_event) : option leader :=
  match ld_at s, ev with
  | Claims, ClaimsRows locked =>
      let rows := take BatchSize (claimable locked (ld_db s)) in
      let s := claimed_past locked s in
      Some (if bool_decide (rows = []) then drained false s else goes (Publishes rows) s)
  | Claims, DrainFails | Publishes _, DrainFails => Some (drained true s)
  | Publishes rows, CommitsMark now acknowledged =>
      let s := commit [WPublished (ob_id <$> rows) (timestamptz now)] s in
      Some (if acknowledged then
              if (length rows <? BatchSize)%nat then drained false s else goes Claims s
            else drained true s)
  | _, _ => None
  end.

(** The [select] of [Run]. *)
Definition select_step (s : leader) (ev : leader_event) : option leader :=
  match ev with
  | SeesDone => if ld_cancelled s then Some (goes Stops s) else None
  | Woken => if ld_woken s then Some (goes Claims (set_woken false s)) else None
  | PollTick => Some (goes Claims s)
  | PruneTick => Some (goes Prunes s)
  | _ => None
  end.

(** [Run], with its deferred calls. *)
Definition Run_step (s : leader) (ev : leader_event) : option leader :=
  match ld_at s, ev with
  | Elects, Elected (Err e) => Some (goes (Returned (Some e)) s)
  | Elects, Elected (Ok false) => Some (goes StandsBy s)
  | Elects, Elected (Ok true) => Some (goes Acquires (set_lock true s))
  | StandsBy, SeesDone => if ld_cancelled s then Some (goes (Returned None) s) else None
  | Acquires, _ | Subscribes, _ => listen_step s ev
  | Claims, _ | Publishes _, _ => drain_step s ev
  | Selects, _ => select_step s ev
  | Prunes, Pruned now =>
      Some (goes Claims
        (match now with
         | Some now => commit (snd (fst (pruneSQL Retention now (Build_seqs 0 0 0) (ld_db s)))) s
         | None => s
         end))
  | Stops, ListenerEnded => stop_step s
  | Unlocks r, LockReleased =>
      Some (goes (Returned r) (gives_back ElectionLock (set_lock false s)))
  | _, _ => None
  end.

(** A notification reaches a subscribed connection when the transaction that sent it
    commits; identical ones of one transaction are one. *)
Definition notifies (L : list write) : bool :=
  existsb (fun w => match w with WNotify ch => bool_decide (ch = NotifyChannel) | _ => false end) L.

Definition deliver (L : list write) (c : connection) : connection :=
  match c with
  | Subscribed unread =>
      Subscribed (if notifies L then S unread else unread)
  | _ => c
  end.

Definition outside_step (s : leader) (ev : leader_event) : option leader :=
  match ev with
  | OthersCommit L => Some (commit L (set_conn (deliver L (ld_conn s)) s))
  | ConnLost => match ld_conn s with Subscribed _ => Some (set_conn Broken s) | _ => None end
  | CtxCancelled => Some (cancel s)
  | _ => None
  end.

(** One step of the poller, its goroutine or the outside; [None] where it cannot happen. *)
Definition leader_step (s : leader) (ev : leader_event) : option leader :=
  match ev with
  | ReadsNotification | SendsWake | ReadFails => listener_step s ev
  | OthersCommit _ | ConnLost | CtxCancelled => outside_step s ev
  | _ => Run_step s ev
  end.

Fixpoint leader_run (s : leader) (evs : list leader_event) : option leader :=
  match evs with
  | [] => Some s
  | ev :: evs => s ← leader_step s ev; leader_run s evs
  end.

Definition leader_start (d : db) : leader :=
  {| ld_at := Elects; ld_listener := NotStarted; ld_woken := false; ld_conn := Pooled;
     ld_lock := false; ld_cancelled := false; ld_db := d; ld_skipped := fun _ => false;
     ld_failed := false; ld_back := [] |}.

(** ** Lemmas: rows and notifications *)

(** Whoever enqueues notifies. *)
Definition announced (L : list write) : Prop := forall r, WOutbox r ∈ L -> notifies L = true.

Lemma unpublished_from d L r :
  (forall x, WOutbox x ∉ L) -> r ∈ outbox (apply_writes d L) -> unpublished r = true ->
  exists r0, r0 ∈ outbox d /\ unpublished r0 = true /\ ob_id r0 = ob_id r.
Proof.
  revert d. induction L as [|w L IH]; intros d Hno; [intros Hr Hu; by exists r|].
  rewrite apply_writes_cons. intros Hr Hu.
  destruct (IH (apply_write d w)) as (r1 & Hr1 & Hu1 & <-); [set_solver|done..|].
  destruct w as [|r'|k t'|r'|i t'|ids t'|r'|ids|ks|ids|ids|ch]; simpl in Hr1; try by exists r1.
  - exfalso. apply (Hno r'). by left.
  - apply list_elem_of_fmap in Hr1 as (r0 & -> & Hr0). exists r0.
    rewrite mark_published_row_id. split; [done|]. split; [|done]. revert Hu1.
    unfold mark_published_row. by case_bool_decide.
  - apply list_elem_of_filter in Hr1 as [_ Hr1]. by exists r1.
Qed.

Lemma marked_not_unpublished ids at_ r :
  unpublished (mark_published_row ids at_ r) = true -> (ob_id r ∉ ids) /\ unpublished r = true.
Proof. unfold mark_published_row. case_bool_decide; [done|]. by split. Qed.

(** ** Lemmas: who holds what *)

(** The goroutine runs only while [Run] is between [listen] and its [stop], on a connection
    that has not been given back. *)
Definition in_order (s : leader) : Prop :=
  match ld_at s with
  | Elects | StandsBy =>
      ld_listener s = NotStarted /\ ld_conn s = Pooled /\ ld_lock s = false /\ ld_back s = []
  | Acquires =>
      ld_listener s = NotStarted /\ ld_conn s = Pooled /\ ld_lock s = true /\ ld_back s = []
  | Subscribes =>
      ld_listener s = NotStarted /\ ld_conn s = Acquired /\ ld_lock s = true /\ ld_back s = []
  | Claims | Publishes _ | Selects | Prunes | Stops =>
      ld_listener s <> NotStarted /\ (ld_conn s = Broken \/ exists n, ld_conn s = Subscribed n) /\
      (ld_listener s = Ended -> ld_cancelled s = true \/ ld_conn s = Broken) /\
      (ld_at s = Stops -> ld_cancelled s = true) /\ ld_lock s = true /\ ld_back s = []
  | Unlocks r =>
      (ld_listener s = NotStarted \/ ld_listener s = Ended) /\ ld_conn s = Pooled /\
      ld_lock s = true /\ (ld_back s = [] \/ ld_back s = [ListenConn]) /\
      (r = None -> ld_cancelled s = true /\ ld_back s = [ListenConn])
  | Returned r =>
      (ld_listener s = NotStarted \/ ld_listener s = Ended) /\ ld_conn s = Pooled /\
      ld_lock s = false /\
      (ld_back s = [] \/ ld_back s = [ElectionLock] \/ ld_back s = [ListenConn; ElectionLock]) /\
      (r = None -> ld_cancelled s = true)
  end.

Ltac stepping := repeat (match goal with
  | H : context [match ?x with _ => _ end] |- _ =>
      match type of H with _ = Some _ => destruct x eqn:? end
  | H : Some _ = Some _ |- _ => injection H as <-
  | H : None = Some _ |- _ => discriminate H
  end; simpl in *).

Lemma in_order_start d : in_order (leader_start d).
Proof. done. Qed.

Lemma listen_in_order s ev s' :
  ld_at s = Acquires \/ ld_at s = Subscribes ->
  in_order s -> listen_step s ev = Some s' -> in_order s'.
Proof.
  intros [E|E]; unfold in_order, listen_step; rewrite E; intros (H1 & H2 & H3 & H4) H; stepping;
    rewrite ?H1, ?H3, ?H4; split_and!; try done; try (by left); try (by right).
  right. by eexists.
Qed.

(** Between [listen] and [stop]. *)
Definition serving (p : place) : bool :=
  match p with Claims | Publishes _ | Selects | Prunes | Stops => true | _ => false end.

Record served (s : leader) : Prop := {
  sv_listens : ld_listener s <> NotStarted;
  sv_conn : ld_conn s = Broken \/ exists n, ld_conn s = Subscribed n;
  sv_ended : ld_listener s = Ended -> ld_cancelled s = true \/ ld_conn s = Broken;
  sv_stops : ld_at s = Stops -> ld_cancelled s = true;
  sv_lock : ld_lock s = true;
  sv_back : ld_back s = [];
}.

Lemma in_order_served s : serving (ld_at s) = true -> in_order s <-> served s.
Proof.
  unfold in_order. destruct (ld_at s) eqn:E; try done; intros _;
    (split; [intros (H1 & H2 & H3 & H4 & H5 & H6); split|intros [H1 H2 H3 H4 H5 H6]; split_and!]);
    auto; congruence.
Qed.

(** A step of [Run] that only moves it around while it serves. *)
Lemma served_goes s s' :
  served s -> ld_listener s' = ld_listener s -> ld_conn s' = ld_conn s ->
  ld_cancelled s' = ld_cancelled s -> ld_lock s' = ld_lock s -> ld_back s' = ld_back s ->
  (ld_at s' = Stops -> ld_cancelled s = true) -> served s'.
Proof. intros [H1 H2 H3 H4 H5 H6] E1 E2 E3 E4 E5 E6. split; rewrite ?E1, ?E2, ?E3, ?E4, ?E5; done. Qed.

Lemma drain_in_order s ev s' :
  serving (ld_at s) = true -> in_order s -> drain_step s ev = Some s' -> in_order s'.
Proof.
  intros Hs Ho%in_order_served H; [|done].
  assert (serving (ld_at s') = true /\ ld_at s' <> Stops) as [Hs' Hn]
    by (unfold drain_step in H; stepping; done).
  apply in_order_served; [done|]. unfold drain_step in H.
  eapply served_goes; [exact Ho|..]; try done; stepping; done.
Qed.

Lemma select_in_order s ev s' :
  serving (ld_at s) = true -> in_order s -> select_step s ev = Some s' -> in_order s'.
Proof.
  intros Hs Ho%in_order_served H; [|done]. unfold select_step in H.
  stepping; apply in_order_served; try done; eapply served_goes; try exact Ho; done.
Qed.

Lemma Run_in_order s ev s' : in_order s -> Run_step s ev = Some s' -> in_order s'.
Proof.
  intros Ho H. unfold Run_step in H. destruct (ld_at s) eqn:E; try discriminate H;
    try (apply (drain_in_order s ev); [by rewrite E|done|exact H]);
    try (apply (select_in_order s ev); [by rewrite E|done|exact H]);
    try (apply (listen_in_order s ev); [rewrite E; tauto|done|exact H]).
  - unfold in_order in Ho. rewrite E in Ho. destruct Ho as (H1 & H2 & H3 & H4). stepping; unfold in_order; simpl; 
      rewrite ?H1, ?H2, ?H3, ?H4; split_and!; try done; by left.
  - unfold in_order in Ho. rewrite E in Ho. destruct Ho as (H1 & H2 & H3 & H4). stepping; unfold in_order; simpl; 
      rewrite ?H1, ?H2, ?H3, ?H4; split_and!; try done; by left.
  - apply in_order_served in Ho; [|by rewrite E].
    stepping; apply in_order_served; try done; eapply served_goes; try exact Ho; done.
  - unfold in_order in Ho. rewrite E in Ho. destruct Ho as (H1 & H2 & H3 & H4 & H5 & H6). 
    unfold stop_step in H. stepping. unfold in_order; simpl. rewrite H6. split_and!; auto.
  - unfold in_order in Ho. rewrite E in Ho. destruct Ho as (H1 & H2 & H3 & H4 & H5).
    stepping; unfold in_order; simpl. split_and!; auto; [|intros Hr; by apply H5].
    destruct H4 as [-> | ->]; auto.
Qed.

Lemma listener_in_order s ev s' : in_order s -> listener_step s ev = Some s' -> in_order s'.
Proof.
  intros Ho H. unfold listener_step in H.
  destruct (serving (ld_at s)) eqn:Es.
  - apply in_order_served in Ho; [|done]. destruct Ho as [H1 H2 H3 H4 H5 H6].
    stepping; (apply in_order_served; [done|split]); simpl; eauto; try done; congruence.
  - exfalso. revert Ho. unfold in_order.
    destruct (ld_at s) eqn:E; try done; intros Ho; destruct_and?; destruct_or?;
      destruct (ld_listener s); done.
Qed.

Lemma outside_in_order s ev s' : in_order s -> outside_step s ev = Some s' -> in_order s'.
Proof.
  intros Ho H. destruct (serving (ld_at s)) eqn:Es.
  - apply in_order_served in Ho; [|done]. destruct Ho as [H1 H2 H3 H4 H5 H6].
    destruct ev; simpl in H; stepping; (apply in_order_served; [done|split]); simpl; eauto; try done.
    + destruct H2 as [-> | [n ->]]; [by left|right; by eexists].
    + intros Hl. destruct (H3 Hl) as [?| ->]; auto.
  - assert (ld_conn s = Pooled \/ ld_conn s = Acquired) as Hc
      by (revert Ho; unfold in_order; destruct (ld_at s); try done; tauto).
    assert (s' = s \/ s' = cancel s \/ exists L, s' = commit L s) as [->|[->|[L ->]]].
    { destruct ev; simpl in H; try done.
      - injection H as <-. right. right. exists L. by destruct Hc as [Hc|Hc], s; simpl in *; rewrite Hc.
      - by destruct Hc as [Hc|Hc]; rewrite Hc in H.
      - injection H as <-. auto. }
    1: done.
    all: revert Ho; unfold in_order; simpl; destruct (ld_at s); try done; tauto.
Qed.

Lemma run_in_order s evs s' : in_order s -> leader_run s evs = Some s' -> in_order s'.
Proof.
  revert s. induction evs as [|ev evs IH]; intros s Ho; simpl; [by intros [= <-]|].
  destruct (leader_step s ev) as [s1|] eqn:E; [|done]. apply IH. unfold leader_step in E.
  destruct ev; (by eapply Run_in_order) || (by eapply listener_in_order) || (by eapply outside_in_order).
Qed.

(** ** Lemmas: what is still to hear *)

(** A notification that is on its way to the loop. *)
Definition signal (s : leader) : Prop :=
  (exists n, ld_conn s = Subscribed (S n)) \/ ld_listener s = Wakes \/ ld_woken s = true.

(** What the last claim has not left, and is not about to mark. *)
Definition caught_up (s : leader) : Prop :=
  match ld_at s with
  | Selects =>
      ld_failed s = false ->
      forall r, r ∈ outbox (ld_db s) -> unpublished r = true -> ld_skipped s (ob_id r) = true
  | Publishes rows =>
      (length rows < BatchSize)%nat ->
      forall r, r ∈ outbox (ld_db s) -> unpublished r = true ->
        ld_skipped s (ob_id r) = true \/ ob_id r ∈ ob_id <$> rows
  | _ => True
  end.

Definition hears (s : leader) : Prop :=
  (exists n, ld_conn s = Subscribed n) -> signal s \/ caught_up s.

(** A claim that is not full took every row that nobody had locked. *)
Lemma short_claim locked d r :
  (length (take BatchSize (claimable locked d)) < BatchSize)%nat ->
  r ∈ outbox d -> unpublished r = true ->
  locked (ob_id r) = true \/ r ∈ take BatchSize (claimable locked d).
Proof.
  intros Hl Hr Hu. destruct (locked (ob_id r)) eqn:E; [by left|right].
  rewrite length_take in Hl. rewrite take_ge by lia. by apply elem_of_claimable.
Qed.

Lemma drain_hears s ev s' : hears s -> drain_step s ev = Some s' -> hears s'.
Proof.
  unfold hears, signal, caught_up, drain_step. intros Hh H. destruct (ld_at s) eqn:E; try done; destruct ev; try done.
  - destruct (bool_decide _) eqn:Ed; injection H as <-; simpl in *; intros Hc; right; intros Hl r Hr Hu.
    + apply bool_decide_eq_true in Ed. destruct (short_claim locked (ld_db s) r) as [?|Hin]; [|done..|].
      * rewrite Ed. simpl. unfold BatchSize. lia.
      * rewrite Ed in Hin. by apply elem_of_nil in Hin.
    + destruct (short_claim locked (ld_db s) r Hl Hr Hu) as [?|Hin]; [by left|right]. by apply list_elem_of_fmap_2.
  - injection H as <-. right. done.
  - injection H as <-. right. done.
  - destruct acknowledged; [|by injection H as <-; right].
    destruct (length rows <? BatchSize)%nat eqn:El; injection H as <-; [|by right]. apply Nat.ltb_lt in El.
    simpl. intros Hc. destruct (Hh Hc) as [?|Hcu]; [by left|right]. intros _ r Hr Hu.
    apply list_elem_of_fmap in Hr as (r0 & -> & Hr0). rewrite mark_published_row_id.
    apply marked_not_unpublished in Hu as [Hn Hu]. by destruct (Hcu El r0 Hr0 Hu).
Qed.

Lemma Run_hears s ev s' : in_order s -> hears s -> Run_step s ev = Some s' -> hears s'.
Proof.
  intros Ho Hh H. unfold Run_step in H. destruct (ld_at s) eqn:E; try discriminate H;
    try (by apply (drain_hears s ev)).
  - unfold in_order in Ho. rewrite E in Ho. destruct Ho as (_ & Hc & _). unfold hears.
    stepping; rewrite Hc; by intros [n ?].
  - unfold in_order in Ho. rewrite E in Ho. destruct Ho as (_ & Hc & _). unfold hears.
    stepping; rewrite Hc; by intros [n ?].
  - unfold hears, caught_up, listen_step in *. rewrite E in H. right. stepping; done.
  - unfold hears, caught_up, listen_step in *. rewrite E in H. right. stepping; done.
  - unfold hears, caught_up, select_step in *. right. stepping; done.
  - unfold hears, caught_up in *. right. stepping; done.
  - unfold hears, caught_up, stop_step in *. right. stepping; done.
  - unfold hears, caught_up in *. right. stepping; done.
Qed.

Lemma listener_hears s ev s' : hears s -> listener_step s ev = Some s' -> hears s'.
Proof.
  unfold hears, signal, caught_up, listener_step. intros Hh H. stepping.
  - intros _. left. auto.
  - intros Hc. destruct (Hh Hc) as [[?|[?|?]]|?]; auto; congruence.
  - intros [n Hn]. congruence.
  - intros _. left. auto.
Qed.

Lemma outside_hears s ev s' :
  (forall L, ev = OthersCommit L -> announced L) -> hears s -> outside_step s ev = Some s' -> hears s'.
Proof.
  unfold hears, signal, caught_up. intros Ha Hh H. destruct ev; simpl in H; try done.
  - injection H as <-. simpl. intros [n Hn]. destruct (ld_conn s) as [| |k|] eqn:Hc; try done.
    simpl in *. destruct (notifies L) eqn:Ew; [left; left; by exists k|].
    destruct (Hh ltac:(by exists k)) as [?|Hcu]; [by left|right].
    assert (forall x, WOutbox x ∉ L) as Hno
      by (intros x Hx; by rewrite (Ha L eq_refl x Hx) in Ew).
    destruct (ld_at s); try done; intros Hl r Hr Hu;
      destruct (unpublished_from _ _ _ Hno Hr Hu) as (r0 & Hr0 & Hu0 & <-); eauto.
  - stepping. by intros [n ?].
  - by injection H as <-.
Qed.

Lemma run_hears s evs s' :
  (forall L, OthersCommit L ∈ evs -> announced L) ->
  in_order s -> hears s -> leader_run s evs = Some s' -> hears s'.
Proof.
  revert s. induction evs as [|ev evs IH]; intros s Ha Ho Hh; simpl; [by intros [= <-]|].
  destruct (leader_step s ev) as [s1|] eqn:E; [|done]. apply IH.
  - intros L HL. apply Ha. by right.
  - apply (run_in_order s [ev]); [done|]. simpl. by rewrite E.
  - unfold leader_step in E.
    assert (forall L, ev = OthersCommit L -> announced L) as Hev by (intros L ->; apply Ha; by left).
    destruct ev; (by eapply listener_hears) || (by eapply outside_hears) || (by eapply Run_hears).
Qed.
(** ** Lemmas: waking up, and returning *)

(** The steps of a wake-up, none of them a tick. *)
Definition wakes_up (ev : leader_event) : bool :=
  match ev with ReadsNotification | SendsWake | Woken => true | _ => false end.

(** The steps of the poller and its goroutine. *)
Definition own_step (ev : leader_event) : bool :=
  match ev with OthersCommit _ | ConnLost | CtxCancelled => false | _ => true end.

Definition claims_again (s : leader) : Prop :=
  exists evs s', Forall (fun ev => wakes_up ev = true) evs /\ (length evs <= 3)%nat /\
    leader_run s evs = Some s' /\ ld_at s' = Claims /\ ld_db s' = ld_db s.

Lemma signal_wakes s n :
  in_order s -> ld_at s = Selects -> ld_cancelled s = false -> ld_conn s = Subscribed n ->
  signal s -> claims_again s.
Proof.
  intros Ho Hat Hc Hn Hs. apply in_order_served in Ho; [|by rewrite Hat].
  destruct (ld_woken s) eqn:Ew.
  { exists [Woken], (goes Claims (set_woken false s)). split; [by repeat constructor|]. simpl.
    unfold Run_step, select_step. rewrite Hat, Ew. simpl. split_and!; [lia|done..]. }
  destruct (ld_listener s) eqn:El.
  - by destruct (sv_listens s Ho).
  - destruct Hs as [[k Hk]|[?|?]]; [|congruence..].
    eexists [ReadsNotification; SendsWake; Woken], _. split; [by repeat constructor|]. simpl.
    unfold Run_step, select_step, listener_step. rewrite El, Hk. simpl. rewrite Hat. simpl. split_and!; [lia|done..].
  - eexists [SendsWake; Woken], _. split; [by repeat constructor|]. simpl.
    unfold Run_step, select_step, listener_step. rewrite El. simpl. rewrite Hat. simpl. split_and!; [lia|done..].
  - destruct (sv_ended s Ho El); congruence.
Qed.

(** Within [n] steps of its own. *)
Definition can_return (n : nat) (s : leader) : Prop :=
  exists evs s' r, Forall (fun ev => own_step ev = true) evs /\ (length evs <= n)%nat /\
    leader_run s evs = Some s' /\ ld_at s' = Returned r.

Lemma can_return_step ev n s s1 :
  own_step ev = true -> leader_step s ev = Some s1 -> can_return n s1 -> can_return (S n) s.
Proof.
  intros Ho Hs (evs & s' & r & H1 & H2 & H3 & H4). exists (ev :: evs), s', r.
  split; [by constructor|]. simpl. rewrite Hs. split; [lia|done].
Qed.

Lemma can_return_mono n k s : (n <= k)%nat -> can_return n s -> can_return k s.
Proof.
  intros Hnk (evs & s' & r & H1 & H2 & H3 & H4). exists evs, s', r. split_and!; [done|lia|done..].
Qed.

Ltac returning_by ev := eapply (can_return_step ev);
  [done
  |simpl; unfold Run_step, listen_step, listener_step, drain_step, select_step, stop_step;
   repeat match goal with
   | H : ld_at _ = _ |- _ => rewrite H
   | H : ld_listener _ = _ |- _ => rewrite H
   | H : ld_cancelled _ = _ |- _ => rewrite H
   end; reflexivity|].

Lemma unlock_returns r s : ld_at s = Unlocks r -> can_return 1 s.
Proof.
  intros E. eapply (can_return_step LockReleased); [done| |].
  - simpl. unfold Run_step. by rewrite E.
  - eexists [], _, r. by repeat constructor.
Qed.

Lemma stop_returns s :
  ld_at s = Stops -> ld_cancelled s = true -> ld_listener s <> NotStarted -> can_return 4 s.
Proof.
  assert (forall s, ld_at s = Stops -> ld_listener s = Ended -> can_return 2 s) as H2
    by (clear s; intros s E El; returning_by ListenerEnded; by eapply unlock_returns).
  assert (forall s, ld_at s = Stops -> ld_cancelled s = true -> ld_listener s = Waits ->
    can_return 3 s) as H3
    by (clear s; intros s E Ec El; returning_by ReadFails; by apply H2).
  intros E Ec Hl. destruct (ld_listener s) eqn:El; [done| | |].
  - by apply (can_return_mono 3); [lia|apply H3].
  - returning_by SendsWake. by apply H3.
  - by apply (can_return_mono 2); [lia|apply H2].
Qed.

Lemma loop_returns s :
  ld_cancelled s = true -> ld_listener s <> NotStarted -> ld_at s = Selects -> can_return 5 s.
Proof. intros Ec Hl E. returning_by SeesDone. by apply stop_returns. Qed.

Lemma drain_returns s :
  ld_cancelled s = true -> ld_listener s <> NotStarted ->
  ld_at s = Claims \/ (exists rows, ld_at s = Publishes rows) -> can_return 6 s.
Proof. intros Ec Hl [E|[rows E]]; returning_by DrainFails; by apply loop_returns. Qed.

Lemma cancelled_returns s : in_order s -> ld_cancelled s = true -> can_return 7 s.
Proof.
  intros Ho Ec. pose proof (in_order_served s) as Hserved.
  assert (forall r, can_return 0 (goes (Returned r) s)) as Hr
    by (intros r; eexists [], _, r; by repeat constructor).
  destruct (ld_at s) eqn:E;
    try (assert (ld_listener s <> NotStarted) as Hl by (by apply sv_listens, Hserved)).
  - apply (can_return_mono 1); [lia|]. by returning_by (Elected (Err (ENew "context canceled"))).
  - apply (can_return_mono 1); [lia|]. by returning_by SeesDone.
  - apply (can_return_mono 2); [lia|]. returning_by (ConnAcquired (Some (ENew "context canceled"))).
    by eapply unlock_returns.
  - apply (can_return_mono 2); [lia|]. returning_by (Listened (Some (ENew "context canceled"))).
    by eapply unlock_returns.
  - apply (can_return_mono 6); [lia|]. apply drain_returns; auto.
  - apply (can_return_mono 6); [lia|]. apply drain_returns; eauto.
  - apply (can_return_mono 5); [lia|]. by apply loop_returns.
  - returning_by (Pruned None). apply drain_returns; auto.
  - apply (can_return_mono 4); [lia|]. by apply stop_returns.
  - apply (can_return_mono 1); [lia|]. by eapply unlock_returns.
  - eexists [], s, _. split_and!; [constructor|simpl; lia|done..].
Qed.
End listening.

(** ** Lemmas: the sessions of the service notify *)
Section service.
Context `{TS : Timestamppb} `{PG : Postgres} `{PJ : !Protojson} `{PJL : !ProtojsonLaws}
  `{EN : !Encoder}.

Lemma announced_outgoing L (obs : list outbox_row) :
  (forall r, WOutbox r ∉ L) ->
  announced (L ++ (WOutbox <$> obs) ++
    (if bool_decide (obs = []) then [] else [WNotify NotifyChannel])).
Proof.
  intros HL r Hr. unfold notifies. rewrite !existsb_app. case_bool_decide as Ho.
  - subst obs. rewrite !app_nil_r in Hr. by destruct (HL r).
  - simpl. by rewrite !orb_true_r.
Qed.

Lemma service_announces m i L about :
  reachable m ->
  mc_live m !! i = Some {| lv_code := Ret true; lv_log := L; lv_about := about |} ->
  announced L.
Proof.
  intros Hm Hi. destruct about as [incoming cmd id|t|].
  - destruct (reachable_done m i L _ Hm Hi) as [_ [->|(_ & past & later & st & out & at_ & evs & tms & obs & -> & _)]];
      [by intros r ?%elem_of_nil|]. unfold command_log. rewrite !app_assoc, <- app_assoc.
    apply announced_outgoing. intros r. rewrite !elem_of_app. set_solver.
  - destruct (reachable_fires m i L t Hm Hi) as [->|(_ & past & later & st & meta & at_ & evs & obs & -> & _)];
      [by intros r ?%elem_of_nil|]. unfold expiry_log. rewrite !app_assoc, <- app_assoc.
    apply announced_outgoing. intros r. rewrite !elem_of_app. set_solver.
  - pose proof (reachable_quiet m i L Hm Hi) as H. intros r Hr. rewrite Forall_forall in H.
    by destruct (H _ Hr).
Qed.

(** What the other sessions commit: transactions of the service, and housekeeping. *)
Inductive service_commits (L : list write) : Prop :=
  | commits_session m i about :
      reachable m ->
      mc_live m !! i = Some {| lv_code := Ret true; lv_log := L; lv_about := about |} ->
      service_commits L
  | commits_housekeeping q now sq d n sq' :
      housekeeping q -> q now sq d = (Ok n, L, sq') -> service_commits L.

Lemma service_announced L : service_commits L -> announced L.
Proof.
  intros [m i about Hm Hi|q now sq d n sq' Hq E]; [by eapply service_announces|].
  destruct (housekeeping_writes _ _ _ _ _ _ _ Hq E) as (w & -> & Hw).
  intros r Hr%list_elem_of_singleton. by subst w.
Qed.

(** ** Properties *)

(** C10: no row waits unheard.  Take the loop of a leading poller in any state that it reaches
    while other sessions commit transactions of the service, whenever they like: before the
    subscription, during a drain, or while the loop waits.  If it waits in its [select] on a
    connection that is there, then either nothing is left to publish, except rows that
    the last claim found locked and unless the last drain failed; or a wake-up is on its
    way, and within three steps, none of them a tick, the loop claims again.  The tick of
    the floor makes it claim again in any case. *)
Theorem quiet_leader_has_drained (d : db) (evs : list leader_event) (s : leader) (n : nat) :
  (forall L, OthersCommit L ∈ evs -> service_commits L) ->
  leader_run (leader_start d) evs = Some s ->
  ld_at s = Selects -> ld_cancelled s = false -> ld_conn s = Subscribed n ->
  (ld_failed s = true \/
   (forall r, r ∈ outbox (ld_db s) -> unpublished r = true -> ld_skipped s (ob_id r) = true) \/
   claims_again s) /\
  exists s', leader_step s PollTick = Some s' /\ ld_at s' = Claims /\ ld_db s' = ld_db s.
Proof.
  intros Ha Hrun Hat Hc Hn. split.
  - pose proof (run_in_order _ _ _ (in_order_start d) Hrun) as Ho.
    assert (hears s) as Hh.
    { eapply (run_hears (leader_start d)); [|apply in_order_start| |exact Hrun].
      - intros L HL. by apply service_announced, Ha.
      - by intros [k Hk]. }
    destruct Hh as [Hs|Hcu]; [by exists n| |].
    + right. right. by apply (signal_wakes s n).
    + unfold caught_up in Hcu. rewrite Hat in Hcu. destruct (ld_failed s); [by left|].
      right. left. by apply Hcu.
  - exists (goes Claims s). simpl. unfold Run_step. by rewrite Hat.
Qed.

(** C37: a poller stops in order.  In any state that [Run] reaches: the connection of its
    listener is back in the pool only while no goroutine reads from it; once [Run] has
    returned it holds neither the connection nor the lock, has given back each once, the lock
    last, and it returns no error only if its context had ended.  And from any state in
    which its context has ended, [Run] can return, within seven steps of its own. *)
Theorem leader_stops_in_order (d : db) (evs : list leader_event) (s : leader) :
  leader_run (leader_start d) evs = Some s ->
  (ld_conn s = Pooled -> ld_listener s = NotStarted \/ ld_listener s = Ended) /\
  (forall r, ld_at s = Returned r ->
     ld_lock s = false /\ ld_conn s = Pooled /\
     (ld_back s = [] \/ ld_back s = [ElectionLock] \/ ld_back s = [ListenConn; ElectionLock]) /\
     (r = None -> ld_cancelled s = true)) /\
  (ld_cancelled s = true -> can_return 7 s).
Proof.
  intros Hrun. pose proof (run_in_order _ _ _ (in_order_start d) Hrun) as Ho.
  split; [|split; [|by apply cancelled_returns]].
  - intros Hp. destruct (serving (ld_at s)) eqn:Es.
    + apply in_order_served in Ho; [|done]. destruct (sv_conn s Ho) as [?|[n ?]]; congruence.
    + revert Ho. unfold in_order. destruct (ld_at s); try done; tauto.
  - intros r E. unfold in_order in Ho. rewrite E in Ho. tauto.
Qed.
End service.

(** ** Witnesses *)
Module Samples.
Import UnixTimestamps PlainPostgres NumberedJson Store.Samples Commands.Samples Commits.Samples.

(** A hold commits after the leader's first claim found nothing. *)
Definition hold_heard : list leader_event :=
  [Elected (Ok true); ConnAcquired None; Listened None; ClaimsRows (fun _ => false);
   OthersCommit hold_log; ReadsNotification].
Definition hearing : leader :=
  {| ld_at := Selects; ld_listener := Wakes; ld_woken := false; ld_conn := Subscribed 0;
     ld_lock := true; ld_cancelled := false; ld_db := apply_writes empty_db hold_log;
     ld_skipped := fun _ => false; ld_failed := false; ld_back := [] |}.
Lemma hold_notifies : notifies hold_log = true.
Proof. vm_compute. reflexivity. Qed.
Lemma hearing_reached : leader_run (leader_start empty_db) hold_heard = Some hearing.
Proof.
  cbn [leader_run hold_heard]. simpl. rewrite hold_notifies. reflexivity.
Qed.
Lemma hold_unpublished : existsb unpublished (outbox (apply_writes empty_db hold_log)) = true.
Proof. vm_compute. reflexivity. Qed.
Lemma hold_committed : service_commits hold_log.
Proof. eapply commits_session; [exact about_to_hold_reachable|exact about_to_hold_live]. Qed.

(** A leader whose context ends while its goroutine is about to wake it. *)
Definition hold_then_cancel : list leader_event := hold_heard ++ [CtxCancelled].
Lemma cancel_reached : leader_run (leader_start empty_db) hold_then_cancel = Some (cancel hearing).
Proof.
  cbn [leader_run hold_then_cancel hold_heard app]. simpl. rewrite hold_notifies. reflexivity.
Qed.
End Samples.

Import UnixTimestamps PlainPostgres NumberedJson Store.Samples Commands.Samples Commits.Samples Samples.

Lemma quiet_leader_has_drained_witness : claims_again hearing.
Proof.
  destruct (quiet_leader_has_drained empty_db hold_heard hearing 0) as [[H|[H|H]] _].
  - intros L HL. unfold hold_heard in HL.
    assert (L = hold_log) as ->; [|exact hold_committed].
    repeat (apply elem_of_cons in HL as [HL|HL]; [try discriminate HL; by injection HL|]).
    by apply elem_of_nil in HL.
  - exact hearing_reached.
  - reflexivity.
  - reflexivity.
  - reflexivity.
  - discriminate H.
  - exfalso. pose proof hold_unpublished as Hu. apply existsb_exists in Hu as (r & Hr & Hu).
    apply list_elem_of_In in Hr. specialize (H r Hr Hu). discriminate H.
  - exact H.
Defined.

Lemma leader_stops_in_order_witness : can_return 7 (cancel hearing).
Proof.
  apply (leader_stops_in_order empty_db hold_then_cancel (cancel hearing) cancel_reached).
  reflexivity.
Defined.
