(* ===== verification/Schema.v ===== *)
(** * Schema registry ([internal/platform/schema], [cmd/schemactl])

    [serde.go]: subjects, a topic's serde, the framing of its messages.  [compat.go]:
    the compatibility level, pinned and read back.  [cmd/schemactl/main.go]: the
    table of what is registered, and the run that registers it.

    franz-go's [sr] package and [proto] are libraries: [Sr] and [Protobuf] hold what
    the code calls, with the documented behaviour it relies on as laws; the header
    for message index [[0]] is the one [schema/doc.go] describes.  The registry is the
    environment [R] behind the operations of [Client].  Theorems: a serde fails
    closed, what a framed message looks like and that it decodes to itself, that a
    frame with any other schema id does not decode, that nothing is registered before
    BACKWARD compatibility is confirmed, and which subjects a run leaves registered. *)
From S2P Require Import Prelude Contracts Database Codec.

(** ** [serde.go] *)
Definition ErrSubjectNotRegistered : err := ESentinel "schema: subject not registered".

Definition Subject (topic typeName : string) : string := (topic +:+ "-" +:+ typeName)%string.

Definition latestVersion : Z := -1.

(** ** The wire: four bytes, big-endian *)
Definition byte_of (z : Z) : Byte.byte :=
  default Byte.x00 (Byte.of_N (Z.to_N (z `mod` 256))).

Definition be32 (id : Z) : bytes :=
  [byte_of (Z.shiftr id 24); byte_of (Z.shiftr id 16); byte_of (Z.shiftr id 8); byte_of id].

Definition wire_id (id : Z) : Prop := 0 <= id < 2 ^ 32.

(** What [sr.Client] returns of a schema, and takes. *)
Record SubjectSchema := { ss_ID : Z; ss_Version : Z }.
Record SchemaText := { sc_Schema : string; sc_Protobuf : bool }.

(** The registry's compatibility levels. *)
Class Compat := {
  CompatibilityLevel : Type;
  level_eq_dec :: EqDecision CompatibilityLevel;
  level_zero : CompatibilityLevel;
  CompatBackward : CompatibilityLevel;
  level_String : CompatibilityLevel -> string;
}.

(** One answer per registry URL, the level or an error. *)
Record CompatibilityResult `{Compat} := { cr_Level : CompatibilityLevel; cr_Err : option err }.

(** [*sr.Client]: every call can change the registry. *)
Record Client `{Compat} (R : Type) := {
  SchemaByVersion : string -> Z -> R -> res SubjectSchema * R;
  CreateSchema : string -> SchemaText -> R -> res SubjectSchema * R;
  SetCompatibility : CompatibilityLevel -> R -> list CompatibilityResult * R;
  Compatibility : R -> list CompatibilityResult * R;
}.
Arguments SchemaByVersion {_ R}.
Arguments CreateSchema {_ R}.
Arguments SetCompatibility {_ R}.
Arguments Compatibility {_ R}.

Section serde.
Context `{TS : Timestamppb}.

(** [m.ProtoReflect().New().Interface()]: the zero message of the same type. *)
Definition New_message (m : message) : message :=
  match m with
  | MHoldSeat _ => MHoldSeat (Build_HoldSeat "" "" "" None)
  | MReleaseSeatHold _ => MReleaseSeatHold (Build_ReleaseSeatHold "" "" "" "")
  | MSeatHeld _ => MSeatHeld (Build_SeatHeld "" "" "" None)
  | MSeatHoldReleased _ => MSeatHoldReleased (Build_SeatHoldReleased "" "" "" "")
  | MSeatHoldExpired _ => MSeatHoldExpired (Build_SeatHoldExpired "" "" "")
  | MSeatUnavailable _ => MSeatUnavailable (Build_SeatUnavailable "" "" "" "")
  | OtherMessage n => OtherMessage n
  end.

(** [proto.Marshal], and [proto.Unmarshal] into a message. *)
Class Protobuf := {
  proto_Marshal : message -> res bytes;
  proto_Unmarshal : bytes -> message -> res message;
}.

Class ProtobufLaws `{Protobuf} : Prop := {
  proto_roundtrip m b : proto_Marshal m = Ok b -> proto_Unmarshal b (New_message m) = Ok m;
}.

(** The arguments of [inner.Register].  The encode function is only ever given
    messages, and the decode function only what the generate function made. *)
Record registration := {
  reg_ID : Z;
  reg_Value : message;
  reg_Index : list Z;
  reg_EncodeFn : message -> res bytes;
  reg_DecodeFn : bytes -> message -> res message;
  reg_GenerateFn : message;
}.

(** An [any] that [DecodeNew] returns: a message, or a value of another Go type. *)
Inductive any := AMessage (m : message) | AOther (gotype : string).

Class Sr := {
  sr_Serde : Type;
  sr_NewSerde : sr_Serde;
  sr_Register : registration -> sr_Serde -> sr_Serde;
  sr_Encode : sr_Serde -> message -> res bytes;
  sr_DecodeNew : sr_Serde -> bytes -> res any;
  ConfluentHeader : Z -> list Z -> bytes;
}.

(** A serde keeps one registration per Go type, for encoding, and one per schema id,
    for decoding; what it does not know is an error. *)
Class SrLaws `{Sr} : Prop := {
  header_first_message id : wire_id id ->
    ConfluentHeader id [0] = Byte.x00 :: be32 id ++ [Byte.x00];
  encode_registered g s m : FullName m = FullName (reg_Value g) ->
    match reg_EncodeFn g m with
    | Ok b => sr_Encode (sr_Register g s) m = Ok (ConfluentHeader (reg_ID g) (reg_Index g) ++ b)
    | Err _ => exists e, sr_Encode (sr_Register g s) m = Err e
    end;
  encode_other g s m : FullName m <> FullName (reg_Value g) ->
    sr_Encode (sr_Register g s) m = sr_Encode s m;
  encode_unknown m : exists e, sr_Encode sr_NewSerde m = Err e;
  decode_registered g s b : wire_id (reg_ID g) -> reg_Index g = [0] ->
    match reg_DecodeFn g b (reg_GenerateFn g) with
    | Ok m => sr_DecodeNew (sr_Register g s) (ConfluentHeader (reg_ID g) [0] ++ b) = Ok (AMessage m)
    | Err _ => exists e, sr_DecodeNew (sr_Register g s) (ConfluentHeader (reg_ID g) [0] ++ b) = Err e
    end;
  decode_other g s id b : wire_id (reg_ID g) -> wire_id id -> id <> reg_ID g ->
    sr_DecodeNew (sr_Register g s) (ConfluentHeader id [0] ++ b) =
    sr_DecodeNew s (ConfluentHeader id [0] ++ b);
  decode_unknown id b : wire_id id ->
    exists e, sr_DecodeNew sr_NewSerde (ConfluentHeader id [0] ++ b) = Err e;
}.

Context `{PB : !Protobuf} `{SR : !Sr} `{CO : Compat}.

(** [Serde] *)
Record Serde := { sd_inner : sr_Serde; sd_topic : string }.

Definition register (id : Z) (prototype : message) (inner : sr_Serde) : sr_Serde :=
  sr_Register
    {| reg_ID := id; reg_Value := prototype; reg_Index := [0];
       reg_EncodeFn := proto_Marshal; reg_DecodeFn := proto_Unmarshal;
       reg_GenerateFn := New_message prototype |} inner.

(** The loop of [NewTopicSerde]. *)
Fixpoint register_each {R} (cl : Client R) (topic : string) (prototypes : list message)
  (inner : sr_Serde) (r : R) : res sr_Serde * R :=
  match prototypes with
  | [] => (Ok inner, r)
  | prototype :: prototypes =>
      let subject := Subject topic (FullName prototype) in
      match SchemaByVersion cl subject latestVersion r with
      | (Err e, r) =>
          (Err (EJoin (Error ErrSubjectNotRegistered +:+ ": " +:+ subject +:+ ": " +:+
                       Error e)%string ErrSubjectNotRegistered e), r)
      | (Ok schema, r) =>
          register_each cl topic prototypes (register (ss_ID schema) prototype inner) r
      end
  end.

Definition NewTopicSerde {R} (cl : Client R) (topic : string) (prototypes : list message)
  (r : R) : res Serde * R :=
  if bool_decide (prototypes = []) then
    (Err (ENew "schema: NewTopicSerde needs at least one prototype"), r)
  else
    match register_each cl topic prototypes sr_NewSerde r with
    | (Err e, r) => (Err e, r)
    | (Ok inner, r) => (Ok {| sd_inner := inner; sd_topic := topic |}, r)
    end.

Definition Encode (s : Serde) (m : message) : res bytes :=
  wrap_err (fun e => EWrap ("schema: encode " +:+ FullName m +:+ " for " +:+ sd_topic s +:+
                            ": " +:+ Error e)%string e)
    (sr_Encode (sd_inner s) m).

Definition Decode (s : Serde) (b : bytes) : res message :=
  match sr_DecodeNew (sd_inner s) b with
  | Err e => Err (EWrap ("schema: decode from " +:+ sd_topic s +:+ ": " +:+ Error e)%string e)
  | Ok (AOther gotype) =>
      Err (ENew ("schema: decoded " +:+ gotype +:+ " is not a proto.Message")%string)
  | Ok (AMessage m) => Ok m
  end.

(** ** [compat.go] *)
Fixpoint globalLevel (level : CompatibilityLevel) (results : list CompatibilityResult) :
  res CompatibilityLevel :=
  match results with
  | [] => Ok level
  | result :: results =>
      match cr_Err result with
      | Some e => Err e
      | None => globalLevel (cr_Level result) results
      end
  end.

Definition EnsureBackwardCompatibility {R} (cl : Client R) (r : R) : res unit * R :=
  let '(results, r) := SetCompatibility cl CompatBackward r in
  match globalLevel level_zero results with
  | Err e =>
      (Err (EWrap ("schema: set global BACKWARD compatibility: " +:+ Error e)%string e), r)
  | Ok _ =>
      let '(results, r) := Compatibility cl r in
      match globalLevel level_zero results with
      | Err e =>
          (Err (EWrap ("schema: read back global compatibility: " +:+ Error e)%string e), r)
      | Ok level =>
          if bool_decide (level <> CompatBackward) then
            (Err (ENew ("schema: global compatibility is " +:+ level_String level +:+
                        ", want BACKWARD")%string), r)
          else (Ok tt, r)
      end
  end.

(** ** [cmd/schemactl/main.go] *)
Record binding := { b_topic : string; b_file : string; b_msg : message }.

Definition bindings : list binding :=
  [{| b_topic := "inventory.commands"; b_file := "proto/sagaflow/inventory/v1/hold_seat.proto";
      b_msg := MHoldSeat (Build_HoldSeat "" "" "" None) |};
   {| b_topic := "inventory.commands";
      b_file := "proto/sagaflow/inventory/v1/release_seat_hold.proto";
      b_msg := MReleaseSeatHold (Build_ReleaseSeatHold "" "" "" "") |};
   {| b_topic := "inventory.events"; b_file := "proto/sagaflow/inventory/v1/seat_held.proto";
      b_msg := MSeatHeld (Build_SeatHeld "" "" "" None) |};
   {| b_topic := "inventory.events";
      b_file := "proto/sagaflow/inventory/v1/seat_hold_released.proto";
      b_msg := MSeatHoldReleased (Build_SeatHoldReleased "" "" "" "") |};
   {| b_topic := "inventory.events";
      b_file := "proto/sagaflow/inventory/v1/seat_hold_expired.proto";
      b_msg := MSeatHoldExpired (Build_SeatHoldExpired "" "" "") |};
   {| b_topic := "inventory.events"; b_file := "proto/sagaflow/inventory/v1/seat_unavailable.proto";
      b_msg := MSeatUnavailable (Build_SeatUnavailable "" "" "" "") |}].

Definition binding_subject (b : binding) : string := Subject (b_topic b) (FullName (b_msg b)).

Section schemactl.
Context {R : Type} (cl : Client R) (ReadFile : string -> res string).

(** schemactl's own [register]. *)
Definition register_binding (b : binding) (r : R) : res unit * R :=
  match ReadFile (b_file b) with
  | Err e => (Err (EWrap ("read " +:+ b_file b +:+ ": " +:+ Error e)%string e), r)
  | Ok text =>
      let subject := binding_subject b in
      match CreateSchema cl subject {| sc_Schema := text; sc_Protobuf := true |} r with
      | (Err e, r) => (Err (EWrap ("register " +:+ subject +:+ ": " +:+ Error e)%string e), r)
      | (Ok _, r) => (Ok tt, r)
      end
  end.

Fixpoint register_all (bs : list binding) (r : R) : res unit * R :=
  match bs with
  | [] => (Ok tt, r)
  | b :: bs =>
      match register_binding b r with
      | (Err e, r) => (Err e, r)
      | (Ok _, r) => register_all bs r
      end
  end.

(** [newClient] is what [sr.NewClient] returns. *)
Definition run_schemactl (newClient : res unit) (r : R) : res unit * R :=
  match newClient with
  | Err e => (Err (EWrap ("sr client: " +:+ Error e)%string e), r)
  | Ok _ =>
      match EnsureBackwardCompatibility cl r with
      | (Err e, r) => (Err e, r)
      | (Ok _, r) => register_all bindings r
      end
  end.
End schemactl.
End serde.

(** ** The registry *)

(** [current r subject] is the id of the subject's latest version.  A registry that
    answers: a lookup finds exactly what is current, a creation makes its subject
    current and leaves the others alone, and the calls about compatibility register
    nothing. *)
Class RegistryLaws `{Compat} {R} (cl : Client R) (current : R -> string -> option Z) : Prop := {
  lookup_answers subject r :
    let '(res, r') := SchemaByVersion cl subject latestVersion r in
    (forall x, current r' x = current r x) /\
    match current r subject with
    | Some id => exists s, res = Ok s /\ ss_ID s = id
    | None => exists e, res = Err e
    end;
  create_answers subject text r :
    let '(res, r') := CreateSchema cl subject text r in
    (forall x, x <> subject -> current r' x = current r x) /\
    match res with
    | Ok s => current r' subject = Some (ss_ID s)
    | Err _ => current r' subject = current r subject
    end;
  set_registers_nothing level r x : current (snd (SetCompatibility cl level r)) x = current r x;
  read_registers_nothing r x : current (snd (Compatibility cl r)) x = current r x;
}.

Section serde_lemmas.
Context `{TS : Timestamppb} `{PB : !Protobuf} `{SR : !Sr} `{CO : Compat}.
Context {R : Type} (cl : Client R) (current : R -> string -> option Z).

(** The schema id a prototype resolves to. *)
Definition resolved (r : R) (topic : string) (p : message) : Z :=
  default 0 (current r (Subject topic (FullName p))).

Definition registered_at (r : R) (topic : string) (p : message) : Prop :=
  is_Some (current r (Subject topic (FullName p))).

Definition registrations (r : R) (topic : string) (prototypes : list message)
  (inner : sr_Serde) : sr_Serde :=
  foldl (fun inner p => register (resolved r topic p) p inner) inner prototypes.

Lemma registrations_same r r' topic prototypes inner :
  (forall x, current r' x = current r x) ->
  registrations r' topic prototypes inner = registrations r topic prototypes inner.
Proof.
  intros H. unfold registrations. revert inner. induction prototypes as [|p ps IH]; [done|].
  intros inner. simpl. unfold resolved at 2. rewrite H. apply IH.
Qed.

Context {RL : RegistryLaws cl current}.

Lemma register_each_outcome topic prototypes inner r :
  let '(res, r') := register_each cl topic prototypes inner r in
  (forall x, current r' x = current r x) /\
  match res with
  | Ok inner' =>
      Forall (registered_at r topic) prototypes /\
      inner' = registrations r topic prototypes inner
  | Err e =>
      errors_Is e ErrSubjectNotRegistered = true /\ ~ Forall (registered_at r topic) prototypes
  end.
Proof.
  revert inner r. induction prototypes as [|p ps IH]; intros inner r; simpl; [done|].
  pose proof (lookup_answers (Subject topic (FullName p)) r) as H.
  destruct (SchemaByVersion _ _ _ _) as [res r1]. destruct H as [Hr1 H].
  destruct (current r _) as [id|] eqn:Hc.
  - destruct H as (s & -> & Hs). specialize (IH (register (ss_ID s) p inner) r1).
    destruct (register_each _ _ _ _ _) as [res r2]. destruct IH as [Hr2 IH].
    split; [intros x; by rewrite Hr2|].
    assert (forall p, registered_at r1 topic p <-> registered_at r topic p) as Hreg
      by (intros q; unfold registered_at; by rewrite Hr1).
    destruct res as [inner'|e].
    + destruct IH as [Hall ->]. split.
      * constructor; [unfold registered_at; by rewrite Hc|].
        eapply Forall_impl; [exact Hall|]. intros q. apply Hreg.
      * rewrite (registrations_same r r1) by done. unfold registrations. simpl.
        assert (resolved r topic p = ss_ID s) as -> by (unfold resolved; by rewrite Hc, Hs).
        done.
    + destruct IH as [He Hall]. split; [done|]. intros (_ & Hf)%Forall_cons. apply Hall.
      eapply Forall_impl; [exact Hf|]. intros q. apply Hreg.
  - destruct H as [e ->]. split; [done|]. split; [by simpl|].
    intros (H & _)%Forall_cons. unfold registered_at in H. rewrite Hc in H. by destruct H.
Qed.
End serde_lemmas.

(** ** Lemmas: a serde's registrations *)
Section framing_lemmas.
Context `{TS : Timestamppb} `{PB : !Protobuf} {PBL : ProtobufLaws} `{SR : !Sr} {SRL : SrLaws}.
Context {R : Type} (current : R -> string -> option Z) (r : R) (topic : string).

Lemma encode_registrations_other (prototypes : list message) inner m :
  FullName m ∉ (FullName <$> prototypes) ->
  sr_Encode (registrations current r topic prototypes inner) m = sr_Encode inner m.
Proof.
  unfold registrations. revert inner. induction prototypes as [|p ps IH]; intros inner; [done|].
  rewrite fmap_cons, not_elem_of_cons. intros [Hp Hps]. simpl. rewrite IH by done.
  by apply encode_other.
Qed.

Lemma decode_registrations_other (prototypes : list message) inner id b :
  wire_id id -> Forall (fun p => wire_id (resolved current r topic p)) prototypes ->
  id ∉ (resolved current r topic <$> prototypes) ->
  sr_DecodeNew (registrations current r topic prototypes inner) (ConfluentHeader id [0] ++ b) =
  sr_DecodeNew inner (ConfluentHeader id [0] ++ b).
Proof.
  intros Hid. unfold registrations. revert inner.
  induction prototypes as [|p ps IH]; intros inner Hw; [done|].
  apply Forall_cons in Hw as [Hp Hw]. rewrite fmap_cons, not_elem_of_cons. intros [Hn Hps].
  simpl. rewrite IH by done. by apply decode_other.
Qed.

(** Distinct ids are ids of distinct names. *)
Lemma resolved_name_notin p (prototypes : list message) :
  resolved current r topic p ∉ (resolved current r topic <$> prototypes) ->
  FullName p ∉ (FullName <$> prototypes).
Proof.
  intros Hn (q & Hq & Hin)%list_elem_of_fmap. apply Hn, list_elem_of_fmap.
  exists q. split; [|done]. unfold resolved. by rewrite Hq.
Qed.

(** The registration of one prototype among distinct ones. *)
Lemma registrations_of (prototypes : list message) p m :
  p ∈ prototypes -> FullName m = FullName p -> New_message m = New_message p ->
  Forall (fun p => wire_id (resolved current r topic p)) prototypes ->
  NoDup (resolved current r topic <$> prototypes) ->
  let s := registrations current r topic prototypes sr_NewSerde in
  let frame := fun b => ConfluentHeader (resolved current r topic p) [0] ++ b in
  match proto_Marshal m with
  | Ok b => sr_Encode s m = Ok (frame b) /\ sr_DecodeNew s (frame b) = Ok (AMessage m)
  | Err _ => exists e, sr_Encode s m = Err e
  end.
Proof.
  intros Hin Hname Hnew Hw Hnd s frame.
  apply list_elem_of_split in Hin as (ps1 & ps2 & ->).
  assert (s = registrations current r topic ps2
    (register (resolved current r topic p) p (registrations current r topic ps1 sr_NewSerde))) as Hs
    by (unfold s, registrations; by rewrite foldl_app).
  apply Forall_app in Hw as [_ [Hp Hw]%Forall_cons].
  rewrite fmap_app, fmap_cons in Hnd. apply NoDup_app in Hnd as (_ & _ & [Hn _]%NoDup_cons).
  rewrite Hs, encode_registrations_other by (rewrite Hname; by apply resolved_name_notin).
  pose proof (encode_registered
    {| reg_ID := resolved current r topic p; reg_Value := p; reg_Index := [0];
       reg_EncodeFn := proto_Marshal; reg_DecodeFn := proto_Unmarshal;
       reg_GenerateFn := New_message p |}
    (registrations current r topic ps1 sr_NewSerde) m Hname) as He.
  simpl in He. destruct (proto_Marshal m) as [b|x] eqn:Hb; [|exact He]. split; [exact He|].
  unfold frame. rewrite decode_registrations_other; [|exact Hp|exact Hw|exact Hn].
  pose proof (decode_registered
    {| reg_ID := resolved current r topic p; reg_Value := p; reg_Index := [0];
       reg_EncodeFn := proto_Marshal; reg_DecodeFn := proto_Unmarshal;
       reg_GenerateFn := New_message p |}
    (registrations current r topic ps1 sr_NewSerde) b Hp eq_refl) as Hd.
  simpl in Hd. rewrite <- Hnew, (proto_roundtrip m b Hb), Hnew in Hd. exact Hd.
Qed.

Lemma decode_registrations_unknown (prototypes : list message) id b :
  wire_id id -> Forall (fun p => wire_id (resolved current r topic p)) prototypes ->
  id ∉ (resolved current r topic <$> prototypes) ->
  exists e, sr_DecodeNew (registrations current r topic prototypes sr_NewSerde)
    (ConfluentHeader id [0] ++ b) = Err e.
Proof.
  intros Hid Hw Hn. rewrite decode_registrations_other by done. by apply decode_unknown.
Qed.
End framing_lemmas.

(** ** Lemmas: schemactl's run *)

(** What a client is asked that changes or reads the registry's policy, in order. *)
Inductive call `{Compat} :=
  | LevelSet (level : CompatibilityLevel)
  | LevelRead (results : list CompatibilityResult)
  | Created (subject : string).

(** A client that also writes down what it was asked. *)
Definition traced `{Compat} {R} (cl : Client R) : Client (R * list call) :=
  {| SchemaByVersion subject version rt :=
       let '(res, r) := SchemaByVersion cl subject version rt.1 in (res, (r, rt.2));
     CreateSchema subject text rt :=
       let '(res, r) := CreateSchema cl subject text rt.1 in
       (res, (r, rt.2 ++ [Created subject]));
     SetCompatibility level rt :=
       let '(results, r) := SetCompatibility cl level rt.1 in
       (results, (r, rt.2 ++ [LevelSet level]));
     Compatibility rt :=
       let '(results, r) := Compatibility cl rt.1 in
       (results, (r, rt.2 ++ [LevelRead results])) |}.

Section schemactl_lemmas.
Context `{TS : Timestamppb} `{CO : Compat} {R : Type} (cl : Client R).

Lemma EnsureBackwardCompatibility_calls r t :
  let '(res, (r', t')) := EnsureBackwardCompatibility (traced cl) (r, t) in
  (exists t1, t' = t ++ t1 /\ forall subject, Created subject ∉ t1) /\
  (res = Ok tt ->
   exists results, t' = t ++ [LevelSet CompatBackward; LevelRead results] /\
     globalLevel level_zero results = Ok CompatBackward).
Proof.
  unfold EnsureBackwardCompatibility. simpl.
  destruct (SetCompatibility cl _ r) as [results1 r1]. destruct (globalLevel _ results1).
  2: { split; [|done]. exists [LevelSet CompatBackward]. split; [done|]. intros s. set_solver. }
  simpl. destruct (Compatibility cl r1) as [results r2]. simpl. rewrite <- app_assoc. simpl.
  assert (forall s, Created s ∉ [LevelSet CompatBackward; LevelRead results]) as Hn
    by (intros s; set_solver).
  destruct (globalLevel _ results) as [level|] eqn:E; [|split; [by eexists|done]].
  destruct (decide (level = CompatBackward)) as [->|Hl].
  - rewrite bool_decide_eq_false_2 by tauto. split; [by eexists|]. intros _. by exists results.
  - rewrite bool_decide_eq_true_2 by done. split; [by eexists|done].
Qed.

Context (ReadFile : string -> res string).

Lemma register_all_calls bs r t :
  let '(res, (r', t')) := register_all (traced cl) ReadFile bs (r, t) in
  exists k, (k <= length bs)%nat /\ t' = t ++ take k (Created ∘ binding_subject <$> bs) /\
    (res = Ok tt -> k = length bs).
Proof.
  revert r t. induction bs as [|b bs IH]; intros r t; simpl.
  { exists 0%nat. by rewrite app_nil_r. }
  unfold register_binding. destruct (ReadFile _) as [text|e].
  2: { exists 0%nat. rewrite app_nil_r. split; [lia|done]. }
  simpl. destruct (CreateSchema cl _ _ r) as [[s|e] r1].
  - specialize (IH r1 (t ++ [Created (binding_subject b)])).
    destruct (register_all _ _ _ _) as [res [r2 t2]]. destruct IH as (k & Hk & -> & Hr).
    exists (S k). split; [lia|]. rewrite <- app_assoc. split; [done|]. intros H. by rewrite Hr.
  - exists 1%nat. split; [lia|]. split; [reflexivity|done].
Qed.

Context (current : R -> string -> option Z) {RL : RegistryLaws cl current}.

Lemma register_all_current bs r :
  let '(res, r') := register_all cl ReadFile bs r in
  (forall x, is_Some (current r x) -> is_Some (current r' x)) /\
  (res = Ok tt -> Forall (fun b => is_Some (current r' (binding_subject b))) bs).
Proof.
  revert r. induction bs as [|b bs IH]; intros r; simpl; [done|]. unfold register_binding.
  destruct (ReadFile _) as [text|e]; [|done].
  pose proof (create_answers (binding_subject b) {| sc_Schema := text; sc_Protobuf := true |} r) as H.
  destruct (CreateSchema _ _ _ _) as [[s|e] r1]; destruct H as [Ho Hb].
  - specialize (IH r1). destruct (register_all _ _ _ _) as [res r2]. destruct IH as [Hk IH].
    split.
    + intros x Hx. apply Hk. destruct (decide (x = binding_subject b)) as [->|Hn];
        [by rewrite Hb|by rewrite Ho].
    + intros Hr. constructor; [apply Hk; by rewrite Hb|by apply IH].
  - split; [|done]. intros x Hx.
    destruct (decide (x = binding_subject b)) as [->|Hn]; [by rewrite Hb|by rewrite Ho].
Qed.
End schemactl_lemmas.

(** ** Properties *)

(** A protobuf full name has no dash. *)
Fixpoint dashless (s : string) : bool :=
  match s with
  | EmptyString => true
  | String c s => negb (bool_decide (c = Ascii.ascii_of_nat 45)) && dashless s
  end.

Lemma dashless_app s1 s2 : dashless (s1 +:+ s2) = dashless s1 && dashless s2.
Proof. induction s1 as [|c s1 IH]; simpl; [done|]. by rewrite IH, andb_assoc. Qed.

(** Subjects do not collide.  One topic and one message type have one subject, and
    two pairs never share one, whatever the topics are called: a type name has no
    dash, so the last dash of a subject ends its topic. *)
Theorem Subject_injective (topic1 name1 topic2 name2 : string) :
  dashless name1 = true -> dashless name2 = true ->
  Subject topic1 name1 = Subject topic2 name2 -> topic1 = topic2 /\ name1 = name2.
Proof.
  intros H1 H2. unfold Subject. revert topic2.
  induction topic1 as [|c1 t1 IH]; intros [|c2 t2] H; cbn [String.append] in H.
  - split; [done|]. change ("-" +:+ name1 = "-" +:+ name2)%string in H. by injection H.
  - injection H as _ H. change (name1 = t2 +:+ ("-" +:+ name2))%string in H. subst name1.
    by rewrite dashless_app, andb_false_r in H1.
  - injection H as _ H. change (t1 +:+ ("-" +:+ name1) = name2)%string in H. subst name2.
    by rewrite dashless_app, andb_false_r in H2.
  - injection H as -> H. by destruct (IH t2 H) as [-> ->].
Qed.

Section properties.
Context `{TS : Timestamppb} `{PB : !Protobuf} {PBL : ProtobufLaws} `{SR : !Sr} {SRL : SrLaws}.
Context `{CO : Compat} {R : Type} (cl : Client R) (current : R -> string -> option Z).
Context {RL : RegistryLaws cl current}.

(** A serde fails closed.  It is built exactly when every one of its message types is
    registered, and then knows the id each has at that moment; when one is missing
    the error is [ErrSubjectNotRegistered]; and building one registers nothing. *)
Theorem NewTopicSerde_fails_closed (topic : string) (prototypes : list message) (r : R) :
  prototypes <> [] ->
  let '(res, r') := NewTopicSerde cl topic prototypes r in
  (forall x, current r' x = current r x) /\
  match res with
  | Ok s =>
      Forall (registered_at current r topic) prototypes /\
      s = {| sd_inner := registrations current r topic prototypes sr_NewSerde; sd_topic := topic |}
  | Err e =>
      errors_Is e ErrSubjectNotRegistered = true /\
      ~ Forall (registered_at current r topic) prototypes
  end.
Proof.
  intros Hp. unfold NewTopicSerde. rewrite bool_decide_eq_false_2 by done.
  pose proof (register_each_outcome cl current topic prototypes sr_NewSerde r) as H.
  destruct (register_each _ _ _ _ _) as [[inner|e] r1]; destruct H as [Hr H]; [|done].
  split; [done|]. destruct H as [Hall ->]. done.
Qed.

(** What a serde needs of the registry it was built from: ids that fit the frame,
    and different types under different ids. *)
Definition distinct_ids (r : R) (topic : string) (prototypes : list message) : Prop :=
  Forall (fun p => wire_id (resolved current r topic p)) prototypes /\
  NoDup (resolved current r topic <$> prototypes).

(** A serde and the messages of its types. *)
Lemma framed_back (topic : string) (prototypes : list message) (p m : message) (r : R)
    (s : Serde) :
  prototypes <> [] -> fst (NewTopicSerde cl topic prototypes r) = Ok s ->
  distinct_ids r topic prototypes ->
  p ∈ prototypes -> FullName m = FullName p -> New_message m = New_message p ->
  match proto_Marshal m with
  | Ok b =>
      exists framed, Encode s m = Ok framed /\ Decode s framed = Ok m /\
        framed = Byte.x00 :: be32 (resolved current r topic p) ++ Byte.x00 :: b
  | Err _ => exists e, Encode s m = Err e
  end.
Proof.
  intros Hne Hs [Hw Hnd] Hin Hname Hnew.
  pose proof (NewTopicSerde_fails_closed topic prototypes r Hne) as Hs'.
  destruct (NewTopicSerde _ _ _ _) as [res r']. simpl in Hs. subst res.
  destruct Hs' as (_ & _ & ->).
  pose proof (registrations_of current r topic prototypes p m Hin Hname Hnew Hw Hnd) as H.
  cbv zeta in H. unfold Encode, Decode. simpl. destruct (proto_Marshal m) as [b|x].
  - destruct H as [He Hd]. rewrite He. eexists. split; [reflexivity|]. rewrite Hd. split; [done|].
    rewrite Forall_forall in Hw. rewrite header_first_message by by apply Hw.
    by rewrite <- app_comm_cons, <- app_assoc.
  - destruct H as [e ->]. by eexists.
Qed.

(** C30: a framed message is the magic byte, the four bytes of its type's schema id,
    most significant first, a zero for the message index, and its protobuf encoding;
    and the serde that framed it, or another built from the same registry state,
    reads back the same message. *)
Theorem framed_roundtrip (topic : string) (prototypes : list message) (p m : message) (r : R)
    (s : Serde) :
  prototypes <> [] -> fst (NewTopicSerde cl topic prototypes r) = Ok s ->
  distinct_ids r topic prototypes ->
  p ∈ prototypes -> FullName m = FullName p -> New_message m = New_message p ->
  match proto_Marshal m with
  | Ok b =>
      exists framed, Encode s m = Ok framed /\ Decode s framed = Ok m /\
        framed = Byte.x00 :: be32 (resolved current r topic p) ++ Byte.x00 :: b
  | Err _ => exists e, Encode s m = Err e
  end.
Proof. apply framed_back. Qed.

(** C31: a serde reads only the schema versions it was built with.  When the id a
    message was framed under is not one of the ids current when the reader was built,
    as when its schema was registered anew between the two, the reader refuses the
    frame, whatever compatibility the registry enforced. *)
Theorem upgrade_strands_frames (topic : string) (prototypes : list message) (p m : message)
    (r1 r2 : R) (s1 s2 : Serde) (framed : bytes) :
  prototypes <> [] -> fst (NewTopicSerde cl topic prototypes r1) = Ok s1 ->
  fst (NewTopicSerde cl topic prototypes r2) = Ok s2 ->
  distinct_ids r1 topic prototypes -> distinct_ids r2 topic prototypes ->
  p ∈ prototypes -> FullName m = FullName p -> New_message m = New_message p ->
  resolved current r1 topic p ∉ (resolved current r2 topic <$> prototypes) ->
  Encode s1 m = Ok framed ->
  exists e, Decode s2 framed = Err e.
Proof.
  intros Hne Hs1 Hs2 [Hw1 Hnd1] [Hw2 _] Hin Hname Hnew Hn He.
  pose proof (NewTopicSerde_fails_closed topic prototypes r1 Hne) as H1.
  pose proof (NewTopicSerde_fails_closed topic prototypes r2 Hne) as H2.
  destruct (NewTopicSerde cl topic prototypes r1) as [res1 r1'].
  destruct (NewTopicSerde cl topic prototypes r2) as [res2 r2']. simpl in Hs1, Hs2. subst.
  destruct H1 as (_ & _ & ->). destruct H2 as (_ & _ & ->).
  pose proof (registrations_of current r1 topic prototypes p m Hin Hname Hnew Hw1 Hnd1) as H.
  cbv zeta in H. unfold Encode in He. simpl in He. destruct (proto_Marshal m) as [b|x].
  - destruct H as [H _]. rewrite H in He. injection He as <-.
    rewrite Forall_forall in Hw1.
    destruct (decode_registrations_unknown current r2 topic prototypes _ b (Hw1 p Hin) Hw2 Hn)
      as [e Hd].
    unfold Decode. simpl. rewrite Hd. by eexists.
  - destruct H as [e H]. by rewrite H in He.
Qed.

(** Schemactl registers nothing before the registry has confirmed BACKWARD
    compatibility, and then exactly its table, in order: all of it when the run
    succeeds, a first part of it when not. *)
Theorem run_pins_before_registering (ReadFile : string -> res string) (newClient : res unit)
    (r : R) :
  let '(res, (r', t)) := run_schemactl (traced cl) ReadFile newClient (r, []) in
  (forall subject, Created subject ∉ t) /\ is_ok res = false \/
  exists results k,
    t = LevelSet CompatBackward :: LevelRead results ::
          take k (Created ∘ binding_subject <$> bindings) /\
    globalLevel level_zero results = Ok CompatBackward /\
    (res = Ok tt -> k = length bindings).
Proof.
  unfold run_schemactl. destruct newClient as [_u|e].
  2: { left. split; [|done]. intros s. by intros ?%elem_of_nil. }
  pose proof (EnsureBackwardCompatibility_calls cl r []) as H.
  destruct (EnsureBackwardCompatibility _ _) as [[u|e] [r1 t1]]; destruct H as [(t2 & -> & Hn) H].
  2: { left. by split. }
  destruct u. destruct (H eq_refl) as (results & -> & Hl).
  pose proof (register_all_calls cl ReadFile bindings r1 [LevelSet CompatBackward; LevelRead results]) as Hr.
  simpl app. destruct (register_all _ _ _ _) as [res [r2 t3]]. destruct Hr as (k & _ & -> & Hk).
  right. by exists results, k.
Qed.

(** A successful run leaves every subject of the table registered. *)
Lemma run_registers_all (ReadFile : string -> res string) (newClient : res unit) (r r' : R) :
  run_schemactl cl ReadFile newClient r = (Ok tt, r') ->
  Forall (fun b => is_Some (current r' (binding_subject b))) bindings.
Proof.
  unfold run_schemactl. destruct newClient as [_u|e]; [|done].
  destruct (EnsureBackwardCompatibility cl r) as [[u|e] r1]; [|done]. intros H.
  pose proof (register_all_current cl ReadFile current bindings r1) as Hr.
  rewrite H in Hr. by apply Hr.
Qed.
End properties.

(** ** A concrete registry and serde, for evaluating the model *)
Module ListSerde.
Import UnixTimestamps PlainPostgres NumberedJson.

Lemma byte_of_value z : Z.of_N (Byte.to_N (byte_of z)) = z `mod` 256.
Proof.
  unfold byte_of. pose proof (Z.mod_pos_bound z 256 ltac:(lia)) as Hz.
  destruct (Byte.of_N _) as [x|] eqn:E.
  - apply Byte.to_of_N in E. simpl. rewrite E. lia.
  - apply Byte.of_N_None_iff in E. lia.
Qed.

Definition of_be32 (a b c d : Byte.byte) : Z :=
  Z.of_N (Byte.to_N a) * 2 ^ 24 + Z.of_N (Byte.to_N b) * 2 ^ 16 +
  Z.of_N (Byte.to_N c) * 2 ^ 8 + Z.of_N (Byte.to_N d).

Lemma of_be32_value id : wire_id id ->
  of_be32 (byte_of (Z.shiftr id 24)) (byte_of (Z.shiftr id 16)) (byte_of (Z.shiftr id 8))
    (byte_of id) = id.
Proof.
  unfold wire_id, of_be32. intros Hid. rewrite !byte_of_value, !Z.shiftr_div_pow2 by lia.
  change (2 ^ 8) with 256. change (2 ^ 16) with (256 * 256).
  change (2 ^ 24) with (256 * (256 * 256)). change (2 ^ 32) with (256 * (256 * (256 * 256))) in Hid.
  rewrite <- !Z.div_div by lia.
  pose proof (Z.div_mod id 256). pose proof (Z.div_mod (id `div` 256) 256).
  pose proof (Z.div_mod ((id `div` 256) `div` 256) 256).
  assert (0 <= ((id `div` 256) `div` 256) `div` 256 < 256) as Hq
    by (rewrite !Z.div_div by lia; split; [apply Z.div_pos; lia|apply Z.div_lt_upper_bound; lia]).
  rewrite (Z.mod_small _ _ Hq). lia.
Qed.

Definition header (id : Z) (index : list Z) : bytes :=
  Byte.x00 :: be32 id ++ [if bool_decide (index = [0]) then Byte.x00 else Byte.x01].

Definition not_registered : err := ENew "registration is missing for encode/decode".

Fixpoint encode_with (s : list registration) (m : message) : res bytes :=
  match s with
  | [] => Err not_registered
  | g :: s =>
      if bool_decide (FullName m = FullName (reg_Value g)) then
        b ← reg_EncodeFn g m; mret (header (reg_ID g) (reg_Index g) ++ b)
      else encode_with s m
  end.

Fixpoint decode_with (s : list registration) (id : Z) (b : bytes) : res any :=
  match s with
  | [] => Err not_registered
  | g :: s =>
      if bool_decide (reg_ID g = id) then
        m ← reg_DecodeFn g b (reg_GenerateFn g); mret (AMessage m)
      else decode_with s id b
  end.

Definition decode_frame (s : list registration) (framed : bytes) : res any :=
  match framed with
  | Byte.x00 :: a :: b :: c :: d :: Byte.x00 :: payload => decode_with s (of_be32 a b c d) payload
  | _ => Err (ENew "5 byte header for value is missing or does not have 0 magic byte")
  end.

Lemma decode_frame_header s id b : wire_id id ->
  decode_frame s (header id [0] ++ b) = decode_with s id b.
Proof. intros Hid. simpl. by rewrite of_be32_value. Qed.

#[export] Instance sr : Sr :=
  {| sr_Serde := list registration; sr_NewSerde := []; sr_Register := cons;
     sr_Encode := encode_with; sr_DecodeNew := decode_frame; ConfluentHeader := header |}.

#[export] Instance sr_laws : SrLaws.
Proof.
  split.
  - done.
  - intros g s m H. simpl. rewrite bool_decide_eq_true_2 by done.
    destruct (reg_EncodeFn g m); simpl; [done|by eexists].
  - intros g s m H. simpl. by rewrite bool_decide_eq_false_2.
  - intros m. by eexists.
  - intros g s b Hid _. pose proof (decode_frame_header (g :: s) (reg_ID g) b Hid) as H.
    destruct (reg_DecodeFn g b _) as [m|x] eqn:E; [|exists x]; (etransitivity; [exact H|]);
      simpl; rewrite bool_decide_eq_true_2 by done; by rewrite E.
  - intros g s id b _ Hid Hn. etransitivity; [exact (decode_frame_header (g :: s) id b Hid)|].
    etransitivity; [|symmetry; exact (decode_frame_header s id b Hid)].
    simpl. by rewrite bool_decide_eq_false_2.
  - intros id b Hid. exists not_registered. exact (decode_frame_header [] id b Hid).
Qed.

#[export] Instance protobuf : Protobuf :=
  {| proto_Marshal := marshal; proto_Unmarshal b m := unmarshal (FullName m) b |}.

#[export] Instance protobuf_laws : ProtobufLaws.
Proof.
  split. intros m b H. assert (FullName (New_message m) = FullName m) as Hn by by destruct m.
  simpl. rewrite Hn. by apply unmarshal_marshal.
Qed.

#[export] Instance compat : Compat :=
  {| CompatibilityLevel := Z; level_zero := 0; CompatBackward := 2; level_String := Itoa |}.

(** The subjects with their latest ids, the number of versions, and the level. *)
Record registry := { subjects : gmap string Z; versions : Z; level : Z }.

Definition client : Client registry :=
  {| SchemaByVersion subject _ r :=
       match subjects r !! subject with
       | Some id => (Ok {| ss_ID := id; ss_Version := 1 |}, r)
       | None => (Err (ENew "No artifact with that ID was found."), r)
       end;
     CreateSchema subject _ r :=
       let id := versions r + 1 in
       (Ok {| ss_ID := id; ss_Version := 1 |},
        {| subjects := <[subject := id]> (subjects r); versions := id; level := level r |});
     SetCompatibility l r :=
       ([{| cr_Level := l; cr_Err := None |}],
        {| subjects := subjects r; versions := versions r; level := l |});
     Compatibility r := ([{| cr_Level := level r; cr_Err := None |}], r) |}.

Definition current (r : registry) (subject : string) : option Z := subjects r !! subject.

#[export] Instance client_laws : RegistryLaws client current.
Proof.
  split; [| |done|done].
  - intros subject r. simpl. unfold current at 3. by destruct (subjects r !! subject);
      (split; [done|]; eexists).
  - intros subject text r. unfold current. simpl. split.
    + intros x Hx. by rewrite lookup_insert_ne.
    + by rewrite lookup_insert_eq.
Qed.

Definition empty_registry : registry := {| subjects := ∅; versions := 0; level := 0 |}.
Definition read_any : string -> res string := fun _ => Ok "syntax = proto3;".

(** The registry after a run, and after a second one. *)
Definition after_run : registry := snd (run_schemactl client read_any (Ok tt) empty_registry).
Definition after_second_run : registry := snd (run_schemactl client read_any (Ok tt) after_run).
Definition event_types : list message :=
  [MSeatHeld (Build_SeatHeld "" "" "" None);
   MSeatHoldReleased (Build_SeatHoldReleased "" "" "" "")].
Definition serde_at (r : registry) : Serde :=
  {| sd_inner := registrations current r "inventory.events" event_types sr_NewSerde;
     sd_topic := "inventory.events" |}.
End ListSerde.

Import UnixTimestamps PlainPostgres NumberedJson ListSerde.

(** ** Witnesses *)
Lemma Subject_injective_witness :
  Subject "inventory.events" SeatHeld_FullName = "inventory.events-sagaflow.inventory.v1.SeatHeld"
    /\ "inventory.events" = "inventory.events" /\ SeatHeld_FullName = SeatHeld_FullName.
Proof.
  split; [reflexivity|].
  exact (Subject_injective "inventory.events" SeatHeld_FullName "inventory.events"
    SeatHeld_FullName eq_refl eq_refl eq_refl).
Defined.

Lemma NewTopicSerde_fails_closed_witness :
  exists e, fst (NewTopicSerde client "inventory.events.typo" event_types after_run) = Err e /\
    errors_Is e ErrSubjectNotRegistered = true.
Proof.
  pose proof (NewTopicSerde_fails_closed client current "inventory.events.typo" event_types
    after_run ltac:(discriminate)) as H.
  destruct (NewTopicSerde client "inventory.events.typo" event_types after_run) as [[s|e] r'].
  - exfalso. destruct H as (_ & [[id H] _]%Forall_cons & _). vm_compute in H. discriminate H.
  - exists e. split; [reflexivity|]. exact (proj1 (proj2 H)).
Defined.

Lemma distinct_after_run : distinct_ids current after_run "inventory.events" event_types.
Proof.
  split; [|apply (bool_decide_unpack _); vm_compute; exact I].
  repeat constructor; vm_compute; congruence.
Qed.

Lemma distinct_after_second_run :
  distinct_ids current after_second_run "inventory.events" event_types.
Proof.
  split; [|apply (bool_decide_unpack _); vm_compute; exact I].
  repeat constructor; vm_compute; congruence.
Qed.

Lemma framed_roundtrip_witness :
  exists framed, Encode (serde_at after_run) sample = Ok framed /\
    Decode (serde_at after_run) framed = Ok sample /\
    take 6 framed = [Byte.x00; Byte.x00; Byte.x00; Byte.x00; Byte.x03; Byte.x00].
Proof.
  destruct (framed_roundtrip client current "inventory.events" event_types
    (MSeatHeld (Build_SeatHeld "" "" "" None)) sample after_run (serde_at after_run))
    as (framed & H1 & H2 & H3).
  - discriminate.
  - reflexivity.
  - exact distinct_after_run.
  - left.
  - reflexivity.
  - reflexivity.
  - exists framed. split; [exact H1|]. split; [exact H2|]. rewrite H3. vm_compute. reflexivity.
Defined.

Lemma upgrade_strands_frames_witness :
  exists framed e, Encode (serde_at after_run) sample = Ok framed /\
    Decode (serde_at after_second_run) framed = Err e.
Proof.
  destruct (Encode (serde_at after_run) sample) as [framed|x] eqn:E;
    [|vm_compute in E; discriminate E].
  destruct (upgrade_strands_frames client current "inventory.events" event_types
    (MSeatHeld (Build_SeatHeld "" "" "" None)) sample after_run after_second_run
    (serde_at after_run) (serde_at after_second_run) framed) as [e H].
  - discriminate.
  - reflexivity.
  - reflexivity.
  - exact distinct_after_run.
  - exact distinct_after_second_run.
  - left.
  - reflexivity.
  - reflexivity.
  - apply (bool_decide_unpack _). vm_compute. exact I.
  - exact E.
  - exists framed, e. split; [reflexivity|exact H].
Defined.
