(* ===== verification/Descriptors.v ===== *)
(** * The generated code and the schemas it comes from
    ([contracts/sagaflow/inventory/v1/*.pb.go], [proto/sagaflow/inventory/v1/*.proto])

    Every [.pb.go] file carries the same message four times: as a Go struct whose
    field tags the protobuf runtime reads, as the serialized file descriptor in its
    [rawDesc] constant, as the tables [goTypes] and [depIdxs] that bind the two, and
    as nil-safe getters.  The [.proto] text it was generated from is what [schemactl]
    registers.  The data is transcribed here ([go_string] assembles a Go or text
    literal from its printable runs and its other bytes); the [init] functions, which
    hand it to the runtime, are [builder].

    Reading a descriptor needs the protobuf wire format and [descriptor.proto], and
    reading a [.proto] text the grammar of proto3: [Reader] has the fragment these
    files use, as a specification; no code of the repository does it.  Theorem: the
    registered text, the descriptor, the struct and the tables of each binding
    declare the same message, alone in its file, so that the index [[0]] that
    [schema.register] frames under is its own.  Lemma: a getter of a nil pointer
    answers as one of a message just [Reset]. *)
From Stdlib Require Import Ascii.
From S2P Require Import Prelude Contracts Schema.

(** ** Literals *)
Inductive lit := T (text : string) | B (codes : list Z).

Definition char_of (z : Z) : ascii := ascii_of_N (Z.to_N z).

Definition lit_string (l : lit) : string :=
  match l with
  | T text => text
  | B codes => String.string_of_list_ascii (map char_of codes)
  end.

Definition go_string (ls : list lit) : string := foldr (fun l s => lit_string l +:+ s)%string "" ls.

Definition codes_of (s : string) : list Z :=
  map (fun c => Z.of_N (N_of_ascii c)) (String.list_ascii_of_string s).

Definition text_of (b : list Z) : string := String.string_of_list_ascii (map char_of b).

(** ** Shapes *)

(** An exported field of a generated struct: its Go name and type, and its tags. *)
Record go_field := {
  gf_name : string; gf_type : string; gf_protobuf : string; gf_json : string }.

(** [protoimpl.TypeBuilder] with its [DescBuilder], as the [init] functions fill them. *)
Record TypeBuilder := {
  RawDescriptor : string;
  NumEnums : Z;
  NumMessages : Z;
  NumExtensions : Z;
  NumServices : Z;
  GoTypes : list (string * string);
  DependencyIndexes : list Z;
}.

(** ** Reset and the getters *)
Section getters.
Context `{TS : Timestamppb}.

Definition HoldSeat_Reset (x : HoldSeat) : HoldSeat := Build_HoldSeat "" "" "" None.
Definition HoldSeat_GetHoldId (x : option HoldSeat) : string :=
  match x with Some x => HoldSeat_HoldId x | None => "" end.
Definition HoldSeat_GetBookingId (x : option HoldSeat) : string :=
  match x with Some x => HoldSeat_BookingId x | None => "" end.
Definition HoldSeat_GetSeatId (x : option HoldSeat) : string :=
  match x with Some x => HoldSeat_SeatId x | None => "" end.
Definition HoldSeat_GetExpiresAt (x : option HoldSeat) : option Timestamp :=
  match x with Some x => HoldSeat_ExpiresAt x | None => None end.

Definition ReleaseSeatHold_Reset (x : ReleaseSeatHold) : ReleaseSeatHold := Build_ReleaseSeatHold "" "" "" "".
Definition ReleaseSeatHold_GetHoldId (x : option ReleaseSeatHold) : string :=
  match x with Some x => ReleaseSeatHold_HoldId x | None => "" end.
Definition ReleaseSeatHold_GetBookingId (x : option ReleaseSeatHold) : string :=
  match x with Some x => ReleaseSeatHold_BookingId x | None => "" end.
Definition ReleaseSeatHold_GetSeatId (x : option ReleaseSeatHold) : string :=
  match x with Some x => ReleaseSeatHold_SeatId x | None => "" end.
Definition ReleaseSeatHold_GetReason (x : option ReleaseSeatHold) : string :=
  match x with Some x => ReleaseSeatHold_Reason x | None => "" end.

Definition SeatHeld_Reset (x : SeatHeld) : SeatHeld := Build_SeatHeld "" "" "" None.
Definition SeatHeld_GetHoldId (x : option SeatHeld) : string :=
  match x with Some x => SeatHeld_HoldId x | None => "" end.
Definition SeatHeld_GetBookingId (x : option SeatHeld) : string :=
  match x with Some x => SeatHeld_BookingId x | None => "" end.
Definition SeatHeld_GetSeatId (x : option SeatHeld) : string :=
  match x with Some x => SeatHeld_SeatId x | None => "" end.
Definition SeatHeld_GetExpiresAt (x : option SeatHeld) : option Timestamp :=
  match x with Some x => SeatHeld_ExpiresAt x | None => None end.

Definition SeatHoldReleased_Reset (x : SeatHoldReleased) : SeatHoldReleased := Build_SeatHoldReleased "" "" "" "".
Definition SeatHoldReleased_GetHoldId (x : option SeatHoldReleased) : string :=
  match x with Some x => SeatHoldReleased_HoldId x | None => "" end.
Definition SeatHoldReleased_GetBookingId (x : option SeatHoldReleased) : string :=
  match x with Some x => SeatHoldReleased_BookingId x | None => "" end.
Definition SeatHoldReleased_GetSeatId (x : option SeatHoldReleased) : string :=
  match x with Some x => SeatHoldReleased_SeatId x | None => "" end.
Definition SeatHoldReleased_GetReason (x : option SeatHoldReleased) : string :=
  match x with Some x => SeatHoldReleased_Reason x | None => "" end.

Definition SeatHoldExpired_Reset (x : SeatHoldExpired) : SeatHoldExpired := Build_SeatHoldExpired "" "" "".
Definition SeatHoldExpired_GetHoldId (x : option SeatHoldExpired) : string :=
  match x with Some x => SeatHoldExpired_HoldId x | None => "" end.
Definition SeatHoldExpired_GetBookingId (x : option SeatHoldExpired) : string :=
  match x with Some x => SeatHoldExpired_BookingId x | None => "" end.
Definition SeatHoldExpired_GetSeatId (x : option SeatHoldExpired) : string :=
  match x with Some x => SeatHoldExpired_SeatId x | None => "" end.

Definition SeatUnavailable_Reset (x : SeatUnavailable) : SeatUnavailable := Build_SeatUnavailable "" "" "" "".
Definition SeatUnavailable_GetHoldId (x : option SeatUnavailable) : string :=
  match x with Some x => SeatUnavailable_HoldId x | None => "" end.
Definition SeatUnavailable_GetBookingId (x : option SeatUnavailable) : string :=
  match x with Some x => SeatUnavailable_BookingId x | None => "" end.
Definition SeatUnavailable_GetSeatId (x : option SeatUnavailable) : string :=
  match x with Some x => SeatUnavailable_SeatId x | None => "" end.
Definition SeatUnavailable_GetReason (x : option SeatUnavailable) : string :=
  match x with Some x => SeatUnavailable_Reason x | None => "" end.

(** A getter of a nil pointer answers as one of a message just reset. *)
End getters.

(** ** The generated data *)

(** *** [hold_seat.pb.go] *)
Definition HoldSeat_struct : list go_field :=
  [{| gf_name := "HoldId"; gf_type := "string";
      gf_protobuf := "bytes,1,opt,name=hold_id,json=holdId,proto3"; gf_json := "hold_id,omitempty" |};
   {| gf_name := "BookingId"; gf_type := "string";
      gf_protobuf := "bytes,2,opt,name=booking_id,json=bookingId,proto3"; gf_json := "booking_id,omitempty" |};
   {| gf_name := "SeatId"; gf_type := "string";
      gf_protobuf := "bytes,3,opt,name=seat_id,json=seatId,proto3"; gf_json := "seat_id,omitempty" |};
   {| gf_name := "ExpiresAt"; gf_type := "*timestamppb.Timestamp";
      gf_protobuf := "bytes,4,opt,name=expires_at,json=expiresAt,proto3"; gf_json := "expires_at,omitempty" |}].

Definition file_sagaflow_inventory_v1_hold_seat_proto_rawDesc : string := go_string [
   B [10];
   T "%sagaflow/inventory/v1/hold_seat.proto"; B [18; 21]; T "sagaflow.inventory.v1"; B [26; 31]; T "google/protobuf/timestamp.proto"; B [34; 150; 1; 10];
   B [8]; T "HoldSeat"; B [18; 23; 10];
   B [7]; T "hold_id"; B [24; 1]; T " "; B [1]; T "("; B [9]; T "R"; B [6]; T "holdId"; B [18; 29; 10];
   B [10];
   T "booking_id"; B [24; 2]; T " "; B [1]; T "("; B [9]; T "R"; B [9]; T "bookingId"; B [18; 23; 10];
   B [7]; T "seat_id"; B [24; 3]; T " "; B [1]; T "("; B [9]; T "R"; B [6]; T "seatId"; B [18]; T "9"; B [10];
   B [10];
   T "expires_at"; B [24; 4]; T " "; B [1]; T "("; B [11]; T "2"; B [26]; T ".google.protobuf.TimestampR"; B [9]; T "expiresAtB"; B [238; 1; 10];
   B [25]; T "com.sagaflow.inventory.v1B"; B [13]; T "HoldSeatProtoP"; B [1]; T "ZLgithub.com/AymanKastali/sagaflow/contracts/sagaflow/inventory/v1;inventoryv1"; B [162; 2; 3]; T "SIX"; B [170; 2; 21]; T "Sagaflow.Inventory.V1"; B [202; 2; 21]; T "Sagaflow\Inventory\V1"; B [226; 2]; T "!Sagaflow\Inventory\V1\GPBMetadata"; B [234; 2; 23]; T "Sagaflow::Inventory::V1b"; B [6]; T "proto3"].

Definition file_sagaflow_inventory_v1_hold_seat_proto_goTypes : list (string * string) :=
  [("*HoldSeat", "sagaflow.inventory.v1.HoldSeat");
   ("*timestamppb.Timestamp", "google.protobuf.Timestamp")].
Definition file_sagaflow_inventory_v1_hold_seat_proto_depIdxs : list Z := [1; 1; 1; 1; 1; 0].

Definition hold_seat_proto_text : string := go_string [
   T "syntax = "; B [34]; T "proto3"; B [34]; T ";"; B [10];
   B [10];
   T "package sagaflow.inventory.v1;"; B [10];
   B [10];
   T "import "; B [34]; T "google/protobuf/timestamp.proto"; B [34]; T ";"; B [10];
   B [10];
   T "// HoldSeat asks inventory to hold a seat. hold_id is supplied by the caller and"; B [10];
   T "// is deterministic, so a redelivered command produces the same hold rather than"; B [10];
   T "// a second one."; B [10];
   T "message HoldSeat {"; B [10];
   T "  string hold_id = 1;"; B [10];
   T "  string booking_id = 2;"; B [10];
   T "  string seat_id = 3;"; B [10];
   T "  google.protobuf.Timestamp expires_at = 4;"; B [10];
   T "}"; B [10]].

(** *** [release_seat_hold.pb.go] *)
Definition ReleaseSeatHold_struct : list go_field :=
  [{| gf_name := "HoldId"; gf_type := "string";
      gf_protobuf := "bytes,1,opt,name=hold_id,json=holdId,proto3"; gf_json := "hold_id,omitempty" |};
   {| gf_name := "BookingId"; gf_type := "string";
      gf_protobuf := "bytes,2,opt,name=booking_id,json=bookingId,proto3"; gf_json := "booking_id,omitempty" |};
   {| gf_name := "SeatId"; gf_type := "string";
      gf_protobuf := "bytes,3,opt,name=seat_id,json=seatId,proto3"; gf_json := "seat_id,omitempty" |};
   {| gf_name := "Reason"; gf_type := "string";
      gf_protobuf := "bytes,4,opt,name=reason,proto3"; gf_json := "reason,omitempty" |}].

Definition file_sagaflow_inventory_v1_release_seat_hold_proto_rawDesc : string := go_string [
   B [10];
   T "-sagaflow/inventory/v1/release_seat_hold.proto"; B [18; 21]; T "sagaflow.inventory.v1"; B [34]; T "z"; B [10];
   B [15]; T "ReleaseSeatHold"; B [18; 23; 10];
   B [7]; T "hold_id"; B [24; 1]; T " "; B [1]; T "("; B [9]; T "R"; B [6]; T "holdId"; B [18; 29; 10];
   B [10];
   T "booking_id"; B [24; 2]; T " "; B [1]; T "("; B [9]; T "R"; B [9]; T "bookingId"; B [18; 23; 10];
   B [7]; T "seat_id"; B [24; 3]; T " "; B [1]; T "("; B [9]; T "R"; B [6]; T "seatId"; B [18; 22; 10];
   B [6]; T "reason"; B [24; 4]; T " "; B [1]; T "("; B [9]; T "R"; B [6]; T "reasonB"; B [245; 1; 10];
   B [25]; T "com.sagaflow.inventory.v1B"; B [20]; T "ReleaseSeatHoldProtoP"; B [1]; T "ZLgithub.com/AymanKastali/sagaflow/contracts/sagaflow/inventory/v1;inventoryv1"; B [162; 2; 3]; T "SIX"; B [170; 2; 21]; T "Sagaflow.Inventory.V1"; B [202; 2; 21]; T "Sagaflow\Inventory\V1"; B [226; 2]; T "!Sagaflow\Inventory\V1\GPBMetadata"; B [234; 2; 23]; T "Sagaflow::Inventory::V1b"; B [6]; T "proto3"].

Definition file_sagaflow_inventory_v1_release_seat_hold_proto_goTypes : list (string * string) :=
  [("*ReleaseSeatHold", "sagaflow.inventory.v1.ReleaseSeatHold")].
Definition file_sagaflow_inventory_v1_release_seat_hold_proto_depIdxs : list Z := [0; 0; 0; 0; 0].

Definition release_seat_hold_proto_text : string := go_string [
   T "syntax = "; B [34]; T "proto3"; B [34]; T ";"; B [10];
   B [10];
   T "package sagaflow.inventory.v1;"; B [10];
   B [10];
   T "// ReleaseSeatHold is the compensation for HoldSeat: it undoes a hold that a"; B [10];
   T "// later saga step made pointless."; B [10];
   T "//"; B [10];
   T "// Compensations retry forever and never dead-letter, because a compensation"; B [10];
   T "// that gives up strands real inventory. So it must be safe to apply to a seat"; B [10];
   T "// that is already free: inventory answers with SeatHoldReleased either way."; B [10];
   T "message ReleaseSeatHold {"; B [10];
   T "  string hold_id = 1;"; B [10];
   T "  string booking_id = 2;"; B [10];
   T "  string seat_id = 3;"; B [10];
   T "  string reason = 4;"; B [10];
   T "}"; B [10]].

(** *** [seat_held.pb.go] *)
Definition SeatHeld_struct : list go_field :=
  [{| gf_name := "HoldId"; gf_type := "string";
      gf_protobuf := "bytes,1,opt,name=hold_id,json=holdId,proto3"; gf_json := "hold_id,omitempty" |};
   {| gf_name := "BookingId"; gf_type := "string";
      gf_protobuf := "bytes,2,opt,name=booking_id,json=bookingId,proto3"; gf_json := "booking_id,omitempty" |};
   {| gf_name := "SeatId"; gf_type := "string";
      gf_protobuf := "bytes,3,opt,name=seat_id,json=seatId,proto3"; gf_json := "seat_id,omitempty" |};
   {| gf_name := "ExpiresAt"; gf_type := "*timestamppb.Timestamp";
      gf_protobuf := "bytes,4,opt,name=expires_at,json=expiresAt,proto3"; gf_json := "expires_at,omitempty" |}].

Definition file_sagaflow_inventory_v1_seat_held_proto_rawDesc : string := go_string [
   B [10];
   T "%sagaflow/inventory/v1/seat_held.proto"; B [18; 21]; T "sagaflow.inventory.v1"; B [26; 31]; T "google/protobuf/timestamp.proto"; B [34; 150; 1; 10];
   B [8]; T "SeatHeld"; B [18; 23; 10];
   B [7]; T "hold_id"; B [24; 1]; T " "; B [1]; T "("; B [9]; T "R"; B [6]; T "holdId"; B [18; 29; 10];
   B [10];
   T "booking_id"; B [24; 2]; T " "; B [1]; T "("; B [9]; T "R"; B [9]; T "bookingId"; B [18; 23; 10];
   B [7]; T "seat_id"; B [24; 3]; T " "; B [1]; T "("; B [9]; T "R"; B [6]; T "seatId"; B [18]; T "9"; B [10];
   B [10];
   T "expires_at"; B [24; 4]; T " "; B [1]; T "("; B [11]; T "2"; B [26]; T ".google.protobuf.TimestampR"; B [9]; T "expiresAtB"; B [238; 1; 10];
   B [25]; T "com.sagaflow.inventory.v1B"; B [13]; T "SeatHeldProtoP"; B [1]; T "ZLgithub.com/AymanKastali/sagaflow/contracts/sagaflow/inventory/v1;inventoryv1"; B [162; 2; 3]; T "SIX"; B [170; 2; 21]; T "Sagaflow.Inventory.V1"; B [202; 2; 21]; T "Sagaflow\Inventory\V1"; B [226; 2]; T "!Sagaflow\Inventory\V1\GPBMetadata"; B [234; 2; 23]; T "Sagaflow::Inventory::V1b"; B [6]; T "proto3"].

Definition file_sagaflow_inventory_v1_seat_held_proto_goTypes : list (string * string) :=
  [("*SeatHeld", "sagaflow.inventory.v1.SeatHeld");
   ("*timestamppb.Timestamp", "google.protobuf.Timestamp")].
Definition file_sagaflow_inventory_v1_seat_held_proto_depIdxs : list Z := [1; 1; 1; 1; 1; 0].

Definition seat_held_proto_text : string := go_string [
   T "syntax = "; B [34]; T "proto3"; B [34]; T ";"; B [10];
   B [10];
   T "package sagaflow.inventory.v1;"; B [10];
   B [10];
   T "import "; B [34]; T "google/protobuf/timestamp.proto"; B [34]; T ";"; B [10];
   B [10];
   T "// SeatHeld records that one specific seat is held for one booking until"; B [10];
   T "// expires_at. The stream is the seat, so this event is the whole invariant:"; B [10];
   T "// a seat holds at most one live hold at a time."; B [10];
   T "message SeatHeld {"; B [10];
   T "  string hold_id = 1;"; B [10];
   T "  string booking_id = 2;"; B [10];
   T "  string seat_id = 3;"; B [10];
   T "  google.protobuf.Timestamp expires_at = 4;"; B [10];
   T "}"; B [10]].

(** *** [seat_hold_released.pb.go] *)
Definition SeatHoldReleased_struct : list go_field :=
  [{| gf_name := "HoldId"; gf_type := "string";
      gf_protobuf := "bytes,1,opt,name=hold_id,json=holdId,proto3"; gf_json := "hold_id,omitempty" |};
   {| gf_name := "BookingId"; gf_type := "string";
      gf_protobuf := "bytes,2,opt,name=booking_id,json=bookingId,proto3"; gf_json := "booking_id,omitempty" |};
   {| gf_name := "SeatId"; gf_type := "string";
      gf_protobuf := "bytes,3,opt,name=seat_id,json=seatId,proto3"; gf_json := "seat_id,omitempty" |};
   {| gf_name := "Reason"; gf_type := "string";
      gf_protobuf := "bytes,4,opt,name=reason,proto3"; gf_json := "reason,omitempty" |}].

Definition file_sagaflow_inventory_v1_seat_hold_released_proto_rawDesc : string := go_string [
   B [10];
   T ".sagaflow/inventory/v1/seat_hold_released.proto"; B [18; 21]; T "sagaflow.inventory.v1"; B [34]; T "{"; B [10];
   B [16]; T "SeatHoldReleased"; B [18; 23; 10];
   B [7]; T "hold_id"; B [24; 1]; T " "; B [1]; T "("; B [9]; T "R"; B [6]; T "holdId"; B [18; 29; 10];
   B [10];
   T "booking_id"; B [24; 2]; T " "; B [1]; T "("; B [9]; T "R"; B [9]; T "bookingId"; B [18; 23; 10];
   B [7]; T "seat_id"; B [24; 3]; T " "; B [1]; T "("; B [9]; T "R"; B [6]; T "seatId"; B [18; 22; 10];
   B [6]; T "reason"; B [24; 4]; T " "; B [1]; T "("; B [9]; T "R"; B [6]; T "reasonB"; B [246; 1; 10];
   B [25]; T "com.sagaflow.inventory.v1B"; B [21]; T "SeatHoldReleasedProtoP"; B [1]; T "ZLgithub.com/AymanKastali/sagaflow/contracts/sagaflow/inventory/v1;inventoryv1"; B [162; 2; 3]; T "SIX"; B [170; 2; 21]; T "Sagaflow.Inventory.V1"; B [202; 2; 21]; T "Sagaflow\Inventory\V1"; B [226; 2]; T "!Sagaflow\Inventory\V1\GPBMetadata"; B [234; 2; 23]; T "Sagaflow::Inventory::V1b"; B [6]; T "proto3"].

Definition file_sagaflow_inventory_v1_seat_hold_released_proto_goTypes : list (string * string) :=
  [("*SeatHoldReleased", "sagaflow.inventory.v1.SeatHoldReleased")].
Definition file_sagaflow_inventory_v1_seat_hold_released_proto_depIdxs : list Z := [0; 0; 0; 0; 0].

Definition seat_hold_released_proto_text : string := go_string [
   T "syntax = "; B [34]; T "proto3"; B [34]; T ";"; B [10];
   B [10];
   T "package sagaflow.inventory.v1;"; B [10];
   B [10];
   T "// SeatHoldReleased records that a live hold ended without being confirmed. It is"; B [10];
   T "// how the saga learns its compensation landed, which is why inventory emits it"; B [10];
   T "// even when the hold was already gone."; B [10];
   T "message SeatHoldReleased {"; B [10];
   T "  string hold_id = 1;"; B [10];
   T "  string booking_id = 2;"; B [10];
   T "  string seat_id = 3;"; B [10];
   T "  string reason = 4;"; B [10];
   T "}"; B [10]].

(** *** [seat_hold_expired.pb.go] *)
Definition SeatHoldExpired_struct : list go_field :=
  [{| gf_name := "HoldId"; gf_type := "string";
      gf_protobuf := "bytes,1,opt,name=hold_id,json=holdId,proto3"; gf_json := "hold_id,omitempty" |};
   {| gf_name := "BookingId"; gf_type := "string";
      gf_protobuf := "bytes,2,opt,name=booking_id,json=bookingId,proto3"; gf_json := "booking_id,omitempty" |};
   {| gf_name := "SeatId"; gf_type := "string";
      gf_protobuf := "bytes,3,opt,name=seat_id,json=seatId,proto3"; gf_json := "seat_id,omitempty" |}].

Definition file_sagaflow_inventory_v1_seat_hold_expired_proto_rawDesc : string := go_string [
   B [10];
   T "-sagaflow/inventory/v1/seat_hold_expired.proto"; B [18; 21]; T "sagaflow.inventory.v1"; B [34]; T "b"; B [10];
   B [15]; T "SeatHoldExpired"; B [18; 23; 10];
   B [7]; T "hold_id"; B [24; 1]; T " "; B [1]; T "("; B [9]; T "R"; B [6]; T "holdId"; B [18; 29; 10];
   B [10];
   T "booking_id"; B [24; 2]; T " "; B [1]; T "("; B [9]; T "R"; B [9]; T "bookingId"; B [18; 23; 10];
   B [7]; T "seat_id"; B [24; 3]; T " "; B [1]; T "("; B [9]; T "R"; B [6]; T "seatIdB"; B [245; 1; 10];
   B [25]; T "com.sagaflow.inventory.v1B"; B [20]; T "SeatHoldExpiredProtoP"; B [1]; T "ZLgithub.com/AymanKastali/sagaflow/contracts/sagaflow/inventory/v1;inventoryv1"; B [162; 2; 3]; T "SIX"; B [170; 2; 21]; T "Sagaflow.Inventory.V1"; B [202; 2; 21]; T "Sagaflow\Inventory\V1"; B [226; 2]; T "!Sagaflow\Inventory\V1\GPBMetadata"; B [234; 2; 23]; T "Sagaflow::Inventory::V1b"; B [6]; T "proto3"].

Definition file_sagaflow_inventory_v1_seat_hold_expired_proto_goTypes : list (string * string) :=
  [("*SeatHoldExpired", "sagaflow.inventory.v1.SeatHoldExpired")].
Definition file_sagaflow_inventory_v1_seat_hold_expired_proto_depIdxs : list Z := [0; 0; 0; 0; 0].

Definition seat_hold_expired_proto_text : string := go_string [
   T "syntax = "; B [34]; T "proto3"; B [34]; T ";"; B [10];
   B [10];
   T "package sagaflow.inventory.v1;"; B [10];
   B [10];
   T "// SeatHoldExpired records that a hold reached its deadline without being"; B [10];
   T "// confirmed or released. It is inventory freeing its own resource, which is why"; B [10];
   T "// it can happen when the booking that took the hold no longer exists."; B [10];
   T "message SeatHoldExpired {"; B [10];
   T "  string hold_id = 1;"; B [10];
   T "  string booking_id = 2;"; B [10];
   T "  string seat_id = 3;"; B [10];
   T "}"; B [10]].

(** *** [seat_unavailable.pb.go] *)
Definition SeatUnavailable_struct : list go_field :=
  [{| gf_name := "HoldId"; gf_type := "string";
      gf_protobuf := "bytes,1,opt,name=hold_id,json=holdId,proto3"; gf_json := "hold_id,omitempty" |};
   {| gf_name := "BookingId"; gf_type := "string";
      gf_protobuf := "bytes,2,opt,name=booking_id,json=bookingId,proto3"; gf_json := "booking_id,omitempty" |};
   {| gf_name := "SeatId"; gf_type := "string";
      gf_protobuf := "bytes,3,opt,name=seat_id,json=seatId,proto3"; gf_json := "seat_id,omitempty" |};
   {| gf_name := "Reason"; gf_type := "string";
      gf_protobuf := "bytes,4,opt,name=reason,proto3"; gf_json := "reason,omitempty" |}].

Definition file_sagaflow_inventory_v1_seat_unavailable_proto_rawDesc : string := go_string [
   B [10];
   T ",sagaflow/inventory/v1/seat_unavailable.proto"; B [18; 21]; T "sagaflow.inventory.v1"; B [34]; T "z"; B [10];
   B [15]; T "SeatUnavailable"; B [18; 23; 10];
   B [7]; T "hold_id"; B [24; 1]; T " "; B [1]; T "("; B [9]; T "R"; B [6]; T "holdId"; B [18; 29; 10];
   B [10];
   T "booking_id"; B [24; 2]; T " "; B [1]; T "("; B [9]; T "R"; B [9]; T "bookingId"; B [18; 23; 10];
   B [7]; T "seat_id"; B [24; 3]; T " "; B [1]; T "("; B [9]; T "R"; B [6]; T "seatId"; B [18; 22; 10];
   B [6]; T "reason"; B [24; 4]; T " "; B [1]; T "("; B [9]; T "R"; B [6]; T "reasonB"; B [245; 1; 10];
   B [25]; T "com.sagaflow.inventory.v1B"; B [20]; T "SeatUnavailableProtoP"; B [1]; T "ZLgithub.com/AymanKastali/sagaflow/contracts/sagaflow/inventory/v1;inventoryv1"; B [162; 2; 3]; T "SIX"; B [170; 2; 21]; T "Sagaflow.Inventory.V1"; B [202; 2; 21]; T "Sagaflow\Inventory\V1"; B [226; 2]; T "!Sagaflow\Inventory\V1\GPBMetadata"; B [234; 2; 23]; T "Sagaflow::Inventory::V1b"; B [6]; T "proto3"].

Definition file_sagaflow_inventory_v1_seat_unavailable_proto_goTypes : list (string * string) :=
  [("*SeatUnavailable", "sagaflow.inventory.v1.SeatUnavailable")].
Definition file_sagaflow_inventory_v1_seat_unavailable_proto_depIdxs : list Z := [0; 0; 0; 0; 0].

Definition seat_unavailable_proto_text : string := go_string [
   T "syntax = "; B [34]; T "proto3"; B [34]; T ";"; B [10];
   B [10];
   T "package sagaflow.inventory.v1;"; B [10];
   B [10];
   T "// SeatUnavailable refuses a HoldSeat because the seat is already held."; B [10];
   T "//"; B [10];
   T "// It is a reply, not a fact about the seat, so it is never appended to the seat"; B [10];
   T "// stream "; B [226; 128; 148]; T " nothing happened to the seat, and appending it would grow the seat's"; B [10];
   T "// history by one row for every losing racer. The saga turns it into"; B [10];
   T "// BookingRejected; the HTTP layer will turn that into a 409."; B [10];
   T "message SeatUnavailable {"; B [10];
   T "  string hold_id = 1;"; B [10];
   T "  string booking_id = 2;"; B [10];
   T "  string seat_id = 3;"; B [10];
   T "  string reason = 4;"; B [10];
   T "}"; B [10]].


(** ** The init functions *)
Definition file_sagaflow_inventory_v1_hold_seat_proto_builder : TypeBuilder :=
  {| RawDescriptor := file_sagaflow_inventory_v1_hold_seat_proto_rawDesc;
     NumEnums := 0; NumMessages := 1; NumExtensions := 0; NumServices := 0;
     GoTypes := file_sagaflow_inventory_v1_hold_seat_proto_goTypes;
     DependencyIndexes := file_sagaflow_inventory_v1_hold_seat_proto_depIdxs |}.
Definition file_sagaflow_inventory_v1_release_seat_hold_proto_builder : TypeBuilder :=
  {| RawDescriptor := file_sagaflow_inventory_v1_release_seat_hold_proto_rawDesc;
     NumEnums := 0; NumMessages := 1; NumExtensions := 0; NumServices := 0;
     GoTypes := file_sagaflow_inventory_v1_release_seat_hold_proto_goTypes;
     DependencyIndexes := file_sagaflow_inventory_v1_release_seat_hold_proto_depIdxs |}.
Definition file_sagaflow_inventory_v1_seat_held_proto_builder : TypeBuilder :=
  {| RawDescriptor := file_sagaflow_inventory_v1_seat_held_proto_rawDesc;
     NumEnums := 0; NumMessages := 1; NumExtensions := 0; NumServices := 0;
     GoTypes := file_sagaflow_inventory_v1_seat_held_proto_goTypes;
     DependencyIndexes := file_sagaflow_inventory_v1_seat_held_proto_depIdxs |}.
Definition file_sagaflow_inventory_v1_seat_hold_released_proto_builder : TypeBuilder :=
  {| RawDescriptor := file_sagaflow_inventory_v1_seat_hold_released_proto_rawDesc;
     NumEnums := 0; NumMessages := 1; NumExtensions := 0; NumServices := 0;
     GoTypes := file_sagaflow_inventory_v1_seat_hold_released_proto_goTypes;
     DependencyIndexes := file_sagaflow_inventory_v1_seat_hold_released_proto_depIdxs |}.
Definition file_sagaflow_inventory_v1_seat_hold_expired_proto_builder : TypeBuilder :=
  {| RawDescriptor := file_sagaflow_inventory_v1_seat_hold_expired_proto_rawDesc;
     NumEnums := 0; NumMessages := 1; NumExtensions := 0; NumServices := 0;
     GoTypes := file_sagaflow_inventory_v1_seat_hold_expired_proto_goTypes;
     DependencyIndexes := file_sagaflow_inventory_v1_seat_hold_expired_proto_depIdxs |}.
Definition file_sagaflow_inventory_v1_seat_unavailable_proto_builder : TypeBuilder :=
  {| RawDescriptor := file_sagaflow_inventory_v1_seat_unavailable_proto_rawDesc;
     NumEnums := 0; NumMessages := 1; NumExtensions := 0; NumServices := 0;
     GoTypes := file_sagaflow_inventory_v1_seat_unavailable_proto_goTypes;
     DependencyIndexes := file_sagaflow_inventory_v1_seat_unavailable_proto_depIdxs |}.

(** What [schemactl]'s [os.ReadFile] finds under each binding's path. *)
Definition proto_files : list (string * string) :=
  [("proto/sagaflow/inventory/v1/hold_seat.proto", hold_seat_proto_text);
   ("proto/sagaflow/inventory/v1/release_seat_hold.proto", release_seat_hold_proto_text);
   ("proto/sagaflow/inventory/v1/seat_held.proto", seat_held_proto_text);
   ("proto/sagaflow/inventory/v1/seat_hold_released.proto", seat_hold_released_proto_text);
   ("proto/sagaflow/inventory/v1/seat_hold_expired.proto", seat_hold_expired_proto_text);
   ("proto/sagaflow/inventory/v1/seat_unavailable.proto", seat_unavailable_proto_text)].

(** ** Reading descriptors and proto texts *)
Module Reader.

(** A file's declarations: what a descriptor and a [.proto] text both say.  A field's
    type is a scalar's keyword or a message's full name. *)
Record field_decl := { fd_name : string; fd_number : Z; fd_type : string }.
Record message_decl := { md_name : string; md_fields : list field_decl }.
Record file_decl := {
  fl_package : string; fl_imports : list string; fl_messages : list message_decl;
  fl_syntax : string }.


(** The wire format: a base-128 varint, least significant group first; a record is a
    key (eight times the field number, plus the wire type) and a varint or a
    length-delimited run. *)
Inductive wire := Varint (v : Z) | Delimited (b : list Z).

Fixpoint varint (b : list Z) : option (Z * list Z) :=
  match b with
  | [] => None
  | x :: b =>
      if x <? 128 then Some (x, b)
      else '(v, b) ← varint b; Some (x - 128 + 128 * v, b)
  end.

Fixpoint records (fuel : nat) (b : list Z) : option (list (Z * wire)) :=
  match fuel, b with
  | _, [] => Some []
  | O, _ => None
  | S fuel, _ =>
      '(key, b) ← varint b;
      '(v, b) ← varint b;
      if key mod 8 =? 0 then
        rest ← records fuel b; Some ((key / 8, Varint v) :: rest)
      else if (key mod 8 =? 2) && (Z.to_nat v <=? length b)%nat then
        rest ← records fuel (drop (Z.to_nat v) b);
        Some ((key / 8, Delimited (take (Z.to_nat v) b)) :: rest)
      else None
  end.

(** Every record takes at least its key's byte. *)
Definition read (b : list Z) : option (list (Z * wire)) := records (length b) b.

Definition delimited (n : Z) (rs : list (Z * wire)) : list (list Z) :=
  omap (fun r => match r with
                 | (m, Delimited b) => if m =? n then Some b else None
                 | _ => None end) rs.

Definition varints (n : Z) (rs : list (Z * wire)) : list Z :=
  omap (fun r => match r with
                 | (m, Varint v) => if m =? n then Some v else None
                 | _ => None end) rs.

(** proto3 leaves out an empty string and a zero. *)
Definition str (n : Z) (rs : list (Z * wire)) : string :=
  text_of (default [] (last (delimited n rs))).
Definition int (n : Z) (rs : list (Z * wire)) : Z := default 0 (last (varints n rs)).

(** [descriptor.proto]: [FieldDescriptorProto], with [label] 1 for optional, [type]
    9 for string and 11 for message; [DescriptorProto]; [FileDescriptorProto]. *)
Record field_descriptor := {
  f_name : string; f_number : Z; f_label : Z; f_type : Z; f_type_name : string;
  f_json_name : string }.
Record descriptor := { m_name : string; m_fields : list field_descriptor }.
Record file_descriptor := {
  d_file : string; d_package : string; d_dependencies : list string;
  d_messages : list descriptor; d_syntax : string }.

Definition read_field (b : list Z) : option field_descriptor :=
  rs ← read b;
  Some {| f_name := str 1 rs; f_number := int 3 rs; f_label := int 4 rs;
          f_type := int 5 rs; f_type_name := str 6 rs; f_json_name := str 10 rs |}.

Definition read_message (b : list Z) : option descriptor :=
  rs ← read b;
  fs ← mapM read_field (delimited 2 rs);
  Some {| m_name := str 1 rs; m_fields := fs |}.

Definition read_file (raw : string) : option file_descriptor :=
  rs ← read (codes_of raw);
  ms ← mapM read_message (delimited 4 rs);
  Some {| d_file := str 1 rs; d_package := str 2 rs;
          d_dependencies := map text_of (delimited 3 rs); d_messages := ms;
          d_syntax := str 12 rs |}.

(** A type name in a descriptor is fully qualified: it starts with a dot. *)
Definition field_type (f : field_descriptor) : string :=
  if f_type f =? 9 then "string" else String.substring 1 (String.length (f_type_name f)) (f_type_name f).

Definition decl_of (d : file_descriptor) : file_decl :=
  {| fl_package := d_package d; fl_imports := d_dependencies d;
     fl_messages := map (fun m => {| md_name := m_name m;
       md_fields := map (fun f => {| fd_name := f_name f; fd_number := f_number f;
                                     fd_type := field_type f |}) (m_fields m) |}) (d_messages d);
     fl_syntax := d_syntax d |}.

(** The words of a proto text: comments run to the end of the line, punctuation
    stands alone, quotes are dropped. *)
Definition blank (c : Z) : bool := (c =? 32) || (c =? 10) || (c =? 34).
Definition punctuation (c : Z) : bool := existsb (Z.eqb c) (codes_of ";={}").

Definition word (w : list Z) : list string := match w with [] => [] | _ => [text_of (rev w)] end.

Fixpoint words (comment : bool) (w : list Z) (b : list Z) : list string :=
  match b with
  | [] => word w
  | c :: b =>
      if comment then words (negb (c =? 10)) [] b
      else if (c =? 47) && bool_decide (head b = Some 47) then word w ++ words true [] b
      else if blank c then word w ++ words false [] b
      else if punctuation c then word w ++ text_of [c] :: words false [] b
      else words false (c :: w) b
  end.

Definition digits (s : string) : Z :=
  foldl (fun n c => 10 * n + (c - 48)) 0 (codes_of s).

Fixpoint parse_fields (ws : list string) : option (list field_decl * list string) :=
  match ws with
  | "}"%string :: ws => Some ([], ws)
  | ty :: name :: "="%string :: n :: ";"%string :: ws =>
      '(fs, ws) ← parse_fields ws;
      Some ({| fd_name := name; fd_number := digits n; fd_type := ty |} :: fs, ws)
  | _ => None
  end.

Fixpoint parse_body (fuel : nat) (ws : list string) (f : file_decl) : option file_decl :=
  match fuel, ws with
  | _, [] => Some f
  | S fuel, "import"%string :: i :: ";"%string :: ws =>
      parse_body fuel ws {| fl_package := fl_package f; fl_imports := fl_imports f ++ [i];
                            fl_messages := fl_messages f; fl_syntax := fl_syntax f |}
  | S fuel, "message"%string :: name :: "{"%string :: ws =>
      '(fs, ws) ← parse_fields ws;
      parse_body fuel ws {| fl_package := fl_package f; fl_imports := fl_imports f;
                            fl_messages := fl_messages f ++ [{| md_name := name; md_fields := fs |}];
                            fl_syntax := fl_syntax f |}
  | _, _ => None
  end.

Definition parse_proto (text : string) : option file_decl :=
  match words false [] (codes_of text) with
  | "syntax"%string :: "="%string :: s :: ";"%string :: "package"%string :: p :: ";"%string :: ws =>
      parse_body (length ws) ws
        {| fl_package := p; fl_imports := []; fl_messages := []; fl_syntax := s |}
  | _ => None
  end.

(** [protoc-gen-go]'s naming: a field's Go name is its words capitalised, and its
    tags repeat its descriptor. *)
Definition upper (c : Z) : Z := if (97 <=? c) && (c <=? 122) then c - 32 else c.

Fixpoint camel (up : bool) (b : list Z) : list Z :=
  match b with
  | [] => []
  | c :: b => if c =? 95 then camel true b else (if up then upper c else c) :: camel false b
  end.

Definition GoName (name : string) : string := text_of (camel true (codes_of name)).

Definition go_type (goTypes : list (string * string)) (f : field_descriptor) : option string :=
  if f_type f =? 9 then Some "string"%string
  else (fun e => e.2.1) <$> list_find (fun e => e.2 = field_type f) goTypes.

Definition protobuf_tag (f : field_descriptor) : string :=
  ("bytes," +:+ pretty (f_number f) +:+ ",opt,name=" +:+ f_name f +:+
   (if bool_decide (f_json_name f = f_name f) then "" else ",json=" +:+ f_json_name f) +:+
   ",proto3")%string.

Definition struct_field (goTypes : list (string * string)) (f : field_descriptor) :
  option go_field :=
  ty ← go_type goTypes f;
  Some {| gf_name := GoName (f_name f); gf_type := ty; gf_protobuf := protobuf_tag f;
          gf_json := (f_name f +:+ ",omitempty")%string |}.
End Reader.

(** ** What is bound, and to what *)

(** The generated side of a binding: the struct, and what its [init] builds. *)
Record contract := { ct_struct : list go_field; ct_builder : TypeBuilder }.

Definition contracts : list contract :=
  [{| ct_struct := HoldSeat_struct;
      ct_builder := file_sagaflow_inventory_v1_hold_seat_proto_builder |};
   {| ct_struct := ReleaseSeatHold_struct;
      ct_builder := file_sagaflow_inventory_v1_release_seat_hold_proto_builder |};
   {| ct_struct := SeatHeld_struct;
      ct_builder := file_sagaflow_inventory_v1_seat_held_proto_builder |};
   {| ct_struct := SeatHoldReleased_struct;
      ct_builder := file_sagaflow_inventory_v1_seat_hold_released_proto_builder |};
   {| ct_struct := SeatHoldExpired_struct;
      ct_builder := file_sagaflow_inventory_v1_seat_hold_expired_proto_builder |};
   {| ct_struct := SeatUnavailable_struct;
      ct_builder := file_sagaflow_inventory_v1_seat_unavailable_proto_builder |}].

(** The part of the dependency indexes that resolves the fields' types: the last
    entry is where it starts, the one before it where it ends. *)
Definition field_deps (b : TypeBuilder) : list Z :=
  let idxs := DependencyIndexes b in
  let first := Z.to_nat (default 0 (last idxs)) in
  let next := Z.to_nat (default 0 (idxs !! (length idxs - 2)%nat)) in
  take (next - first) (drop first idxs).

Definition ReadFile_proto (path : string) : res string :=
  match list_find (fun e => e.1 = path) proto_files with
  | Some (_, (_, text)) => Ok text
  | None => Err (ENew ("open " +:+ path +:+ ": no such file or directory")%string)
  end.

Section agreement.
Context `{TS : Timestamppb}.
Import Reader.

(** The field types a message names that are messages themselves, in order. *)
Definition message_types (m : descriptor) : list string :=
  omap (fun f => if f_type f =? 11 then Some (field_type f) else None) (m_fields m).

Record agrees (b : binding) (c : contract) (text : string) (d : file_descriptor)
  (m : descriptor) : Prop := {
  text_read : ReadFile_proto (b_file b) = Ok text;
  descriptor_read : read_file (RawDescriptor (ct_builder c)) = Some d;
  text_declares : parse_proto text = Some (decl_of d);
  path_matches : b_file b = ("proto/" +:+ d_file d)%string;
  first_message : d_messages d = [m];
  name_matches : FullName (b_msg b) = (d_package d +:+ "." +:+ m_name m)%string;
  counts_match :
    (NumEnums (ct_builder c), NumMessages (ct_builder c), NumExtensions (ct_builder c),
     NumServices (ct_builder c)) = (0, Z.of_nat (length (d_messages d)), 0, 0);
  go_type_bound : head (GoTypes (ct_builder c)) = Some (("*" +:+ m_name m)%string, FullName (b_msg b));
  deps_resolve :
    mapM (fun i => snd <$> GoTypes (ct_builder c) !! Z.to_nat i) (field_deps (ct_builder c)) =
    Some (message_types m);
  struct_matches : mapM (struct_field (GoTypes (ct_builder c))) (m_fields m) = Some (ct_struct c);
  numbers_distinct : NoDup (map f_number (m_fields m));
  all_optional : Forall (fun f => f_label f = 1) (m_fields m);
}.

(** One binding against its generated file: the kernel reads both. *)
Ltac compare_file :=
  do 3 eexists; split;
  [vm_compute; reflexivity..
  |apply (bool_decide_unpack _); vm_compute; exact I
  |apply (bool_decide_unpack _); vm_compute; exact I].

(** C36: The schemas and the generated code are of one piece.  For every binding of
    [schemactl], in order: the file it reads exists and parses as proto3; the
    descriptor embedded in the generated Go file reads in the protobuf wire format, is
    of that very path, and declares what the text declares: package, imports, and the
    one message with its fields, numbers and types.  That message has the full name
    the binding's Go value answers, so subjects are named after it, and it is the
    first of its file, so the message index [[0]] that [schema.register] frames under
    is its own.  The builder counts it, its Go type heads [goTypes], its message-typed
    fields resolve through [depIdxs], the struct's fields have the names, types and
    tags [protoc-gen-go] derives from the descriptor, in its order, and field numbers
    are distinct. *)
Theorem schemas_match_generated_code :
  Forall2 (fun b c => exists text d m, agrees b c text d m) bindings contracts.
Proof. repeat constructor; compare_file. Qed.
End agreement.

(** A getter of a nil pointer answers as one of a message just reset. *)
Section nil_getters.
Context `{TS : Timestamppb}.

Lemma getters_nil_as_reset (a : HoldSeat) (b : ReleaseSeatHold) (c : SeatHeld)
  (d : SeatHoldReleased) (e : SeatHoldExpired) (f : SeatUnavailable) :
  (HoldSeat_GetHoldId None, HoldSeat_GetBookingId None, HoldSeat_GetSeatId None,
   HoldSeat_GetExpiresAt None) =
  (let x := Some (HoldSeat_Reset a) in (HoldSeat_GetHoldId x, HoldSeat_GetBookingId x, HoldSeat_GetSeatId x,
   HoldSeat_GetExpiresAt x)) /\
  (ReleaseSeatHold_GetHoldId None, ReleaseSeatHold_GetBookingId None,
   ReleaseSeatHold_GetSeatId None, ReleaseSeatHold_GetReason None) =
  (let x := Some (ReleaseSeatHold_Reset b) in (ReleaseSeatHold_GetHoldId x, ReleaseSeatHold_GetBookingId x,
   ReleaseSeatHold_GetSeatId x, ReleaseSeatHold_GetReason x)) /\
  (SeatHeld_GetHoldId None, SeatHeld_GetBookingId None, SeatHeld_GetSeatId None,
   SeatHeld_GetExpiresAt None) =
  (let x := Some (SeatHeld_Reset c) in (SeatHeld_GetHoldId x, SeatHeld_GetBookingId x, SeatHeld_GetSeatId x,
   SeatHeld_GetExpiresAt x)) /\
  (SeatHoldReleased_GetHoldId None, SeatHoldReleased_GetBookingId None,
   SeatHoldReleased_GetSeatId None, SeatHoldReleased_GetReason None) =
  (let x := Some (SeatHoldReleased_Reset d) in (SeatHoldReleased_GetHoldId x,
   SeatHoldReleased_GetBookingId x, SeatHoldReleased_GetSeatId x,
   SeatHoldReleased_GetReason x)) /\
  (SeatHoldExpired_GetHoldId None, SeatHoldExpired_GetBookingId None,
   SeatHoldExpired_GetSeatId None) =
  (let x := Some (SeatHoldExpired_Reset e) in (SeatHoldExpired_GetHoldId x,
   SeatHoldExpired_GetBookingId x, SeatHoldExpired_GetSeatId x)) /\
  (SeatUnavailable_GetHoldId None, SeatUnavailable_GetBookingId None,
   SeatUnavailable_GetSeatId None, SeatUnavailable_GetReason None) =
  (let x := Some (SeatUnavailable_Reset f) in (SeatUnavailable_GetHoldId x,
   SeatUnavailable_GetBookingId x, SeatUnavailable_GetSeatId x, SeatUnavailable_GetReason x)).
Proof. done. Qed.
End nil_getters.
