(* ===== verification/Announcements.v ===== *)
(** * Announcements: from a commit to the browsing view

    What commands and deadlines have in common once they have committed: the outbox
    ([Outbox]) holds a message that announces what happened, a drain hands it to the
    broker under headers that parse ([Envelope]) and a payload that the events' serde
    decodes ([Schema], [Wire]), and the events' consumer ([Consumers], [Projection]) shows
    it in the view.  [reaches_readers] is that promise; [announcement_reaches] says that
    it holds over connections that work.  [Answers] and [Lapses] use it. *)
From S2P Require Import Prelude Kafka Contracts Envelope Database Timers EventStore Inbox Outbox Codec Seat Store Commands Isolation Projection Consumers Schema Wire.

(** ** Lemmas: rows drawn from the outbox's sequence *)

(** A write that deletes no row of the outbox, and inserts only rows with ids past [seq]. *)
Definition past_seq (seq : Z) (w : write) : Prop :=
  match w with WOutbox r => seq < ob_id r | WDeleteOutbox _ => False | _ => True end.

Definition draws_rows X (q : stmt X) : Prop := forall now sq d,
  let '(_, ws, sq') := q now sq d in
  outbox_seq sq <= outbox_seq sq' /\ Forall (past_seq (outbox_seq sq)) ws.

Definition log_row (w : write) : option Z :=
  match w with WOutbox r => Some (ob_id r) | _ => None end.

Lemma past_seq_mono seq seq' L :
  seq' <= seq -> Forall (past_seq seq) L -> Forall (past_seq seq') L.
Proof. intros Hle HL. eapply Forall_impl; [exact HL|]. intros []; simpl; try done. lia. Qed.

Lemma run_draws o {A} (p : prog A) w s a w' s' :
  each_stmt draws_rows p -> run o p w s = (a, w', s') ->
  outbox_seq (w_seqs w) <= outbox_seq (w_seqs w') /\
  exists L, s_log s' = s_log s ++ L /\ Forall (past_seq (outbox_seq (w_seqs w))) L.
Proof.
  revert w s. induction p as [x|k IH|X q k IH]; intros w s; simpl.
  - intros _ [= _ <- <-]. split; [done|]. exists []. by rewrite app_nil_r.
  - intros Hk Hr. by apply (IH _ _ _ (Hk _)) in Hr.
  - intros [Hq Hk]. destruct (s_aborted s); [intros Hr; by apply (IH _ _ _ (Hk _)) in Hr|].
    destruct (fault o (w_trips w)); [intros Hr; by apply (IH _ _ _ (Hk _)) in Hr|].
    specialize (Hq (s_now s) (w_seqs w) (apply_writes (others o (w_trips w) (s_log s) (w_db w)) (s_log s))).
    destruct (q _ _ _) as [[[x|e] ws] sq]; destruct Hq as [Hle Hws];
      intros Hr; apply (IH _ _ _ (Hk _)) in Hr as (H1 & L & H2 & H3); simpl in *;
      (split; [lia|]).
    + exists (ws ++ L). rewrite H2, app_assoc. split; [done|]. apply Forall_app. split; [done|].
      by eapply past_seq_mono.
    + exists L. split; [done|]. by eapply past_seq_mono.
Qed.

Lemma row_ids_apply seq d L :
  Forall (past_seq seq) L ->
  row_ids (apply_writes d L) = row_ids d ++ omap log_row L /\ Forall (fun i => seq < i) (omap log_row L).
Proof.
  intros H. revert d. induction H as [|w L Hw _ IH]; intros d.
  { simpl. by rewrite app_nil_r. }
  rewrite apply_writes_cons. destruct (IH (apply_write d w)) as [-> Hall].
  destruct w; simpl in *; try done.
  - unfold row_ids. simpl. rewrite fmap_app, <- app_assoc. split; [done|]. by constructor.
  - split; [|done]. f_equal. unfold row_ids. simpl. rewrite <- list_fmap_compose.
    apply list_fmap_ext. intros i r _. apply mark_published_row_id.
Qed.

(** What a committed transaction adds to the outbox. *)
Lemma WithTx_draws o {A} (p : tx A) (w : world) a w' :
  calm o -> (forall n, commit_fate o n = Committed) -> each_stmt draws_rows p ->
  WithTx o p w = (Ok a, w') ->
  exists ids, row_ids (w_db w') = row_ids (w_db w) ++ ids /\
    Forall (fun i => outbox_seq (w_seqs w) < i) ids.
Proof.
  intros [Hf Ho] Hc Hp. unfold WithTx. rewrite Hf.
  destruct (run o p _ _) as [[r w2] s] eqn:Hr. apply run_draws in Hr as Hd; [|done].
  destruct Hd as (_ & L & Hl & HL). simpl in Hl, HL. destruct r as [x|e]; [|done].
  destruct (s_aborted s); [done|]. rewrite Hc. intros [= _ <-]. simpl. rewrite Ho, Hl.
  exists (omap log_row L).
  assert (w_db w2 = w_db w) as ->; [|by apply row_ids_apply].
  apply (run_quiet o) in Hr; [|done]. simpl in Hr. by rewrite Ho in Hr.
Qed.

(** Both kinds of transaction of the service draw rows. *)
Section transactions.
Context `{TS : Timestamppb} `{PG : Postgres} `{PJ : !Protojson} `{EN : !Encoder}.

Lemma draws_no_row X (q : stmt X) :
  writes_only (past_seq 0) X q -> (forall now sq d, outbox_seq (q now sq d).2 = outbox_seq sq) ->
  (forall now sq d r, WOutbox r ∉ (q now sq d).1.2) -> draws_rows X q.
Proof.
  intros Hw Hs Hr now sq d. specialize (Hw now sq d). specialize (Hs now sq d). specialize (Hr now sq d).
  destruct (q now sq d) as [[x ws] sq']. simpl in *. split; [lia|].
  rewrite Forall_forall in Hw. apply Forall_forall. intros w Hin. specialize (Hw w Hin).
  destruct w; try done. by destruct (Hr r).
Qed.

Lemma load_draws id : draws_rows _ (loadSQL id).
Proof. apply draws_no_row; [apply writes_load|done|]. intros now sq d r. simpl. set_solver. Qed.

Lemma decision_draws id : decision_statements draws_rows id.
Proof.
  split_and!.
  - intros v rows. apply draws_no_row; [by apply writes_append|..]; intros now sq d; unfold appendSQL;
      destruct (traverse cast_jsonb 0 rows) as [rows'|]; try done.
    + destruct (insert_events_seqs now id v sq (events d) rows') as [H _].
      by destruct (insert_events _ _ _ _ _ _) as [[rs|] sq'].
    + intros r. destruct (insert_events _ _ _ _ _ _) as [[rs|] sq']; simpl; [|set_solver].
      by intros (? & ? & _)%list_elem_of_fmap.
    + intros r. simpl. set_solver.
  - intros at_ token. apply draws_no_row; [by apply writes_schedule|done|].
    intros now sq d r. simpl. set_solver.
  - intros rows now sq d. unfold enqueueSQL. split; [simpl; lia|]. apply Forall_fmap.
    generalize (outbox_seq sq). clear. induction rows as [|m rows IH]; intros k; constructor; simpl; [lia|].
    eapply Forall_impl; [apply IH|]. simpl. intros r. lia.
  - apply draws_no_row; [by apply writes_notify|done|]. intros now sq d r. simpl. set_solver.
Qed.

Lemma command_draws incoming cmd id : each_stmt draws_rows (apply_command incoming cmd id).
Proof.
  apply each_apply_command; [|apply load_draws|apply decision_draws].
  intros c src e. apply draws_no_row; [by apply writes_mark|..]; intros now sq d;
    unfold Inbox.markSQL; destruct (inbox d !! _); try done; simpl; intros r; set_solver.
Qed.

Lemma deadline_draws t : each_stmt draws_rows (Timers.claim_and_fire Fire t).
Proof.
  apply each_claim_and_fire; [|apply load_draws|apply decision_draws].
  intros i. apply draws_no_row; [by apply writes_markFired|..]; intros now sq d;
    unfold Timers.markFiredSQL; repeat case_match; try done; simpl; intros r; set_solver.
Qed.
End transactions.

(** ** Working connections, and the service they serve *)
Definition database_works (o : oracle) : Prop :=
  calm o /\ (forall n, commit_fate o n = Committed) /\ (forall n, uuid o n <> ""%string).

Definition broker_works (brk : broker) : Prop :=
  (forall n i, locked_rows brk n i = false) /\ (forall n ms, publish brk n ms = Ok tt).

(** The outbox's rows are drawn from its sequence. *)
Definition outbox_keyed (w : world) : Prop :=
  NoDup (row_ids (w_db w)) /\ Forall (fun i => i <= outbox_seq (w_seqs w)) (row_ids (w_db w)).

(** A seat's row of the view, if there is one, shows the seat as it is or as it was. *)
Definition view_behind `{TS : Timestamppb} `{PG : Postgres} (id : string) (st : SeatState) (w : world) : Prop :=
  forall a, availability (w_db w) !! id = Some a ->
    av_version a < st_Version st \/ a = availability_of id st.

(** A row that a transaction has drawn is new. *)
Lemma drawn_row o {A} (p : tx A) (w : world) a w' box :
  database_works o -> outbox_keyed w -> each_stmt draws_rows p -> WithTx o p w = (Ok a, w') ->
  outbox (w_db w') = outbox (w_db w) ++ [box] -> NoDup (row_ids (w_db w')).
Proof.
  intros (Hcalm & Hc & _) [Hnd Hseq] Hp Hrun Hob.
  destruct (WithTx_draws o p w a w' Hcalm Hc Hp Hrun) as (new & E & Hnew).
  rewrite E. apply NoDup_app. unfold row_ids in *. rewrite Hob, fmap_app in E.
  apply app_inv_head in E. rewrite <- E in *. split; [done|]. split; [|apply NoDup_singleton].
  intros i Hi1 Hi2%list_elem_of_singleton. rewrite Forall_forall in Hseq, Hnew.
  specialize (Hseq i Hi1). subst i. specialize (Hnew (ob_id box) ltac:(by left)). lia.
Qed.

Section announcements.
Context `{TS : Timestamppb} `{PG : Postgres} `{PJ : !Protojson} `{PJL : !ProtojsonLaws}.
Context `{PB : !Protobuf} {PBL : ProtobufLaws} `{SR : !Sr} {SRL : SrLaws} `{CO : Compat}.
Context {R : Type} (b : startup R) (current : R -> string -> option Z).
Context {RL : RegistryLaws (registry_client b) current}.

(** ** Lemmas: the serdes of the service *)
Lemma serdes_built registry r commands events r' :
  serdes b registry r = (Ok (commands, events), r') ->
  fst (NewTopicSerde (registry_client b) CommandsTopic command_types r) = Ok commands /\
  exists r1, (forall x, current r1 x = current r x) /\
    fst (NewTopicSerde (registry_client b) EventsTopic event_types r1) = Ok events.
Proof.
  unfold serdes. destruct (because _ _); [|done].
  pose proof (NewTopicSerde_fails_closed (registry_client b) current CommandsTopic command_types r
    ltac:(discriminate)) as H1.
  destruct (NewTopicSerde _ CommandsTopic _ r) as [[c|e] r1]; [|done]. destruct H1 as (Hr1 & _).
  destruct (NewTopicSerde _ EventsTopic _ r1) as [[s|e] r2] eqn:E; [|done].
  intros [= -> -> _]. split; [done|]. exists r1. split; [done|]. by rewrite E.
Qed.

Lemma distinct_ids_same r r1 topic prototypes :
  (forall x, current r1 x = current r x) ->
  distinct_ids current r topic prototypes -> distinct_ids current r1 topic prototypes.
Proof.
  intros Hr [H1 H2]. unfold distinct_ids, resolved in *. split.
  - eapply Forall_impl; [exact H1|]. intros p. simpl. by rewrite Hr.
  - erewrite list_fmap_ext; [exact H2|]. intros i p _. simpl. by rewrite Hr.
Qed.

(** A message of one of a serde's types. *)
Lemma typed_back topic types r s m :
  types <> [] -> fst (NewTopicSerde (registry_client b) topic types r) = Ok s ->
  distinct_ids current r topic types -> New_message m ∈ types ->
  match proto_Marshal m with
  | Ok _ => exists x framed, Schema.Encode s m = Ok (x :: framed) /\ Schema.Decode s (x :: framed) = Ok m
  | Err _ => is_ok (Schema.Encode s m) = false
  end.
Proof.
  intros Hne Hs Hd Hin.
  pose proof (framed_back (registry_client b) current topic types (New_message m) m r s Hne Hs Hd Hin) as H.
  assert (FullName m = FullName (New_message m)) as Hn by by destruct m.
  assert (New_message m = New_message (New_message m)) as Hn2 by by destruct m.
  specialize (H Hn Hn2). destruct (proto_Marshal m) as [p|e].
  - destruct H as (framed & H1 & H2 & ->). eexists _, _. split; [exact H1|exact H2].
  - by destruct H as [x ->].
Qed.

(** What a start of the service has built, its schema ids distinct. *)
Definition service_started (registry : string) (r : R) (commands events_serde : Serde) (r' : R) : Prop :=
  serdes b registry r = (Ok (commands, events_serde), r') /\
  distinct_ids current r CommandsTopic command_types /\
  distinct_ids current r EventsTopic event_types.

Lemma event_back registry r commands events_serde r' m :
  service_started registry r commands events_serde r' -> New_message m ∈ event_types ->
  is_ok (proto_Marshal m) = true ->
  exists x fr, Schema.Encode events_serde m = Ok (x :: fr) /\
    Schema.Decode events_serde (x :: fr) = Ok m.
Proof.
  intros (Hs & _ & Hd) Hin Hmar. apply serdes_built in Hs as (_ & r1 & Hr1 & Hes).
  apply (distinct_ids_same r r1) in Hd; [|done].
  pose proof (typed_back EventsTopic event_types _ _ m ltac:(discriminate) Hes Hd Hin) as H.
  by destruct (proto_Marshal m).
Qed.

Lemma marshalable registry r commands events_serde r' m :
  service_started registry r commands events_serde r' -> New_message m ∈ event_types ->
  is_ok (Schema.Encode events_serde m) = true -> is_ok (proto_Marshal m) = true.
Proof.
  intros (Hs & _ & Hd) Hin Henc. apply serdes_built in Hs as (_ & r1 & Hr1 & Hes).
  apply (distinct_ids_same r r1) in Hd; [|done].
  pose proof (typed_back EventsTopic event_types _ _ m ltac:(discriminate) Hes Hd Hin) as H.
  destruct (proto_Marshal m); [done|]. by rewrite H in Henc.
Qed.

Lemma command_back registry r commands events_serde r' cmd frame :
  service_started registry r commands events_serde r' -> New_message cmd ∈ command_types ->
  Schema.Encode commands cmd = Ok frame -> Schema.Decode commands frame = Ok cmd.
Proof.
  intros (Hs & Hd & _) Hin Hframe. apply serdes_built in Hs as (Hcs & _).
  pose proof (typed_back CommandsTopic command_types _ _ cmd ltac:(discriminate) Hcs Hd Hin) as H.
  destruct (proto_Marshal cmd); [|by rewrite Hframe in H].
  destruct H as (x & fr & H1 & H2). rewrite Hframe in H1. by injection H1 as ->.
Qed.

(** ** The promise

    When the outbox of [w] is drained, the drain ends, and among the messages handed to
    the broker is one for the events' topic, keyed by the seat, whose headers parse to an
    envelope about the seat, of [m]'s type, of the correlation id [corr] with [cause] as
    its cause, and whose payload the events' serde decodes to [m].  And the events'
    consumer, given any record of that message, brings the seat's row of the view to [st]. *)
Definition reaches_readers (o : oracle) (brk : broker) (events_serde : Serde) (w : world)
    (id corr cause : string) (m : message) (st : SeatState) : Prop :=
  forall fuel, (length (claimable (fun _ => false) (w_db w)) < fuel * BatchSize)%nat ->
    exists p' x e,
      drainAll o brk fuel {| p_world := w; p_sent := [] |} = Some p' /\
      x ∈ concat (fst <$> p_sent p') /\ msg_Topic x = EventsTopic /\ msg_Key x = id /\
      Parse (msg_Headers x) = Ok e /\ env_Subject e = id /\ env_Type e = FullName m /\
      env_CorrelationID e = corr /\ env_CausationID e = cause /\
      Schema.Decode events_serde (msg_Payload x) = Ok m /\
      forall kr, Kafka.r_Headers kr = msg_Headers x ->
        exists w2, Projections o kr (p_world p') = (Ok tt, w2) /\
          (st_Version st <> 0 -> availability (w_db w2) !! id = Some (availability_of id st)).

(** ** Lemmas: keeping it *)
Section reaching.
Context (o : oracle) (brk : broker) (events_serde : Serde) (id : string).
Context (msgs : list message) (st : SeatState) (w : world).
Hypothesis db_ok : database_works o.
Hypothesis broker_ok : broker_works brk.
Hypothesis seat_named : id <> ""%string.
Hypothesis seat_loaded : loaded id (w_db w) msgs st.
Hypothesis behind : view_behind id st w.

(** What the announcement says. *)
Lemma announcement_read tmpl m x :
  env_Source tmpl <> ""%string -> FullName m <> ""%string ->
  announces (EN := Schema.Encode events_serde) tmpl m x -> identified o x ->
  msg_Topic x = EventsTopic /\ msg_Key x = env_Subject tmpl /\
  Schema.Encode events_serde m = Ok (msg_Payload x) /\
  exists uid, Parse (msg_Headers x) = Ok (stamped tmpl uid (FullName m)).
Proof.
  intros Hsrc Hty (Ht & Hk & Hpay & uid & Hhd) [n Hident].
  destruct db_ok as (_ & _ & Hids). split; [done|]. split; [done|]. split; [done|].
  exists uid. rewrite Hhd. apply parsed_back. rewrite Hhd in Hident.
  destruct (Headers_read (stamped tmpl uid (TypeName m))) as (_ & _ & Hread & _).
  rewrite Hread in Hident. simpl in Hident. unfold addressed. simpl.
  rewrite !bool_decide_eq_true_2; [done|done|done|by rewrite Hident].
Qed.

(** A projection brings the seat's row to the state that is there. *)
Lemma projected d1 msgs' st' (w1 : world) :
  loaded id d1 (msgs ++ msgs') st' -> events (w_db w1) = events d1 ->
  availability (w_db w1) = availability (w_db w) ->
  exists w2, Project o id w1 = (Ok tt, w2) /\
    (st_Version st' <> 0 -> availability (w_db w2) !! id = Some (availability_of id st')).
Proof.
  intros Hl He Ha. destruct db_ok as (Hcalm & Hc & _).
  assert (loaded id (w_db w1) (msgs ++ msgs') st') as Hl1 by by eapply loaded_events.
  destruct (WithTx_does o _ Hcalm (project id) w1 _ Hc eq_refl
    (does_project o _ id _ st' _ Hcalm Hl1)) as ([] & L & w2 & E & (_ & Hrow & _) & Hw).
  exists w2. split; [exact E|]. intros Hv. rewrite Hw, Hrow, Ha. unfold rederived.
  rewrite (proj2 (Z.eqb_neq _ _) Hv).
  destruct Hl as (H1 & Hf & _ & Hv1). destruct seat_loaded as (H0 & Hf0 & _ & Hv0).
  destruct (availability (w_db w) !! id) as [a|] eqn:Hav; [|done].
  destruct (decide (msgs' = [])) as [->|Hm].
  - rewrite app_nil_r in Hf. assert (st' = st) as -> by congruence.
    destruct (behind a Hav) as [Hlt| ->].
    + by rewrite (proj2 (Z.ltb_lt _ _) Hlt).
    + by destruct (_ <? _).
  - assert (st_Version st < st_Version st') as Hlt.
    { rewrite Hv0, Hv1, <- (holds_history_length _ _ _ H0), <- (holds_history_length _ _ _ H1), length_app.
      destruct msgs'; [done|simpl; lia]. }
    rewrite (proj2 (Z.ltb_lt _ _)); [done|]. destruct (behind a Hav) as [Hlt'| ->]; [lia|done].
Qed.

Lemma announcement_reaches (tmpl : Envelope) m msgs' st' w' box :
  env_Source tmpl <> ""%string -> env_Subject tmpl = id -> FullName m <> ""%string ->
  (exists x fr, Schema.Encode events_serde m = Ok (x :: fr) /\
     Schema.Decode events_serde (x :: fr) = Ok m) ->
  box ∈ outbox (w_db w') -> unpublished box = true -> NoDup (row_ids (w_db w')) ->
  announces (EN := Schema.Encode events_serde) tmpl m (row_message box) ->
  identified o (row_message box) ->
  loaded id (w_db w') (msgs ++ msgs') st' -> availability (w_db w') = availability (w_db w) ->
  reaches_readers o brk events_serde w' id (env_CorrelationID tmpl) (env_CausationID tmpl) m st'.
Proof.
  intros Hsrc Hsub Hty (x0 & fr & Henc & Hdec) Hbox Hunp Hnd Hann Hident Hld Hav fuel Hfuel.
  destruct broker_ok as [Hl Hp]. destruct db_ok as (Hcalm & Hc & _).
  destruct (drainAll_quiet o brk {| p_world := w'; p_sent := [] |} fuel)
    as (p' & Hdr & _ & Hsent & Hev & Hav'); [apply Hcalm|done|apply Hcalm|done..|]. simpl in Hsent, Hev, Hav'.
  destruct (announcement_read tmpl m (row_message box) Hsrc Hty Hann Hident) as (Ht & Hk & Hpay & uid & Hpa).
  exists p', (row_message box), (stamped tmpl uid (FullName m)). split; [done|]. split.
  { rewrite Hsent. by apply list_elem_of_fmap_2, elem_of_claimable. }
  rewrite Henc in Hpay. injection Hpay as Hpay. rewrite Hsub in Hk.
  split_and!; try done; [simpl; by rewrite <- Hpay|]. intros kr Hkr.
  unfold Projections. rewrite Hkr, Hpa. simpl. rewrite Hsub, bool_decide_eq_false_2 by done.
  apply (projected (w_db w') msgs'); [done|done|congruence].
Qed.
End reaching.
End announcements.

(** ** A service to evaluate: its serdes, built on the registry that schemactl has filled *)
Module Samples.
Import UnixTimestamps PlainPostgres NumberedJson ListSerde Store.Samples Wire.Samples.
Definition no_serde : Serde := {| sd_inner := sr_NewSerde; sd_topic := "" |}.
Definition built : res (Serde * Serde) * registry := serdes all_well "" after_run.
Definition commands : Serde := match fst built with Ok (c, _) => c | Err _ => no_serde end.
Definition events_serde : Serde := match fst built with Ok (_, e) => e | Err _ => no_serde end.
Definition calm_oracle : oracle := quiet 5000 (fun _ => "id").
Definition takes_all : broker := {| publish := fun _ _ => Ok tt; locked_rows := fun _ _ => false |}.

Lemma distinct_types topic types :
  (topic = CommandsTopic /\ types = command_types) \/ (topic = EventsTopic /\ types = Wire.event_types) ->
  distinct_ids current after_run topic types.
Proof.
  intros [[-> ->]|[-> ->]]; (split; [repeat constructor; vm_compute; congruence|]);
    apply (bool_decide_unpack _); vm_compute; exact I.
Qed.

Lemma sample_started : service_started all_well current "" after_run commands events_serde (snd built).
Proof.
  split; [|split; apply distinct_types; [by left|by right]].
  assert (is_ok (fst built) = true) as H by (vm_compute; reflexivity).
  unfold commands, events_serde. fold built. by destruct built as [[[c e]|x] r].
Qed.

Lemma sample_connections : database_works calm_oracle /\ broker_works takes_all.
Proof. by split. Qed.

(** A record of a message, as a consumer of the events' topic gets it. *)
Definition event_record (x : Message) : Kafka.Record_ :=
  {| Kafka.r_Topic := EventsTopic; Kafka.r_Key := msg_Key x; Kafka.r_Value := [];
     Kafka.r_Headers := msg_Headers x; Kafka.r_Partition := 0; Kafka.r_Offset := 0 |}.
End Samples.
