(* ===== verification/Answers.v ===== *)
(** * Answers: from a command's record to the broker and the view

    The composition of the consumer ([Consumers]), the command handler ([Commands]) and
    what follows a commit ([Announcements]): a command that reaches the service over
    connections that work is answered, by a message that its sender can read and match to
    its command, and that brings the view up to date. *)
From S2P Require Import Prelude Kafka Contracts Envelope Database Timers EventStore Inbox Outbox Codec Seat Store Commands Isolation Projection Consumers Schema Wire Announcements.

Section answers.
Context `{TS : Timestamppb} `{PG : Postgres} `{PJ : !Protojson} `{PJL : !ProtojsonLaws}.
Context `{PB : !Protobuf} {PBL : ProtobufLaws} `{SR : !Sr} {SRL : SrLaws} `{CO : Compat}.
Context {R : Type} (b : startup R) (current : R -> string -> option Z).
Context {RL : RegistryLaws (registry_client b) current}.

Lemma command_typed cmd id : SeatID cmd = Ok id -> New_message cmd ∈ command_types.
Proof. unfold command_types. destruct cmd; simpl; try done; intros _; set_solver. Qed.

Lemma answer_typed cmd m : answers cmd m -> New_message m ∈ event_types.
Proof. unfold event_types. destruct cmd, m; simpl; try done; intros _; set_solver. Qed.

(** ** A command, and the service it reaches

    A hold or a release, framed by a serde of the commands' topic as the service builds it,
    with the headers of an envelope, delivered for the first time; and connections to the
    database and the broker that work. *)
Section command.
Context (o : oracle) (brk : broker) (registry : string) (r r' : R) (commands events_serde : Serde).
Context (incoming : Envelope) (cmd : message) (id : string) (frame : bytes) (kr : Kafka.Record_).
Context (msgs : list message) (st : SeatState) (out : Outcome) (w : world).
Hypothesis db_ok : database_works o.
Hypothesis broker_ok : broker_works brk.
Hypothesis started : service_started b current registry r commands events_serde r'.
Hypothesis command_sent : addressed incoming = true /\ SeatID cmd = Ok id /\ id <> ""%string /\
  Schema.Encode commands cmd = Ok frame /\
  Kafka.r_Headers kr = Headers incoming /\ Kafka.r_Value kr = frame.
Hypothesis not_delivered : inbox (w_db w) !! (Consumer, env_Source incoming, env_ID incoming) = None.
Hypothesis keyed : outbox_keyed w.
Hypothesis decision_made : loaded id (w_db w) msgs st /\ Decide st cmd = Ok out /\
  forallb storable (out_Events out) = true /\
  forallb (fun m => is_ok (proto_Marshal m)) (Messages out) = true /\
  Z.of_nat (length msgs) + Z.of_nat (length (out_Events out)) < 2 ^ 31.
Hypothesis behind : view_behind id st w.

(** What the handler commits. *)
Lemma command_handled m :
  Messages out = [m] -> answers cmd m ->
  exists w' box st',
    Consumers.Commands (EN := Schema.Encode events_serde) (DE := Schema.Decode commands) o kr w = (Ok tt, w') /\
    box ∈ outbox (w_db w') /\ unpublished box = true /\ NoDup (row_ids (w_db w')) /\
    announces (EN := Schema.Encode events_serde) (command_template incoming id) m (row_message box) /\
    identified o (row_message box) /\
    loaded id (w_db w') (msgs ++ out_Events out) st' /\
    availability (w_db w') = availability (w_db w).
Proof.
  intros Hm Hans. destruct db_ok as (Hcalm & Hc & Hids).
  destruct decision_made as (Hld & Hdec & Hst & Hmar & Hlen). rewrite Hm in Hmar. simpl in Hmar.
  rewrite andb_true_r in Hmar.
  destruct (event_back b current _ _ _ _ _ m started (answer_typed cmd m Hans) Hmar) as (x0 & fr & Henc & _).
  destruct command_sent as (Hadd & Hid & Hne & Hframe & Hh & Hv).
  assert (Schema.Decode commands (Kafka.r_Value kr) = Ok cmd) as Hback.
  { rewrite Hv. exact (command_back b current _ _ _ _ _ cmd frame started (command_typed cmd id Hid) Hframe). }
  destruct (first_delivery (EN := Schema.Encode events_serde) o incoming cmd id msgs st out w)
    as (w' & evs & tms & obs & at_ & Hrun & _ & Hev & Hevs & _ & _ & Hob & Hunp & Hannounce & Hident & Hvers & Hav);
    try done.
  { unfold deliverable. revert Hadd. unfold addressed. rewrite !andb_true_iff. tauto. }
  { rewrite Hm. simpl. unfold framable, Encoder_Encode. by rewrite Henc. }
  rewrite Hm in Hannounce.
  apply Forall2_cons_inv_l in Hannounce as (x & ? & Hx & Hnil%Forall2_nil_inv_l & Hobs). subst.
  destruct obs as [|box [|]]; try done. injection Hobs as <-.
  apply Forall_cons in Hunp as [Hunp _]. apply Forall_cons in Hident as [Hident _].
  destruct (decision_loaded id msgs st (Command cmd) out (command_meta incoming) evs (w_db w) (w_db w')) as [st' Hld'];
    [done..|]. exists w', box, st'. split_and!; try done.
  - unfold Consumers.Commands, Decoder_Decode. rewrite Hh, parsed_back, Hback by done.
    unfold Handle, ConflictRetries. cbn [Nat.add attempts]. by rewrite Hrun.
  - rewrite Hob. apply elem_of_app. right. by left.
  - eapply (drawn_row o (apply_command (EN := Schema.Encode events_serde) incoming cmd id));
      [done|exact keyed|apply command_draws| |exact Hob].
    unfold applyInOneTransaction in Hrun. by rewrite Hid in Hrun.
Qed.

(** ** Property *)

(** C5: a command is answered, and the view shows what became of it.  The handler succeeds,
    and the one answer to the very command, as the decision gives it, reaches its readers:
    a drain of the outbox ends and hands it to the broker, on the events' topic, keyed by
    the seat, under the command's correlation id and with the command as its cause; the
    events' serde decodes it; and the events' consumer, given any record of it, brings the
    seat's row of the view to the state that the decision left. *)
Theorem commands_are_answered :
  exists w' m st',
    Consumers.Commands (EN := Schema.Encode events_serde) (DE := Schema.Decode commands) o kr w = (Ok tt, w') /\
    Messages out = [m] /\ answers cmd m /\ Fold (msgs ++ out_Events out) = Ok st' /\
    reaches_readers o brk events_serde w' id (env_CorrelationID incoming) (env_ID incoming) m st'.
Proof.
  destruct decision_made as (Hld & Hdec & _ & Hmar & _).
  destruct (decided_answer st cmd out Hdec) as (m & Hm & Hans). rewrite Hm in Hmar. simpl in Hmar.
  rewrite andb_true_r in Hmar.
  destruct (command_handled m Hm Hans) as (w' & box & st' & Hrun & Hbox & Hunp & Hnd & Hann & Hident & Hld' & Hav).
  exists w', m, st'. split; [done|]. split; [done|]. split; [done|]. split; [apply Hld'|].
  apply (announcement_reaches o brk events_serde id msgs st w db_ok broker_ok (proj1 (proj2 (proj2 command_sent)))
    Hld behind (command_template incoming id) m (out_Events out) st' w' box); try done.
  - by destruct cmd, m.
  - by apply (event_back b current registry r commands events_serde r'); [|by eapply answer_typed|].
Qed.
End command.
End answers.

(** ** Witness *)
Module Samples.
Import UnixTimestamps PlainPostgres NumberedJson ListSerde Store.Samples Wire.Samples Announcements.Samples.

(** The record of a hold command. *)
Definition frame : bytes := match Schema.Encode commands hold with Ok b => b | Err _ => [] end.
Definition from_saga : Envelope :=
  {| env_ID := "cmd-1"; env_Source := "/saga"; env_Type := HoldSeat_FullName; env_Subject := seat;
     env_CorrelationID := "saga-1"; env_CausationID := ""; env_TraceParent := "" |}.
Definition sent : Kafka.Record_ :=
  {| Kafka.r_Topic := CommandsTopic; Kafka.r_Key := seat; Kafka.r_Value := frame;
     Kafka.r_Headers := Headers from_saga; Kafka.r_Partition := 0; Kafka.r_Offset := 0 |}.
End Samples.

Import UnixTimestamps PlainPostgres NumberedJson ListSerde Store.Samples Wire.Samples Announcements.Samples Samples.

Lemma commands_are_answered_witness :
  exists w' p' x m w2, fst (Consumers.Commands (EN := Schema.Encode events_serde)
      (DE := Schema.Decode commands) calm_oracle sent (world_of empty_db)) = Ok tt /\
    drainAll calm_oracle takes_all 1 {| p_world := w'; p_sent := [] |} = Some p' /\
    x ∈ concat (fst <$> p_sent p') /\ msg_Key x = seat /\
    Schema.Decode events_serde (msg_Payload x) = Ok m /\ answers hold m /\
    Projections calm_oracle (event_record x) (p_world p') = (Ok tt, w2) /\
    availability (w_db w2) !! seat = Some (availability_of seat taken).
Proof.
  destruct (commands_are_answered all_well current calm_oracle takes_all "" after_run (snd built) commands
    events_serde from_saga hold seat frame sent [] zero_state decision (world_of empty_db))
    as (w' & m & st' & E & _ & H5 & H6 & H).
  - exact (proj1 sample_connections).
  - exact (proj2 sample_connections).
  - exact sample_started.
  - split_and!; [reflexivity|reflexivity|done|vm_compute; reflexivity|reflexivity|reflexivity].
  - reflexivity.
  - split; constructor.
  - split; [exact loaded_empty|]. split; [reflexivity|].
    split; [vm_compute; reflexivity|]. split; [vm_compute; reflexivity|]. vm_compute. reflexivity.
  - done.
  - destruct (H 1%nat) as (p' & x & e & H1 & H2 & _ & H3 & _ & _ & _ & _ & _ & H4 & H7).
    { assert (w' = snd (Consumers.Commands (EN := Schema.Encode events_serde)
          (DE := Schema.Decode commands) calm_oracle sent (world_of empty_db))) as -> by by rewrite E.
      apply Nat.ltb_lt. vm_compute. reflexivity. }
    assert (st' = taken) as -> by (vm_compute in H6; injection H6 as <-; vm_compute; reflexivity).
    destruct (H7 (event_record x) eq_refl) as (w2 & H8 & H9).
    exists w', p', x, m, w2. rewrite E. split; [reflexivity|]. split; [exact H1|]. split; [exact H2|].
    split; [exact H3|]. split; [exact H4|]. split; [exact H5|]. split; [exact H8|].
    apply H9. vm_compute. discriminate.
Defined.
