(* ===== verification/Lapses.v ===== *)
(** * Lapses: from a hold's deadline to the broker and the view

    The composition of the scheduler's firing ([Timers], [Commands]) with what follows a
    commit ([Announcements]), in the reachable states of [Sessions]: the deadline of any
    hold that stands is scheduled, and when it is fired over connections that work the
    hold ends, its saga is told, and the seat is shown as free. *)
From S2P Require Import Prelude Kafka Contracts Envelope Database Timers EventStore Inbox Outbox Codec Seat Store Commands Isolation Projection Consumers Sessions Deadlines Views Overdue Schema Wire Announcements.

(** ** Lemmas: a hold that lapses *)
Section lapse.
Context `{TS : Timestamppb}.

(** The announcement that the live hold of a seat has expired. *)
Definition lapse_of (seat : string) (s : SeatState) : message :=
  MSeatHoldExpired
    {| SeatHoldExpired_HoldId := st_HoldID s; SeatHoldExpired_BookingId := st_BookingID s;
       SeatHoldExpired_SeatId := seat |}.

Definition lapsed (seat : string) (s : SeatState) : Outcome :=
  {| out_Events := [lapse_of seat s]; out_Replies := []; out_Timers := [] |}.

Lemma Expire_live seat s :
  st_Status s = StatusHeld -> Expire s seat (st_HoldID s) = lapsed seat s.
Proof. intros Hs. unfold Expire. rewrite Hs. by rewrite !bool_decide_eq_false_2 by tauto. Qed.

Lemma Fold_lapse msgs s seat s0 :
  Fold msgs = Ok s -> Fold (msgs ++ [lapse_of seat s0]) = Ok (freed_state s).
Proof. intros Hf. unfold Fold. by rewrite (fold_from_app 0 zero_state msgs _ s Hf). Qed.
End lapse.

Section lapses.
Context `{TS : Timestamppb} `{PG : Postgres} `{PJ : !Protojson} `{PJL : !ProtojsonLaws}.

(** In a reachable state the view shows every seat as it is or as it was. *)
Lemma reachable_behind `{EN : !Encoder} (m : machine) (w : world) seat msgs s :
  reachable m -> w_db w = mc_db m -> loaded seat (mc_db m) msgs s -> view_behind seat s w.
Proof.
  intros [_ Hview]%reachable_truthful Hw Hl a Ha. rewrite Hw in Ha.
  destruct (Hview seat a Ha) as [<- (past & later & st & Hh & _ & Hf & -> & Hv)].
  destruct Hl as (Hh' & Hf' & _ & Hvs). simpl in *.
  assert (past ++ later = msgs) as E.
  { destruct Hh as (_ & H1 & _), Hh' as (_ & H2 & _). exact (decoded_unique _ _ _ H2 H1). }
  destruct later as [|x later]; [right|left].
  - rewrite app_nil_r in E. congruence.
  - rewrite Hv, Hvs, <- (holds_history_length _ _ _ Hh'), <- E, length_app. simpl. lia.
Qed.

Context `{PB : !Protobuf} {PBL : ProtobufLaws} `{SR : !Sr} {SRL : SrLaws} `{CO : Compat}.
Context {R : Type} (b : startup R) (current : R -> string -> option Z).
Context {RL : RegistryLaws (registry_client b) current}.

(** ** A hold that stands, in a reachable state, and the service it is held with *)
Section hold.
Context (o : oracle) (brk : broker) (registry : string) (r r' : R) (commands events_serde : Serde).
#[local] Instance service_encoder : Encoder := Schema.Encode events_serde.
Context (m : machine) (seat : string) (w : world).
Hypothesis db_ok : database_works o.
Hypothesis broker_ok : broker_works brk.
Hypothesis started : service_started b current registry r commands events_serde r'.
Hypothesis state_reached : reachable m /\ w_db w = mc_db m.
Hypothesis keyed : outbox_keyed w.
Hypothesis hold_stands : st_Status (state_of seat (mc_db m)) = StatusHeld.
Hypothesis can_expire : expirable seat (state_of seat (mc_db m)) = true.

(** What is in the database once its timer has fired. *)
Lemma lapse_fired t msgs :
  let s := state_of seat (mc_db m) in
  let origin := last_meta (recorded seat (mc_db m)) in
  t ∈ timers (mc_db m) -> Timers.scheduled_as (st_ExpiresAt s) seat (st_HoldID s) t ->
  loaded seat (mc_db m) msgs s ->
  exists w' box,
    Timers.fireOne o Fire (Timers.scan_timer t) w = (Ok true, w') /\
    box ∈ outbox (w_db w') /\ unpublished box = true /\ NoDup (row_ids (w_db w')) /\
    announces (expiry_template seat origin) (lapse_of seat s) (row_message box) /\
    identified o (row_message box) /\
    loaded seat (w_db w') (msgs ++ [lapse_of seat s]) (freed_state s) /\
    availability (w_db w') = availability (w_db w).
Proof.
  intros s origin Ht (_ & Hsub & Htok & Hp) Hl. destruct db_ok as (Hcalm & Hc & _), state_reached as [Hm Hw].
  destruct (reachable_sound m Hm) as [(_ & _ & Hnd) _]. pose proof Hl as (Hh & Hf & _ & Hv).
  destruct (expirable_expiry seat (st_HoldID s) s (fun _ _ => can_expire)) as [Hn|(Hne & Hst & Hfr & Hlen)];
    [by rewrite Expire_live in Hn|]. rewrite Hv, <- (holds_history_length _ _ _ Hh) in Hlen.
  rewrite <- Hw in Ht, Hl, Hnd. set (ti := Timers.scan_timer t).
  assert (Timers.t_Subject ti = seat) as Hs1 by exact Hsub.
  assert (Timers.t_Token ti = st_HoldID s) as Hs2 by exact Htok.
  destruct (expiry_fired o ti msgs s w) as (w' & evs & obs & at_ & Hrun & _ & _ & Hev & Hevs & Hob & Hunp & Hann & Hident & Hvers & Hav);
    rewrite ?Hs1, ?Hs2; try done.
  { apply Timers.is_pending_true. by exists t. }
  rewrite ?Hs1, ?Hs2, ?Expire_live in * by done. rewrite Hw in Hann. fold origin in Hann. simpl in *.
  apply Forall2_cons_inv_l in Hann as (x & ? & Hx & Hnil%Forall2_nil_inv_l & Hobs). subst.
  destruct obs as [|box [|]]; try done. injection Hobs as <-.
  apply Forall_cons in Hunp as [Hunp _]. apply Forall_cons in Hident as [Hident _].
  exists w', box. split_and!; try done.
  - rewrite Hob. apply elem_of_app. right. by left.
  - by eapply (drawn_row o (Timers.claim_and_fire Fire ti)); [exact db_ok|exact keyed|apply deadline_draws|..].
  - destruct (decision_loaded (tm_subject t) msgs s (Deadline (tm_subject t) (st_HoldID s))
      (lapsed (tm_subject t) s)
      (expiry_meta (last_meta (recorded (tm_subject t) (w_db w)))) evs (w_db w) (w_db w'))
      as [st' Hl']; [done|done|by simpl; rewrite Expire_live|done..|].
    assert (st' = freed_state s) as <-; [|done]. destruct Hl' as (_ & Hf' & _).
    cbn [out_Events lapsed] in Hf'. rewrite (Fold_lapse msgs s) in Hf' by done. by injection Hf'.
Qed.

(** ** Property *)

(** C6: a hold that lapses is announced, and its seat is shown as free.  In every reachable
    state, a seat that is held has a pending timer that is due at its deadline; and
    firing it, over connections that work, is the end of that hold: the seat is free, one
    version on, and the expiry of that very hold reaches its readers, on the events' topic,
    keyed by the seat and under the correlation id recorded with the stream's last event,
    the hold itself; and the events' consumer, given any record of it, brings the seat's row of the view to
    free. *)
Theorem lapsed_holds_are_announced :
  let s := state_of seat (mc_db m) in
  let origin := last_meta (recorded seat (mc_db m)) in
  exists t w', t ∈ timers (mc_db m) /\ Timers.scheduled_as (st_ExpiresAt s) seat (st_HoldID s) t /\
    Timers.fireOne o Fire (Timers.scan_timer t) w = (Ok true, w') /\
    state_of seat (w_db w') = freed_state s /\
    reaches_readers o brk events_serde w' seat (CorrelationID origin) "" (lapse_of seat s) (freed_state s).
Proof.
  intros s origin. destruct state_reached as [Hm Hw].
  destruct (reachable_sound m Hm) as [(Hcons & Htimed & _) _].
  destruct (state_of_loaded seat (mc_db m) Hcons) as [msgs Hl].
  destruct (Htimed seat hold_stands) as (t & (Hin & Hsub & Htok)%last_timer_elem & Hp & Hat).
  destruct (lapse_fired t msgs) as (w' & box & Hrun & Hbox & Hunp & Hnd & Hann & Hident & Hl' & Hav); [done..|].
  pose proof can_expire as Hex. unfold expirable in Hex. rewrite Expire_live in Hex by done.
  rewrite !andb_true_iff, negb_true_iff, bool_decide_eq_false in Hex. destruct Hex as [[[Hne _] _] [Hfr _]%andb_true_iff].
  exists t, w'. split; [done|]. split; [done|]. split; [done|]. split.
  { destruct Hl' as (Hh' & Hf' & _). apply state_of_fold in Hh'. rewrite Hh' in Hf'. by injection Hf'. }
  assert (loaded seat (w_db w) msgs s) as Hlw by by rewrite Hw.
  apply (announcement_reaches o brk events_serde seat msgs s w db_ok broker_ok Hne Hlw
    (reachable_behind m w seat msgs s Hm Hw Hl) (expiry_template seat origin) _ [lapse_of seat s] _ w' box); try done.
  apply (event_back b current registry r commands events_serde r'); [done|unfold event_types; simpl; set_solver|].
  apply (marshalable b current registry r commands events_serde r'); [done|unfold event_types; simpl; set_solver|].
  unfold framable, service_encoder, Encoder_Encode in Hfr. by destruct (Schema.Encode _ _).
Qed.
End hold.
End lapses.

(** ** Witness *)
Module Samples.
Import UnixTimestamps PlainPostgres NumberedJson ListSerde Store.Samples Commands.Samples Deadlines.Samples Wire.Samples Announcements.Samples.
#[export] Instance framed : Encoder := Schema.Encode events_serde.

(** A process alone has handled one hold command; a scheduler wakes after the deadline. *)
Definition standing : machine :=
  after 5000 "id" empty_db (transaction (apply_command (EN := framed) incoming hold seat)) no_rows [].
Definition found : world := {| w_db := mc_db standing; w_seqs := mc_seqs standing; w_trips := 0; w_ids := 0 |}.
Definition scheduled : timer_row := default timer (head (timers (mc_db standing))).
Lemma only_timer : timers (mc_db standing) = [scheduled].
Proof. vm_compute. reflexivity. Qed.
Lemma standing_reachable : reachable (EN := framed) standing.
Proof.
  apply (after_reachable (EN := framed) _ _ _ _ (OfCommand incoming hold seat)); [by apply begins_command|].
  apply rtc_refl.
Qed.
End Samples.

Import UnixTimestamps PlainPostgres NumberedJson ListSerde Store.Samples Wire.Samples Announcements.Samples Samples.

Lemma lapsed_holds_are_announced_witness :
  exists t w' p' x w2, t ∈ timers (mc_db standing) /\
    Timers.fireOne calm_oracle (Fire (EN := framed)) (Timers.scan_timer t) found = (Ok true, w') /\
    drainAll calm_oracle takes_all 2 {| p_world := w'; p_sent := [] |} = Some p' /\
    x ∈ concat (fst <$> p_sent p') /\ msg_Key x = seat /\
    Schema.Decode events_serde (msg_Payload x) = Ok (lapse_of seat taken) /\
    Projections calm_oracle (event_record x) (p_world p') = (Ok tt, w2) /\
    availability (w_db w2) !! seat = Some (availability_of seat (freed_state taken)).
Proof.
  assert (state_of seat (mc_db standing) = taken) as Es by (vm_compute; reflexivity).
  destruct (lapsed_holds_are_announced all_well current calm_oracle takes_all "" after_run (snd built) commands
    events_serde standing seat found) as (t & w' & Ht & Hs & Hrun & Hfree & H).
  - exact (proj1 sample_connections).
  - exact (proj2 sample_connections).
  - exact sample_started.
  - split; [exact standing_reachable|reflexivity].
  - split; apply (bool_decide_unpack _); vm_compute; exact I.
  - rewrite Es. reflexivity.
  - rewrite Es. vm_compute. reflexivity.
  - rewrite only_timer in Ht. apply list_elem_of_singleton in Ht as ->. rewrite Es in H.
    destruct (H 2%nat) as (p' & x & e & H1 & H2 & _ & H3 & _ & _ & _ & _ & _ & H4 & H7).
    { assert (w' = snd (Timers.fireOne calm_oracle (Fire (EN := framed)) (Timers.scan_timer scheduled) found)) as ->
        by exact (eq_sym (f_equal snd Hrun)).
      apply Nat.ltb_lt. vm_compute. reflexivity. }
    destruct (H7 (event_record x) eq_refl) as (w2 & H8 & H9).
    exists scheduled, w', p', x, w2. split; [rewrite only_timer; by left|]. split; [exact Hrun|].
    split; [exact H1|]. split; [exact H2|]. split; [exact H3|]. split; [exact H4|]. split; [exact H8|].
    apply H9. vm_compute. discriminate.
Defined.
