(* ===== verification/TestDatabases.v ===== *)
(** * TestDatabases ([internal/testsupport/pgtest/pgtest.go]: the databases of the tests)

    On the Postgres server that [Pgtest.Start] shares, [DSN] creates a database for the
    calling test and [Migrated] also migrates it and opens a pool.  What a test creates is
    undone by its cleanups, last in first out.  The server is its databases with what can
    fail of a connection and of its two statements; a suite is a sequence of tests whose
    calls, writes and cleanups are its steps.  Theorems: a test never sees what an earlier
    run of it, or of another test, left in a database of its name; no pool outlives the
    name of its database; and between tests nothing is left.

    [NetURL] stands for [net/url]. *)
From Stdlib Require Import Ascii.
From S2P Require Import Prelude Kafka Contracts Envelope Database Timers EventStore Inbox Outbox Codec Seat Store Schema Commands Projection Consumers Wire TestContainers.
Import Pgtest.

(** ** [replaceDBName] *)

(** [*url.URL]: its [Path] and the rest. *)
Class NetURL := {
  url_rest : Type;
  url_Parse : string -> res (string * url_rest);
  url_String : string * url_rest -> string;
  url_absolute : url_rest -> Prop;
  (** A URL with a scheme and a host, and a path from the root, is parsed back. *)
  url_roundtrip path rest :
    url_absolute rest -> url_Parse (url_String (("/" +:+ path)%string, rest)) = Ok (("/" +:+ path)%string, rest);
}.

Section databases.
Context `{NU : NetURL} `{CO : Compat} {R : Type} (b : startup R).
Context {content : Type} (empty : content).

Definition replaceDBName (dsn dbName : string) : res string :=
  match url_Parse dsn with
  | Err e => Err (EWrap ("parse dsn: " +:+ Error e)%string e)
  | Ok (_, rest) => Ok (url_String (("/" +:+ dbName)%string, rest))
  end.

(** ** The server, and what of it can fail: a connection, a drop, a create *)
Record server := {
  databases : gmap string content;
  connections : nat;
  calls : nat;
}.

Record failures := {
  connect_fails : nat -> option err;
  drop_fails : nat -> option err;
  create_fails : nat -> option err;
}.

Context (f : failures).

Definition called (s : server) : server :=
  {| databases := databases s; connections := connections s; calls := S (calls s) |}.
Definition connected (n : nat) (s : server) : server :=
  {| databases := databases s; connections := n; calls := calls s |}.
Definition with_databases (ds : gmap string content) (s : server) : server :=
  {| databases := ds; connections := connections s; calls := calls s |}.

(** [DROP DATABASE IF EXISTS ... WITH (FORCE)] and [CREATE DATABASE]; quoting an
    identifier gives the name back. *)
Definition drop_database (dbName : string) (s : server) : option err * server :=
  match drop_fails f (calls s) with
  | Some e => (Some e, called s)
  | None => (None, called (with_databases (delete dbName (databases s)) s))
  end.

Definition create_database (dbName : string) (s : server) : option err * server :=
  match create_fails f (calls s) with
  | Some e => (Some e, called s)
  | None =>
      match databases s !! dbName with
      | Some _ =>
          (Some (EPg "42P04" ("database " +:+ dquote +:+ dbName +:+ dquote +:+ " already exists")%string),
           called s)
      | None => (None, called (with_databases (<[dbName := empty]> (databases s)) s))
      end
  end.

(** [recreate]; the connection is closed however it ends. *)
Definition recreate (dbName : string) (s : server) : verdict unit * server :=
  match connect_fails f (calls s) with
  | Some e => (Fatal ("connect admin: " +:+ Error e)%string, called s)
  | None =>
      let s := called (connected (S (connections s)) s) in
      let close s := connected (pred (connections s)) s in
      match drop_database dbName s with
      | (Some e, s) =>
          (Fatal ("drop stale database " +:+ dbName +:+ ": " +:+ Error e)%string, close s)
      | (None, s) =>
          match create_database dbName s with
          | (Some e, s) =>
              (Fatal ("create database " +:+ dbName +:+ ": " +:+ Error e)%string, close s)
          | (None, s) => (Value tt, close s)
          end
      end
  end.

(** ** A test: its cleanups, the last registered first, and the pools open in the process,
    each by the name of its database *)
Inductive cleanup := Forget (dbName : string) | ClosePool (dbName : string).

Record suite := {
  su_pg : PG;
  su_server : server;
  su_pools : list string;
  su_cleanups : list cleanup;
}.

Definition with_server (s : server) (u : suite) : suite :=
  {| su_pg := su_pg u; su_server := s; su_pools := su_pools u; su_cleanups := su_cleanups u |}.

Definition set_created (c : gset string) (u : suite) : suite :=
  {| su_pg := {| baseDSN := baseDSN (su_pg u); created := c |}; su_server := su_server u;
     su_pools := su_pools u; su_cleanups := su_cleanups u |}.

Definition at_cleanup (c : cleanup) (u : suite) : suite :=
  {| su_pg := su_pg u; su_server := su_server u; su_pools := su_pools u;
     su_cleanups := c :: su_cleanups u |}.

Definition set_pools (ps : list string) (u : suite) : suite :=
  {| su_pg := su_pg u; su_server := su_server u; su_pools := ps; su_cleanups := su_cleanups u |}.

(** The end of [DSN]. *)
Definition dsn_of (dbName : string) (u : suite) : verdict string * suite :=
  match replaceDBName (baseDSN (su_pg u)) dbName with
  | Err e => (Fatal ("build dsn for " +:+ dbName +:+ ": " +:+ Error e)%string, u)
  | Ok dsn => (Value dsn, u)
  end.

Definition DSN (dbName : string) (u : suite) : verdict string * suite :=
  if bool_decide (dbName ∈ created (su_pg u)) then dsn_of dbName u
  else
    match recreate dbName (su_server u) with
    | (Value _, s) =>
        dsn_of dbName
          (at_cleanup (Forget dbName)
            (set_created ({[dbName]} ∪ created (su_pg u)) (with_server s u)))
    | (Skipped m, s) => (Skipped m, with_server s u)
    | (Fatal m, s) => (Fatal m, with_server s u)
    end.

(** [pg.Migrate] and [pg.Open] are those of [Wire]; [migrated] is what the migrations,
    all of them or the first ones, make of a database. *)
Definition Migrated (migrated : content -> content) (dbName : string) (u : suite) :
    verdict unit * suite :=
  match DSN dbName u with
  | (Value dsn, u) =>
      let u := with_server (with_databases (alter migrated dbName (databases (su_server u)))
                                           (su_server u)) u in
      match fst (Migrate b dsn) with
      | Err e => (Fatal ("migrate " +:+ dbName +:+ ": " +:+ Error e)%string, u)
      | Ok _ =>
          match fst (Open b dsn) with
          | Err e => (Fatal ("open " +:+ dbName +:+ ": " +:+ Error e)%string, u)
          | Ok _ => (Value tt, at_cleanup (ClosePool dbName) (set_pools (dbName :: su_pools u) u))
          end
      end
  | (Skipped m, u) => (Skipped m, u)
  | (Fatal m, u) => (Fatal m, u)
  end.

(** One cleanup of a test. *)
Definition clean (u : suite) : suite :=
  match su_cleanups u with
  | [] => u
  | c :: cs =>
      let u := {| su_pg := su_pg u; su_server := su_server u; su_pools := su_pools u;
                  su_cleanups := cs |} in
      match c with
      | Forget dbName => set_created (created (su_pg u) ∖ {[dbName]}) u
      | ClosePool dbName =>
          set_pools (match list_find (dbName =.) (su_pools u) with
                     | Some (i, _) => delete i (su_pools u)
                     | None => su_pools u
                     end) u
      end
  end.

(** ** A suite: the tests' calls, what they write, and their cleanups, one after the other *)
Inductive event :=
  | CallsDSN (dbName : string)
  | CallsMigrated (migrated : content -> content) (dbName : string)
  | Writes (dbName : string) (g : content -> content)
  | Cleans.

Definition happens (u : suite) (ev : event) : suite :=
  match ev with
  | CallsDSN dbName => snd (DSN dbName u)
  | CallsMigrated migrated dbName => snd (Migrated migrated dbName u)
  | Writes dbName g =>
      with_server (with_databases (alter g dbName (databases (su_server u))) (su_server u)) u
  | Cleans => clean u
  end.

Definition suite_start (dsn : string) (s : server) : suite :=
  {| su_pg := {| baseDSN := dsn; created := ∅ |}; su_server := s; su_pools := []; su_cleanups := [] |}.

(** ** Lemmas *)
Definition pool_of (c : cleanup) : option string := match c with ClosePool n => Some n | _ => None end.
Definition name_of (c : cleanup) : option string := match c with Forget n => Some n | _ => None end.

(** What a test has registered mirrors what it holds; a pool is closed before the name of
    its database is forgotten. *)
Record undoable (u : suite) : Prop := {
  und_pools : su_pools u = omap pool_of (su_cleanups u);
  und_names n : n ∈ created (su_pg u) <-> n ∈ omap name_of (su_cleanups u);
  und_once : NoDup (omap name_of (su_cleanups u));
  und_order pre n post : su_cleanups u = pre ++ Forget n :: post -> n ∉ omap pool_of post;
  und_within n : n ∈ omap pool_of (su_cleanups u) -> n ∈ omap name_of (su_cleanups u);
  und_exists n : n ∈ created (su_pg u) -> is_Some (databases (su_server u) !! n);
}.

(** A state that differs in the contents of databases. *)
Lemma undoable_server s u :
  (forall n, n ∈ created (su_pg u) -> is_Some (databases s !! n)) ->
  undoable u -> undoable (with_server s u).
Proof. intros Hs [H1 H2 H3 H4 H5 H6]. by split. Qed.

Lemma undoable_alter g dbName u :
  undoable u ->
  undoable (with_server (with_databases (alter g dbName (databases (su_server u))) (su_server u)) u).
Proof.
  intros Hu. apply undoable_server; [|done]. intros n Hn. simpl.
  destruct (und_exists u Hu n Hn) as [c Hc]. destruct (decide (n = dbName)) as [->|Hne].
  - rewrite lookup_alter_eq, Hc. by eexists.
  - rewrite lookup_alter_ne by done. by eexists.
Qed.

(** What recreating a database does. *)
Lemma recreate_outcome dbName s :
  let '(r, s') := recreate dbName s in
  connections s' = connections s /\
  (forall n, n <> dbName -> databases s' !! n = databases s !! n) /\
  match r with
  | Value _ => databases s' !! dbName = Some empty
  | Fatal _ => True
  | Skipped _ => False
  end.
Proof.
  unfold recreate. destruct (connect_fails f _); [done|]. unfold drop_database. simpl.
  destruct (drop_fails f _); [done|]. unfold create_database. simpl.
  rewrite lookup_delete_eq. destruct (create_fails f _); simpl.
  - split; [done|]. split; [|done]. intros n Hn. by rewrite lookup_delete_ne.
  - split; [done|]. split; [|by rewrite lookup_insert_eq].
    intros n Hn. by rewrite lookup_insert_ne, lookup_delete_ne.
Qed.

Lemma dsn_of_same dbName u : snd (dsn_of dbName u) = u.
Proof. unfold dsn_of. by destruct (replaceDBName _ _). Qed.

Lemma undoable_forget dbName u :
  undoable u -> dbName ∉ created (su_pg u) -> is_Some (databases (su_server u) !! dbName) ->
  undoable (at_cleanup (Forget dbName) (set_created ({[dbName]} ∪ created (su_pg u)) u)).
Proof.
  intros [H1 H2 H3 H4 H5 H6] Hn Hex. split; simpl.
  - done.
  - intros n. rewrite elem_of_cons, <- H2. set_solver.
  - apply NoDup_cons. split; [by rewrite <- H2|done].
  - intros [|c pre] n post; [|intros [= _ E]; by eapply H4]. intros [= <- <-] Hp. by apply Hn, H2, H5.
  - intros n Hp. apply elem_of_cons. right. by apply H5.
  - intros n [->%elem_of_singleton|Hc]%elem_of_union; [done|by apply H6].
Qed.

Lemma undoable_pool dbName u :
  undoable u -> dbName ∈ created (su_pg u) ->
  undoable (at_cleanup (ClosePool dbName) (set_pools (dbName :: su_pools u) u)).
Proof.
  intros [H1 H2 H3 H4 H5 H6] Hn. split; simpl; try done.
  - by rewrite H1.
  - intros [|c pre] n post; [done|]. intros [= _ E]. by eapply H4.
  - intros n [->|Hp]%elem_of_cons; [by apply H2|by apply H5].
Qed.

Lemma undoable_clean u : undoable u -> undoable (clean u).
Proof.
  intros Hu. unfold clean. destruct (su_cleanups u) as [|c cs] eqn:E; [done|].
  destruct Hu as [H1 H2 H3 H4 H5 H6]. rewrite E in *. destruct c as [n|n]; simpl in *.
  - apply NoDup_cons in H3 as [Hn H3]. pose proof (H4 [] n cs eq_refl) as Hp. split; simpl; try done.
    + intros n'. rewrite elem_of_difference, H2, elem_of_cons, elem_of_singleton.
      split; [intros [[Hh|Hh] Hne]; done|]. intros Hn'. split; [by right|]. by intros ->.
    + intros pre n' post Ep. apply (H4 (Forget n :: pre) n'). by rewrite Ep.
    + intros n' Hn'. pose proof (H5 n' Hn') as [->|?]%elem_of_cons; done.
    + intros n' Hn'. apply H6. set_solver.
  - split; simpl; try done.
    + rewrite H1. cbn [list_find]. rewrite decide_True by done. done.
    + intros pre n' post Ep. apply (H4 (ClosePool n :: pre) n'). by rewrite Ep.
    + intros n' Hn'. apply H5. by right.
Qed.

Lemma undoable_DSN dbName u : undoable u -> undoable (snd (DSN dbName u)).
Proof.
  intros Hu. unfold DSN. case_bool_decide as Hc; [by rewrite dsn_of_same|].
  pose proof (recreate_outcome dbName (su_server u)) as H.
  destruct (recreate dbName (su_server u)) as [r s]. destruct H as (_ & Ho & Hr).
  assert (undoable (with_server s u)) as Hs.
  { apply undoable_server; [|done]. intros n Hn. rewrite Ho by (intros ->; done).
    by apply (und_exists u Hu). }
  destruct r as [[]|m|m]; [|done..]. rewrite dsn_of_same.
  apply (undoable_forget dbName (with_server s u)); [done|done|]. simpl. rewrite Hr. by eexists.
Qed.

Lemma DSN_created dbName u dsn u' : DSN dbName u = (Value dsn, u') -> dbName ∈ created (su_pg u').
Proof.
  unfold DSN. case_bool_decide as Hc.
  - intros E. apply (f_equal snd) in E. rewrite dsn_of_same in E. by subst.
  - destruct (recreate dbName (su_server u)) as [[[]|m|m] s]; [|done..].
    intros E. apply (f_equal snd) in E. rewrite dsn_of_same in E. subst. simpl. set_solver.
Qed.

Lemma undoable_happens u ev : undoable u -> undoable (happens u ev).
Proof.
  intros Hu. destruct ev as [n|m n|n g|]; simpl; [by apply undoable_DSN| |by apply undoable_alter|by apply undoable_clean].
  unfold Migrated. pose proof (undoable_DSN n u Hu) as Hd.
  destruct (DSN n u) as [[dsn|x|x] u1] eqn:E; [|done..]. simpl in Hd.
  pose proof (undoable_alter m n u1 Hd) as Ha. destruct (fst (Migrate b dsn)); [|done].
  destruct (fst (Open b dsn)); [|done]. apply undoable_pool; [done|]. by apply DSN_created in E.
Qed.

Lemma undoable_start dsn s : undoable (suite_start dsn s).
Proof.
  split; simpl; try done.
  - intros n. split; [by intros ?%elem_of_empty|by intros ?%elem_of_nil].
  - constructor.
  - intros pre n post. by destruct pre.
Qed.

Lemma suite_undoable dsn s evs : undoable (foldl happens (suite_start dsn s) evs).
Proof.
  generalize (undoable_start dsn s). generalize (suite_start dsn s).
  induction evs as [|ev evs IH]; intros u Hu; [done|]. by apply IH, undoable_happens.
Qed.

(** ** Properties *)

(** C40: tests do not see each other's databases.  In any suite, whatever its tests call and
    write, and whatever fails of the server: an open pool is on a database that its test
    still holds, and that exists, so a name is given up only when no pool is open on it;
    when a test's cleanups have all run nothing is held and no pool is open.  And whenever a
    test asks for a database and gets it: if it had it already, nothing has changed;
    otherwise the database is empty, whatever a database of that name held before, and the
    others are as they were. *)
Theorem test_databases_start_empty (dsn : string) (s : server) (evs : list event) (dbName : string) :
  let u := foldl happens (suite_start dsn s) evs in
  (forall n, n ∈ su_pools u -> n ∈ created (su_pg u)) /\
  (forall n, n ∈ created (su_pg u) -> is_Some (databases (su_server u) !! n)) /\
  (su_cleanups u = [] -> created (su_pg u) = ∅ /\ su_pools u = []) /\
  let '(r, u') := DSN dbName u in
  match r with
  | Value d =>
      replaceDBName (baseDSN (su_pg u')) dbName = Ok d /\ dbName ∈ created (su_pg u') /\
      (dbName ∈ created (su_pg u) -> u' = u) /\
      (dbName ∉ created (su_pg u) -> databases (su_server u') !! dbName = Some empty) /\
      forall n, n <> dbName -> databases (su_server u') !! n = databases (su_server u) !! n
  | Fatal _ => su_pools u' = su_pools u
  | Skipped _ => False
  end.
Proof.
  intros u. pose proof (suite_undoable dsn s evs) as Hu. fold u in Hu.
  split; [intros n; rewrite (und_pools u Hu), (und_names u Hu); apply (und_within u Hu)|].
  split; [apply (und_exists u Hu)|]. split.
  { intros Hc. pose proof (und_pools u Hu) as Hp. pose proof (und_names u Hu) as Hn.
    rewrite Hc in Hp, Hn. split; [|done]. apply set_eq. intros n. rewrite (Hn n). simpl. set_solver. }
  destruct (DSN dbName u) as [r u'] eqn:E.
  pose proof (fun d => DSN_created dbName u d u') as Hcr. unfold DSN in E.
  case_bool_decide as Hc.
  - unfold dsn_of in E. destruct (replaceDBName _ _) as [d|x] eqn:Er; injection E as <- <-; done.
  - pose proof (recreate_outcome dbName (su_server u)) as H.
    destruct (recreate dbName (su_server u)) as [r1 s1]. destruct H as (_ & Ho & Hr).
    destruct r1 as [[]|m|m]; [|done|by injection E as <- <-]. unfold dsn_of in E. simpl in E.
    destruct (replaceDBName (baseDSN (su_pg u)) dbName) as [d|x] eqn:Er; injection E as <- <-; [|done].
    simpl. split; [done|]. split; [set_solver|]. done.
Qed.

(** A DSN for a database differs from the server's in its path alone. *)
Theorem replaceDBName_keeps (dsn dbName path : string) (rest : url_rest) :
  url_Parse dsn = Ok (path, rest) -> url_absolute rest ->
  exists dsn', replaceDBName dsn dbName = Ok dsn' /\
    url_Parse dsn' = Ok (("/" +:+ dbName)%string, rest).
Proof.
  intros Hp Ha. unfold replaceDBName. rewrite Hp. eexists. split; [reflexivity|].
  by apply url_roundtrip.
Qed.
End databases.

(** ** Witness *)
Module PlainURL.
(** URLs whose path begins at their first slash. *)
Fixpoint first_slash (s : string) : string * string :=
  match s with
  | EmptyString => (EmptyString, EmptyString)
  | String c t =>
      if bool_decide (c = "/"%char) then (s, EmptyString)
      else let '(path, rest) := first_slash t in (path, String c rest)
  end.

Fixpoint no_slash (s : string) : Prop :=
  match s with EmptyString => True | String c s => c <> "/"%char /\ no_slash s end.

Lemma first_slash_app rest path :
  no_slash rest -> first_slash (rest +:+ ("/" +:+ path))%string = (("/" +:+ path)%string, rest).
Proof.
  induction rest as [|c rest IH]; [done|]. intros [Hc Hr].
  change ((String c rest +:+ ("/" +:+ path))%string) with (String c (rest +:+ ("/" +:+ path))%string).
  cbn [first_slash]. by rewrite bool_decide_eq_false_2, (IH Hr) by done.
Qed.

#[export] Instance net_url : NetURL.
Proof.
  refine {| url_rest := string; url_Parse s := Ok (first_slash s);
            url_String u := (snd u +:+ fst u)%string; url_absolute := no_slash |}.
  intros path rest Hr. simpl. f_equal. by apply first_slash_app.
Defined.
End PlainURL.

Module Samples.
Import ListSerde Wire.Samples PlainURL.
Definition never : failures :=
  {| connect_fails := fun _ => None; drop_fails := fun _ => None; create_fails := fun _ => None |}.
Definition new_server : server (content := nat) :=
  {| databases := ∅; connections := 0; calls := 0 |}.

(** A test that writes to its migrated database and ends. *)
Definition one_test : list (event (content := nat)) :=
  [CallsMigrated (fun n => n) "orders"; Writes "orders" (fun _ => 7%nat); Cleans; Cleans].
Definition after_one_test : suite :=
  foldl (happens all_well 0%nat never) (suite_start "localhost:5432/postgres" new_server) one_test.
Lemma left_over : databases (su_server after_one_test) !! "orders" = Some 7%nat.
Proof. vm_compute. reflexivity. Qed.
End Samples.

Import ListSerde Wire.Samples PlainURL Samples.

Lemma test_databases_start_empty_witness :
  exists u', DSN 0%nat never "orders" after_one_test = (Value "localhost:5432/orders", u') /\
    databases (su_server u') !! "orders" = Some 0%nat /\ su_pools after_one_test = [].
Proof.
  assert (foldl (happens all_well 0%nat never) (suite_start "localhost:5432/postgres" new_server)
    one_test = after_one_test) as Hrun by reflexivity.
  pose proof (test_databases_start_empty all_well 0%nat never "localhost:5432/postgres" new_server
    one_test "orders") as H. cbv zeta in H. rewrite Hrun in H. clear Hrun.
  destruct H as (_ & _ & Hend & H).
  destruct Hend as [Hc Hp]; [vm_compute; reflexivity|].
  assert (fst (DSN 0%nat never "orders" after_one_test) = Value "localhost:5432/orders") as Hr
    by (vm_compute; reflexivity).
  destruct (DSN 0%nat never "orders" after_one_test) as [r u']. cbn [fst] in Hr. subst r.
  exists u'. split; [reflexivity|]. destruct H as (_ & _ & _ & Hempty & _). split; [|exact Hp].
  apply Hempty. rewrite Hc. apply not_elem_of_empty.
Defined.
